(* ===== verification/_CoqProject ===== *)
-Q . S2P
Prelude.v
Bytes.v
Text.v
Float64.v
Utf8.v
Core.v
Sha2.v
Framing.v
Wire.v
Rln.v
Enr.v
Net.v
Discv5.v
Dns.v
Relay.v
Store.v
Faults.v
StoreServe.v
Services.v
Ratelimit.v
Node.v
NodeFacts.v
Handle.v
Runs.v
Channels.v
Network.v
Delivery.v
Discovery.v
Hickory.v
Cache.v
Rest.v
Reports.v
Spawn.v
Settings.v
Wakunode.v
Tests.v
