(* ===== verification/Prelude.v ===== *)
(** * rs-waku: a verification library

    rs-waku is a node of the Waku v2 peer-to-peer messaging network, written in Rust as a
    workspace of crates under [src/crates].  This library translates the program into
    executable definitions and proves what makes it correct.

    ** The program

    A node relays messages over gossipsub, keeps them in a store, and serves four
    request/response protocols to light clients.  Its parts:

    - [waku-core]: the message, content topics, shards with the autosharding rule, the
      deterministic message hash (RFC 14) and the network presets.
    - [waku-enr]: the relay-shards field of a node record, in two encodings.
    - [waku-metadata], [waku-lightpush], [waku-peer-exchange], [waku-filter] and the wire
      half of [waku-store]: protobuf messages in length-prefixed frames.
    - [waku-relay]: the gossipsub message id, the configuration and message validation.
    - [waku-store]: the [MessageStore] trait, its SQLite backend and the query service.
    - [waku-node]: the driver task that owns the libp2p swarm and handles one command or
      one swarm event at a time, its filter registry, peer book, rate limiters and
      counters, the handle applications send commands with, and the discovery task.
    - [waku-discv5]: node records as dialable peers, the discv5 service, and the walk of
      the signed DNS trees that list bootstrap nodes.
    - [waku-rln]: rate-limiting nullifiers, which reveal the secret of a member who
      publishes too much.
    - [waku-rest]: the HTTP API, with a cache of relayed messages that clients poll.
    - [wakunode]: the binary, which reads its settings, starts the node, feeds the cache
      from the event stream and serves the API.
    - [waku-sds]: an empty crate.

    A relayed message goes gossipsub -> driver ([handle_event]) -> validation -> event to
    the application, put task for the store, pushes to the filter subscribers, verdict
    back to gossipsub; in the binary the event goes on to the cache, from which a poll of a
    REST client takes the message.  A request of a peer goes codec -> driver -> service -> codec; a
    request of the application goes handle -> command -> driver, parks its reply channel
    under the id of the request, and is answered by the event with that id.

    ** The files

    - [Prelude]: Rust's [Result], the monad [action] of stateful code that may fail or
      panic, machine integers, list lemmas, tactics and the hint database [waku].
    - [Bytes], [Text]: byte strings with the order SQLite gives blobs, and the string
      operations of the Rust library; rewrite database [text].
    - [Float64]: the [f64] numbers of the rate limiter, exact on integers below [2^53].
    - [Utf8]: [String::from_utf8_lossy].
    - [Core]: [waku-core].  Modules [ContentTopic], [ShardId], [NetworkPreset].
    - [Framing]: [read_uvarint], [write_uvarint], [read_lp] and [write_lp], which five
      crates carry in identical copies, as a section over their limit and error text.
    - [Wire]: one module per protocol crate, its messages, constructors and codec.
    - [Rln]: [waku-rln].
    - [Enr]: [waku-enr].
    - [Net]: libp2p addresses and the interfaces of the record, key and text libraries.
    - [Discv5], [Dns], [Hickory]: [waku-discv5] ([lib.rs], the resolver of [dns.rs] over any
      TXT resolver, and the live one of [dns.rs]).
    - [Relay]: [waku-relay] ([lib.rs], [validation.rs]).
    - [Store]: [waku-store/src/sqlite.rs] and the types of [lib.rs].  The table is a
      finite map from hashes to rows; SQL clauses are filters, sorts, prefixes; every
      statement may fail.
    - [Faults]: what a failing statement may do to an operation of the store.
    - [StoreServe]: the trait as the class [MessageStore], its contract as the class
      [MessageStoreLaws], the instance for SQLite, and the service of [store_query.rs].
    - [Services]: filter registry, peer book, counters, configuration.
    - [Ratelimit]: the token buckets.
    - [Node]: the driver.  The record [NodeState] holds the locals of [run] and what it
      shares; [handle_command], [handle_event] and the functions they call are actions
      on it; [run] folds a list of [Input]s, so an interleaving is a list.  Sent events,
      sent replies and spawned put tasks are lists in the state.
    - [NodeFacts]: the theorems on the driver, and a logging swarm to run it on.
    - [Handle]: the methods of [NodeHandle], with the wait for their answer.
      [World] is the node as its handles share it: the state, and whether the task runs.
    - [Runs]: what holds along every run of the driver: the accounts of the reply channels,
      the shared state as a function of the events sent, and panics.
    - [Channels]: the two bounded channels and the tasks at their ends, as the step relation
      [sys_step]: [main] while it starts and reads, the other handles, and the driver, which
      may have to wait in the middle of an event, at the send of what it reports ([at_send]).
    - [Network]: two nodes and the wire.  The record [Protocol] has what a request/response
      protocol consists of on both sides; [answer_remote] is an exchange, [page_remote] a
      client that pages through the store of another node.
    - [Delivery]: three nodes, and the way of a message through all of them.
    - [Discovery]: [NodeConfig], the start of discovery in [spawn], [discovery_loop] and
      [dial_discovered].
    - [Cache], [Rest]: [waku-rest].  Module [MessageCache] is the cache, module
      [RestWakuMessage] the message as JSON carries it; [router] runs the handler of a
      [Request] on an [AppState], which holds the [World] of the node.
    - [Reports]: what the REST server says of the node while the driver is anywhere in
      [Channels].
    - [Spawn]: [build_swarm] and [spawn], with the behaviours the protocol crates build.
    - [Settings]: [wakunode/src/config.rs] and the settings of [main.rs], over a file system
      whose calls may fail.
    - [Wakunode]: [main], its event loop, and the program as a whole: [activity] is one step
      of the driver, of a spawned put, of the discovery task, of [main] or of the REST
      server, so a list of [Activity] is an interleaving of the tasks.
    - [Tests]: the unit tests of the crates, translated and run on these definitions, with
      the SHA-256 of [Sha2].

    ** The theorems

    - Store ([Store], [StoreServe]): what a query returns for each page size: exactly the
      next page of the matching rows, but for [u64::MAX] (nothing) and, with overflow checks,
      [i64::MAX] (a panic); with the other page sizes ([page_size_ok]) following the cursors
      yields every matching message once and in order, also
      while messages are added; what is put is read back; a store reached by any
      operations under any faults is keyed by the hashes of its own messages; retention
      deletes exactly what it should; the service answers with stored messages only.
      A database error costs an operation its answer and nothing else ([Faults]), and a
      client that asks again after one, over the wire or over REST, misses no message.
      The service and the driver are proved against [MessageStoreLaws].
    - Encodings ([Framing], [Wire], [Enr], [Core]): round trips of varints, frames, every
      protocol message, both shard encodings, content topics and shard topics, with the
      exact set of accepted inputs where the code is strict.
    - Hash and relay ([Core], [Relay], [NodeFacts]): the gossipsub id is the RFC-14 hash;
      which fields it binds and which it does not; the validation table on every branch;
      the timestamp window; the full effect of a relayed message; an accepted message
      ends up in the store under the id it was reported with.
    - Driver ([NodeFacts], [Handle], [Runs]): every outbound request is answered exactly
      once, and its caller returns as soon as the answer is there or the node stops; along a
      run no caller is forgotten, answered twice or answered with the wrong type;
      publishing returns the hash; the answers of the light-push
      service; the accounting of connections per address.
    - Between nodes ([Network]): each of the four methods that ask another node returns what
      the service of that node computes, through both drivers and the codec; paging through a remote store
      under its rate limiter is complete; a filter subscription delivers each message
      accepted by the other node once; two nodes agree on whether their clusters match.
      A published message is fetched by its hash from any node that relayed and stored it
      ([Delivery]).
    - Channels ([Channels], [Reports]): everything a handler does that others see it does
      before it sends its event; a bounded execution is one of the unbounded driver on the
      commands of the channel, in order and none lost; the peers, addresses and counters of
      the REST server are what the events sent, and the one being sent, say; [main] gets
      through its start if the driver is not waiting, and unblocks it once it reads events.
    - Bookkeeping ([Services], [Ratelimit], [Discovery]): pushes go to exactly the peers
      with a matching filter; the peer book is bounded and first-in first-out; a peer's
      rate does not depend on the others, and its burst is the capacity of the limiter; each
      discovered peer is dialed once.
    - Discovery ([Discv5], [Dns], [Hickory], [Discovery], [Handle]): what [resolve] returns is
      signed by the key of its URL and complete within the record cap, with a bounded number
      of lookups; the live resolver returns the UTF-8 texts of a zone however they are cut
      into character strings; a node announces exactly where it is reached; found peers are
      in its cluster; peer exchange hands over the records of the book unchanged.
    - REST ([Cache], [Rest]): the bounded cache is equivalent to one that keeps everything
      unread; the answers to a published message on every branch, and light push as a case of
      it; a client that follows the
      cursors receives every matching message; a subscription registers a prefix of its
      topics, all of them when it succeeds.
    - The binary ([Spawn], [Settings], [Wakunode]): a configuration is well typed; flags over
      a file say what one file could say; an identity persists; a configured program comes
      up subscribed and dialing on a quiet network, and what it says of itself is consistent;
      in every interleaving of its tasks a poll returns relayed messages only; a relayed
      message reaches the client that polls, and the client that queries the store.
    - Rate limits by nullifiers ([Rln]): the log decides by its whole history, and two
      messages in one slot are caught and cost their sender the secret.
    - Defects: some theorems state behaviour the code does not mean to have: a refused
      connection frees a slot of the address limit, a peer with an open connection is
      forgotten when another one closes, page sizes and capacities beyond [i64] wrap,
      malformed hashes and lost cursors widen a query, the timestamp tolerance is a
      second longer than documented, oversized varints lose their high bits, a peer that
      keeps connecting while the node starts can stop it for ever, and with overflow checks
      one store query stops the driver.

    ** Conventions and bounds

    An integer is a [Z], its type a range hypothesis ([in_u64], ...) where it matters;
    casts and overflow are written out.  The class [BuildProfile] says whether overflow
    panics (debug) or wraps (release); theorems hold for both unless they say otherwise.
    A panic is [None]: of arithmetic, of a slice out of range ([slice_to]), of a database cell
    read with [get] ([get_i64]).  A poisoned lock is not modelled, nor are cells of another
    type than their column declares, which this program never writes.  Four functions recurse on fuel, and each is proved to get enough:
    [write_uvarint_loop] gets eleven turns, one more than its ten-byte buffer; [show_uint]
    gets as many digits as its number has bits; [fetch_all] and [rest_fetch], the paging
    clients of the theorems, get one turn more than the table has rows, and [rest_fetch] one
    more for each database error to come.  The client [page_remote] makes the attempts it is given, and is proved to be done when enough of
    them are admitted.  The tree walk of [Dns] recurses on its own budget of 5000 records
    and, within it, on its stack.  All other functions are structural.

    ** Parameters

    Code outside the repository is a parameter: SHA-256 (class [Sha256], digest length),
    protobuf (class [Prost], decoding inverts encoding), the libp2p swarm (class [Swarm],
    the calls the driver makes, on an abstract state), node records and
    their builder (classes [EnrOps], [EnrBuild]), base32 and base64 (class [TextEncoding]),
    the constructors of libp2p (class [SwarmBuild]), the text of addresses (class
    [MultiaddrText]), what [waku-rest] prints by libraries (class [RestText]), hexadecimal
    and base64 (class [RestEncodings]), the TOML parser,
    the discv5 service (class [Discv5Service]), Keccak, ECDSA and the Unicode case table
    (class [DnsCrypto]), zerokit (class [Zerokit]) and the gossipsub configuration builder.
    What is assumed of them is in classes of its own ([EnrTextLaws], [EnrBuildLaws],
    [Discv5Laws], [ZerokitLaws], [SwarmBuildLaws], [MultiaddrTextLaws], [HexLaws],
    [UniqueRequestIds]).  Clocks,
    DNS answers, the text of a codec error, discovery rounds, generated keys, signals, and
    the faults of the database and of the file system are inputs.  The witnesses
    instantiate all of them.

    ** Not modelled

    [waku_rest::serve] only binds a listener; the getters of [NodeHandle] return a field;
    [clap], [axum] and [serde] turn the command line, requests and JSON into the values the
    definitions start from; file permissions; [tracing] output has no effect on the state.
    Outside [Channels] and [Reports] the command and event channels (64 and 256 places) are
    taken to have room, and an input of the driver is handled as a whole.  Of the unit tests, those that are ignored, that test the TOML parser, or that
    depend on libraries' output (the check of the gossipsub configuration, the length of a
    base32 digest) are not in [Tests].  [waku-sds] is empty. *)

From Stdlib Require Import Strings.Byte Strings.Ascii.
From stdpp Require Import base gmap strings list sorting numbers countable.

#[export] Set Default Goal Selector "!".

Open Scope Z_scope.

(** ** Results

    Rust's [Result<T, E>].  The constructor names are the source's. *)

Inductive result (E A : Type) : Type :=
  | Ok (a : A)
  | Err (e : E).
Arguments Ok {_ _} _.
Arguments Err {_ _} _.

#[export] Instance result_ret E : MRet (result E) := fun _ a => Ok a.
#[export] Instance result_bind E : MBind (result E) := fun _ _ f r =>
  match r with Ok a => f a | Err e => Err e end.
#[export] Instance result_fmap E : FMap (result E) := fun _ _ f r =>
  match r with Ok a => Ok (f a) | Err e => Err e end.

#[export] Instance result_eq_dec `{EqDecision E, EqDecision A} :
  EqDecision (result E A).
Proof. solve_decision. Defined.

(** [Result::ok]. *)
Definition ok {E A} (r : result E A) : option A :=
  match r with Ok a => Some a | Err _ => None end.

(** [Option::ok_or_else]. *)
Definition ok_or {E A} (e : E) (o : option A) : result E A :=
  match o with Some a => Ok a | None => Err e end.

(** [Result::map_err]. *)
Definition map_err {E F A} (f : E -> F) (r : result E A) : result F A :=
  match r with Ok a => Ok a | Err e => Err (f e) end.

Definition is_ok {E A} (r : result E A) : bool :=
  match r with Ok _ => true | Err _ => false end.

Lemma bind_Ok {E A B} (r : result E A) (f : A -> result E B) b :
  r ≫= f = Ok b <-> exists a, r = Ok a /\ f a = Ok b.
Proof. destruct r as [x|e]; cbn; split; [eauto|by intros (?&[= ->]&?)|done|by intros (?&?&?)]. Qed.

Lemma bind_Err {E A B} (r : result E A) (f : A -> result E B) e :
  r ≫= f = Err e <-> r = Err e \/ exists a, r = Ok a /\ f a = Err e.
Proof. destruct r as [x|x]; cbn; [naive_solver|]. split; [by intros [= ->]; left|]. by intros [[= ->]|(?&?&?)]. Qed.

Lemma ok_or_Ok {E A} (e : E) (o : option A) a :
  ok_or e o = Ok a <-> o = Some a.
Proof. destruct o; cbn; naive_solver. Qed.

(** ** Stateful code

    An operation on a state of type [St] that may fail with an [E] and keeps the
    state it reached when it failed; [None] is a panic. *)

Definition action (St E A : Type) : Type := St -> option (result E A * St).

#[export] Instance action_ret St E : MRet (action St E) := fun _ a s => Some (Ok a, s).
#[export] Instance action_bind St E : MBind (action St E) := fun _ _ f m s =>
  match m s with
  | Some (Ok a, s) => f a s
  | Some (Err e, s) => Some (Err e, s)
  | None => None
  end.

(** A result, and a computation that may panic, as operations. *)
Definition lift_result {St E A} (r : result E A) : action St E A := fun s => Some (r, s).
Definition lift_panic {St E A} (o : option A) : action St E A := fun s => a ← o; Some (Ok a, s).

(** Reading and updating the state. *)
Definition gets {St E A} (f : St -> A) : action St E A := fun s => Some (Ok (f s), s).
Definition modify {St E} (f : St -> St) : action St E () := fun s => Some (Ok tt, f s).
Definition state_of {St E A} (f : St -> A * St) : action St E A :=
  fun s => let '(a, s) := f s in Some (Ok a, s).

(** ** Machine integers

    An integer of the program is a [Z]; the predicates below are its type.  The
    wrap-around of a narrowing cast or of an overflowing operation is written
    out with [wrap_unsigned] and [wrap_signed]. *)

Definition in_u (w z : Z) : Prop := 0 <= z < 2 ^ w.
Definition in_i (w z : Z) : Prop := - 2 ^ (w - 1) <= z < 2 ^ (w - 1).

Abbreviation in_u8 := (in_u 8).
Abbreviation in_u16 := (in_u 16).
Abbreviation in_u32 := (in_u 32).
Abbreviation in_u64 := (in_u 64).
Abbreviation in_i64 := (in_i 64).

#[export] Instance in_u_dec w z : Decision (in_u w z).
Proof. unfold in_u; apply _. Defined.
#[export] Instance in_i_dec w z : Decision (in_i w z).
Proof. unfold in_i; apply _. Defined.

(** The value of [z as uN] and of [z as iN]. *)
Definition wrap_unsigned (w z : Z) : Z := z mod 2 ^ w.
Definition wrap_signed (w z : Z) : Z :=
  (z + 2 ^ (w - 1)) mod 2 ^ w - 2 ^ (w - 1).

Abbreviation as_u8 := (wrap_unsigned 8).
Abbreviation as_u16 := (wrap_unsigned 16).
Abbreviation as_u32 := (wrap_unsigned 32).
Abbreviation as_u64 := (wrap_unsigned 64).
Abbreviation as_i64 := (wrap_signed 64).

Lemma pow2_pos w : 0 <= w -> 0 < 2 ^ w.
Proof. intros; apply Z.pow_pos_nonneg; lia. Qed.

Lemma wrap_unsigned_small w z : in_u w z -> wrap_unsigned w z = z.
Proof. unfold in_u, wrap_unsigned; intros; by apply Z.mod_small. Qed.

Lemma wrap_unsigned_range w z : 0 <= w -> in_u w (wrap_unsigned w z).
Proof.
  intros Hw; unfold in_u, wrap_unsigned.
  pose proof (Z.mod_pos_bound z (2 ^ w) (pow2_pos w Hw)); lia.
Qed.

Lemma pow2_half w : 0 < w -> 2 ^ w = 2 * 2 ^ (w - 1).
Proof.
  intros; replace w with (Z.succ (w - 1)) at 1 by lia.
  rewrite Z.pow_succ_r by lia; lia.
Qed.

Lemma wrap_signed_small w z : 0 < w -> in_i w z -> wrap_signed w z = z.
Proof.
  unfold in_i, wrap_signed; intros Hw Hz.
  rewrite Z.mod_small; [lia|]. rewrite (pow2_half w Hw). lia.
Qed.

Lemma wrap_signed_range w z : 0 < w -> in_i w (wrap_signed w z).
Proof.
  intros Hw; unfold in_i, wrap_signed.
  pose proof (Z.mod_pos_bound (z + 2 ^ (w - 1)) (2 ^ w) (pow2_pos w ltac:(lia))).
  pose proof (pow2_half w Hw). lia.
Qed.

(** [debug_assertions] of the build: with it an overflowing operation panics
    ([None]); without it (the release profile of the workspace, which does not
    set [overflow-checks]) the operation wraps. *)
Class BuildProfile := overflow_checks : bool.

Definition i64_op `{BuildProfile} (z : Z) : option Z :=
  if decide (in_i64 z) then Some z
  else if overflow_checks then None else Some (as_i64 z).

Lemma i64_op_in_range `{BuildProfile} z : in_i64 z -> i64_op z = Some z.
Proof. intros Hz; unfold i64_op. by rewrite decide_True. Qed.

Lemma i64_op_release z : @i64_op false z = Some (as_i64 z).
Proof.
  unfold i64_op; case_decide as Hz; [|done].
  by rewrite wrap_signed_small.
Qed.

(** ** Lists *)

(** [&l[..n]], which panics out of range. *)
Definition slice_to {A} (n : nat) (l : list A) : option (list A) :=
  if decide (n <= length l)%nat then Some (take n l) else None.

Lemma slice_to_min {A} (n : nat) (l : list A) :
  slice_to (Nat.min (length l) n) l = Some (take n l).
Proof.
  unfold slice_to. rewrite decide_True by lia. f_equal.
  destruct (decide (n <= length l)%nat); [by rewrite Nat.min_r|].
  by rewrite Nat.min_l, !take_ge by lia.
Qed.

Lemma StronglySorted_filter {A} (R : relation A) (P : A -> Prop) `{!forall x, Decision (P x)} (l : list A) :
  StronglySorted R l -> StronglySorted R (filter P l).
Proof.
  induction 1 as [|x l Hl IH Hx]; [constructor|].
  rewrite filter_cons. case_decide; [|done]. constructor; [done|].
  apply list.Forall_forall. intros y [_ Hy]%list_elem_of_filter.
  by apply (proj1 (list.Forall_forall _ _) Hx).
Qed.

Lemma StronglySorted_weaken {A} (R S : relation A) l :
  (forall x y, R x y -> S x y) -> StronglySorted R l -> StronglySorted S l.
Proof.
  intros HRS. induction 1 as [|x l Hl IH Hx]; constructor; [done|].
  rewrite list.Forall_forall in *. auto.
Qed.

Lemma StronglySorted_seq a n : StronglySorted lt (seq a n).
Proof.
  revert a; induction n as [|n IH]; intros a; [constructor|]. cbn. constructor; [apply IH|].
  apply list.Forall_forall. intros y Hy%elem_of_seq. lia.
Qed.

Lemma filter_all {A} (P : A -> Prop) `{!forall x, Decision (P x)} (l : list A) :
  (forall x, x ∈ l -> P x) -> filter P l = l.
Proof.
  induction l as [|x l IH]; intros Hl; [done|].
  rewrite filter_cons, decide_True by (apply Hl; left).
  f_equal. apply IH. intros y Hy. apply Hl. by right.
Qed.

Lemma filter_none {A} (P : A -> Prop) `{!forall x, Decision (P x)} (l : list A) :
  (forall x, x ∈ l -> ~ P x) -> filter P l = [].
Proof.
  induction l as [|x l IH]; intros Hl; [done|].
  rewrite filter_cons, decide_False by (apply Hl; left).
  apply IH. intros y Hy. apply Hl. by right.
Qed.

Lemma filter_ext {A} (P Q : A -> Prop) `{!forall x, Decision (P x), !forall x, Decision (Q x)}
    (l : list A) :
  (forall x, x ∈ l -> P x <-> Q x) -> filter P l = filter Q l.
Proof.
  induction l as [|x l IH]; intros Hl; [done|]. rewrite !filter_cons, IH.
  - specialize (Hl x ltac:(left)). repeat case_decide; tauto.
  - intros y Hy. apply Hl. by right.
Qed.

Lemma last_snoc_inv {A} (l : list A) (x : A) : list.last l = Some x <-> exists l', l = l' ++ [x].
Proof.
  split.
  - induction l as [|y l _] using rev_ind; [done|]. rewrite last_snoc. intros [= ->]. eauto.
  - intros [l' ->]. apply last_snoc.
Qed.

(** A traversal that meets no error. *)
Lemma mapM_Ok {E A B} (f : A -> result E B) (g : A -> B) (l : list A) :
  (forall x, x ∈ l -> f x = Ok (g x)) -> mapM f l = Ok (g <$> l).
Proof.
  induction l as [|x l IH]; intros H; [done|]. cbn.
  rewrite (H x) by left. cbn. rewrite IH; [done|]. intros y Hy. apply H. by right.
Qed.

(** ** Tactics and hints

    [split_Forall] takes a [Forall] over a literal list apart, everywhere. *)

Ltac split_Forall := rewrite ?list.Forall_cons, ?list.Forall_nil in *.

(** Turn the boolean tests of the code into propositions. *)
Ltac bool_facts :=
  repeat match goal with
  | H : bool_decide _ = true |- _ => apply bool_decide_eq_true_1 in H
  | H : bool_decide _ = false |- _ => apply bool_decide_eq_false_1 in H
  | H : _ && _ = true |- _ => apply andb_true_iff in H as [? ?]
  | H : _ || _ = false |- _ => apply orb_false_iff in H as [? ?]
  | H : negb _ = true |- _ => apply negb_true_iff in H
  | H : negb _ = false |- _ => apply negb_false_iff in H
  end.

Create HintDb waku.
#[export] Hint Resolve wrap_unsigned_small wrap_signed_small i64_op_in_range : waku.
