(* ===== verification/Bytes.v ===== *)
(** * Bytes: [u8] sequences, big-endian integers and their order

    [Vec<u8>], [&[u8]] and fixed arrays are [list byte] over the kernel's
    256-constructor type, so a byte is in range by typing.  The file holds the
    conversions the program uses ([to_be_bytes], [from_be_bytes], [as u8]), the
    hexadecimal printer and parser, and the [memcmp] order SQLite gives BLOBs. *)

From Stdlib Require Import Strings.Byte Strings.Ascii.
From stdpp Require Import base gmap strings list sorting numbers countable.
From S2P Require Import Prelude.

Open Scope Z_scope.

Abbreviation byte := Byte.byte.
Abbreviation bytes := (list Byte.byte).

#[export] Instance byte_eq_dec : EqDecision byte := Byte.byte_eq_dec.

#[export] Instance byte_countable : Countable byte :=
  inj_countable Byte.to_N Byte.of_N Byte.of_to_N.

(** The numeric value of a byte, and [z as u8]. *)
Definition u8 (b : byte) : Z := Z.of_N (Byte.to_N b).
Definition byte_of (z : Z) : byte :=
  default x00 (Byte.of_N (Z.to_N (as_u8 z))).

Lemma u8_range b : 0 <= u8 b < 256.
Proof. unfold u8. pose proof (Byte.to_N_bounded b). lia. Qed.

Lemma u8_byte_of z : u8 (byte_of z) = z mod 256.
Proof.
  unfold u8, byte_of, wrap_unsigned. change (2 ^ 8) with 256.
  pose proof (Z.mod_pos_bound z 256 ltac:(lia)).
  destruct (Byte.of_N _) as [b|] eqn:E; cbn.
  - apply Byte.to_of_N in E. rewrite E, Z2N.id; lia.
  - apply Byte.of_N_None_iff in E. lia.
Qed.

Lemma byte_of_u8 b : byte_of (u8 b) = b.
Proof.
  unfold u8, byte_of, wrap_unsigned. change (2 ^ 8) with 256.
  pose proof (Byte.to_N_bounded b).
  rewrite Z.mod_small by lia. by rewrite N2Z.id, Byte.of_to_N.
Qed.

Lemma u8_inj a b : u8 a = u8 b -> a = b.
Proof. intros E. by rewrite <- (byte_of_u8 a), E, byte_of_u8. Qed.

Lemma byte_of_mod z z' : z mod 256 = z' mod 256 -> byte_of z = byte_of z'.
Proof. intros E. apply u8_inj. by rewrite !u8_byte_of. Qed.

(** ** Big-endian integers *)

(** [uN::to_be_bytes] / [iN::to_be_bytes] for a [w]-byte integer. *)
Fixpoint to_be_bytes (w : nat) (z : Z) : bytes :=
  match w with
  | O => []
  | S w => to_be_bytes w (z / 256) ++ [byte_of z]
  end.

(** [uN::from_be_bytes]. *)
Definition from_be_bytes (l : bytes) : Z :=
  fold_left (fun acc b => acc * 256 + u8 b) l 0.

Lemma length_to_be_bytes w z : length (to_be_bytes w z) = w.
Proof.
  revert z; induction w as [|w IH]; intros z; cbn; [done|].
  rewrite length_app, IH; cbn; lia.
Qed.

Lemma from_be_bytes_snoc l b :
  from_be_bytes (l ++ [b]) = from_be_bytes l * 256 + u8 b.
Proof. unfold from_be_bytes. by rewrite fold_left_app. Qed.

Lemma from_be_bytes_range l :
  0 <= from_be_bytes l < 256 ^ Z.of_nat (length l).
Proof.
  induction l as [|b l IH] using rev_ind; cbn; [lia|].
  rewrite from_be_bytes_snoc, length_app; cbn.
  replace (Z.of_nat (length l + 1)) with (Z.succ (Z.of_nat (length l))) by lia.
  rewrite Z.pow_succ_r by lia. pose proof (u8_range b). lia.
Qed.

Lemma from_to_be_bytes w z :
  from_be_bytes (to_be_bytes w z) = z mod 256 ^ Z.of_nat w.
Proof.
  revert z; induction w as [|w IH]; intros z.
  - cbn. by rewrite Z.mod_1_r.
  - cbn [to_be_bytes]. rewrite from_be_bytes_snoc, IH, u8_byte_of.
    replace (Z.of_nat (S w)) with (Z.succ (Z.of_nat w)) by lia.
    rewrite Z.pow_succ_r, Z.rem_mul_r by lia. lia.
Qed.

Lemma to_from_be_bytes l : to_be_bytes (length l) (from_be_bytes l) = l.
Proof.
  induction l as [|b l IH] using rev_ind; [done|].
  rewrite from_be_bytes_snoc, length_app; cbn [length].
  replace (length l + 1)%nat with (S (length l)) by lia; cbn [to_be_bytes].
  pose proof (u8_range b).
  rewrite Z.div_add_l, Z.div_small, Z.add_0_r, IH by lia.
  f_equal; f_equal. rewrite <- (byte_of_u8 b) at 2. apply byte_of_mod.
  by rewrite Z.add_comm, Z.mod_add.
Qed.

Lemma from_be_bytes_inj l l' :
  length l = length l' -> from_be_bytes l = from_be_bytes l' -> l = l'.
Proof.
  intros Hl E. by rewrite <- (to_from_be_bytes l), Hl, E, to_from_be_bytes.
Qed.

Arguments to_be_bytes : simpl never.
Arguments from_be_bytes : simpl never.

(** The [u16] used by shard indices. *)
Lemma u16_be_roundtrip z : in_u16 z -> from_be_bytes (to_be_bytes 2 z) = z.
Proof.
  unfold in_u. intros. rewrite from_to_be_bytes.
  change (256 ^ Z.of_nat 2) with (2 ^ 16). by apply Z.mod_small.
Qed.

Lemma u16_of_two a b : in_u16 (from_be_bytes [a; b]).
Proof. apply (from_be_bytes_range [a; b]). Qed.

(** ** Hexadecimal

    [write!(s, "{b:02x}")] and [hex::encode] print two lower-case digits per
    byte, most significant first. *)

Definition hex_digit (d : Z) : ascii :=
  Ascii.ascii_of_nat (Z.to_nat (if bool_decide (d < 10) then 48 + d else 87 + d)).

Definition hex_byte (b : byte) : string :=
  String (hex_digit (u8 b / 16)) (String (hex_digit (u8 b mod 16)) "").

Fixpoint hex_of_bytes (l : bytes) : string :=
  match l with
  | [] => ""
  | b :: l => hex_byte b +:+ hex_of_bytes l
  end.

Lemma length_hex_of_bytes l :
  String.length (hex_of_bytes l) = (2 * length l)%nat.
Proof.
  induction l as [|b l IH]; [done|].
  change (String.length (hex_of_bytes (b :: l)))
    with (S (S (String.length (hex_of_bytes l)))).
  rewrite IH; cbn; lia.
Qed.

(** The value of a hexadecimal digit, the inverse of [hex_digit]. *)
Definition hex_value (c : ascii) : Z :=
  let n := Z.of_nat (Ascii.nat_of_ascii c) in
  if bool_decide (n < 58) then n - 48 else n - 87.

Lemma hex_byte_value b :
  hex_byte b = String (hex_digit (u8 b / 16)) (String (hex_digit (u8 b mod 16)) "") /\
  byte_of (hex_value (hex_digit (u8 b / 16)) * 16 +
           hex_value (hex_digit (u8 b mod 16))) = b.
Proof. split; [done|]. by destruct b. Qed.

Lemma hex_of_bytes_inj l k : hex_of_bytes l = hex_of_bytes k -> l = k.
Proof.
  revert k; induction l as [|a l IH]; intros [|b k] E; try done.
  cbn in E. destruct (hex_byte_value a) as [_ Ha], (hex_byte_value b) as [_ Hb].
  injection E as E1 E2 E3. f_equal; [|by apply IH].
  by rewrite <- Ha, <- Hb, E1, E2.
Qed.

(** ** The BLOB order

    SQLite compares BLOBs with [memcmp], the shorter one first on a tie. *)

Fixpoint bytes_le (l k : bytes) : Prop :=
  match l, k with
  | [], _ => True
  | _ :: _, [] => False
  | a :: l, b :: k => u8 a < u8 b \/ (u8 a = u8 b /\ bytes_le l k)
  end.

#[export] Instance bytes_le_dec : RelDecision bytes_le.
Proof.
  refine (fix go (l k : bytes) : Decision (bytes_le l k) :=
    match l, k with
    | [], _ => left I
    | _ :: _, [] => right (fun H => H)
    | a :: l, b :: k =>
        match decide (u8 a < u8 b) with
        | left H => left (or_introl H)
        | right H =>
            match decide (u8 a = u8 b) with
            | right H' => right _
            | left H' =>
                match go l k with
                | left H'' => left (or_intror (conj H' H''))
                | right H'' => right _
                end
            end
        end
    end); cbn; tauto.
Defined.

#[export] Instance bytes_le_total : Total bytes_le.
Proof.
  intros l; induction l as [|a l IH]; intros [|b k]; cbn; auto.
  destruct (Z.lt_total (u8 a) (u8 b)) as [?|[?|?]]; auto.
  destruct (IH k); auto.
Qed.

#[export] Instance bytes_le_trans : Transitive bytes_le.
Proof.
  intros l; induction l as [|a l IH]; intros [|b k] [|c m]; cbn; try tauto.
  intros [?|[? ?]] [?|[? ?]]; [left; lia..|]. right; split; [lia|eauto].
Qed.

#[export] Instance bytes_le_antisymm : AntiSymm (=) bytes_le.
Proof.
  intros l; induction l as [|a l IH]; intros [|b k]; cbn; try tauto.
  intros [?|[? ?]] [?|[? ?]]; try lia. f_equal; [by apply u8_inj|auto].
Qed.

Lemma bytes_le_refl l : bytes_le l l.
Proof. destruct (total bytes_le l l); auto. Qed.
