(* ===== verification/Text.v ===== *)
(** * Text: the string operations of the Rust standard library

    [String] and [&str] are [string], read as the sequence of their UTF-8 bytes:
    every character the program matches on (['/'], [','], digits) is ASCII, and
    UTF-8 never uses an ASCII byte inside a longer character, so splitting by
    byte and splitting by [char] agree.  Modelled: [as_bytes], [strip_prefix],
    [split], [split_once], [find], [trim], [split_whitespace], [Display] of an unsigned
    integer and [str::parse::<uN>()]. *)

From Stdlib Require Import Strings.Byte Strings.Ascii.
From stdpp Require Import base gmap strings list numbers.
From S2P Require Import Prelude Bytes.

Open Scope Z_scope.

(** [str::as_bytes]. *)
Definition as_bytes (s : string) : bytes := String.list_byte_of_string s.
Arguments as_bytes : simpl never.

Lemma append_nil_l s : "" +:+ s = s.
Proof. done. Qed.
Lemma append_cons c s t : String c s +:+ t = String c (s +:+ t).
Proof. done. Qed.
Lemma append_nil_r s : s +:+ "" = s.
Proof. induction s as [|c s IH]; [done|]. by rewrite append_cons, IH. Qed.
Lemma append_assoc s t u : (s +:+ t) +:+ u = s +:+ (t +:+ u).
Proof. induction s as [|c s IH]; [done|]. by rewrite !append_cons, IH. Qed.
Create Rewrite HintDb text.
#[export] Hint Rewrite append_nil_l append_cons append_nil_r append_assoc : text.

Lemma as_bytes_cons c s : as_bytes (String c s) = byte_of_ascii c :: as_bytes s.
Proof. done. Qed.

Lemma as_bytes_app s t : as_bytes (s +:+ t) = as_bytes s ++ as_bytes t.
Proof.
  induction s as [|c s IH]; [done|].
  by rewrite append_cons, !as_bytes_cons, IH.
Qed.

Lemma as_bytes_inj s t : as_bytes s = as_bytes t -> s = t.
Proof.
  intros E. unfold as_bytes in E.
  by rewrite <- (String.string_of_list_byte_of_string s), E,
    String.string_of_list_byte_of_string.
Qed.

(** [str::strip_prefix] with a string pattern. *)
Fixpoint strip_prefix (p s : string) : option string :=
  match p, s with
  | EmptyString, _ => Some s
  | String a p, String b s => if decide (a = b) then strip_prefix p s else None
  | String _ _, EmptyString => None
  end.

Lemma strip_prefix_Some p s r : strip_prefix p s = Some r <-> s = p +:+ r.
Proof.
  revert s; induction p as [|a p IH]; intros s; cbn.
  - rewrite append_nil_l. naive_solver.
  - rewrite append_cons. destruct s as [|b s]; [done|].
    case_decide as E; [subst; rewrite IH; split; [by intros ->|by intros [= ->]]|].
    split; [done|]. by intros [= ? ?].
Qed.

Lemma strip_prefix_append p r : strip_prefix p (p +:+ r) = Some r.
Proof. by apply strip_prefix_Some. Qed.

(** Does the character occur in the string? *)
Fixpoint has_char (c : ascii) (s : string) : bool :=
  match s with
  | EmptyString => false
  | String a s => bool_decide (a = c) || has_char c s
  end.

Lemma has_char_app c s t : has_char c (s +:+ t) = has_char c s || has_char c t.
Proof.
  induction s as [|a s IH]; [done|]. rewrite append_cons; cbn.
  by rewrite IH, orb_assoc.
Qed.

(** [str::split(c)]: the pieces between separators, at least one. *)
Fixpoint split_on (c : ascii) (s : string) : list string :=
  match s with
  | EmptyString => [""]
  | String a s =>
      if decide (a = c) then "" :: split_on c s
      else match split_on c s with
           | p :: ps => String a p :: ps
           | [] => [String a ""]
           end
  end.

(** The inverse: the pieces with the separator between them. *)
Fixpoint join_with (c : ascii) (ps : list string) : string :=
  match ps with
  | [] => ""
  | [p] => p
  | p :: ps => p +:+ String c (join_with c ps)
  end.

Lemma split_on_nonempty c s : split_on c s <> [].
Proof. destruct s as [|a s]; cbn; [done|]. repeat case_match; done. Qed.

Lemma split_on_pieces c s : Forall (fun p => has_char c p = false) (split_on c s).
Proof.
  induction s as [|a s IH]; cbn; [by repeat constructor|].
  case_decide as E; [by constructor|].
  destruct (split_on c s) as [|p ps].
  - constructor; cbn; [by rewrite bool_decide_false|done].
  - apply list.Forall_cons in IH as [Hp Hps].
    constructor; cbn; [by rewrite bool_decide_false|done].
Qed.

Lemma join_split_on c s : join_with c (split_on c s) = s.
Proof.
  induction s as [|a s IH]; cbn; [done|].
  destruct (split_on c s) as [|p ps] eqn:E; [by destruct (split_on_nonempty c s)|].
  case_decide as Ea.
  - subst a. cbn in *. by rewrite IH.
  - rewrite <- IH. by destruct ps.
Qed.

Lemma split_on_fresh c p : has_char c p = false -> split_on c p = [p].
Proof.
  induction p as [|a p IH]; cbn; [done|].
  intros [Ha Hp]%orb_false_elim. apply bool_decide_eq_false_1 in Ha.
  by rewrite decide_False, IH.
Qed.

Lemma split_on_app c p s :
  has_char c p = false -> split_on c (p +:+ String c s) = p :: split_on c s.
Proof.
  induction p as [|a p IH]; intros Hp.
  - rewrite append_nil_l; cbn. by rewrite decide_True.
  - cbn in Hp. apply orb_false_elim in Hp as [Ha Hp].
    apply bool_decide_eq_false_1 in Ha. rewrite append_cons; cbn.
    by rewrite decide_False, IH.
Qed.

Lemma split_join_with c ps :
  ps <> [] -> Forall (fun p => has_char c p = false) ps ->
  split_on c (join_with c ps) = ps.
Proof.
  intros Hne H; induction H as [|p ps Hp Hps IH]; [done|].
  destruct ps as [|q ps].
  - by apply split_on_fresh.
  - cbn [join_with]. rewrite split_on_app by done. f_equal. by apply IH.
Qed.

(** [str::split_once(c)]: before and after the first separator. *)
Fixpoint split_once (c : ascii) (s : string) : option (string * string) :=
  match s with
  | EmptyString => None
  | String a s =>
      if decide (a = c) then Some ("", s)
      else match split_once c s with
           | Some (p, r) => Some (String a p, r)
           | None => None
           end
  end.

Lemma split_once_Some c s p r :
  split_once c s = Some (p, r) <-> s = p +:+ String c r /\ has_char c p = false.
Proof.
  revert p; induction s as [|a s IH]; intros p; cbn.
  - split; [done|]. intros [E _]. by destruct p.
  - case_decide as Ea.
    + subst. split; [by intros [= <- <-]|]. intros [E Hp].
      destruct p as [|b p]; [by injection E as ->|].
      cbn in Hp. injection E as <- _. by rewrite bool_decide_true in Hp.
    + destruct (split_once c s) as [[p' r']|] eqn:Es.
      * split.
        -- intros [= <- <-]. destruct (proj1 (IH p') eq_refl) as [-> Hp].
           cbn. by rewrite bool_decide_false.
        -- intros [E Hp]. destruct p as [|b p]; [by injection E as ->|].
           injection E as <- E. cbn in Hp. apply orb_false_elim in Hp as [_ Hp].
           assert (Some (p', r') = Some (p, r)) as [= -> ->] by (by apply IH).
           done.
      * split; [done|]. intros [E Hp]. destruct p as [|b p]; [by injection E as ->|].
        injection E as <- E. cbn in Hp. apply orb_false_elim in Hp as [_ Hp].
        assert (None = Some (p, r)) by (by apply IH). done.
Qed.

Lemma split_once_None c s : split_once c s = None <-> has_char c s = false.
Proof.
  induction s as [|a s IH]; cbn; [done|].
  case_decide as Ea; [by rewrite bool_decide_true|].
  rewrite bool_decide_false by done; cbn. rewrite <- IH.
  by destruct (split_once c s) as [[]|].
Qed.

(** ** Decimal integers *)

Definition digit_char (d : Z) : ascii := Ascii.ascii_of_nat (Z.to_nat (48 + d)).

Definition digit_value (c : ascii) : option Z :=
  let n := Z.of_nat (Ascii.nat_of_ascii c) in
  if decide (48 <= n <= 57) then Some (n - 48) else None.

(** [Display] of an unsigned integer: the digits of [n] before [acc].  A number
    has no more decimal than binary digits, which is the fuel [show_uint] gives. *)
Fixpoint show_digits (fuel : nat) (n : Z) (acc : string) : string :=
  match fuel with
  | O => acc
  | S fuel =>
      let acc := String (digit_char (n mod 10)) acc in
      if decide (n < 10) then acc else show_digits fuel (n / 10) acc
  end.

Definition show_uint (n : Z) : string := show_digits (S (Z.to_nat (Z.log2 n))) n "".

(** [uN::from_str]: an optional ['+'], then at least one digit, with checked
    arithmetic at every digit; [max] is [uN::MAX]. *)
Fixpoint parse_digits (max acc : Z) (s : string) : option Z :=
  match s with
  | EmptyString => Some acc
  | String c s =>
      match digit_value c with
      | None => None
      | Some d =>
          if decide (acc * 10 + d <= max) then parse_digits max (acc * 10 + d) s
          else None
      end
  end.

Definition parse_uint (w : Z) (s : string) : option Z :=
  let max := 2 ^ w - 1 in
  match s with
  | EmptyString => None
  | String "+" EmptyString => None
  | String "+" s => parse_digits max 0 s
  | s => parse_digits max 0 s
  end.

Lemma digit_value_char d : 0 <= d < 10 -> digit_value (digit_char d) = Some d.
Proof.
  intros Hd. unfold digit_value, digit_char.
  rewrite Ascii.nat_ascii_embedding by lia. rewrite Z2Nat.id by lia.
  rewrite decide_True by lia. f_equal; lia.
Qed.

Lemma digit_value_range c d : digit_value c = Some d -> 0 <= d < 10.
Proof. unfold digit_value. case_decide; [|done]. intros [= <-]. lia. Qed.

Lemma parse_digits_range max acc s n :
  0 <= acc <= max -> parse_digits max acc s = Some n -> 0 <= n <= max.
Proof.
  revert acc; induction s as [|c s IH]; intros acc Ha; cbn.
  - by intros [= <-].
  - destruct (digit_value c) as [d|] eqn:Ed; [|done].
    apply digit_value_range in Ed. case_decide; [|done]. apply IH. lia.
Qed.

Lemma parse_uint_range w s n : 0 <= w -> parse_uint w s = Some n -> in_u w n.
Proof.
  intros Hw H. pose proof (pow2_pos w Hw). unfold in_u.
  enough (0 <= n <= 2 ^ w - 1) by lia.
  unfold parse_uint in H. repeat case_match; try done;
    (eapply (parse_digits_range _ 0); [|exact H]; lia).
Qed.

Lemma parse_show_digits max fuel n acc :
  0 <= n <= max -> n < 10 ^ Z.of_nat fuel ->
  (0 < fuel)%nat ->
  parse_digits max 0 (show_digits fuel n acc) = parse_digits max n acc.
Proof.
  revert n acc; induction fuel as [|fuel IH]; intros n acc Hn Hf Hpos; [lia|].
  cbn [show_digits]. pose proof (Z.mod_pos_bound n 10 ltac:(lia)).
  pose proof (Z.div_mod n 10 ltac:(lia)). case_decide as H10.
  - rewrite Z.mod_small by lia. cbn. rewrite digit_value_char by lia.
    by rewrite decide_True by lia.
  - replace (Z.of_nat (S fuel)) with (Z.succ (Z.of_nat fuel)) in Hf by lia.
    rewrite Z.pow_succ_r in Hf by lia.
    assert (fuel <> O) by (intros ->; cbn in Hf; lia).
    rewrite IH by lia. cbn. rewrite digit_value_char by lia.
    by rewrite decide_True, Z.mul_comm, <- H0 by lia.
Qed.

Lemma show_digits_head fuel n acc :
  0 <= n -> exists c s, show_digits (S fuel) n acc = String c s /\
    exists d, digit_value c = Some d.
Proof.
  revert n acc; induction fuel as [|fuel IH]; intros n acc Hn;
    pose proof (Z.mod_pos_bound n 10 ltac:(lia)) as Hd;
    apply digit_value_char in Hd.
  - cbn. case_decide; eauto.
  - cbn [show_digits]. case_decide; [eauto|]. apply IH. apply Z.div_pos; lia.
Qed.

Lemma show_digits_chars fuel n acc c :
  0 <= n -> digit_value c = None ->
  has_char c (show_digits fuel n acc) = has_char c acc.
Proof.
  intros Hn Hc; revert n acc Hn; induction fuel as [|fuel IH]; intros n acc Hn; [done|].
  assert (has_char c (String (digit_char (n mod 10)) acc) = has_char c acc).
  { cbn. rewrite bool_decide_false; [done|]. intros <-.
    rewrite digit_value_char in Hc; [done|]. apply Z.mod_pos_bound; lia. }
  cbn [show_digits]. case_decide; [done|].
  rewrite IH; [done|]. apply Z.div_pos; lia.
Qed.

Lemma show_uint_no_char c n :
  0 <= n -> digit_value c = None -> has_char c (show_uint n) = false.
Proof. intros. unfold show_uint. by rewrite show_digits_chars. Qed.

Lemma log2_fuel n : 0 <= n -> n < 10 ^ Z.of_nat (S (Z.to_nat (Z.log2 n))).
Proof.
  intros Hn. rewrite Nat2Z.inj_succ, Z2Nat.id by apply Z.log2_nonneg.
  destruct (decide (n = 0)) as [->|]; [done|].
  pose proof (Z.log2_spec n ltac:(lia)) as [_ ?].
  pose proof (Z.log2_nonneg n).
  pose proof (Z.pow_le_mono_l 2 10 (Z.succ (Z.log2 n)) ltac:(lia)). lia.
Qed.

Lemma parse_uint_digits w c s d :
  digit_value c = Some d ->
  parse_uint w (String c s) = parse_digits (2 ^ w - 1) 0 (String c s).
Proof.
  intros Hd. unfold parse_uint.
  destruct (decide (c = "+"%char)) as [->|Hc]; [by vm_compute in Hd|].
  by destruct c as [[] [] [] [] [] [] [] []].
Qed.

Theorem parse_show_uint w n : in_u w n -> parse_uint w (show_uint n) = Some n.
Proof.
  unfold in_u. intros Hn. unfold show_uint.
  destruct (show_digits_head (Z.to_nat (Z.log2 n)) n "") as (c&s&E&d&Hd); [lia|].
  pose proof (parse_show_digits (2 ^ w - 1) _ n "" ltac:(lia) (log2_fuel n ltac:(lia)) ltac:(lia)) as P.
  rewrite E in *. by rewrite (parse_uint_digits w c s d).
Qed.

Lemma show_uint_inj w n m : in_u w n -> in_u w m -> show_uint n = show_uint m -> n = m.
Proof.
  intros Hn Hm E. apply (f_equal (parse_uint w)) in E.
  rewrite !parse_show_uint in E by done. by injection E.
Qed.

(** The two ways a literal differs from the printed one and still parses. *)
Lemma parse_uint_plus w n : in_u w n -> parse_uint w ("+" +:+ show_uint n) = Some n.
Proof.
  unfold in_u. intros Hn. rewrite <- (parse_show_uint w n) by done. unfold show_uint.
  destruct (show_digits_head (Z.to_nat (Z.log2 n)) n "") as (c&s&->&d&Hd); [lia|].
  by rewrite (parse_uint_digits w c s d).
Qed.

Lemma parse_uint_zero w n : in_u w n -> parse_uint w ("0" +:+ show_uint n) = Some n.
Proof.
  unfold in_u. intros Hn. rewrite <- (parse_show_uint w n) by done.
  rewrite append_cons, append_nil_l, (parse_uint_digits w "0" _ 0) by done.
  cbn [parse_digits]. change (digit_value "0") with (Some 0). cbv beta iota.
  rewrite decide_True by lia. unfold show_uint.
  destruct (show_digits_head (Z.to_nat (Z.log2 n)) n "") as (c&s&->&d&Hd); [lia|].
  by rewrite (parse_uint_digits w c s d).
Qed.

(** ** White space and search *)

(** The bytes of the white-space character a string starts with, none if it does not:
    the UTF-8 forms of the Unicode property [White_Space]. *)
Definition ws_len (s : string) : nat :=
  match as_bytes s with
  | x09 :: _ | x0a :: _ | x0b :: _ | x0c :: _ | x0d :: _ | x20 :: _ => 1
  | xc2 :: x85 :: _ | xc2 :: xa0 :: _ => 2
  | xe1 :: x9a :: x80 :: _ => 3
  | xe2 :: x80 :: b :: _ =>
      let n := u8 b in
      if decide (0x80 <= n <= 0x8a \/ n = 0xa8 \/ n = 0xa9 \/ n = 0xaf) then 3 else 0
  | xe2 :: x81 :: x9f :: _ => 3
  | xe3 :: x80 :: x80 :: _ => 3
  | _ => 0
  end.

(** [str::split_whitespace]; [skip] bytes of a white-space character are left to read. *)
Fixpoint words (skip : nat) (cur : string) (s : string) : list string :=
  match s with
  | EmptyString => if decide (cur = "") then [] else [cur]
  | String a s' =>
      match skip, ws_len s with
      | S skip, _ => words skip cur s'
      | O, O => words 0 (cur +:+ String a "") s'
      | O, S k => (if decide (cur = "") then [] else [cur]) ++ words k "" s'
      end
  end.
Definition split_whitespace (s : string) : list string := words 0 "" s.

(** [str::trim]. *)
Fixpoint trim_start (skip : nat) (s : string) : string :=
  match s with
  | EmptyString => ""
  | String _ s' =>
      match skip, ws_len s with
      | S skip, _ => trim_start skip s'
      | O, O => s
      | O, S k => trim_start k s'
      end
  end.
Fixpoint trim_end (s : string) : string :=
  match s with
  | EmptyString => ""
  | String a s' => if decide (trim_start 0 s = "") then "" else String a (trim_end s')
  end.
Definition trim (s : string) : string := trim_end (trim_start 0 s).

(** [str::find], with the slices before and after the match. *)
Fixpoint find_str (pat s : string) : option (string * string) :=
  match strip_prefix pat s with
  | Some rest => Some ("", rest)
  | None =>
      match s with
      | EmptyString => None
      | String a s => '(pre, rest) ← find_str pat s; Some (String a pre, rest)
      end
  end.

Definition starts_with (p s : string) : bool :=
  match strip_prefix p s with Some _ => true | None => false end.

(** Text of characters that start no white space is its own trim: hexadecimal text. *)
Definition hex_char (c : ascii) : bool :=
  let n := Z.of_nat (Ascii.nat_of_ascii c) in
  bool_decide (48 <= n <= 57) || bool_decide (97 <= n <= 102).

Fixpoint hex_text (s : string) : bool :=
  match s with EmptyString => true | String c s => hex_char c && hex_text s end.

Lemma ws_len_hex c s : hex_char c = true -> ws_len (String c s) = 0%nat.
Proof.
  unfold ws_len. rewrite as_bytes_cons. destruct c as [[] [] [] [] [] [] [] []]; try done;
    intros Hc; vm_compute in Hc; discriminate Hc.
Qed.

Lemma trim_start_hex s : hex_text s = true -> trim_start 0 s = s.
Proof.
  destruct s as [|c s]; [done|]. intros [Hc _]%andb_true_iff. cbn [trim_start].
  by rewrite ws_len_hex.
Qed.

Lemma trim_hex s : hex_text s = true -> trim s = s.
Proof.
  intros Hs. unfold trim. rewrite trim_start_hex by done. induction s as [|c s IH]; [done|].
  cbn [trim_end]. rewrite trim_start_hex by done. rewrite decide_False by done.
  cbn in Hs. apply andb_true_iff in Hs as [_ Hs]. by rewrite IH.
Qed.
