(* ===== verification/Float64.v ===== *)
(** * Float64: the [f64] of the source

    A binary64 number of the Standard Library's [SpecFloat], with its rounding, infinities
    and NaN; and the facts the clients need: below [2^53] integers are exact, so comparing
    them and subtracting one is comparing and subtracting integers. *)

From Stdlib Require Import Floats.SpecFloat.
From stdpp Require Import base numbers.
From S2P Require Import Prelude.

Open Scope Z_scope.

(** ** [f64] *)

Abbreviation f64 := spec_float.

(** [z as f64], rounded to nearest even. *)
Definition f64_of_Z (z : Z) : f64 := binary_normalize 53 1024 z 0 false.
Definition f64_add : f64 -> f64 -> f64 := SFadd 53 1024.
Definition f64_sub : f64 -> f64 -> f64 := SFsub 53 1024.
Definition f64_mul : f64 -> f64 -> f64 := SFmul 53 1024.
Definition f64_div : f64 -> f64 -> f64 := SFdiv 53 1024.

(** [f64::MIN_POSITIVE], [2^-1022]. *)
Definition MIN_POSITIVE : f64 := S754_finite false (2 ^ 52) (-1074).

Definition is_nan (x : f64) : bool := match x with S754_nan => true | _ => false end.

(** [f64::min] and [f64::max]: a NaN operand is dropped. *)
Definition f64_min (x y : f64) : f64 :=
  if is_nan x then y else if is_nan y then x else if SFltb x y then x else y.
Definition f64_max (x y : f64) : f64 :=
  if is_nan x then y else if is_nan y then x else if SFltb x y then y else x.

(** [f64::is_finite]. *)
Definition is_finite (x : f64) : bool :=
  match x with S754_zero _ | S754_finite _ _ _ => true | _ => false end.

(** ** Integers as [f64]

    An integer below [2^53] is a [f64] exactly: its mantissa has 53 digits. *)

Lemma digits2_log2 p : Zpos (digits2_pos p) = Z.log2 (Zpos p) + 1.
Proof.
  induction p as [p IH|p IH|]; cbn [digits2_pos]; [| |done]; rewrite Pos2Z.inj_succ, IH.
  - change (Zpos p~1) with (2 * Zpos p + 1). rewrite Z.log2_succ_double by lia. lia.
  - change (Zpos p~0) with (2 * Zpos p). rewrite Z.log2_double by lia. lia.
Qed.

Lemma iter_xO m d : Zpos (Pos.iter xO m d) = Zpos m * 2 ^ Zpos d.
Proof.
  induction d as [|d IH] using Pos.peano_ind; [cbn; lia|].
  rewrite Pos.iter_succ, (Pos2Z.inj_xO (Pos.iter xO m d)), IH, Pos2Z.inj_succ, Z.pow_succ_r by lia. lia.
Qed.

Definition exactly (m : Z) : shr_record := Build_shr_record m false false.

Lemma shr_1_exact m : 0 < m -> shr_1 (exactly (2 * m)) = exactly m.
Proof. by destruct m. Qed.

Lemma shr_exact n m : 0 < m -> SpecFloat.iter_pos shr_1 n (exactly (m * 2 ^ Zpos n)) = exactly m.
Proof.
  revert m. induction n as [n IH|n IH|]; intros m Hm; cbn [SpecFloat.iter_pos].
  - assert (0 < 2 ^ Zpos n) by (apply Z.pow_pos_nonneg; lia).
    replace (m * 2 ^ Zpos n~1) with (2 * (m * 2 ^ Zpos n * 2 ^ Zpos n)).
    2: { change (Zpos n~1) with (2 * Zpos n + 1). rewrite Z.pow_add_r, Z.pow_twice_r by lia.  ring. }
    rewrite shr_1_exact, !IH by nia. done.
  - assert (0 < 2 ^ Zpos n) by (apply Z.pow_pos_nonneg; lia).
    replace (m * 2 ^ Zpos n~0) with (m * 2 ^ Zpos n * 2 ^ Zpos n).
    2: { change (Zpos n~0) with (2 * Zpos n). rewrite Z.pow_twice_r by lia. ring. }
    by rewrite !IH by nia.
  - rewrite Z.mul_comm. by apply shr_1_exact.
Qed.

(** The digits of a positive integer. *)
Definition bits (z : Z) : Z := Z.log2 z + 1.

Lemma digits_shift z n : 0 < z -> 0 <= n -> bits (z * 2 ^ n) = bits z + n.
Proof. intros Hz Hn. unfold bits. rewrite Z.log2_mul_pow2 by lia. lia. Qed.

(** The mantissa of [z], of 53 digits. *)
Definition mantissa (z : Z) : Z := z * 2 ^ (53 - bits z).

Definition small_int (z : Z) : Prop := 0 < z < 2 ^ 53.

Lemma small_digits z : small_int z -> 1 <= bits z <= 53.
Proof.
  intros Hz. unfold bits, small_int in *. pose proof (Z.log2_nonneg z).
  assert (Z.log2 z < 53) by (apply Z.log2_lt_pow2; lia). lia.
Qed.

Lemma mantissa_pos z : small_int z -> 0 < mantissa z.
Proof.
  intros Hz. pose proof (small_digits z Hz). unfold mantissa, small_int in *.
  apply Z.mul_pos_pos; [lia|]. apply Z.pow_pos_nonneg; lia.
Qed.

Definition of_small (z : Z) : f64 := S754_finite false (Z.to_pos (mantissa z)) (bits z - 53).

Lemma digits_mantissa z : small_int z -> bits (mantissa z) = 53.
Proof.
  intros Hz. pose proof (small_digits z Hz). unfold mantissa. rewrite digits_shift; unfold small_int in *; lia.
Qed.

Lemma Zdigits2_digits z : 0 < z -> Zdigits2 z = bits z.
Proof. intros Hz. destruct z as [|p|p]; [lia| |lia]. apply digits2_log2. Qed.

(** Shifting out the zeros below the mantissa loses nothing. *)
Lemma shr_fexp_exact z n :
  small_int z -> 0 <= n -> 
  shr_fexp 53 1024 (mantissa z * 2 ^ n) (bits z - 53 - n) loc_Exact = (exactly (mantissa z), bits z - 53).
Proof.
  intros Hz Hn. pose proof (small_digits z Hz) as Hd. pose proof (mantissa_pos z Hz) as Hm.
  assert (0 < 2 ^ n) by (apply Z.pow_pos_nonneg; lia).
  unfold shr_fexp, shr. rewrite Zdigits2_digits, digits_shift, digits_mantissa by (done || nia).
  unfold fexp, emin.
  replace (Z.max (53 + n + (bits z - 53 - n) - 53) (3 - 1024 - 53) - (bits z - 53 - n)) with n by lia.
  cbn [shr_record_of_loc]. destruct n as [|n|n]; [|..|lia].
  - rewrite Z.mul_1_r, Z.sub_0_r. done.
  - change (Build_shr_record ?m false false) with (exactly m). rewrite shr_exact by done. f_equal. lia.
Qed.

Lemma round_aux_exact z n :
  small_int z -> 0 <= n ->
  binary_round_aux 53 1024 false (mantissa z * 2 ^ n) (bits z - 53 - n) loc_Exact = of_small z.
Proof.
  intros Hz Hn. pose proof (small_digits z Hz) as Hd. pose proof (mantissa_pos z Hz) as Hm.
  unfold binary_round_aux. rewrite shr_fexp_exact by done. cbn [exactly shr_m loc_of_shr_record round_nearest_even].
  pose proof (shr_fexp_exact z 0 Hz ltac:(lia)) as H0. rewrite Z.mul_1_r, Z.sub_0_r in H0. rewrite H0.
  cbn [exactly shr_m]. unfold of_small. destruct (mantissa z) as [|p|p]; [lia| |lia].
  destruct (Z.leb_spec (bits z - 53) (1024 - 53)); [done|lia].
Qed.

(** Normalizing [z] shifted by [k]. *)
Lemma normalize_exact z k :
  small_int z -> 0 <= k -> binary_normalize 53 1024 (z * 2 ^ k) (- k) false = of_small z.
Proof.
  intros Hz Hk. pose proof (small_digits z Hz) as Hd.
  assert (0 < 2 ^ k) as Hp by (apply Z.pow_pos_nonneg; lia).
  assert (0 < z * 2 ^ k) as HM by (unfold small_int in *; nia).
  assert (bits (z * 2 ^ k) = bits z + k) as HdM by (apply digits_shift; unfold small_int in *; lia).
  destruct (z * 2 ^ k) as [|p|p] eqn:EM; [lia| |lia]. cbn [binary_normalize]. unfold binary_round.
  assert (Zpos (digits2_pos p) = bits z + k) as Hdp by (by rewrite digits2_log2).
  rewrite Hdp. unfold fexp, emin.
  replace (Z.max (bits z + k + - k - 53) (3 - 1024 - 53)) with (bits z - 53) by lia.
  unfold shl_align. destruct (Z_lt_ge_dec (bits z - 53 - - k) 0) as [Hlt|Hge].
  - destruct (bits z - 53 - - k) as [|n|n] eqn:En; [lia..|].
    rewrite iter_xO, <- EM. pose proof (round_aux_exact z 0 Hz ltac:(lia)) as H0.
    rewrite Z.mul_1_r, Z.sub_0_r in H0. rewrite <- H0. f_equal. unfold mantissa.
    rewrite <- Z.mul_assoc, <- Z.pow_add_r by lia. do 2 f_equal. lia.
  - assert (forall q, binary_round_aux 53 1024 false (Zpos p) (- k) loc_Exact = q ->
      (let '(mz, ez) := match bits z - 53 - - k with
         | Zneg d => (Pos.iter xO p d, bits z - 53) | _ => (p, - k) end in
       binary_round_aux 53 1024 false (Zpos mz) ez loc_Exact) = q) as Hq
      by (intros q; destruct (bits z - 53 - - k); [done|done|lia]).
    apply Hq. rewrite <- EM, <- (round_aux_exact z (bits z - 53 + k) Hz) by lia.
    f_equal; [|lia]. unfold mantissa. rewrite <- Z.mul_assoc, <- Z.pow_add_r by lia. do 2 f_equal. lia.
Qed.

Lemma f64_of_small z : small_int z -> f64_of_Z z = of_small z.
Proof. intros Hz. rewrite <- (normalize_exact z 0) by (done || lia). by rewrite Z.mul_1_r. Qed.

Lemma f64_of_0 : f64_of_Z 0 = S754_zero false.
Proof. done. Qed.

(** Comparing. *)
Lemma mantissa_value z : small_int z -> mantissa z * 2 ^ bits z = z * 2 ^ 53.
Proof.
  intros Hz. pose proof (small_digits z Hz). unfold mantissa.
  rewrite <- Z.mul_assoc, <- Z.pow_add_r by lia. do 2 f_equal. lia.
Qed.

Lemma compare_small x y : small_int x -> small_int y -> SFcompare (f64_of_Z x) (f64_of_Z y) = Some (x ?= y).
Proof.
  intros Hx Hy. rewrite !f64_of_small by done. unfold of_small. cbn [SFcompare]. f_equal.
  pose proof (mantissa_pos x Hx). pose proof (mantissa_pos y Hy).
  destruct (Z.compare_spec (bits x - 53) (bits y - 53)) as [E|Hlt|Hlt].
  - assert (forall a b, Pos.compare_cont Eq a b = (Zpos a ?= Zpos b)) as -> by done.
    rewrite !Z2Pos.id by done.
    assert (bits x = bits y) as Ed by lia. unfold mantissa. rewrite Ed.
    symmetry. apply Zmult_compare_compat_r. apply Z.lt_gt, Z.pow_pos_nonneg; [lia|].
    pose proof (small_digits y Hy). lia.
  - symmetry. apply Z.compare_lt_iff. apply Z.log2_lt_cancel. unfold bits in Hlt. lia.
  - symmetry. apply Z.compare_gt_iff. apply Z.log2_lt_cancel. unfold bits in Hlt. lia.
Qed.

(** One less. *)
Lemma sub_one x : small_int x -> f64_sub (f64_of_Z x) (f64_of_Z 1) = f64_of_Z (x - 1).
Proof.
  intros Hx. pose proof (small_digits x Hx) as Hd. pose proof (mantissa_pos x Hx) as Hm.
  assert (small_int 1) as H1 by (unfold small_int; lia).
  rewrite !f64_of_small by done. unfold of_small at 1. 
  change (of_small 1) with (S754_finite false (2 ^ 52)%positive (-52)).
  unfold f64_sub. cbn [SFsub]. rewrite Z.min_r by lia.
  assert (Zpos (fst (shl_align (Z.to_pos (mantissa x)) (bits x - 53) (-52))) = x * 2 ^ 52) as E.
  { unfold shl_align. destruct (-52 - (bits x - 53)) as [|d|d] eqn:Ed; cbn [fst].
    - rewrite Z2Pos.id by done. unfold mantissa. do 2 f_equal. lia.
    - lia.
    - rewrite iter_xO, Z2Pos.id by done. unfold mantissa. rewrite <- Z.mul_assoc, <- Z.pow_add_r by lia.
      do 2 f_equal. lia. }
  rewrite E. change (Zpos (fst (shl_align (2 ^ 52) (-52) (-52)))) with (2 ^ 52). cbn [cond_Zopp].
  replace (x * 2 ^ 52 - 2 ^ 52) with ((x - 1) * 2 ^ 52) by lia.
  destruct (Z.eq_dec x 1) as [->|Hne]; [done|].
  assert (small_int (x - 1)) as Hx1 by (unfold small_int in *; lia).
  rewrite f64_of_small by done. by apply (normalize_exact (x - 1) 52).
Qed.

(** ** [f64::min] *)

Lemma SFcompare_refl x : is_nan x = false -> SFcompare x x = Some Eq.
Proof.
  destruct x as [[]|[]| |s m e]; try done. intros _. cbn.
  destruct s; rewrite Z.compare_refl, Pos.compare_cont_refl; done.
Qed.

Lemma f64_min_le x y : is_nan y = false -> SFleb (f64_min x y) y = true.
Proof.
  intros Hy. unfold f64_min, SFleb. destruct (is_nan x); [by rewrite SFcompare_refl|].
  rewrite Hy. destruct (SFltb x y) eqn:E; [|by rewrite SFcompare_refl].
  unfold SFltb in E. by destruct (SFcompare x y) as [[]|].
Qed.

Lemma nonneg_cases z : 0 <= z < 2 ^ 53 -> z = 0 \/ small_int z.
Proof. unfold small_int. lia. Qed.

Lemma min_small x y : 0 <= x <= y -> small_int y -> f64_min (f64_of_Z x) (f64_of_Z y) = f64_of_Z x.
Proof.
  intros Hx Hy. unfold f64_min. rewrite (f64_of_small y) by done.
  destruct (nonneg_cases x) as [->|Hs]; [unfold small_int in *; lia|done|].
  assert (is_nan (f64_of_Z x) = false) as -> by by rewrite f64_of_small.
  cbn [is_nan of_small]. change (S754_finite _ _ _) with (of_small y). rewrite <- (f64_of_small y) by done.
  unfold SFltb. rewrite compare_small by done.
  destruct (Z.compare_spec x y); [by subst|done|lia].
Qed.

Lemma one_le x : 0 <= x < 2 ^ 53 -> SFleb (f64_of_Z 1) (f64_of_Z x) = bool_decide (1 <= x).
Proof.
  intros Hx. destruct (nonneg_cases x Hx) as [->|Hs]; [done|].
  unfold SFleb. rewrite compare_small by (done || unfold small_int; lia).
  destruct (Z.compare_spec 1 x); [by rewrite bool_decide_true by lia..|unfold small_int in *; lia].
Qed.
