(* ===== verification/Utf8.v ===== *)
(** * Utf8: [String::from_utf8_lossy]

    The standard library's decoder of arbitrary bytes: well-formed sequences are kept, and
    each maximal prefix of a sequence that cannot be continued is replaced by U+FFFD.  The
    ranges are those of its state machine, the well-formed sequences of the Unicode
    standard: no overlong form, no surrogate, nothing above U+10FFFF. *)

From Stdlib Require Import Strings.Byte.
From stdpp Require Import base strings list numbers.
From S2P Require Import Prelude Bytes Text.

Open Scope Z_scope.

Definition within (lo hi : Z) (b : byte) : bool := (lo <=? Z.of_N (to_N b)) && (Z.of_N (to_N b) <=? hi).
Abbreviation continuation := (within 0x80 0xBF).

(** What a byte starts: a sequence of its own, one with a second byte within a range and
    [more] continuation bytes after it, or none. *)
Inductive lead : Type :=
  | Single
  | Multi (more : nat) (lo hi : Z)
  | Stray.

Definition lead_of (b : byte) : lead :=
  if within 0x00 0x7F b then Single
  else if within 0xC2 0xDF b then Multi 0 0x80 0xBF
  else if within 0xE0 0xE0 b then Multi 1 0xA0 0xBF
  else if within 0xE1 0xEC b then Multi 1 0x80 0xBF
  else if within 0xED 0xED b then Multi 1 0x80 0x9F
  else if within 0xEE 0xEF b then Multi 1 0x80 0xBF
  else if within 0xF0 0xF0 b then Multi 2 0x90 0xBF
  else if within 0xF1 0xF3 b then Multi 2 0x80 0xBF
  else if within 0xF4 0xF4 b then Multi 2 0x80 0x8F
  else Stray.

(** U+FFFD. *)
Definition REPLACEMENT : bytes := [xef; xbf; xbd].

(** [String::from_utf8_lossy], on the bytes of the string it returns. *)
Fixpoint from_utf8_lossy (v : bytes) : bytes :=
  match v with
  | [] => []
  | b :: v =>
      match lead_of b with
      | Single => b :: from_utf8_lossy v
      | Stray => REPLACEMENT ++ from_utf8_lossy v
      | Multi more lo hi =>
          match v with
          | [] => REPLACEMENT
          | b1 :: v1 =>
              if within lo hi b1 then
                match more, v1 with
                | O, _ => [b; b1] ++ from_utf8_lossy v1
                | S _, [] => REPLACEMENT
                | S more, b2 :: v2 =>
                    if continuation b2 then
                      match more, v2 with
                      | O, _ => [b; b1; b2] ++ from_utf8_lossy v2
                      | S _, [] => REPLACEMENT
                      | S _, b3 :: v3 =>
                          if continuation b3 then [b; b1; b2; b3] ++ from_utf8_lossy v3
                          else REPLACEMENT ++ from_utf8_lossy v2
                      end
                    else REPLACEMENT ++ from_utf8_lossy v1
                end
              else REPLACEMENT ++ from_utf8_lossy v
          end
      end
  end.

(** ** Well-formed text *)

(** The continuation bytes of a sequence. *)
Definition tail_ok (more : nat) (lo hi : Z) (t : bytes) : Prop :=
  exists b1 bs, t = b1 :: bs /\ within lo hi b1 = true /\ length bs = more /\
    Forall (fun b => continuation b = true) bs.

Inductive sequence : bytes -> Prop :=
  | seq_single b : lead_of b = Single -> sequence [b]
  | seq_multi b more lo hi t : lead_of b = Multi more lo hi -> tail_ok more lo hi t -> sequence (b :: t).

Inductive utf8 : bytes -> Prop :=
  | utf8_nil : utf8 []
  | utf8_cons s v : sequence s -> utf8 v -> utf8 (s ++ v).

Lemma lead_of_more b more lo hi : lead_of b = Multi more lo hi -> (more <= 2)%nat.
Proof. unfold lead_of. repeat case_match; try done; intros [= <- <- <-]; lia. Qed.

Lemma sequence_nonempty s : sequence s -> s <> [].
Proof. by intros []. Qed.

Lemma utf8_replacement v : utf8 v -> utf8 (REPLACEMENT ++ v).
Proof.
  apply utf8_cons. apply (seq_multi xef 1 0x80 0xBF); [done|]. exists xbf, [xbd].
  split_and!; try done. by repeat constructor.
Qed.

Lemma utf8_app u v : utf8 u -> utf8 v -> utf8 (u ++ v).
Proof. induction 1 as [|s u Hs _ IH]; [done|]. intros Hv. rewrite <- app_assoc. by apply utf8_cons, IH. Qed.

(** A sequence is kept. *)
Lemma from_utf8_lossy_sequence s v : sequence s -> from_utf8_lossy (s ++ v) = s ++ from_utf8_lossy v.
Proof.
  intros [b Hb|b more lo hi t Hb (b1 & bs & -> & H1 & Hl & Hbs)]; cbn [app from_utf8_lossy]; rewrite Hb; [done|].
  apply lead_of_more in Hb. rewrite H1. subst more.
  destruct bs as [|b2 [|b3 [|? ?]]]; cbn [length app] in *; [done| | |lia];
    rewrite !list.Forall_cons in Hbs.
  - by destruct Hbs as [-> _].
  - by destruct Hbs as (-> & -> & _).
Qed.

(** One turn of the decoder: a sequence is kept, or some bytes are replaced. *)
Lemma from_utf8_lossy_step v :
  v = [] \/
  exists s r, v = s ++ r /\ s <> [] /\
    (sequence s /\ from_utf8_lossy v = s ++ from_utf8_lossy r \/
     from_utf8_lossy v = REPLACEMENT ++ from_utf8_lossy r).
Proof.
  destruct v as [|b v]; [by left|right]. cbn [from_utf8_lossy].
  destruct (lead_of b) as [|more lo hi|] eqn:Hb.
  { exists [b], v. split_and!; try done. left. split; [by constructor|done]. }
  2: { exists [b], v. split_and!; try done. by right. }
  destruct v as [|b1 v]; [by exists [b], []; split_and!; try done; right|].
  destruct (within lo hi b1) eqn:H1.
  2: { exists [b], (b1 :: v). split_and!; try done. by right. }
  assert (forall bs r, length bs = more -> Forall (fun c => continuation c = true) bs ->
    exists s r', b :: b1 :: bs ++ r = s ++ r' /\ s <> [] /\
      (sequence s /\ b :: b1 :: bs ++ from_utf8_lossy r = s ++ from_utf8_lossy r' \/
       b :: b1 :: bs ++ from_utf8_lossy r = REPLACEMENT ++ from_utf8_lossy r')) as Hkeep.
  { intros bs r Hl Hbs. exists (b :: b1 :: bs), r. split_and!; try done. left. split; [|done].
    eapply seq_multi; [done|]. by exists b1, bs. }
  destruct more as [|more]; [by apply (Hkeep [])|].
  destruct v as [|b2 v]; [by exists [b; b1], []; split_and!; try done; right|].
  destruct (continuation b2) eqn:H2.
  2: { exists [b; b1], (b2 :: v). split_and!; try done. by right. }
  destruct more as [|more]; [apply (Hkeep [b2]); [done|by constructor]|].
  destruct v as [|b3 v]; [by exists [b; b1; b2], []; split_and!; try done; right|].
  destruct (continuation b3) eqn:H3.
  2: { exists [b; b1; b2], (b3 :: v). split_and!; try done. by right. }
  pose proof (lead_of_more _ _ _ _ Hb). apply (Hkeep [b2; b3]); [cbn; lia|by repeat constructor].
Qed.

Lemma from_utf8_lossy_utf8 v : utf8 (from_utf8_lossy v).
Proof.
  induction v as [v IH] using (induction_ltof1 _ length). unfold ltof in IH.
  destruct (from_utf8_lossy_step v) as [->|(s & r & Ev & Hs & Hstep)]; [constructor|].
  assert (utf8 (from_utf8_lossy r)) as Hr.
  { apply IH. rewrite Ev, length_app. destruct s; [done|cbn; lia]. }
  destruct Hstep as [[Hseq ->]| ->]; [by apply utf8_cons|by apply utf8_replacement].
Qed.

Lemma from_utf8_lossy_id v : utf8 v -> from_utf8_lossy v = v.
Proof. induction 1 as [|s v Hs _ IH]; [done|]. by rewrite from_utf8_lossy_sequence, IH. Qed.

(** Whether bytes are well-formed, by decoding them. *)
Lemma from_utf8_lossy_check v : bool_decide (from_utf8_lossy v = v) = true -> utf8 v.
Proof. rewrite bool_decide_eq_true. intros <-. apply from_utf8_lossy_utf8. Qed.

(** The decoder returns well-formed UTF-8 whatever it is given, returns its input exactly
    when that is well-formed already, and does so in the middle of any text: a well-formed
    prefix is kept as it is. *)
Theorem from_utf8_lossy_correct (v : bytes) :
  utf8 (from_utf8_lossy v) /\ (from_utf8_lossy v = v <-> utf8 v) /\
  forall u, utf8 u -> from_utf8_lossy (u ++ v) = u ++ from_utf8_lossy v.
Proof.
  split; [apply from_utf8_lossy_utf8|]. split.
  - split; [|apply from_utf8_lossy_id]. intros <-. apply from_utf8_lossy_utf8.
  - induction 1 as [|s u Hs _ IH]; [done|]. by rewrite <- !app_assoc, from_utf8_lossy_sequence, IH.
Qed.

(** ASCII, two, three and four byte sequences are kept; a stray continuation byte, an
    overlong form, a surrogate and a truncated sequence are replaced. *)
Lemma from_utf8_lossy_examples :
  from_utf8_lossy [x41; xc3; xa9; xe2; x82; xac; xf0; x9f; x98; x80] =
    [x41; xc3; xa9; xe2; x82; xac; xf0; x9f; x98; x80] /\
  from_utf8_lossy [x80; x41] = REPLACEMENT ++ [x41] /\
  from_utf8_lossy [xc0; xaf] = REPLACEMENT ++ REPLACEMENT /\
  from_utf8_lossy [xed; xa0; x80] = REPLACEMENT ++ REPLACEMENT ++ REPLACEMENT /\
  from_utf8_lossy [xf0; x9f; x98; x41] = REPLACEMENT ++ [x41].
Proof. by vm_compute. Qed.
