(* ===== verification/Core.v ===== *)
(** * Core: the [waku-core] crate

    The message type ([message.rs]), content topics ([content_topic.rs]), shards
    and autosharding ([shard.rs]), the RFC-14 message hash ([hash.rs]), the error
    type ([error.rs]) and the network presets ([preset.rs]).

    SHA-256 comes from the [sha2] crate: it is the parameter [Sha256], of which
    the code relies on the digest length only. *)

From Stdlib Require Import Strings.Byte Strings.Ascii.
From stdpp Require Import base gmap strings list numbers.
From S2P Require Import Prelude Bytes Text.

Open Scope Z_scope.

(** ** [error.rs] *)

Inductive CoreError : Type :=
  | InvalidContentTopic (s : string)
  | InvalidPubsubTopic (s : string)
  | MessageTooLarge (actual max : Z).

#[export] Instance CoreError_eq_dec : EqDecision CoreError.
Proof. solve_decision. Defined.

(** The [Display] of the error; [debug] is the [Debug] of a string, which quotes it by
    tables of the Unicode standard. *)
Definition core_error_to_string (debug : string -> string) (e : CoreError) : string :=
  match e with
  | InvalidContentTopic s =>
      "invalid content topic " +:+ debug s +:+ ": expected /<app>/<version>/<name>/<encoding>"
  | InvalidPubsubTopic s =>
      "invalid pubsub topic " +:+ debug s +:+ ": expected /waku/2/rs/<cluster>/<shard>"
  | MessageTooLarge actual max =>
      "message exceeds maximum size: " +:+ show_uint actual +:+ " > " +:+ show_uint max +:+ " bytes"
  end.

(** ** [message.rs] *)

Record WakuMessage : Type := mkWakuMessage {
  payload : bytes;
  content_topic : string;
  version : option Z;              (* u32 *)
  timestamp : option Z;            (* i64, nanoseconds *)
  meta : option bytes;
  rate_limit_proof : option bytes;
  ephemeral : option bool;
}.

#[export] Instance WakuMessage_eq_dec : EqDecision WakuMessage.
Proof. solve_decision. Defined.

(** The Rust types of the integer fields. *)
Definition wf_message (m : WakuMessage) : Prop :=
  (forall v, version m = Some v -> in_u32 v) /\
  (forall t, timestamp m = Some t -> in_i64 t).

(** [WakuMessage::new]. *)
Definition message_new (content_topic : string) (payload : bytes) : WakuMessage :=
  {| payload := payload; content_topic := content_topic; version := None;
     timestamp := None; meta := None; rate_limit_proof := None; ephemeral := None |}.

(** ** [content_topic.rs] *)

Module ContentTopic.

Record t : Type := mk {
  application : string;
  version : string;
  name : string;
  encoding : string;
}.

#[global] Instance t_eq_dec : EqDecision t.
Proof. solve_decision. Defined.

(** [ContentTopic::parse]. *)
Definition parse (s : string) : result CoreError t :=
  rest ← ok_or (InvalidContentTopic s) (strip_prefix "/" s);
  let parts := split_on "/" rest in
  match parts with
  | [p0; p1; p2; p3] =>
      if existsb (String.eqb "") parts then Err (InvalidContentTopic s)
      else Ok {| application := p0; version := p1; name := p2; encoding := p3 |}
  | _ => Err (InvalidContentTopic s)
  end.

(** [impl Display for ContentTopic]. *)
Definition to_string (ct : t) : string :=
  "/" +:+ application ct +:+ "/" +:+ version ct +:+ "/" +:+ name ct +:+ "/" +:+
  encoding ct.

(** A segment is not empty and holds no separator. *)
Definition wf_segment (p : string) : Prop := p <> "" /\ has_char "/" p = false.
Definition wf (ct : t) : Prop :=
  wf_segment (application ct) /\ wf_segment (version ct) /\
  wf_segment (name ct) /\ wf_segment (encoding ct).

Lemma to_string_join ct :
  to_string ct =
  "/" +:+ join_with "/" [application ct; version ct; name ct; encoding ct].
Proof. done. Qed.

Lemma existsb_empty ps :
  existsb (String.eqb "") ps = false <-> Forall (fun p => p <> "") ps.
Proof.
  induction ps as [|p ps IH]; [by split|].
  rewrite list.Forall_cons, <- IH. cbn [existsb].
  rewrite orb_false_iff. destruct p; cbn; split; (by intros [] || done).
Qed.

(** Parsing a content topic succeeds exactly on the printed form of a
    four-segment topic whose segments are non-empty and slash-free, and returns
    that topic: printing and parsing are inverse on well-formed topics. *)
Theorem parse_iff_printed (s : string) (ct : t) :
  parse s = Ok ct <-> s = to_string ct /\ wf ct.
Proof.
  unfold parse. rewrite bind_Ok. split.
  - intros (rest & Hrest & H). apply ok_or_Ok, strip_prefix_Some in Hrest as ->.
    destruct (split_on "/" rest) as [|p0 [|p1 [|p2 [|p3 [|]]]]] eqn:Es; try done.
    destruct (existsb _ _) eqn:He; [done|]. injection H as <-.
    apply existsb_empty in He. pose proof (split_on_pieces "/" rest) as Hp.
    rewrite Es in Hp. split.
    + rewrite to_string_join; cbn [application version name encoding].
      by rewrite <- Es, join_split_on.
    + split_Forall. unfold wf, wf_segment; cbn. tauto.
  - intros [-> Hwf]. destruct ct as [a v n e].
    exists (join_with "/" [a; v; n; e]).
    unfold wf, wf_segment in Hwf; cbn in Hwf.
    split; [by apply ok_or_Ok, strip_prefix_Some|].
    rewrite split_join_with; [|done|split_Forall; tauto].
    rewrite (proj2 (existsb_empty [a; v; n; e])); [done|].
    split_Forall; tauto.
Qed.

(** The only failure is [InvalidContentTopic] with the whole input. *)
Lemma parse_error s e : parse s = Err e -> e = InvalidContentTopic s.
Proof.
  unfold parse. rewrite bind_Err. intros [H|(rest & _ & H)].
  - destruct (strip_prefix "/" s); [done|]. by injection H.
  - repeat case_match; try done; by injection H.
Qed.

End ContentTopic.

(** ** [shard.rs] *)

(** The [sha2] crate: a digest of 32 bytes for every input. *)
Class Sha256 := {
  sha256 : bytes -> bytes;
  sha256_length : forall m, length (sha256 m) = 32%nat;
}.

(** The incremental hasher: [Sha256::new], [update], [finalize]. *)
Definition hasher : Type := bytes.
Definition hasher_new : hasher := [].
Definition update (h : hasher) (data : bytes) : hasher := h ++ data.
Definition finalize `{Sha256} (h : hasher) : bytes := sha256 h.

Module ShardId.

Record t : Type := new {
  cluster_id : Z;      (* u16 *)
  shard : Z;           (* u16 *)
}.

#[global] Instance t_eq_dec : EqDecision t.
Proof. solve_decision. Defined.

Definition wf (s : t) : Prop := in_u16 (cluster_id s) /\ in_u16 (shard s).

(** [ShardId::pubsub_topic]. *)
Definition pubsub_topic (s : t) : string :=
  "/waku/2/rs/" +:+ show_uint (cluster_id s) +:+ "/" +:+ show_uint (shard s).

(** [ShardId::parse]. *)
Definition parse (topic : string) : result CoreError t :=
  let bad := InvalidPubsubTopic topic in
  rest ← ok_or bad (strip_prefix "/waku/2/rs/" topic);
  '(c, s) ← ok_or bad (split_once "/" rest);
  cluster_id ← ok_or bad (parse_uint 16 c);
  shard ← ok_or bad (parse_uint 16 s);
  Ok {| cluster_id := cluster_id; shard := shard |}.

(** What [parse] accepts: the prefix, two [u16] literals and the slash between
    them, the first literal being slash-free. *)
Lemma parse_Ok topic sid :
  parse topic = Ok sid <->
  exists c s, topic = "/waku/2/rs/" +:+ c +:+ "/" +:+ s /\ has_char "/" c = false /\
    parse_uint 16 c = Some (cluster_id sid) /\ parse_uint 16 s = Some (shard sid).
Proof.
  unfold parse. rewrite bind_Ok. setoid_rewrite ok_or_Ok.
  setoid_rewrite strip_prefix_Some. split.
  - intros (rest & -> & H). apply bind_Ok in H as ([c s] & H1 & H).
    apply ok_or_Ok, split_once_Some in H1 as [-> Hc].
    apply bind_Ok in H as (n & Hn & H). apply ok_or_Ok in Hn.
    apply bind_Ok in H as (m & Hm & H). apply ok_or_Ok in Hm.
    injection H as <-. eauto 10.
  - intros (c & s & -> & Hc & Hn & Hm). eexists; split; [done|].
    apply bind_Ok. exists (c, s). rewrite ok_or_Ok, split_once_Some.
    split; [done|]. rewrite Hn, Hm. by destruct sid.
Qed.

Lemma parse_wf topic sid : parse topic = Ok sid -> wf sid.
Proof.
  rewrite parse_Ok. intros (c & s & _ & _ & Hc & Hs).
  split; eapply parse_uint_range; try done; lia.
Qed.

Lemma parse_pubsub_topic sid : wf sid -> parse (pubsub_topic sid) = Ok sid.
Proof.
  intros [Hc Hs]. apply parse_Ok.
  exists (show_uint (cluster_id sid)), (show_uint (shard sid)).
  rewrite !parse_show_uint by done. repeat split.
  apply show_uint_no_char; [unfold in_u in Hc; lia|done].
Qed.

Lemma pubsub_topic_inj s s' :
  wf s -> wf s' -> pubsub_topic s = pubsub_topic s' -> s = s'.
Proof.
  intros Hs Hs' E. apply (f_equal parse) in E.
  rewrite !parse_pubsub_topic in E by done. by injection E.
Qed.

(** The topic string of a shard parses back to that shard, so distinct shards
    have distinct topics; whatever [parse] accepts is a pair of [u16]; and every
    rejection is [InvalidPubsubTopic] carrying the input. *)
Theorem pubsub_topic_roundtrip :
  (forall s, wf s -> parse (pubsub_topic s) = Ok s) /\
  (forall s s', wf s -> wf s' -> pubsub_topic s = pubsub_topic s' -> s = s') /\
  (forall topic s, parse topic = Ok s -> wf s) /\
  (forall topic e, parse topic = Err e -> e = InvalidPubsubTopic topic).
Proof.
  split; [|split; [|split]].
  - apply parse_pubsub_topic.
  - apply pubsub_topic_inj.
  - apply parse_wf.
  - intros topic e. unfold parse.
    destruct (strip_prefix _ _) as [rest|]; [|by intros [= ->]].
    cbn. destruct (split_once _ _) as [[c s]|]; [|by intros [= ->]].
    cbn. destruct (parse_uint 16 c); [|by intros [= ->]].
    cbn. destruct (parse_uint 16 s); [done|by intros [= ->]].
Qed.

(** [parse] is not injective: the integer parser accepts a leading ['+'] and
    leading zeros, so infinitely many topic strings that are not the canonical
    [/waku/2/rs/<cluster>/<shard>] form are read as the same shard. *)
Theorem parse_accepts_aliases (s : t) :
  wf s ->
  parse ("/waku/2/rs/+" +:+ show_uint (cluster_id s) +:+ "/0" +:+ show_uint (shard s))
    = Ok s /\
  "/waku/2/rs/+" +:+ show_uint (cluster_id s) +:+ "/0" +:+ show_uint (shard s)
    <> pubsub_topic s.
Proof.
  intros [Hc Hs]. pose proof Hc as Hc'. pose proof Hs as Hs'. unfold in_u in Hc', Hs'.
  assert (forall c n, 0 <= n -> digit_value c = None -> has_char c (show_uint n) = false)
    as Hno by eauto using show_uint_no_char.
  split.
  - apply parse_Ok.
    exists ("+" +:+ show_uint (cluster_id s)), ("0" +:+ show_uint (shard s)).
    rewrite parse_uint_plus, parse_uint_zero, has_char_app, Hno by (done || lia).
    done.
  - change ("/waku/2/rs/+" +:+ ?x) with ("/waku/2/rs/" +:+ ("+" +:+ x)).
    intros E%(inj (String.app "/waku/2/rs/"))%(f_equal (has_char "+")).
    rewrite !has_char_app, !Hno in E by (done || lia). done.
Qed.

Lemma parse_accepts_aliases_witness :
  parse "/waku/2/rs/+1/03" = Ok (new 1 3) /\ "/waku/2/rs/+1/03" <> pubsub_topic (new 1 3).
Proof.
  apply (parse_accepts_aliases (new 1 3)). unfold wf, in_u; cbn; lia.
Defined.

End ShardId.

(** [digest[24..32]] read as a big-endian [u64]. *)
Definition last8 (digest : bytes) : bytes := take 8 (drop 24 digest).

(** [autoshard].  [None] is the division-by-zero panic of [value % 0]. *)
Definition autoshard `{Sha256} (cluster_id : Z) (ct : ContentTopic.t) (shard_count : Z)
    : option ShardId.t :=
  let h := hasher_new in
  let h := update h (as_bytes (ContentTopic.application ct)) in
  let h := update h (as_bytes (ContentTopic.version ct)) in
  let digest := finalize h in
  let value := from_be_bytes (last8 digest) in
  if decide (shard_count = 0) then None
  else Some (ShardId.new cluster_id (as_u16 (value mod shard_count))).

(** Autosharding panics exactly when the shard count is zero; otherwise the
    shard is below the count in the requested cluster, a well-formed shard id, and
    depends on the application and version segments only. *)
Theorem autoshard_spec `{Sha256} (cluster : Z) (ct : ContentTopic.t) (n : Z) :
  in_u16 cluster -> in_u16 n ->
  (autoshard cluster ct n = None <-> n = 0) /\
  (forall s, autoshard cluster ct n = Some s ->
     ShardId.wf s /\ ShardId.cluster_id s = cluster /\ 0 <= ShardId.shard s < n) /\
  (forall ct', ContentTopic.application ct' = ContentTopic.application ct ->
     ContentTopic.version ct' = ContentTopic.version ct ->
     autoshard cluster ct' n = autoshard cluster ct n).
Proof.
  intros Hc Hn. unfold autoshard. case_decide as E; (split; [|split]).
  - done.
  - done.
  - done.
  - done.
  - intros s [= <-]. unfold ShardId.wf, in_u, wrap_unsigned in *; cbn in *.
    set (v := from_be_bytes _).
    pose proof (Z.mod_pos_bound v n ltac:(lia)).
    rewrite (Z.mod_small (v mod n)) by lia. lia.
  - by intros ct' -> ->.
Qed.

(** ** [hash.rs] *)

(** [deterministic_hash]. *)
Definition deterministic_hash `{Sha256} (pubsub_topic : string) (msg : WakuMessage)
    : bytes :=
  let h := hasher_new in
  let h := update h (as_bytes pubsub_topic) in
  let h := update h (payload msg) in
  let h := update h (as_bytes (content_topic msg)) in
  let h := match meta msg with Some m => update h m | None => h end in
  let h := match timestamp msg with
           | Some ts => update h (to_be_bytes 8 ts)
           | None => h
           end in
  finalize h.

(** [hash_hex]. *)
Definition hash_hex (hash : bytes) : string := hex_of_bytes hash.

(** The five blocks of the hash input, an absent field being empty. *)
Definition hash_blocks (topic : string) (m : WakuMessage) : list bytes :=
  [as_bytes topic; payload m; as_bytes (content_topic m);
   default [] (meta m); default [] (to_be_bytes 8 <$> timestamp m)].

Lemma deterministic_hash_blocks `{Sha256} topic m :
  deterministic_hash topic m = sha256 (concat (hash_blocks topic m)).
Proof.
  unfold deterministic_hash, hash_blocks, finalize, update, hasher_new; cbn.
  destruct (meta m), (timestamp m); cbn; by rewrite ?app_nil_r, <- ?app_assoc.
Qed.

Lemma deterministic_hash_length `{Sha256} topic m :
  length (deterministic_hash topic m) = 32%nat.
Proof. rewrite deterministic_hash_blocks. apply sha256_length. Qed.

(** Lists of blocks that agree but at one index have equal concatenations only if
    they are equal. *)
Lemma concat_one_block {A} (bs bs' : list (list A)) i :
  length bs = length bs' -> (forall j, j <> i -> bs !! j = bs' !! j) ->
  concat bs = concat bs' -> bs = bs'.
Proof.
  revert bs' i; induction bs as [|b bs IH]; intros [|b' bs'] i Hl Hi E;
    try discriminate; [done|]. cbn in E. injection Hl as Hl.
  destruct i as [|i].
  - assert (bs = bs') as <-.
    { apply list_eq. intros j. apply (Hi (S j)). done. }
    by apply app_inv_tail in E as ->.
  - assert (b = b') as <- by (by injection (Hi O ltac:(done))).
    apply app_inv_head in E. f_equal. apply (IH bs' i); [done| |done].
    intros j Hj. apply (Hi (S j)). lia.
Qed.

(** The message hash is sensitive to every hashed field: if two published
    messages agree on all but one of pubsub topic, payload, content topic, meta and
    timestamp, and SHA-256 does not collide on their inputs, then equal hashes mean
    that field agrees as well. *)
Theorem hash_binds_each_field `{Sha256} (t t' : string) (m m' : WakuMessage) (i : nat) :
  (forall j, j <> i -> hash_blocks t m !! j = hash_blocks t' m' !! j) ->
  (sha256 (concat (hash_blocks t m)) = sha256 (concat (hash_blocks t' m')) ->
     concat (hash_blocks t m) = concat (hash_blocks t' m')) ->
  deterministic_hash t m = deterministic_hash t' m' ->
  hash_blocks t m = hash_blocks t' m'.
Proof.
  intros Hi Hcoll E. rewrite !deterministic_hash_blocks in E.
  apply (concat_one_block _ _ i); [done|done|by apply Hcoll].
Qed.

(** The hash does not separate the fields: whatever SHA-256 is, the end of the
    pubsub topic may be read as the start of the payload and the end of the payload
    as the start of the content topic, and the version, proof and ephemeral fields
    are not hashed at all, so different messages on different shards share one id. *)
Theorem hash_field_boundaries_collide `{Sha256} (t x y c : string) (p : bytes)
    (mt rl rl' : option bytes) (v v' ts : option Z) (e e' : option bool) :
  deterministic_hash (t +:+ x) (mkWakuMessage (p ++ as_bytes y) c v ts mt rl e) =
  deterministic_hash t (mkWakuMessage (as_bytes x ++ p) (y +:+ c) v' ts mt rl' e').
Proof.
  rewrite !deterministic_hash_blocks. f_equal. unfold hash_blocks; cbn.
  by rewrite !as_bytes_app, <- !app_assoc.
Qed.

Lemma hash_hex_spec `{Sha256} topic m :
  String.length (hash_hex (deterministic_hash topic m)) = 64%nat.
Proof.
  unfold hash_hex. by rewrite length_hex_of_bytes, deterministic_hash_length.
Qed.

(** ** [preset.rs] *)

Definition MAX_MESSAGE_SIZE : Z := 150 * 1024.
Definition RECOMMENDED_MESSAGE_SIZE : Z := 4 * 1024.
Definition TIMESTAMP_TOLERANCE_SECS : Z := 20.
Definition RLN_MAX_EPOCH_GAP_SECS : Z := 20.
Definition SHARD_BANDWIDTH_IGNORE_THRESHOLD_BPS : Z := 1000000.

Definition RELAY_PROTOCOL_ID := "/vac/waku/relay/2.0.0".
Definition METADATA_PROTOCOL_ID := "/vac/waku/metadata/1.0.0".
Definition STORE_QUERY_PROTOCOL_ID := "/vac/waku/store-query/3.0.0".
Definition FILTER_SUBSCRIBE_PROTOCOL_ID := "/vac/waku/filter-subscribe/2.0.0-beta1".
Definition FILTER_PUSH_PROTOCOL_ID := "/vac/waku/filter-push/2.0.0-beta1".
Definition LIGHTPUSH_PROTOCOL_ID := "/vac/waku/lightpush/3.0.0".
Definition PEER_EXCHANGE_PROTOCOL_ID := "/vac/waku/peer-exchange/2.0.0-alpha1".

Module NetworkPreset.

Record t : Type := mk {
  name : string;
  cluster_id : Z;              (* u16 *)
  shard_count : Z;             (* u16 *)
  rln_user_message_limit : Z;  (* u64 *)
  rln_epoch_size_secs : Z;     (* u64 *)
  dns_discovery_enrtree : string;
  rln_chain_id : Z;            (* u64 *)
  rln_contract_address : string;
}.

End NetworkPreset.

Definition TWN : NetworkPreset.t := {|
  NetworkPreset.name := "twn";
  NetworkPreset.cluster_id := 1;
  NetworkPreset.shard_count := 8;
  NetworkPreset.rln_user_message_limit := 100;
  NetworkPreset.rln_epoch_size_secs := 600;
  NetworkPreset.dns_discovery_enrtree :=
    "enrtree://AIRVQ5DDA4FFWLRBCHJWUWOO6X6S4ZTZ5B667LQ6AJU6PEYDLRD5O@sandbox.waku.nodes.status.im";
  NetworkPreset.rln_chain_id := 11155111;
  NetworkPreset.rln_contract_address := "0xCB33Aa5B38d79E3D9Fa8B10afF38AA201399a7e3";
|}.

Definition TEST_FLEET_ENRTREE :=
  "enrtree://AOGYWMBYOUIMOENHXCHILPKY3ZRFEULMFI4DOM442QSZ73TT2A7VI@test.waku.nodes.status.im".

(** [(0..n).collect()] over [u16]. *)
Definition u16_range (n : Z) : list Z := Z.of_nat <$> seq 0 (Z.to_nat n).

(** ** A concrete digest for the witnesses

    The input, cut or padded with zeros to 32 bytes. *)
Definition toy_digest (m : bytes) : bytes := take 32 (m ++ replicate 32 x00).

Lemma toy_digest_length m : length (toy_digest m) = 32%nat.
Proof. unfold toy_digest. rewrite length_take, length_app, length_replicate. lia. Qed.

Definition toy_sha256 : Sha256 := {| sha256 := toy_digest; sha256_length := toy_digest_length |}.

Definition sample_message : WakuMessage :=
  message_new "/toychat/2/huilong/proto" (as_bytes "hello").

Lemma pubsub_topic_roundtrip_witness :
  ShardId.parse (ShardId.pubsub_topic (ShardId.new 1 3)) = Ok (ShardId.new 1 3) /\
  ShardId.pubsub_topic (ShardId.new 1 3) = "/waku/2/rs/1/3".
Proof.
  split; [|reflexivity].
  apply (proj1 ShardId.pubsub_topic_roundtrip). unfold ShardId.wf, in_u; cbn; lia.
Defined.

Lemma autoshard_spec_witness :
  exists s, @autoshard toy_sha256 1 (ContentTopic.mk "toychat" "2" "huilong" "proto") 8 = Some s /\
    0 <= ShardId.shard s < 8.
Proof.
  eexists. split; [reflexivity|].
  by apply (@autoshard_spec toy_sha256 1 (ContentTopic.mk "toychat" "2" "huilong" "proto") 8
    ltac:(unfold in_u; lia) ltac:(unfold in_u; lia)).
Defined.

Lemma hash_binds_each_field_witness :
  @deterministic_hash toy_sha256 "/waku/2/rs/1/0" sample_message <>
  @deterministic_hash toy_sha256 "/waku/2/rs/1/0"
    (mkWakuMessage (as_bytes "world") "/toychat/2/huilong/proto" None None None None None).
Proof.
  intros E.
  assert (hash_blocks "/waku/2/rs/1/0" sample_message =
    hash_blocks "/waku/2/rs/1/0"
      (mkWakuMessage (as_bytes "world") "/toychat/2/huilong/proto" None None None None None)) as B.
  { apply (@hash_binds_each_field toy_sha256 _ _ _ _ 1); [| |exact E].
    - intros [|[|[|[|[|j]]]]] Hj; try reflexivity; lia.
    - intros Hs. vm_compute in Hs. discriminate Hs. }
  vm_compute in B. discriminate B.
Defined.
