(* ===== verification/Sha2.v ===== *)
(** * Sha2: SHA-256, executable

    The [sha2] crate is a parameter of the library (the class [Sha256]).  This is FIPS 180-4
    as an instance of it, to run the definitions that hash on real digests. *)

From Stdlib Require Import Strings.Byte.
From stdpp Require Import base strings list numbers.
From S2P Require Import Prelude Bytes Text Core.

Open Scope Z_scope.

(** ** Words *)

Definition w32 (x : Z) : Z := x mod 2 ^ 32.
Definition rotr (n x : Z) : Z := w32 (Z.lor (Z.shiftr x n) (Z.shiftl x (32 - n))).
Definition ch (x y z : Z) : Z := Z.lxor (Z.land x y) (Z.land (Z.lxor x 0xffffffff) z).
Definition maj (x y z : Z) : Z := Z.lxor (Z.land x y) (Z.lxor (Z.land x z) (Z.land y z)).
Definition big_sigma0 (x : Z) : Z := Z.lxor (rotr 2 x) (Z.lxor (rotr 13 x) (rotr 22 x)).
Definition big_sigma1 (x : Z) : Z := Z.lxor (rotr 6 x) (Z.lxor (rotr 11 x) (rotr 25 x)).
Definition small_sigma0 (x : Z) : Z := Z.lxor (rotr 7 x) (Z.lxor (rotr 18 x) (Z.shiftr x 3)).
Definition small_sigma1 (x : Z) : Z := Z.lxor (rotr 17 x) (Z.lxor (rotr 19 x) (Z.shiftr x 10)).

(** ** Constants

    The first 32 bits of the fractional parts of the cube roots of the first 64 primes, and
    of the square roots of the first eight. *)

Definition prime (n : Z) : bool :=
  forallb (fun d => negb (n mod d =? 0)) (Z.of_nat <$> seq 2 (Z.to_nat (Z.sqrt n) - 1)).
Definition primes : list Z := List.filter prime (Z.of_nat <$> seq 2 310).

(** The integer cube root, from the highest of [n] bits down. *)
Fixpoint cube_root (n : nat) (acc x : Z) : Z :=
  match n with
  | O => acc
  | S n =>
      let t := acc + 2 ^ Z.of_nat n in
      cube_root n (if t * t * t <=? x then t else acc) x
  end.

Definition round_constants : list Z :=
  Eval vm_compute in (fun p => w32 (cube_root 36 0 (p * 2 ^ 96))) <$> primes.

(** ** Blocks *)

(** The eight words of the state. *)
Record chain : Type := mkChain { ha : Z; hb : Z; hc : Z; hd : Z; he : Z; hf : Z; hg : Z; hh : Z }.

Definition initial_chain : chain :=
  Eval vm_compute in
  let h i := w32 (Z.sqrt (nth i primes 0 * 2 ^ 64)) in
  mkChain (h 0%nat) (h 1%nat) (h 2%nat) (h 3%nat) (h 4%nat) (h 5%nat) (h 6%nat) (h 7%nat).

(** The message schedule, newest word first. *)
Fixpoint schedule (n : nat) (ws : list Z) : list Z :=
  match n with
  | O => ws
  | S n =>
      let at_ i := nth i ws 0 in
      schedule n (w32 (small_sigma1 (at_ 1%nat) + at_ 6%nat + small_sigma0 (at_ 14%nat) + at_ 15%nat) :: ws)
  end.

Definition round (s : chain) (kw : Z * Z) : chain :=
  let t1 := hh s + big_sigma1 (he s) + ch (he s) (hf s) (hg s) + kw.1 + kw.2 in
  let t2 := big_sigma0 (ha s) + maj (ha s) (hb s) (hc s) in
  mkChain (w32 (t1 + t2)) (ha s) (hb s) (hc s) (w32 (hd s + t1)) (he s) (hf s) (hg s).

Definition compress (s : chain) (block : list Z) : chain :=
  let r := foldl round s (combine round_constants (reverse (schedule 48 (reverse block)))) in
  mkChain (w32 (ha s + ha r)) (w32 (hb s + hb r)) (w32 (hc s + hc r)) (w32 (hd s + hd r))
    (w32 (he s + he r)) (w32 (hf s + hf r)) (w32 (hg s + hg r)) (w32 (hh s + hh r)).

(** ** Messages *)

(** One bit, zeros, and the length in bits. *)
Definition padded (m : bytes) : bytes :=
  let n := length m in
  m ++ [x80] ++ replicate ((119 - n mod 64) mod 64) x00 ++ to_be_bytes 8 (8 * Z.of_nat n).

Fixpoint words (n : nat) (m : bytes) : list Z :=
  match n with O => [] | S n => from_be_bytes (take 4 m) :: words n (drop 4 m) end.

Fixpoint blocks (n : nat) (m : bytes) : list (list Z) :=
  match n with O => [] | S n => words 16 m :: blocks n (drop 64 m) end.

Definition sha2_digest (m : bytes) : bytes :=
  let p := padded m in
  let s := foldl compress initial_chain (blocks (length p / 64) p) in
  [ha s; hb s; hc s; hd s; he s; hf s; hg s; hh s] ≫= to_be_bytes 4.

Lemma sha2_digest_length m : length (sha2_digest m) = 32%nat.
Proof.
  unfold sha2_digest. cbn [mbind list_bind]. by rewrite !length_app, !length_to_be_bytes.
Qed.

Definition sha2 : Sha256 := {| sha256 := sha2_digest; sha256_length := sha2_digest_length |}.

(** The examples of the standard, of none, one and two blocks. *)
Lemma sha2_vectors :
  hex_of_bytes (sha2_digest []) =
    "e3b0c44298fc1c149afbf4c8996fb92427ae41e4649b934ca495991b7852b855" /\
  hex_of_bytes (sha2_digest (as_bytes "abc")) =
    "ba7816bf8f01cfea414140de5dae2223b00361a396177a9cb410ff61f20015ad" /\
  hex_of_bytes (sha2_digest (as_bytes "abcdbcdecdefdefgefghfghighijhijkijkljklmklmnlmnomnopnopq")) =
    "248d6a61d20638b8e5c026930c3e6039a33ce45964ff2167f6ecedd419db06c1".
Proof. by vm_compute. Qed.
