(* ===== verification/Framing.v ===== *)
(** * Framing: length-prefixed frames

    The five request/response crates ([waku-metadata], [waku-store],
    [waku-lightpush], [waku-peer-exchange], [waku-filter]) each carry the same
    four functions [read_uvarint], [write_uvarint], [read_lp] and [write_lp]; they
    differ in the frame limit and the text of one error.  The functions are
    translated here once, with those two as arguments; [Wire] instantiates them
    for each crate.

    An [AsyncRead] is the sequence of the bytes it will deliver before its end:
    [read_exact] hides how they arrive in pieces.  An [AsyncWrite] is the sequence
    written so far. *)

From Stdlib Require Import Strings.Byte Strings.Ascii.
From stdpp Require Import base gmap strings list numbers.
From S2P Require Import Prelude Bytes Text.

Open Scope Z_scope.

(** ** Input *)

(** The kinds the program makes; those of the operating system are [OtherKind]. *)
Inductive ErrorKind : Type := InvalidData | UnexpectedEof | OtherKind.

Record io_error : Type := mk_io_error { kind : ErrorKind; reason : string }.

#[export] Instance ErrorKind_eq_dec : EqDecision ErrorKind.
Proof. solve_decision. Defined.
#[export] Instance io_error_eq_dec : EqDecision io_error.
Proof. solve_decision. Defined.

(** A computation that reads from the stream; a failed one ends the stream. *)
Definition reader (A : Type) : Type := bytes -> result io_error (A * bytes).

#[export] Instance reader_ret : MRet reader := fun _ a io => Ok (a, io).
#[export] Instance reader_bind : MBind reader := fun _ _ f r io =>
  match r io with Ok (a, io) => f a io | Err e => Err e end.

Definition fail {A} (e : io_error) : reader A := fun _ => Err e.

(** [AsyncReadExt::read_exact] into a buffer of [n] bytes. *)
Definition read_exact (n : nat) : reader bytes := fun io =>
  if decide (n <= length io)%nat then Ok (take n io, drop n io)
  else Err (mk_io_error UnexpectedEof "failed to fill whole buffer").

Lemma read_exact_app n l rest :
  length l = n -> read_exact n (l ++ rest) = Ok (l, rest).
Proof.
  intros <-. unfold read_exact. rewrite decide_True by (rewrite length_app; lia).
  by rewrite take_app_length, drop_app_length.
Qed.

(** ** [read_uvarint]

    The loop reads one byte per turn, so the recursion is on the stream; [value]
    is a [u64] and [shift] a [u32], and [<<] drops the bits above bit 63. *)

Fixpoint read_uvarint_loop (value shift : Z) (io : bytes) : result io_error (Z * bytes) :=
  match io with
  | [] => Err (mk_io_error UnexpectedEof "failed to fill whole buffer")
  | byte :: io =>
      let value := Z.lor value (as_u64 (Z.shiftl (Z.land (u8 byte) 0x7f) shift)) in
      if decide (Z.land (u8 byte) 0x80 = 0) then Ok (value, io)
      else
        let shift := shift + 7 in
        if decide (64 <= shift) then Err (mk_io_error InvalidData "varint overflow")
        else read_uvarint_loop value shift io
  end.

Definition read_uvarint : reader Z := read_uvarint_loop 0 0.

(** ** [write_uvarint]

    [None] is the panic of the store [buf[i] = byte] out of bounds.  A turn beyond
    the buffer's length panics, so eleven turns of fuel are never exhausted. *)

Fixpoint write_uvarint_loop (fuel : nat) (buf : bytes) (i : nat) (v : Z)
    : option (bytes * nat) :=
  match fuel with
  | O => None
  | S fuel =>
      let byte := Z.land v 0x7f in
      let v := Z.shiftr v 7 in
      let byte := if decide (v <> 0) then Z.lor byte 0x80 else byte in
      if decide (i < length buf)%nat then
        let buf := <[i := byte_of byte]> buf in
        let i := S i in
        if decide (v = 0) then Some (buf, i) else write_uvarint_loop fuel buf i v
      else None
  end.

Definition write_uvarint (buf : bytes) (v : Z) : option (bytes * nat) :=
  write_uvarint_loop 11 buf 0 v.

(** ** [read_lp] and [write_lp] *)

Section LengthPrefixed.
Context (MAX_FRAME_LEN : Z) (too_long : string).

Definition read_lp : reader bytes :=
  len ← read_uvarint;
  if decide (MAX_FRAME_LEN < len) then fail (mk_io_error InvalidData too_long)
  else read_exact (Z.to_nat len).

Definition write_lp (sink : bytes) (data : bytes) : option bytes :=
  '(prefix, n) ← write_uvarint (replicate 10 x00) (Z.of_nat (length data));
  Some ((sink ++ take n prefix) ++ data).

End LengthPrefixed.

(** ** The wire form of a varint *)

(** LEB128 of [v] in at most [n] bytes. *)
Fixpoint leb128 (n : nat) (v : Z) : bytes :=
  match n with
  | O => []
  | S n =>
      if decide (v < 128) then [byte_of v]
      else byte_of (128 + v mod 128) :: leb128 n (v / 128)
  end.

(** The bytes [write_uvarint] emits for a [u64]. *)
Definition uvarint (v : Z) : bytes := leb128 10 v.

Definition continues (b : byte) : bool := bool_decide (128 <= u8 b).

Lemma land_7f b : Z.land (u8 b) 0x7f = u8 b mod 128.
Proof. apply (Z.land_ones (u8 b) 7). lia. Qed.

Lemma land_80 b : Z.land (u8 b) 0x80 = 0 <-> u8 b < 128.
Proof. destruct b; cbn; split; (done || lia). Qed.

(** One turn of the reading loop, in arithmetic. *)
Lemma read_uvarint_loop_cons value shift b io :
  read_uvarint_loop value shift (b :: io) =
    let value := Z.lor value (as_u64 (Z.shiftl (u8 b mod 128) shift)) in
    if decide (u8 b < 128) then Ok (value, io)
    else if decide (64 <= shift + 7) then Err (mk_io_error InvalidData "varint overflow")
    else read_uvarint_loop value (shift + 7) io.
Proof.
  cbn [read_uvarint_loop]. rewrite land_7f.
  by rewrite (decide_ext (Z.land (u8 b) 128 = 0) (u8 b < 128)) by apply land_80.
Qed.

Lemma lor_shiftl_add a x s :
  0 <= s -> 0 <= a < 2 ^ s -> Z.lor a (Z.shiftl x s) = a + x * 2 ^ s.
Proof.
  intros Hs Ha. rewrite <- Z.shiftl_mul_pow2 by lia.
  assert (Z.land a (Z.shiftl x s) = 0) as Hz.
  { apply Z.bits_inj'; intros i Hi. rewrite Z.land_spec, Z.bits_0.
    destruct (decide (i < s)).
    - by rewrite (Z.shiftl_spec_low x s i), andb_false_r.
    - rewrite <- (Z.mod_small a (2 ^ s)) by lia.
      by rewrite Z.mod_pow2_bits_high by lia. }
  by rewrite Z.add_nocarry_lxor, Z.lxor_lor by done.
Qed.

Lemma lor_80 x : 0 <= x < 128 -> Z.lor x 0x80 = 128 + x.
Proof.
  intros Hx. pose proof (lor_shiftl_add x 1 7 ltac:(lia) ltac:(lia)) as E.
  change (Z.shiftl 1 7) with 128 in E. rewrite E. lia.
Qed.

(** ** Writing *)

(** Writing at offset [i] emits [leb128] of the value into the buffer. *)
Lemma write_uvarint_loop_spec fuel n pre post v :
  0 <= v < 128 ^ Z.of_nat n -> (0 < n <= length post)%nat -> (n <= fuel)%nat ->
  exists post',
    write_uvarint_loop fuel (pre ++ post) (length pre) v =
      Some (pre ++ leb128 n v ++ post', (length pre + length (leb128 n v))%nat).
Proof.
  revert fuel pre post v; induction n as [|n IH]; intros fuel pre post v Hv Hn Hf; [lia|].
  destruct fuel as [|fuel]; [lia|]. destruct post as [|p post]; [cbn in Hn; lia|].
  replace (Z.of_nat (S n)) with (Z.succ (Z.of_nat n)) in Hv by lia.
  rewrite Z.pow_succ_r in Hv by lia.
  cbn [write_uvarint_loop leb128].
  change 0x7f with (Z.ones 7).
  rewrite (Z.shiftr_div_pow2 v 7), (Z.land_ones v 7) by lia. change (2 ^ 7) with 128.
  pose proof (Z.mod_pos_bound v 128 ltac:(lia)).
  pose proof (Z.div_mod v 128 ltac:(lia)).
  rewrite (decide_True (P := (length pre < length (pre ++ p :: post))%nat))
    by (rewrite length_app; cbn; lia).
  rewrite insert_app_r_alt, Nat.sub_diag by lia. cbn [insert list_insert].
  destruct (decide (v < 128)) as [Hs|Hs].
  - assert (v / 128 = 0) as -> by (by apply Z.div_small; lia).
    rewrite decide_True, decide_False by lia.
    exists post. rewrite Z.mod_small by lia. cbn. by rewrite Nat.add_1_r.
  - assert (0 < v / 128) by (apply Z.div_str_pos; lia).
    rewrite decide_False, decide_True by lia. rewrite lor_80 by lia.
    assert (v / 128 < 128 ^ Z.of_nat n) by (apply Z.div_lt_upper_bound; lia).
    assert (n <> O) by (intros ->; cbn in *; lia).
    destruct (IH fuel (pre ++ [byte_of (128 + v mod 128)]) post (v / 128)
      ltac:(lia) ltac:(cbn in Hn; lia) ltac:(lia)) as [post' E].
    exists post'. rewrite length_app, Nat.add_1_r, <- app_assoc in E. cbn in E.
    rewrite E, <- app_assoc. cbn. do 2 f_equal. lia.
Qed.

Lemma u64_leb128 v : in_u64 v -> 0 <= v < 128 ^ Z.of_nat 10.
Proof. unfold in_u. change (128 ^ Z.of_nat 10) with (2 ^ 70). lia. Qed.

Lemma write_uvarint_spec v :
  in_u64 v ->
  exists post, write_uvarint (replicate 10 x00) v =
    Some (uvarint v ++ post, length (uvarint v)).
Proof.
  intros Hv.
  destruct (write_uvarint_loop_spec 11 10 [] (replicate 10 x00) v (u64_leb128 v Hv))
    as [post E]; [cbn; lia..|].
  exists post. exact E.
Qed.

Lemma write_lp_spec sink data :
  in_u64 (Z.of_nat (length data)) ->
  write_lp sink data = Some (sink ++ uvarint (Z.of_nat (length data)) ++ data).
Proof.
  intros Hd. unfold write_lp. destruct (write_uvarint_spec _ Hd) as [post ->]. cbn.
  by rewrite take_app_length, <- app_assoc.
Qed.

Lemma length_leb128 n v : (0 < n)%nat -> (1 <= length (leb128 n v) <= n)%nat.
Proof.
  revert v; induction n as [|n IH]; intros v Hn; [lia|]. cbn.
  case_decide; cbn; [lia|]. destruct n as [|n]; [cbn; lia|].
  specialize (IH (v / 128) ltac:(lia)). lia.
Qed.

(** ** Reading *)

Lemma lor_u64 a b : in_u64 a -> in_u64 b -> in_u64 (Z.lor a b).
Proof.
  unfold in_u. intros Ha Hb.
  assert (0 <= Z.lor a b) by (apply Z.lor_nonneg; lia).
  enough (Z.lor a b / 2 ^ 64 = 0) as E by (apply Z.div_small_iff in E; lia).
  rewrite <- Z.shiftr_div_pow2, Z.shiftr_lor, !Z.shiftr_div_pow2 by lia.
  by rewrite !Z.div_small by lia.
Qed.

Lemma read_uvarint_loop_leb128 n v value shift rest :
  0 <= v < 128 ^ Z.of_nat n -> (0 < n)%nat -> 0 <= shift ->
  v * 2 ^ shift < 2 ^ 64 -> 0 <= value < 2 ^ shift ->
  read_uvarint_loop value shift (leb128 n v ++ rest) = Ok (value + v * 2 ^ shift, rest).
Proof.
  revert v value shift; induction n as [|n IH]; intros v value shift Hv Hn Hs Hfit Hval; [lia|].
  replace (Z.of_nat (S n)) with (Z.succ (Z.of_nat n)) in Hv by lia.
  rewrite Z.pow_succ_r in Hv by lia. cbn [leb128].
  pose proof (Z.mod_pos_bound v 128 ltac:(lia)) as Hm.
  pose proof (Z.div_mod v 128 ltac:(lia)) as Hd.
  pose proof (pow2_pos shift Hs).
  assert (forall x, 0 <= x <= v -> as_u64 (Z.shiftl x shift) = Z.shiftl x shift) as Hu.
  { intros x Hx. apply wrap_unsigned_small. unfold in_u.
    rewrite Z.shiftl_mul_pow2 by lia. nia. }
  destruct (decide (v < 128)) as [Hlt|Hge]; cbn [app];
    rewrite read_uvarint_loop_cons, u8_byte_of; cbv zeta.
  - rewrite (Z.mod_small v 256), (Z.mod_small v 128) by lia.
    rewrite decide_True by done. by rewrite Hu, lor_shiftl_add by lia.
  - rewrite (Z.mod_small (128 + _) 256) by lia.
    replace ((128 + v mod 128) mod 128) with (v mod 128)
      by (Z.div_mod_to_equations; lia).
    rewrite decide_False by lia. rewrite Hu, lor_shiftl_add by lia.
    assert (0 < v / 128) by (apply Z.div_str_pos; lia).
    assert (shift + 7 < 64).
    { apply (Z.pow_lt_mono_r_iff 2); [lia..|]. rewrite Z.pow_add_r by lia.
      change (2 ^ 7) with 128. nia. }
    rewrite decide_False by lia.
    assert (2 ^ (shift + 7) = 128 * 2 ^ shift) as Hp
      by (rewrite Z.pow_add_r by lia; lia).
    assert (n <> O) by (intros ->; cbn in *; lia).
    rewrite IH; [|rewrite ?Hp; nia..]. do 2 f_equal. rewrite Hp. nia.
Qed.

Lemma read_uvarint_app v rest :
  in_u64 v -> read_uvarint (uvarint v ++ rest) = Ok (v, rest).
Proof.
  intros Hv. unfold read_uvarint, uvarint. rewrite read_uvarint_loop_leb128.
  - do 2 f_equal; lia.
  - by apply u64_leb128.
  - lia.
  - lia.
  - unfold in_u in Hv; lia.
  - cbn; lia.
Qed.

(** What any run of the loop tells about the stream. *)
Lemma read_uvarint_loop_inv value shift io :
  in_u64 value -> 0 <= shift < 64 ->
  match read_uvarint_loop value shift io with
  | Ok (v, rest) =>
      in_u64 v /\ exists pre b, io = pre ++ b :: rest /\ Forall continues pre /\
        ~ continues b /\ shift + 7 * Z.of_nat (length pre) < 64
  | Err e =>
      (kind e = UnexpectedEof /\ Forall continues io /\
         shift + 7 * Z.of_nat (length io) < 64) \/
      (e = mk_io_error InvalidData "varint overflow" /\ exists pre rest,
         io = pre ++ rest /\ Forall continues pre /\
         64 <= shift + 7 * Z.of_nat (length pre) < 71)
  end.
Proof.
  revert value shift; induction io as [|b io IH]; intros value shift Hv Hs.
  - left. cbn. repeat split; [constructor|lia].
  - rewrite read_uvarint_loop_cons. cbv zeta. set (value' := Z.lor _ _).
    assert (in_u64 value') by (apply lor_u64; [done|apply wrap_unsigned_range; lia]).
    case_decide as Hb.
    + split; [done|]. exists [], b. unfold continues.
      repeat split; [constructor|intros ?%bool_decide_unpack; lia|cbn; lia].
    + assert (continues b) by (apply bool_decide_pack; lia). case_decide as H64.
      * right. split; [done|]. exists [b], io. repeat split; [by repeat constructor|cbn; lia..].
      * specialize (IH value' (shift + 7) ltac:(done) ltac:(lia)).
        destruct (read_uvarint_loop _ _ io) as [[v rest]|e].
        -- destruct IH as (? & pre & c & -> & ? & ? & ?). split; [done|].
           exists (b :: pre), c. repeat split; [by constructor|done|cbn; lia].
        -- destruct IH as [(? & ? & ?)|(? & pre & rest & -> & ? & ?)].
           ++ left. repeat split; [done|by constructor|cbn; lia].
           ++ right. split; [done|]. exists (b :: pre), rest.
              repeat split; [by constructor|cbn; lia..].
Qed.

(** C8. A varint survives the wire: for every [u64], [write_uvarint] fills its
    ten-byte buffer without an out-of-bounds store and [read_uvarint] reads the
    bytes back as the same value, leaving what follows in the stream. *)
Theorem uvarint_roundtrip (v : Z) (rest : bytes) :
  in_u64 v ->
  exists buf n, write_uvarint (replicate 10 x00) v = Some (buf, n) /\ (1 <= n <= 10)%nat /\
    read_uvarint (take n buf ++ rest) = Ok (v, rest).
Proof.
  intros Hv. destruct (write_uvarint_spec v Hv) as [post E].
  eexists _, _. split; [exact E|]. rewrite take_app_length.
  split; [by apply length_leb128; lia|]. by apply read_uvarint_app.
Qed.

Lemma uvarint_roundtrip_witness :
  exists buf n, write_uvarint (replicate 10 x00) (2 ^ 64 - 1) = Some (buf, n) /\
    (1 <= n <= 10)%nat /\ read_uvarint (take n buf ++ [x2a]) = Ok (2 ^ 64 - 1, [x2a]).
Proof. apply (uvarint_roundtrip (2 ^ 64 - 1) [x2a]). unfold in_u; lia. Defined.

(** [read_uvarint] on an arbitrary stream: it succeeds exactly at the first
    byte without a continuation bit among the first ten, with a [u64] and the rest
    of the stream; it reports the end of input when fewer than ten bytes arrived
    and all continue, and overflow when the first ten all continue. *)
Theorem read_uvarint_cases (io : bytes) :
  match read_uvarint io with
  | Ok (v, rest) =>
      in_u64 v /\ exists pre b, io = pre ++ b :: rest /\ Forall continues pre /\
        ~ continues b /\ (length pre < 10)%nat
  | Err e =>
      (kind e = UnexpectedEof /\ Forall continues io /\ (length io < 10)%nat) \/
      (e = mk_io_error InvalidData "varint overflow" /\ exists pre rest,
         io = pre ++ rest /\ Forall continues pre /\ length pre = 10%nat)
  end.
Proof.
  pose proof (read_uvarint_loop_inv 0 0 io ltac:(unfold in_u; lia) ltac:(lia)) as H.
  unfold read_uvarint. destruct (read_uvarint_loop 0 0 io) as [[v rest]|e].
  - destruct H as (? & pre & b & ? & ? & ? & ?). eauto 10 with lia.
  - destruct H as [(? & ? & ?)|(? & pre & rest & ? & ? & ?)]; [left; eauto with lia|].
    right. eauto 10 with lia.
Qed.

(** A ten-byte varint whose value does not fit 64 bits is not an overflow error:
    the bits of the tenth byte above bit 63 are dropped and the read succeeds. *)
Theorem read_uvarint_drops_high_bits (b : byte) (rest : bytes) :
  u8 b < 128 ->
  read_uvarint (replicate 9 x80 ++ b :: rest) = Ok ((u8 b mod 2) * 2 ^ 63, rest).
Proof. intros Hb. destruct b; first [reflexivity | by vm_compute in Hb]. Qed.

Lemma read_uvarint_drops_high_bits_witness :
  read_uvarint (replicate 9 x80 ++ [x7e; x2a]) = Ok (0, [x2a]).
Proof. apply (read_uvarint_drops_high_bits x7e [x2a]). reflexivity. Defined.

Section Frames.
Context (MAX_FRAME_LEN : Z) (too_long : string).

Lemma read_lp_prefix n io :
  in_u64 n ->
  read_lp MAX_FRAME_LEN too_long (uvarint n ++ io) =
    if decide (MAX_FRAME_LEN < n) then Err (mk_io_error InvalidData too_long)
    else read_exact (Z.to_nat n) io.
Proof.
  intros Hn. unfold read_lp. cbv [mbind reader_bind].
  rewrite read_uvarint_app by done. by case_decide.
Qed.

Lemma read_lp_frame data rest :
  Z.of_nat (length data) <= MAX_FRAME_LEN -> in_u64 MAX_FRAME_LEN ->
  read_lp MAX_FRAME_LEN too_long
    (uvarint (Z.of_nat (length data)) ++ data ++ rest) = Ok (data, rest).
Proof.
  intros Hd Hm. rewrite read_lp_prefix by (unfold in_u in *; lia).
  rewrite decide_False by lia. rewrite Nat2Z.id. by apply read_exact_app.
Qed.

Lemma lp_frame_read sink data rest :
  in_u64 MAX_FRAME_LEN -> in_u64 (Z.of_nat (length data)) ->
  exists frame, write_lp sink data = Some (sink ++ frame) /\
    read_lp MAX_FRAME_LEN too_long (frame ++ rest) =
      if decide (Z.of_nat (length data) <= MAX_FRAME_LEN) then Ok (data, rest)
      else Err (mk_io_error InvalidData too_long).
Proof.
  intros Hm Hd. eexists. split; [by apply write_lp_spec|].
  rewrite <- app_assoc. case_decide; [by apply read_lp_frame|].
  rewrite read_lp_prefix by done. by rewrite decide_True by lia.
Qed.

(** Whatever bytes a peer sends, a frame that [read_lp] returns is no longer
    than the limit and is the exact slice of the stream after a header of one to
    ten bytes: nothing is read beyond it and no larger buffer is allocated. *)
Theorem read_lp_bounded (io data rest : bytes) :
  read_lp MAX_FRAME_LEN too_long io = Ok (data, rest) ->
  Z.of_nat (length data) <= MAX_FRAME_LEN /\
  exists header, io = header ++ data ++ rest /\ (1 <= length header <= 10)%nat.
Proof.
  unfold read_lp. cbv [mbind reader_bind]. pose proof (read_uvarint_cases io) as H.
  destruct (read_uvarint io) as [[len io']|]; [|done].
  destruct H as (Hlen & pre & b & -> & _ & _ & Hpre).
  case_decide as Hmax; [done|]. unfold read_exact. case_decide as Hl; [|done].
  intros [= <- <-]. unfold in_u in Hlen. split; [rewrite length_take; lia|].
  exists (pre ++ [b]). rewrite take_drop, <- app_assoc. split; [done|].
  rewrite length_app; cbn; lia.
Qed.

End Frames.

Lemma read_lp_bounded_witness :
  exists header, [x82; x00; x01; x02; x03] = header ++ [x01; x02] ++ [x03] /\
    (1 <= length header <= 10)%nat.
Proof. apply (read_lp_bounded 2 "too long"). reflexivity. Defined.
