(* ===== verification/Wire.v ===== *)
(** * Wire: the messages and codecs of the request/response crates

    One module per crate ([waku-metadata], [waku-lightpush], [waku-peer-exchange],
    [waku-filter] and the wire part of [waku-store]): its messages with their
    constructors and accessors, its frame limit, and the four methods of its
    [request_response::Codec].

    The protobuf code is generated by [prost]: it is the parameter [Prost M], with
    the one law the codecs rely on, that decoding inverts encoding. *)

From Stdlib Require Import Strings.Byte Strings.Ascii.
From stdpp Require Import base gmap strings list numbers.
From S2P Require Import Prelude Bytes Text Core Framing.

Open Scope Z_scope.

Class Prost (M : Type) := {
  encode_to_vec : M -> bytes;
  prost_decode : bytes -> result string M;
  prost_decode_encode : forall m, prost_decode (encode_to_vec m) = Ok m;
}.

(** What every codec method does with a frame: protobuf, a decode error being
    reported as [InvalidData]. *)
Definition decode_frame {M} `{Prost M} (frames : reader bytes) : reader M :=
  frame ← frames;
  match prost_decode frame with
  | Ok m => mret m
  | Err e => fail (mk_io_error InvalidData e)
  end.

Definition encoded_size {M} `{Prost M} (m : M) : Z := Z.of_nat (length (encode_to_vec m)).

(** What a pair of codec methods owes its peer. *)
Definition codec_correct {M} `{Prost M} (max : Z)
    (write : bytes -> M -> option bytes) (read : reader M) : Prop :=
  forall sink m rest, in_u64 (encoded_size m) ->
    exists frame, write sink m = Some (sink ++ frame) /\
      if decide (encoded_size m <= max) then read (frame ++ rest) = Ok (m, rest)
      else exists e, read (frame ++ rest) = Err e /\ kind e = InvalidData.

Lemma frame_codec_correct {M} `{Prost M} max too_long :
  in_u64 max ->
  codec_correct max (fun sink m => Framing.write_lp sink (encode_to_vec m))
    (decode_frame (Framing.read_lp max too_long)).
Proof.
  intros Hm sink m rest Hs. unfold encoded_size in *.
  destruct (lp_frame_read max too_long sink (encode_to_vec m) rest Hm Hs)
    as (frame & Hw & Hr).
  exists frame. split; [exact Hw|]. unfold decode_frame. cbv [mbind reader_bind].
  rewrite Hr. case_decide; [by rewrite prost_decode_encode|eauto].
Qed.

(** ** [waku-metadata] *)

Module Metadata.

Definition MAX_FRAME_LEN : Z := 64 * 1024.

Record WakuMetadata : Type := mkWakuMetadata {
  cluster_id : option Z;       (* u32 *)
  shards : list Z;             (* u32 *)
}.

#[global] Instance WakuMetadata_eq_dec : EqDecision WakuMetadata.
Proof. solve_decision. Defined.

Section Codec.
Context `{Prost WakuMetadata}.

Definition read_uvarint : reader Z := Framing.read_uvarint.
Definition write_uvarint : bytes -> Z -> option (bytes * nat) := Framing.write_uvarint.

(** Here the frame functions also convert the message. *)
Definition read_lp : reader WakuMetadata :=
  decode_frame (Framing.read_lp MAX_FRAME_LEN "metadata frame exceeds maximum length").
Definition write_lp (sink : bytes) (msg : WakuMetadata) : option bytes :=
  Framing.write_lp sink (encode_to_vec msg).

Definition read_request : reader WakuMetadata := read_lp.
Definition read_response : reader WakuMetadata := read_lp.
Definition write_request (sink : bytes) (req : WakuMetadata) := write_lp sink req.
Definition write_response (sink : bytes) (res : WakuMetadata) := write_lp sink res.
End Codec.

End Metadata.

(** ** [waku-lightpush] *)

Module Lightpush.

Definition MAX_FRAME_LEN : Z := 1024 * 1024.

Record LightpushRequest : Type := mkLightpushRequest {
  req_request_id : string;
  req_pubsub_topic : string;
  req_message : option WakuMessage;
}.

Record LightpushResponse : Type := mkLightpushResponse {
  res_request_id : string;
  status_code : Z;             (* u32 *)
  status_desc : option string;
  relay_peer_count : Z;        (* u32 *)
}.

(** [LightpushResponse::ok]. *)
Definition ok (request_id : string) (relay_peer_count : Z) : LightpushResponse := {|
  res_request_id := request_id; status_code := 200; status_desc := Some "OK";
  relay_peer_count := relay_peer_count |}.

(** [LightpushResponse::error]. *)
Definition error (request_id : string) (status_code : Z) (desc : string) : LightpushResponse := {|
  res_request_id := request_id; status_code := status_code; status_desc := Some desc;
  relay_peer_count := 0 |}.

Section Codec.
Context `{Prost LightpushRequest, Prost LightpushResponse}.

Definition read_uvarint : reader Z := Framing.read_uvarint.
Definition write_uvarint : bytes -> Z -> option (bytes * nat) := Framing.write_uvarint.
Definition read_lp : reader bytes :=
  Framing.read_lp MAX_FRAME_LEN "lightpush frame exceeds maximum length".
Definition write_lp : bytes -> bytes -> option bytes := Framing.write_lp.

Definition read_request : reader LightpushRequest := decode_frame read_lp.
Definition read_response : reader LightpushResponse := decode_frame read_lp.
Definition write_request (sink : bytes) (req : LightpushRequest) := write_lp sink (encode_to_vec req).
Definition write_response (sink : bytes) (res : LightpushResponse) := write_lp sink (encode_to_vec res).
End Codec.

End Lightpush.

(** ** [waku-peer-exchange] *)

Module PeerExchange.

Definition MAX_FRAME_LEN : Z := 1024 * 1024.

Record PeerInfo : Type := mkPeerInfo { enr : bytes }.
Record PeerExchangeQuery : Type := mkPeerExchangeQuery { num_peers : Z (* u64 *) }.
Record PeerExchangeResponse : Type := mkPeerExchangeResponse { peer_infos : list PeerInfo }.
Record PeerExchangeRpc : Type := mkPeerExchangeRpc {
  rpc_query : option PeerExchangeQuery;
  rpc_response : option PeerExchangeResponse;
}.

(** [PeerExchangeRpc::query]. *)
Definition query (num_peers : Z) : PeerExchangeRpc :=
  {| rpc_query := Some (mkPeerExchangeQuery num_peers); rpc_response := None |}.

(** [PeerExchangeRpc::response]. *)
Definition response (enrs : list bytes) : PeerExchangeRpc :=
  {| rpc_query := None; rpc_response := Some (mkPeerExchangeResponse (mkPeerInfo <$> enrs)) |}.

(** [PeerExchangeRpc::requested]. *)
Definition requested (rpc : PeerExchangeRpc) : option Z := num_peers <$> rpc_query rpc.

(** [PeerExchangeRpc::enrs]. *)
Definition enrs (rpc : PeerExchangeRpc) : list bytes :=
  default [] ((fun r => enr <$> peer_infos r) <$> rpc_response rpc).

Lemma requested_query n : requested (query n) = Some n.
Proof. done. Qed.
Lemma enrs_query n : enrs (query n) = [].
Proof. done. Qed.
Lemma enrs_response l : enrs (response l) = l.
Proof.
  unfold enrs, response; cbn. rewrite <- list_fmap_compose. apply list_fmap_id.
Qed.
Lemma requested_response l : requested (response l) = None.
Proof. done. Qed.

Section Codec.
Context `{Prost PeerExchangeRpc}.

Definition read_uvarint : reader Z := Framing.read_uvarint.
Definition write_uvarint : bytes -> Z -> option (bytes * nat) := Framing.write_uvarint.
Definition read_lp : reader bytes :=
  Framing.read_lp MAX_FRAME_LEN "peer-exchange frame exceeds maximum length".
Definition write_lp : bytes -> bytes -> option bytes := Framing.write_lp.

Definition read_request : reader PeerExchangeRpc := decode_frame read_lp.
Definition read_response : reader PeerExchangeRpc := decode_frame read_lp.
Definition write_request (sink : bytes) (req : PeerExchangeRpc) := write_lp sink (encode_to_vec req).
Definition write_response (sink : bytes) (res : PeerExchangeRpc) := write_lp sink (encode_to_vec res).
End Codec.

End PeerExchange.

(** ** [waku-filter] *)

Module Filter.

Definition MAX_FRAME_LEN : Z := 1024 * 1024.

(** [mod subscribe_type]. *)
Definition PING : Z := 0.
Definition SUBSCRIBE : Z := 1.
Definition UNSUBSCRIBE : Z := 2.
Definition UNSUBSCRIBE_ALL : Z := 3.

Record FilterSubscribeRequest : Type := mkFilterSubscribeRequest {
  req_request_id : string;
  filter_subscribe_type : Z;       (* i32 *)
  pubsub_topic : option string;
  content_topics : list string;
}.

Record FilterSubscribeResponse : Type := mkFilterSubscribeResponse {
  res_request_id : string;
  status_code : Z;                 (* u32 *)
  status_desc : option string;
}.

(** [FilterSubscribeResponse::ok]. *)
Definition ok (request_id : string) : FilterSubscribeResponse := {|
  res_request_id := request_id; status_code := 200; status_desc := Some "OK" |}.

(** [FilterSubscribeResponse::error]. *)
Definition error (request_id : string) (code : Z) (desc : string) : FilterSubscribeResponse := {|
  res_request_id := request_id; status_code := code; status_desc := Some desc |}.

Record MessagePush : Type := mkMessagePush {
  waku_message : option WakuMessage;
  push_pubsub_topic : option string;
}.

Record FilterPushResponse : Type := mkFilterPushResponse { push_status_code : Z (* u32 *) }.

Definition read_uvarint : reader Z := Framing.read_uvarint.
Definition write_uvarint : bytes -> Z -> option (bytes * nat) := Framing.write_uvarint.
Definition read_lp : reader bytes :=
  Framing.read_lp MAX_FRAME_LEN "filter frame exceeds maximum length".
Definition write_lp : bytes -> bytes -> option bytes := Framing.write_lp.

Module SubscribeCodec.
Section Codec.
Context `{Prost FilterSubscribeRequest, Prost FilterSubscribeResponse}.
Definition read_request : reader FilterSubscribeRequest := decode_frame read_lp.
Definition read_response : reader FilterSubscribeResponse := decode_frame read_lp.
Definition write_request (sink : bytes) (req : FilterSubscribeRequest) :=
  write_lp sink (encode_to_vec req).
Definition write_response (sink : bytes) (res : FilterSubscribeResponse) :=
  write_lp sink (encode_to_vec res).
End Codec.
End SubscribeCodec.

Module PushCodec.
Section Codec.
Context `{Prost MessagePush, Prost FilterPushResponse}.
Definition read_request : reader MessagePush := decode_frame read_lp.
Definition read_response : reader FilterPushResponse := decode_frame read_lp.
Definition write_request (sink : bytes) (req : MessagePush) :=
  write_lp sink (encode_to_vec req).
Definition write_response (sink : bytes) (res : FilterPushResponse) :=
  write_lp sink (encode_to_vec res).
End Codec.
End PushCodec.

End Filter.

(** ** [waku-store], the wire types *)

Module StoreWire.

Definition MAX_FRAME_LEN : Z := 100 * 1024 * 1024.

Record StoreQueryRequest : Type := mkStoreQueryRequest {
  req_request_id : string;
  include_data : bool;
  pubsub_topic : option string;
  content_topics : list string;
  time_start : option Z;           (* i64 *)
  time_end : option Z;             (* i64 *)
  message_hashes : list bytes;
  req_pagination_cursor : option bytes;
  pagination_forward : bool;
  pagination_limit : option Z;     (* u64 *)
}.

Record WakuMessageKeyValue : Type := mkWakuMessageKeyValue {
  message_hash : option bytes;
  message : option WakuMessage;
  kv_pubsub_topic : option string;
}.

Record StoreQueryResponse : Type := mkStoreQueryResponse {
  res_request_id : string;
  status_code : option Z;          (* u32 *)
  status_desc : option string;
  messages : list WakuMessageKeyValue;
  pagination_cursor : option bytes;
}.

Definition read_uvarint : reader Z := Framing.read_uvarint.
Definition write_uvarint : bytes -> Z -> option (bytes * nat) := Framing.write_uvarint.
Definition read_lp : reader bytes :=
  Framing.read_lp MAX_FRAME_LEN "store frame exceeds maximum length".
Definition write_lp : bytes -> bytes -> option bytes := Framing.write_lp.

Section Codec.
Context `{Prost StoreQueryRequest, Prost StoreQueryResponse}.
Definition read_request : reader StoreQueryRequest := decode_frame read_lp.
Definition read_response : reader StoreQueryResponse := decode_frame read_lp.
Definition write_request (sink : bytes) (req : StoreQueryRequest) :=
  write_lp sink (encode_to_vec req).
Definition write_response (sink : bytes) (res : StoreQueryResponse) :=
  write_lp sink (encode_to_vec res).
End Codec.

End StoreWire.

(** ** The codecs meet their contract *)

Section Codecs.
Context `{Prost Metadata.WakuMetadata,
  Prost Lightpush.LightpushRequest, Prost Lightpush.LightpushResponse,
  Prost PeerExchange.PeerExchangeRpc,
  Prost Filter.FilterSubscribeRequest, Prost Filter.FilterSubscribeResponse,
  Prost Filter.MessagePush, Prost Filter.FilterPushResponse,
  Prost StoreWire.StoreQueryRequest, Prost StoreWire.StoreQueryResponse}.

(** C9. Every request and response of the six protocols survives its codec: the
    writer never panics and appends one frame; if the encoding is within the
    crate's frame limit the reader returns the same message and leaves the bytes
    that follow, and otherwise it fails with [InvalidData]. *)
Theorem codecs_roundtrip :
  (codec_correct Metadata.MAX_FRAME_LEN Metadata.write_request Metadata.read_request /\
   codec_correct Metadata.MAX_FRAME_LEN Metadata.write_response Metadata.read_response) /\
  (codec_correct Lightpush.MAX_FRAME_LEN Lightpush.write_request Lightpush.read_request /\
   codec_correct Lightpush.MAX_FRAME_LEN Lightpush.write_response Lightpush.read_response) /\
  (codec_correct PeerExchange.MAX_FRAME_LEN
     PeerExchange.write_request PeerExchange.read_request /\
   codec_correct PeerExchange.MAX_FRAME_LEN
     PeerExchange.write_response PeerExchange.read_response) /\
  (codec_correct Filter.MAX_FRAME_LEN
     Filter.SubscribeCodec.write_request Filter.SubscribeCodec.read_request /\
   codec_correct Filter.MAX_FRAME_LEN
     Filter.SubscribeCodec.write_response Filter.SubscribeCodec.read_response) /\
  (codec_correct Filter.MAX_FRAME_LEN
     Filter.PushCodec.write_request Filter.PushCodec.read_request /\
   codec_correct Filter.MAX_FRAME_LEN
     Filter.PushCodec.write_response Filter.PushCodec.read_response) /\
  (codec_correct StoreWire.MAX_FRAME_LEN StoreWire.write_request StoreWire.read_request /\
   codec_correct StoreWire.MAX_FRAME_LEN StoreWire.write_response StoreWire.read_response).
Proof. repeat split; apply frame_codec_correct; done. Qed.

End Codecs.

(** ** A concrete [Prost] for the witnesses: the bits of the [Countable] encoding. *)

Fixpoint pos_bits (p : positive) : bytes :=
  match p with
  | xH => []
  | xO p => x00 :: pos_bits p
  | xI p => x01 :: pos_bits p
  end.

Fixpoint bits_pos (l : bytes) : positive :=
  match l with
  | [] => xH
  | x00 :: l => xO (bits_pos l)
  | _ :: l => xI (bits_pos l)
  end.

Lemma bits_pos_bits p : bits_pos (pos_bits p) = p.
Proof. induction p as [p IH|p IH|]; cbn; by rewrite ?IH. Qed.

Definition countable_decode {M} `{Countable M} (l : bytes) : result string M :=
  ok_or "cannot decode" (decode (bits_pos l)).

Program Definition countable_prost {M} `{Countable M} : Prost M := {|
  encode_to_vec m := pos_bits (encode m);
  prost_decode := countable_decode;
|}.
Next Obligation.
  intros M ?? m. unfold countable_decode. by rewrite bits_pos_bits, decode_encode.
Qed.

(** Decidable equality and countability of the messages, field by field. *)

Ltac record_countable := intros []; reflexivity.

#[export] Instance WakuMessage_countable : Countable WakuMessage.
Proof.
  refine (inj_countable'
    (fun m => (payload m, content_topic m, version m, timestamp m, meta m,
               rate_limit_proof m, ephemeral m))
    (fun '(a, b, c, d, e, f, g) => mkWakuMessage a b c d e f g) _).
  record_countable.
Defined.

#[export] Instance WakuMetadata_countable : Countable Metadata.WakuMetadata.
Proof.
  refine (inj_countable'
    (fun m => (Metadata.cluster_id m, Metadata.shards m))
    (fun '(a, b) => Metadata.mkWakuMetadata a b) _).
  record_countable.
Defined.

#[export] Instance LightpushRequest_eq_dec : EqDecision Lightpush.LightpushRequest.
Proof. solve_decision. Defined.
#[export] Instance LightpushRequest_countable : Countable Lightpush.LightpushRequest.
Proof.
  refine (inj_countable'
    (fun m => (Lightpush.req_request_id m, Lightpush.req_pubsub_topic m, Lightpush.req_message m))
    (fun '(a, b, c) => Lightpush.mkLightpushRequest a b c) _).
  record_countable.
Defined.

#[export] Instance LightpushResponse_eq_dec : EqDecision Lightpush.LightpushResponse.
Proof. solve_decision. Defined.
#[export] Instance LightpushResponse_countable : Countable Lightpush.LightpushResponse.
Proof.
  refine (inj_countable'
    (fun m => (Lightpush.res_request_id m, Lightpush.status_code m, Lightpush.status_desc m,
      Lightpush.relay_peer_count m))
    (fun '(a, b, c, d) => Lightpush.mkLightpushResponse a b c d) _).
  record_countable.
Defined.

#[export] Instance PeerInfo_eq_dec : EqDecision PeerExchange.PeerInfo.
Proof. solve_decision. Defined.
#[export] Instance PeerInfo_countable : Countable PeerExchange.PeerInfo.
Proof.
  refine (inj_countable'
    (fun m => PeerExchange.enr m)
    PeerExchange.mkPeerInfo _).
  record_countable.
Defined.

#[export] Instance PeerExchangeQuery_eq_dec : EqDecision PeerExchange.PeerExchangeQuery.
Proof. solve_decision. Defined.
#[export] Instance PeerExchangeQuery_countable : Countable PeerExchange.PeerExchangeQuery.
Proof.
  refine (inj_countable'
    (fun m => PeerExchange.num_peers m)
    PeerExchange.mkPeerExchangeQuery _).
  record_countable.
Defined.

#[export] Instance PeerExchangeResponse_eq_dec : EqDecision PeerExchange.PeerExchangeResponse.
Proof. solve_decision. Defined.
#[export] Instance PeerExchangeResponse_countable : Countable PeerExchange.PeerExchangeResponse.
Proof.
  refine (inj_countable'
    (fun m => PeerExchange.peer_infos m)
    PeerExchange.mkPeerExchangeResponse _).
  record_countable.
Defined.

#[export] Instance PeerExchangeRpc_eq_dec : EqDecision PeerExchange.PeerExchangeRpc.
Proof. solve_decision. Defined.
#[export] Instance PeerExchangeRpc_countable : Countable PeerExchange.PeerExchangeRpc.
Proof.
  refine (inj_countable'
    (fun m => (PeerExchange.rpc_query m, PeerExchange.rpc_response m))
    (fun '(a, b) => PeerExchange.mkPeerExchangeRpc a b) _).
  record_countable.
Defined.

#[export] Instance FilterSubscribeRequest_eq_dec : EqDecision Filter.FilterSubscribeRequest.
Proof. solve_decision. Defined.
#[export] Instance FilterSubscribeRequest_countable : Countable Filter.FilterSubscribeRequest.
Proof.
  refine (inj_countable'
    (fun m => (Filter.req_request_id m, Filter.filter_subscribe_type m, Filter.pubsub_topic m,
      Filter.content_topics m))
    (fun '(a, b, c, d) => Filter.mkFilterSubscribeRequest a b c d) _).
  record_countable.
Defined.

#[export] Instance FilterSubscribeResponse_eq_dec : EqDecision Filter.FilterSubscribeResponse.
Proof. solve_decision. Defined.
#[export] Instance FilterSubscribeResponse_countable : Countable Filter.FilterSubscribeResponse.
Proof.
  refine (inj_countable'
    (fun m => (Filter.res_request_id m, Filter.status_code m, Filter.status_desc m))
    (fun '(a, b, c) => Filter.mkFilterSubscribeResponse a b c) _).
  record_countable.
Defined.

#[export] Instance MessagePush_eq_dec : EqDecision Filter.MessagePush.
Proof. solve_decision. Defined.
#[export] Instance MessagePush_countable : Countable Filter.MessagePush.
Proof.
  refine (inj_countable'
    (fun m => (Filter.waku_message m, Filter.push_pubsub_topic m))
    (fun '(a, b) => Filter.mkMessagePush a b) _).
  record_countable.
Defined.

#[export] Instance FilterPushResponse_eq_dec : EqDecision Filter.FilterPushResponse.
Proof. solve_decision. Defined.
#[export] Instance FilterPushResponse_countable : Countable Filter.FilterPushResponse.
Proof.
  refine (inj_countable'
    (fun m => Filter.push_status_code m)
    Filter.mkFilterPushResponse _).
  record_countable.
Defined.

#[export] Instance StoreQueryRequest_eq_dec : EqDecision StoreWire.StoreQueryRequest.
Proof. solve_decision. Defined.
#[export] Instance StoreQueryRequest_countable : Countable StoreWire.StoreQueryRequest.
Proof.
  refine (inj_countable'
    (fun m => (StoreWire.req_request_id m, StoreWire.include_data m, StoreWire.pubsub_topic m,
      StoreWire.content_topics m, StoreWire.time_start m, StoreWire.time_end m,
      StoreWire.message_hashes m, StoreWire.req_pagination_cursor m, StoreWire.pagination_forward
      m, StoreWire.pagination_limit m))
    (fun '(a, b, c, d, e, f, g, h, i, j) => StoreWire.mkStoreQueryRequest a b c d e f g h i j) _).
  record_countable.
Defined.

#[export] Instance WakuMessageKeyValue_eq_dec : EqDecision StoreWire.WakuMessageKeyValue.
Proof. solve_decision. Defined.
#[export] Instance WakuMessageKeyValue_countable : Countable StoreWire.WakuMessageKeyValue.
Proof.
  refine (inj_countable'
    (fun m => (StoreWire.message_hash m, StoreWire.message m, StoreWire.kv_pubsub_topic m))
    (fun '(a, b, c) => StoreWire.mkWakuMessageKeyValue a b c) _).
  record_countable.
Defined.

#[export] Instance StoreQueryResponse_eq_dec : EqDecision StoreWire.StoreQueryResponse.
Proof. solve_decision. Defined.
#[export] Instance StoreQueryResponse_countable : Countable StoreWire.StoreQueryResponse.
Proof.
  refine (inj_countable'
    (fun m => (StoreWire.res_request_id m, StoreWire.status_code m, StoreWire.status_desc m,
      StoreWire.messages m, StoreWire.pagination_cursor m))
    (fun '(a, b, c, d, e) => StoreWire.mkStoreQueryResponse a b c d e) _).
  record_countable.
Defined.

Lemma codecs_roundtrip_witness :
  let H := countable_prost (M := Metadata.WakuMetadata) in
  codec_correct Metadata.MAX_FRAME_LEN Metadata.write_request Metadata.read_request /\
  encoded_size (Metadata.mkWakuMetadata (Some 1) [0; 7]) <= Metadata.MAX_FRAME_LEN.
Proof.
  split; [|by vm_compute].
  exact (proj1 (proj1 (@codecs_roundtrip countable_prost countable_prost countable_prost
    countable_prost countable_prost countable_prost countable_prost countable_prost
    countable_prost countable_prost))).
Defined.
