(* ===== verification/Rln.v ===== *)
(** * Rln: the [waku-rln] crate

    Rate-limiting nullifiers: proofs of membership that reveal the secret of a member who
    uses one slot of an epoch for two messages.  The proof system, its field and its Merkle
    tree come from zerokit's [rln] crate: they are the class [Zerokit], and what RFC 58
    says of its values is the class [ZerokitLaws].  A generated random value is an
    argument. *)

From Stdlib Require Import Strings.Byte.
From stdpp Require Import base gmap strings list numbers.
From S2P Require Import Prelude Bytes Text Core Framing Wire.

Open Scope Z_scope.

(** ** The library *)

(** The public values of a proof. *)
Record ProofValues (F : Type) : Type := mkProofValues {
  pv_root : F;
  pv_x : F;
  pv_y : F;
  pv_nullifier : F;
  pv_external_nullifier : F;
}.
Arguments mkProofValues {_}.
Arguments pv_root {_}.
Arguments pv_x {_}.
Arguments pv_y {_}.
Arguments pv_nullifier {_}.
Arguments pv_external_nullifier {_}.

Class Zerokit := {
  Fr : Type;
  Fr_eq_dec :: EqDecision Fr;
  IdSecret : Type;
  RLN : Type;
  Proof : Type;
  Witness : Type;
  DEFAULT_TREE_DEPTH : Z;
  fr_of_u64 : Z -> Fr;
  fr_of_secret : IdSecret -> Fr;
  fr_to_bytes_le : Fr -> bytes;
  hash_to_field_le : bytes -> Fr;
  poseidon_hash : list Fr -> Fr;
  compute_id_secret : Fr * Fr -> Fr * Fr -> result string IdSecret;
  rln_new : Z -> string -> result string RLN;
  leaves_set : RLN -> Z;
  set_next_leaf : Fr -> RLN -> result string () * RLN;
  get_root : RLN -> Fr;
  get_merkle_proof : Z -> RLN -> result string (list Fr * bytes);
  witness_new : IdSecret -> Fr -> Fr -> list Fr -> bytes -> Fr -> Fr -> result string Witness;
  generate_rln_proof : Witness -> RLN -> result string (Proof * ProofValues Fr);
  verify_with_roots : Proof -> ProofValues Fr -> Fr -> list Fr -> RLN -> result string bool;
  rln_proof_to_bytes_le : Proof * ProofValues Fr -> result string bytes;
  bytes_le_to_rln_proof : bytes -> result string (Proof * ProofValues Fr * Z);
}.

(** RFC 58: a proof for the slot [m] of an epoch with external nullifier [e] carries the
    point at [x] of the line through the secret whose slope is the hash of the secret,
    [e] and [m], and the hash of that slope as its nullifier; two points of the line give
    the secret.  Bytes of field elements are canonical. *)
Class ZerokitLaws `{Zerokit} := {
  fr_add : Fr -> Fr -> Fr;
  fr_mul : Fr -> Fr -> Fr;
  fr_to_bytes_le_inj : Inj (=) (=) fr_to_bytes_le;
  proof_values secret limit m path path_index x e w rln p v :
    witness_new secret limit m path path_index x e = Ok w ->
    generate_rln_proof w rln = Ok (p, v) ->
    let slope := poseidon_hash [fr_of_secret secret; e; m] in
    pv_x v = x /\ pv_external_nullifier v = e /\ pv_nullifier v = poseidon_hash [slope] /\
    pv_y v = fr_add (fr_of_secret secret) (fr_mul slope x);
  secret_recovered secret slope x1 x2 : x1 <> x2 ->
    let point x := (x, fr_add (fr_of_secret secret) (fr_mul slope x)) in
    exists s, compute_id_secret (point x1) (point x2) = Ok s /\ fr_of_secret s = fr_of_secret secret;
}.
#[export] Existing Instance fr_to_bytes_le_inj.

(** [RlnError]. *)
Inductive RlnError : Type := RlnErr (e : string).

Section Rln.
Context `{Zerokit}.

(** ** Identities and proofs *)

(** [RlnIdentity]; [generate] is given the pair [keygen] returned. *)
Record RlnIdentity : Type := mkRlnIdentity {
  secret : IdSecret;
  commitment : Fr;
  user_message_limit : Z;          (* u64 *)
}.

Definition generate (keygen : IdSecret * Fr) (user_message_limit : Z) : RlnIdentity :=
  mkRlnIdentity keygen.1 keygen.2 user_message_limit.

(** [rate_commitment]. *)
Definition rate_commitment (identity : RlnIdentity) : Fr :=
  poseidon_hash [commitment identity; fr_of_u64 (user_message_limit identity)].

(** [RlnProof] and its accessors. *)
Record RlnProof : Type := mkRlnProof { inner : Proof * ProofValues Fr }.

Definition external_nullifier (p : RlnProof) : Fr := pv_external_nullifier (inner p).2.
Definition nullifier (p : RlnProof) : Fr := pv_nullifier (inner p).2.
Definition share (p : RlnProof) : Fr * Fr := (pv_x (inner p).2, pv_y (inner p).2).
Definition proof_root (p : RlnProof) : Fr := pv_root (inner p).2.

Definition to_bytes (p : RlnProof) : result RlnError bytes :=
  map_err RlnErr (rln_proof_to_bytes_le (inner p)).
Definition from_bytes (b : bytes) : result RlnError RlnProof :=
  '(proof, _) ← map_err RlnErr (bytes_le_to_rln_proof b);
  Ok (mkRlnProof proof).

(** ** The nullifier log *)

(** [NullifierOutcome]; its [Ok] is called [Original] here. *)
Inductive NullifierOutcome : Type :=
  | Original
  | Duplicate
  | DoubleSignaling (recovered_secret : Fr).

(** [NullifierLog]. *)
Record NullifierLog : Type := mkNullifierLog {
  seen : gmap bytes (gmap bytes (Fr * Fr));
}.

Definition log_new : NullifierLog := mkNullifierLog ∅.

(** [NullifierLog::observe]; [entry(..).or_default()] creates the bucket in any case. *)
Definition observe (proof : RlnProof) (log : NullifierLog)
    : result RlnError NullifierOutcome * NullifierLog :=
  let epoch_key := fr_to_bytes_le (external_nullifier proof) in
  let nullifier_key := fr_to_bytes_le (nullifier proof) in
  let bucket := default ∅ (seen log !! epoch_key) in
  match bucket !! nullifier_key with
  | None =>
      (Ok Original, mkNullifierLog (<[epoch_key := <[nullifier_key := share proof]> bucket]> (seen log)))
  | Some prev =>
      (if decide (prev = share proof) then Ok Duplicate
       else
         s ← map_err RlnErr (compute_id_secret prev (share proof));
         Ok (DoubleSignaling (fr_of_secret s)),
       mkNullifierLog (<[epoch_key := bucket]> (seen log)))
  end.

(** [NullifierLog::forget_epoch] and [tracked_epochs]. *)
Definition forget_epoch (ext : Fr) (log : NullifierLog) : NullifierLog :=
  mkNullifierLog (delete (fr_to_bytes_le ext) (seen log)).
Definition tracked_epochs (log : NullifierLog) : nat := size (seen log).

(** ** The relay context *)

(** [RlnRelay]. *)
Record RlnRelay : Type := mkRlnRelay {
  rln : RLN;
  rln_identifier : Fr;
}.

Definition relay_new : result RlnError RlnRelay :=
  rln ← map_err RlnErr (rln_new DEFAULT_TREE_DEPTH "");
  Ok (mkRlnRelay rln (hash_to_field_le (as_bytes "rln-relay-v2"))).

(** [RlnRelay::register]. *)
Definition register (identity : RlnIdentity) (relay : RlnRelay) : result RlnError Z * RlnRelay :=
  let index := leaves_set (rln relay) in
  let '(r, tree) := set_next_leaf (rate_commitment identity) (rln relay) in
  (_ ← map_err RlnErr r; Ok index, mkRlnRelay tree (rln_identifier relay)).

Definition root (relay : RlnRelay) : Fr := get_root (rln relay).

(** [RlnRelay::external_nullifier]. *)
Definition epoch_nullifier (relay : RlnRelay) (epoch : Z) : Fr :=
  poseidon_hash [fr_of_u64 epoch; rln_identifier relay].

(** [RlnRelay::prove]. *)
Definition prove (relay : RlnRelay) (identity : RlnIdentity) (index : Z) (signal : bytes)
    (epoch message_id : Z) : result RlnError RlnProof :=
  '(path_elements, identity_path_index) ← map_err RlnErr (get_merkle_proof index (rln relay));
  let x := hash_to_field_le signal in
  let external_nullifier := poseidon_hash [fr_of_u64 epoch; rln_identifier relay] in
  witness ← map_err RlnErr (witness_new (secret identity)
    (fr_of_u64 (user_message_limit identity)) (fr_of_u64 message_id)
    path_elements identity_path_index x external_nullifier);
  proof ← map_err RlnErr (generate_rln_proof witness (rln relay));
  Ok (mkRlnProof proof).

(** [RlnRelay::verify]. *)
Definition verify (relay : RlnRelay) (proof : RlnProof) : result RlnError bool :=
  let roots := [root relay] in
  Ok (default false (ok (verify_with_roots (inner proof).1 (inner proof).2
    (pv_x (inner proof).2) roots (rln relay)))).

(** ** Inbound messages *)

(** [InboundVerdict]. *)
Inductive InboundVerdict : Type :=
  | Valid (double_signaling : bool)
  | Invalid.

(** [RlnValidator]. *)
Record RlnValidator : Type := mkRlnValidator {
  relay : RlnRelay;
  log : NullifierLog;
  epoch_size_secs : Z;             (* u64 *)
}.

Definition validator_new (relay : RlnRelay) (epoch_size_secs : Z) : RlnValidator :=
  mkRlnValidator relay log_new (Z.max epoch_size_secs 1).

Definition validator_register (identity : RlnIdentity) (v : RlnValidator)
    : result RlnError Z * RlnValidator :=
  let '(r, relay) := register identity (relay v) in
  (r, mkRlnValidator relay (log v) (epoch_size_secs v)).

(** [RlnValidator::epoch_at]. *)
Definition epoch_at (v : RlnValidator) (now_secs : Z) : Z := now_secs / epoch_size_secs v.

(** [RlnValidator::verify_inbound]. *)
Definition in_window (v : RlnValidator) (proof : RlnProof) (now_secs : Z) : bool :=
  let current := epoch_at v now_secs in
  let ext := external_nullifier proof in
  bool_decide (ext = epoch_nullifier (relay v) current) ||
  (bool_decide (0 < current) && bool_decide (ext = epoch_nullifier (relay v) (current - 1))).

Definition verify_inbound (proof : RlnProof) (signal : bytes) (now_secs : Z) (v : RlnValidator)
    : InboundVerdict * RlnValidator :=
  if decide ((share proof).1 <> hash_to_field_le signal) then (Invalid, v)
  else if negb (default false (ok (verify (relay v) proof))) then (Invalid, v)
  else if negb (in_window v proof now_secs) then (Invalid, v)
  else
    let '(outcome, log) := observe proof (log v) in
    let double_signaling := match outcome with Ok (DoubleSignaling _) => true | _ => false end in
    (Valid double_signaling, mkRlnValidator (relay v) log (epoch_size_secs v)).

(** ** The log and its history *)

(** The share kept for a slot of an epoch. *)
Definition kept_share (l : NullifierLog) (ext null : Fr) : option (Fr * Fr) :=
  seen l !! fr_to_bytes_le ext ≫= (fun bucket => bucket !! fr_to_bytes_le null).

(** What observing a proof comes to when [prev] is the share kept for its slot. *)
Definition classify (prev : option (Fr * Fr)) (proof : RlnProof) : result RlnError NullifierOutcome :=
  match prev with
  | None => Ok Original
  | Some prev =>
      if decide (prev = share proof) then Ok Duplicate
      else s ← map_err RlnErr (compute_id_secret prev (share proof));
           Ok (DoubleSignaling (fr_of_secret s))
  end.

Inductive LogOp : Type := Observe (proof : RlnProof) | Forget (ext : Fr).

Definition log_step (l : NullifierLog) (op : LogOp) : NullifierLog :=
  match op with
  | Observe p => (observe p l).2
  | Forget ext => forget_epoch ext l
  end.
Definition log_after (ops : list LogOp) : NullifierLog := foldl log_step log_new ops.

(** The proofs of an epoch observed since it was last forgotten. *)
Definition epoch_proofs (ext : Fr) (ops : list LogOp) : list RlnProof :=
  foldl (fun acc op =>
    match op with
    | Observe p => if decide (external_nullifier p = ext) then acc ++ [p] else acc
    | Forget e => if decide (e = ext) then [] else acc
    end) [] ops.

(** The first of them with a nullifier. *)
Definition first_with (null : Fr) (proofs : list RlnProof) : option RlnProof :=
  head (filter (fun p => nullifier p = null) proofs).

Lemma observe_result p l :
  (observe p l).1 = classify (kept_share l (external_nullifier p) (nullifier p)) p.
Proof.
  unfold observe, classify, kept_share.
  destruct (seen l !! _) as [b|]; cbn [from_option id mbind option_bind].
  - by destruct (b !! _).
  - by rewrite lookup_empty.
Qed.

Lemma first_with_snoc null ps p :
  first_with null (ps ++ [p]) =
  match first_with null ps with
  | Some q => Some q
  | None => if decide (nullifier p = null) then Some p else None
  end.
Proof.
  unfold first_with. rewrite list.filter_app, head_app. case_match; [done|].
  rewrite filter_cons, filter_nil. by case_decide.
Qed.

Section Laws.
Context `{!ZerokitLaws}.

Lemma key_ne (a b : Fr) : a <> b -> fr_to_bytes_le a <> fr_to_bytes_le b.
Proof. intros Hne E. by apply fr_to_bytes_le_inj in E. Qed.

Lemma kept_after_observe p l ext null :
  kept_share (observe p l).2 ext null =
  match kept_share l ext null with
  | Some sh => Some sh
  | None => if decide (external_nullifier p = ext /\ nullifier p = null) then Some (share p) else None
  end.
Proof.
  unfold observe, kept_share.
  destruct (decide (external_nullifier p = ext)) as [<-|Hne].
  - destruct (seen l !! fr_to_bytes_le (external_nullifier p)) as [b|] eqn:Eb; cbn [from_option id].
    + destruct (b !! fr_to_bytes_le (nullifier p)) as [sh|] eqn:Es; cbn [snd seen];
        rewrite lookup_insert_eq; cbn [mbind option_bind].
      * destruct (b !! fr_to_bytes_le null) eqn:En; [done|].
        rewrite decide_False; [done|]. intros [_ <-]. by rewrite Es in En.
      * destruct (decide (nullifier p = null)) as [<-|Hn].
        -- rewrite lookup_insert_eq, Es. by rewrite decide_True.
        -- rewrite lookup_insert_ne by (by apply key_ne).
           rewrite decide_False by (by intros [_ ?]). by destruct (b !! fr_to_bytes_le null).
    + rewrite lookup_empty. cbn [snd seen]. rewrite lookup_insert_eq. cbn [mbind option_bind].
      destruct (decide (nullifier p = null)) as [<-|Hn].
      * rewrite lookup_insert_eq. by rewrite decide_True.
      * rewrite lookup_insert_ne by (by apply key_ne).
        rewrite lookup_empty. by rewrite decide_False by (by intros [_ ?]).
  - rewrite (decide_False (P := _ /\ _)) by (by intros [? _]).
    assert (seen (observe p l).2 !! fr_to_bytes_le ext = seen l !! fr_to_bytes_le ext) as E.
    { unfold observe. case_match; cbn [snd seen];
        rewrite lookup_insert_ne by (by apply key_ne); done. }
    unfold observe in E. rewrite E. by destruct (_ ≫= _).
Qed.

Lemma kept_after_forget e l ext null :
  kept_share (forget_epoch e l) ext null = if decide (e = ext) then None else kept_share l ext null.
Proof.
  unfold kept_share, forget_epoch. cbn [seen]. case_decide as E.
  - subst. by rewrite lookup_delete_eq.
  - by rewrite lookup_delete_ne by (by apply key_ne).
Qed.

Lemma kept_by_history ops ext null :
  kept_share (log_after ops) ext null = share <$> first_with null (epoch_proofs ext ops).
Proof.
  induction ops as [|[p|e] ops IH] using rev_ind; [done|..];
    unfold log_after, epoch_proofs in *; rewrite !foldl_app; cbn [foldl log_step].
  - rewrite kept_after_observe, IH. case_decide as Hd; cbn.
    + destruct Hd as [<- <-]. rewrite decide_True, first_with_snoc by done.
      destruct (first_with _ _); cbn; [done|]. by rewrite decide_True.
    + case_decide as He; [|by destruct (first_with _ _)].
      rewrite first_with_snoc. destruct (first_with _ _); [done|].
      rewrite decide_False by tauto. done.
  - rewrite kept_after_forget, IH. by case_decide.
Qed.

(** The nullifier log decides by the whole history: after any sequence of observations
    and forgotten epochs, a proof is original, a duplicate or double signaling by
    comparison with the first proof of its nullifier observed in its epoch since that
    epoch was last forgotten. *)
Theorem observe_by_history (ops : list LogOp) (proof : RlnProof) :
  (observe proof (log_after ops)).1 =
  classify (share <$> first_with (nullifier proof)
    (epoch_proofs (external_nullifier proof) ops)) proof.
Proof. by rewrite observe_result, kept_by_history. Qed.

(** ** Inbound proofs *)

(** What a proof must be to be accepted. *)
Definition acceptable (v : RlnValidator) (proof : RlnProof) (signal : bytes) (now_secs : Z) : Prop :=
  (share proof).1 = hash_to_field_le signal /\ verify (relay v) proof = Ok true /\
  exists epoch, external_nullifier proof = epoch_nullifier (relay v) epoch /\
    (epoch = epoch_at v now_secs \/ 0 < epoch_at v now_secs /\ epoch = epoch_at v now_secs - 1).

Lemma in_window_spec v proof now_secs :
  in_window v proof now_secs = true <->
  exists epoch, external_nullifier proof = epoch_nullifier (relay v) epoch /\
    (epoch = epoch_at v now_secs \/ 0 < epoch_at v now_secs /\ epoch = epoch_at v now_secs - 1).
Proof.
  unfold in_window. rewrite orb_true_iff, andb_true_iff, !bool_decide_eq_true. split.
  - intros [?|[? ?]]; eauto.
  - intros (e & E & [->|[? ->]]); auto.
Qed.

Lemma verify_inbound_accepts v proof signal now_secs :
  acceptable v proof signal now_secs ->
  verify_inbound proof signal now_secs v =
  (Valid match (observe proof (log v)).1 with Ok (DoubleSignaling _) => true | _ => false end,
   mkRlnValidator (relay v) (observe proof (log v)).2 (epoch_size_secs v)).
Proof.
  intros (Hx & Hv & Hw%in_window_spec). unfold verify_inbound.
  rewrite decide_False by (intros ?; done). rewrite Hv, Hw. cbn [ok from_option id negb].
  by destruct (observe proof (log v)).
Qed.

Lemma verify_inbound_rejects v proof signal now_secs :
  ~ acceptable v proof signal now_secs -> verify_inbound proof signal now_secs v = (Invalid, v).
Proof.
  intros Hn. unfold verify_inbound. case_decide as Hx; [done|].
  destruct (negb _) eqn:Hv; [done|]. destruct (negb (in_window _ _ _)) eqn:Hw; [done|].
  exfalso. apply Hn. bool_facts. apply in_window_spec in Hw.
  split; [by destruct (decide ((share proof).1 = hash_to_field_le signal))|]. split; [|done].
  unfold verify in *. cbn [ok from_option id] in Hv. by rewrite Hv.
Qed.

(** Every share the log keeps, it keeps. *)
Lemma verify_inbound_keeps v proof signal now_secs :
  let v' := (verify_inbound proof signal now_secs v).2 in
  relay v' = relay v /\ epoch_size_secs v' = epoch_size_secs v /\
  forall ext null sh, kept_share (log v) ext null = Some sh -> kept_share (log v') ext null = Some sh.
Proof.
  unfold verify_inbound. case_decide; [done|]. do 2 (destruct (negb _); [done|]).
  pose proof (kept_after_observe proof (log v)) as Hk.
  destruct (observe proof (log v)) as [r l]. cbn in *. do 2 (split; [done|]).
  intros ext null sh E. by rewrite Hk, E.
Qed.

Definition inbound (v : RlnValidator) (m : RlnProof * bytes * Z) : RlnValidator :=
  (verify_inbound m.1.1 m.1.2 m.2 v).2.

Lemma inbounds_keep v ms :
  let v' := foldl inbound v ms in
  relay v' = relay v /\ epoch_size_secs v' = epoch_size_secs v /\
  forall ext null sh, kept_share (log v) ext null = Some sh -> kept_share (log v') ext null = Some sh.
Proof.
  revert v. induction ms as [|[[p s] t] ms IH]; intros v; [done|]. cbn [foldl].
  destruct (verify_inbound_keeps v p s t) as (Hr & He & Hk).
  destruct (IH (inbound v (p, s, t))) as (Hr' & He' & Hk').
  split; [by rewrite Hr'|]. split; [by rewrite He'|]. intros ext null sh E. by apply Hk', Hk.
Qed.

(** The public values of a proof [prove] returned. *)
Lemma prove_values r identity index signal epoch m p :
  prove r identity index signal epoch m = Ok p ->
  let slope := poseidon_hash [fr_of_secret (secret identity); epoch_nullifier r epoch; fr_of_u64 m] in
  let x := hash_to_field_le signal in
  share p = (x, fr_add (fr_of_secret (secret identity)) (fr_mul slope x)) /\
  external_nullifier p = epoch_nullifier r epoch /\ nullifier p = poseidon_hash [slope].
Proof.
  unfold prove. rewrite bind_Ok. intros ([path ix] & _ & E). apply bind_Ok in E as (w & Hw & E).
  apply bind_Ok in E as ([pf pv] & Hp & [= <-]).
  destruct (witness_new _ _ _ _ _ _ _) as [w'|] eqn:Ew; [|done]. cbn in Hw. injection Hw as ->.
  destruct (generate_rln_proof _ _) as [g|] eqn:Eg; [|done]. cbn in Hp. injection Hp as ->.
  destruct (proof_values _ _ _ _ _ _ _ _ _ _ _ Ew Eg) as (Hx & He & Hn & Hy).
  unfold share, external_nullifier, nullifier, epoch_nullifier. cbn. by rewrite Hx, He, Hn, Hy.
Qed.

(** The validator's clock is in the epoch or the one after it. *)
Definition timely (v : RlnValidator) (epoch now_secs : Z) : Prop :=
  0 <= epoch /\ (epoch_at v now_secs = epoch \/ epoch_at v now_secs = epoch + 1).

Lemma proved_acceptable v identity index signal epoch m p now_secs :
  prove (relay v) identity index signal epoch m = Ok p -> verify (relay v) p = Ok true ->
  timely v epoch now_secs -> acceptable v p signal now_secs.
Proof.
  intros (Hs & He & _)%prove_values Hv (Hpos & Ht). split; [by rewrite Hs|]. split; [done|].
  exists epoch. split; [done|]. destruct Ht as [Ht|Ht]; rewrite Ht; [by left|right; lia].
Qed.

(** C35. Whoever exceeds the rate limit is caught: when a member proves two different
    messages in the same slot of an epoch, the validator accepts the first one it sees in
    time, and whatever messages arrive in between flags the second one as double
    signaling, from which it recovers exactly the secret of that member. *)
Theorem double_signal_caught (v : RlnValidator) (identity : RlnIdentity) (index1 index2 : Z)
    (signal1 signal2 : bytes) (epoch m now1 now2 : Z) (p1 p2 : RlnProof)
    (between : list (RlnProof * bytes * Z)) :
  prove (relay v) identity index1 signal1 epoch m = Ok p1 ->
  prove (relay v) identity index2 signal2 epoch m = Ok p2 ->
  hash_to_field_le signal1 <> hash_to_field_le signal2 ->
  verify (relay v) p1 = Ok true -> verify (relay v) p2 = Ok true ->
  timely v epoch now1 -> timely v epoch now2 ->
  kept_share (log v) (external_nullifier p1) (nullifier p1) = None ->
  (verify_inbound p1 signal1 now1 v).1 = Valid false /\
  let v2 := foldl inbound (inbound v (p1, signal1, now1)) between in
  (verify_inbound p2 signal2 now2 v2).1 = Valid true /\
  (observe p2 (log v2)).1 = Ok (DoubleSignaling (fr_of_secret (secret identity))).
Proof.
  intros P1 P2 Hx V1 V2 T1 T2 Hfresh.
  pose proof (proved_acceptable _ _ _ _ _ _ _ _ P1 V1 T1) as A1.
  pose proof (proved_acceptable _ _ _ _ _ _ _ _ P2 V2 T2) as A2.
  pose proof (verify_inbound_accepts _ _ _ _ A1) as E1.
  split; [rewrite E1; cbn; by rewrite observe_result, Hfresh|].
  intros v2. destruct (inbounds_keep (inbound v (p1, signal1, now1)) between) as (Hr & He & Hk).
  fold v2 in Hr, He, Hk. unfold inbound in Hr, He, Hk. cbn [fst snd] in *. rewrite E1 in Hr, He, Hk.
  cbn in Hr, He, Hk.
  destruct (prove_values _ _ _ _ _ _ _ P1) as (S1 & X1 & N1).
  destruct (prove_values _ _ _ _ _ _ _ P2) as (S2 & X2 & N2).
  assert (kept_share (log v2) (external_nullifier p2) (nullifier p2) = Some (share p1)) as Hkept.
  { rewrite X2, N2. rewrite X1, N1 in Hfresh. apply Hk.
    rewrite kept_after_observe, Hfresh. by rewrite decide_True. }
  assert ((observe p2 (log v2)).1 = Ok (DoubleSignaling (fr_of_secret (secret identity)))) as Ho.
  { rewrite observe_result, Hkept. unfold classify. rewrite S1, S2.
    rewrite decide_False by (intros [= ?]; done).
    destruct (secret_recovered (secret identity) (poseidon_hash [fr_of_secret (secret identity);
      epoch_nullifier (relay v) epoch; fr_of_u64 m]) _ _ Hx) as (s & Hs & Hfs).
    rewrite Hs. cbn. by rewrite Hfs. }
  split; [|done]. rewrite verify_inbound_accepts; [cbn; by rewrite Ho|].
  unfold acceptable, epoch_at in *. by rewrite Hr, He.
Qed.

End Laws.
End Rln.

(** ** A concrete library for the witness

    Integers for field elements, an injective encoding for the hashes, a list of leaves
    for the tree, and a proof that is checked against the root it names. *)

Definition toy_hash {A} `{Countable A} (a : A) : Z := Zpos (encode a).

(** The intercept of the line through two points. *)
Definition toy_recover (a b : Z * Z) : result string Z :=
  if decide (a.1 = b.1) then Err "division by zero"
  else Ok (a.2 - (b.2 - a.2) / (b.1 - a.1) * a.1).

Definition toy_zerokit : Zerokit := {|
  Fr := Z;
  IdSecret := Z;
  RLN := list Z;
  Proof := ();
  Witness := Z * Z * Z * Z;
  DEFAULT_TREE_DEPTH := 20;
  fr_of_u64 := id;
  fr_of_secret := id;
  fr_to_bytes_le z := pos_bits (encode z);
  hash_to_field_le := toy_hash;
  poseidon_hash := toy_hash;
  compute_id_secret := toy_recover;
  rln_new _ _ := Ok [];
  leaves_set t := Z.of_nat (length t);
  set_next_leaf leaf t := (Ok tt, t ++ [leaf]);
  get_root := toy_hash;
  get_merkle_proof i t := if decide (0 <= i < Z.of_nat (length t)) then Ok ([], []) else Err "no leaf";
  witness_new s limit m _ _ x e := if decide (m < limit) then Ok (s, m, x, e) else Err "message id";
  generate_rln_proof w t :=
    let '(s, m, x, e) := w in
    let slope := toy_hash [s; e; m] in
    Ok (tt, mkProofValues (toy_hash t) x (s + slope * x) (toy_hash [slope]) e);
  verify_with_roots _ v x roots _ := Ok (bool_decide (pv_x v = x) && bool_decide (pv_root v ∈ roots));
  rln_proof_to_bytes_le p :=
    let v := p.2 in
    Ok (pos_bits (encode (pv_root v, pv_x v, pv_y v, pv_nullifier v, pv_external_nullifier v)));
  bytes_le_to_rln_proof b :=
    '(r, x, y, n, e) ← @countable_decode (Z * Z * Z * Z * Z) _ _ b;
    Ok (tt, mkProofValues r x y n e, Z.of_nat (length b));
|}.

#[local] Existing Instance toy_zerokit.

#[export] Program Instance toy_laws : ZerokitLaws := {| fr_add := Z.add; fr_mul := Z.mul |}.
Next Obligation.
  intros a b E%(f_equal bits_pos). cbn in E. rewrite !bits_pos_bits in E. by apply (inj encode).
Qed.
Next Obligation.
  cbn. intros s limit m path ix x e w t p v. case_decide; [|done]. intros [= <-] [= <- <-]. done.
Qed.
Next Obligation.
  cbn. intros s slope x1 x2 Hne. unfold toy_recover, id. cbn. rewrite decide_False by done.
  eexists. split; [done|].
  replace (s + slope * x2 - (s + slope * x1)) with (slope * (x2 - x1)) by ring.
  rewrite Z.div_mul by lia. ring.
Qed.

Definition demo_member : RlnIdentity := generate (42, 7) 100.
Definition demo_validator : RlnValidator :=
  (validator_register demo_member (validator_new (mkRlnRelay [] 5) 600)).2.

(** Two messages of the member in slot 0 of epoch 100. *)
Lemma double_signal_caught_witness :
  exists p1 p2,
    prove (relay demo_validator) demo_member 0 [x01] 100 0 = Ok p1 /\
    prove (relay demo_validator) demo_member 0 [x02] 100 0 = Ok p2 /\
    (verify_inbound p1 [x01] 60000 demo_validator).1 = Valid false /\
    (observe p2 (log (inbound demo_validator (p1, [x01], 60000)))).1 = Ok (DoubleSignaling 42).
Proof.
  destruct (prove (relay demo_validator) demo_member 0 [x01] 100 0) as [p1|] eqn:E1;
    [|vm_compute in E1; discriminate E1].
  destruct (prove (relay demo_validator) demo_member 0 [x02] 100 0) as [p2|] eqn:E2;
    [|vm_compute in E2; discriminate E2].
  exists p1, p2. do 2 (split; [done|]).
  destruct (double_signal_caught demo_validator demo_member 0 0 [x01] [x02] 100 0 60000 60599
    p1 p2 [] E1 E2) as (H1 & _ & H2).
  - vm_compute. discriminate.
  - vm_compute in E1. injection E1 as <-. vm_compute. reflexivity.
  - vm_compute in E2. injection E2 as <-. vm_compute. reflexivity.
  - split; [lia|]. left. reflexivity.
  - split; [lia|]. left. reflexivity.
  - vm_compute in E1. injection E1 as <-. vm_compute. reflexivity.
  - by split.
Defined.

(** A nullifier forgotten with its epoch is original again. *)
Definition demo_proof (x y : Z) : RlnProof := mkRlnProof (tt, mkProofValues 0 x y 8 9).

Lemma observe_by_history_witness :
  (observe (demo_proof 2 5) (log_after [Observe (demo_proof 1 3); Observe (demo_proof 7 7)])).1 =
    Ok (DoubleSignaling 1) /\
  (observe (demo_proof 2 5) (log_after [Observe (demo_proof 1 3); @Forget toy_zerokit 9])).1 = Ok Original.
Proof.
  split.
  - rewrite (observe_by_history [Observe (demo_proof 1 3); Observe (demo_proof 7 7)]
      (demo_proof 2 5)). vm_compute. reflexivity.
  - rewrite (observe_by_history [Observe (demo_proof 1 3); @Forget toy_zerokit 9] (demo_proof 2 5)).
    vm_compute. reflexivity.
Defined.
