(* ===== verification/Enr.v ===== *)
(** * Enr: the [waku-enr] crate

    The relay-shards field of an ENR ([lib.rs]): the descriptor [RelayShards] and
    its two wire forms, the indices list [rs] and the bit vector [rsv]. *)

From Stdlib Require Import Strings.Byte Strings.Ascii.
From stdpp Require Import base gmap strings list sorting numbers.
From S2P Require Import Prelude Bytes Text Core.

Open Scope Z_scope.

Definition ENR_KEY_RS := "rs".
Definition ENR_KEY_RSV := "rsv".
Definition ENR_KEY_WAKU2 := "waku2".

Definition BIT_VECTOR_SHARDS : nat := 1024.
Definition BIT_VECTOR_BYTES : nat := BIT_VECTOR_SHARDS / 8.

Inductive EnrError : Type :=
  | TooShort (len : nat)
  | IndicesLengthMismatch (expected actual : nat)
  | BitVectorLength (expected actual : nat)
  | ShardOutOfRange (s : Z)
  | TooManyShards (len : nat).

#[export] Instance EnrError_eq_dec : EqDecision EnrError.
Proof. solve_decision. Defined.

(** The [Display] of the error. *)
Definition enr_error_to_string (e : EnrError) : string :=
  let num (n : nat) := show_uint (Z.of_nat n) in
  match e with
  | TooShort len => "relay-shards field too short: " +:+ num len +:+ " bytes"
  | IndicesLengthMismatch expected actual =>
      "relay-shards indices-list length mismatch: header says " +:+ num expected +:+
      ", got " +:+ num actual +:+ " bytes"
  | BitVectorLength expected actual =>
      "relay-shards bit-vector must be " +:+ num expected +:+ " bytes, got " +:+ num actual
  | ShardOutOfRange s =>
      "shard index " +:+ show_uint s +:+ " out of range for the bit-vector form (max " +:+
      num (BIT_VECTOR_SHARDS - 1)%nat +:+ ")"
  | TooManyShards len => "too many shards for the indices-list form: " +:+ num len +:+ " > 255"
  end.

Module RelayShards.

Record t : Type := mk {
  cluster_id : Z;        (* u16 *)
  shards : list Z;       (* u16 *)
}.

#[global] Instance RelayShards_eq_dec : EqDecision t.
Proof. solve_decision. Defined.

(** The Rust types of the fields. *)
Definition wf (rs : t) : Prop := in_u16 (cluster_id rs) /\ Forall in_u16 (shards rs).

(** [Vec::dedup]: drop an element equal to the one before it. *)
Fixpoint dedup (l : list Z) : list Z :=
  match l with
  | [] => []
  | x :: l =>
      match dedup l with
      | [] => [x]
      | y :: l' => if decide (x = y) then y :: l' else x :: y :: l'
      end
  end.

(** [RelayShards::new]: sort, then drop duplicates. *)
Definition new (cluster_id : Z) (shards : list Z) : t :=
  {| cluster_id := cluster_id; shards := dedup (merge_sort Z.le shards) |}.

(** [RelayShards::shard_ids]. *)
Definition shard_ids (rs : t) : list ShardId.t :=
  ShardId.new (cluster_id rs) <$> shards rs.

(** [RelayShards::contains]. *)
Definition contains (rs : t) (cluster shard : Z) : bool :=
  bool_decide (cluster_id rs = cluster) && bool_decide (shard ∈ shards rs).

(** [RelayShards::to_indices_list]. *)
Definition to_indices_list (rs : t) : result EnrError bytes :=
  if decide (255 < length (shards rs))%nat then Err (TooManyShards (length (shards rs)))
  else Ok (to_be_bytes 2 (cluster_id rs) ++ [byte_of (Z.of_nat (length (shards rs)))] ++
           concat (to_be_bytes 2 <$> shards rs)).

(** [bytes.chunks_exact(2)] read as big-endian [u16]; an odd last byte is dropped. *)
Fixpoint u16_chunks (l : bytes) : list Z :=
  match l with
  | a :: b :: l => from_be_bytes [a; b] :: u16_chunks l
  | _ => []
  end.

(** [RelayShards::from_indices_list]. *)
Definition from_indices_list (l : bytes) : result EnrError t :=
  match l with
  | b0 :: b1 :: b2 :: body =>
      let cluster_id := from_be_bytes [b0; b1] in
      let count := Z.to_nat (u8 b2) in
      let expected := (3 + count * 2)%nat in
      if decide (length l <> expected) then Err (IndicesLengthMismatch expected (length l))
      else Ok {| cluster_id := cluster_id; shards := u16_chunks body |}
  | _ => Err (TooShort (length l))
  end.

(** One turn of the loop of [to_bit_vector]. *)
Definition set_bit (out : bytes) (idx : nat) : bytes :=
  alter (fun b => byte_of (Z.lor (u8 b) (Z.shiftl 1 (7 - Z.of_nat (idx mod 8)))))
    (2 + idx / 8)%nat out.

Fixpoint set_bits (out : bytes) (shards : list Z) : result EnrError bytes :=
  match shards with
  | [] => Ok out
  | s :: shards =>
      let idx := Z.to_nat s in
      if decide (BIT_VECTOR_SHARDS <= idx)%nat then Err (ShardOutOfRange s)
      else set_bits (set_bit out idx) shards
  end.

(** [RelayShards::to_bit_vector]. *)
Definition to_bit_vector (rs : t) : result EnrError bytes :=
  set_bits (to_be_bytes 2 (cluster_id rs) ++ replicate BIT_VECTOR_BYTES x00) (shards rs).

(** [bytes[2 + idx / 8] & (1 << (7 - idx % 8)) != 0]. *)
Definition get_bit (l : bytes) (idx : nat) : bool :=
  bool_decide (Z.land (u8 (default x00 (l !! (2 + idx / 8)%nat)))
                 (Z.shiftl 1 (7 - Z.of_nat (idx mod 8))) <> 0).

(** [RelayShards::from_bit_vector]. *)
Definition from_bit_vector (l : bytes) : result EnrError t :=
  if decide (length l <> 2 + BIT_VECTOR_BYTES)%nat
  then Err (BitVectorLength (2 + BIT_VECTOR_BYTES) (length l))
  else
    let cluster_id := from_be_bytes (take 2 l) in
    Ok {| cluster_id := cluster_id;
          shards := Z.of_nat <$> filter (fun idx => get_bit l idx) (seq 0 BIT_VECTOR_SHARDS) |}.

(** ** Sorting and deduplication *)

Lemma elem_of_dedup x l : x ∈ dedup l <-> x ∈ l.
Proof.
  induction l as [|y l IH]; cbn; [done|]. rewrite elem_of_cons, <- IH.
  destruct (dedup l) as [|z k]; cbn; [rewrite elem_of_nil, list_elem_of_singleton; tauto|].
  case_decide; [subst|]; rewrite ?elem_of_cons; tauto.
Qed.

Lemma dedup_sorted l : StronglySorted Z.le l -> StronglySorted Z.lt (dedup l).
Proof.
  induction 1 as [|x l Hl IH Hx]; cbn; [constructor|].
  assert (Forall (Z.le x) (dedup l)) as Hx'.
  { apply list.Forall_forall. intros y. rewrite elem_of_dedup.
    by apply list.Forall_forall. }
  destruct (dedup l) as [|y k]; [by repeat constructor|].
  case_decide as E; [done|]. split_Forall.
  constructor; [done|]. inversion IH as [|? ? ? Hy]; subst.
  constructor; [lia|]. eapply list.Forall_impl; [exact Hy|]. cbn; lia.
Qed.

Lemma new_sorted c l : StronglySorted Z.lt (shards (new c l)).
Proof. apply dedup_sorted, StronglySorted_merge_sort; apply _. Qed.

Lemma elem_of_new c l x : x ∈ shards (new c l) <-> x ∈ l.
Proof. cbn. by rewrite elem_of_dedup, merge_sort_Permutation. Qed.

(** Strictly increasing lists are determined by their elements. *)
Lemma sorted_unique (l k : list Z) :
  StronglySorted Z.lt l -> StronglySorted Z.lt k -> (forall x, x ∈ l <-> x ∈ k) -> l = k.
Proof.
  assert (forall m, StronglySorted Z.lt m -> NoDup m /\ StronglySorted Z.le m) as Hs.
  { induction 1 as [|x m Hm [IH1 IH2] Hx]; [split; constructor|].
    rewrite list.Forall_forall in Hx. split; constructor; try done.
    - intros Hin%Hx. lia.
    - apply list.Forall_forall. intros y Hy%Hx. lia. }
  intros [Hl Hl']%Hs [Hk Hk']%Hs E.
  apply (StronglySorted_unique Z.le); [done..|]. by apply NoDup_Permutation.
Qed.

Lemma new_of_sorted c l : StronglySorted Z.lt l -> new c l = mk c l.
Proof.
  intros Hl. unfold new. f_equal. apply sorted_unique; [apply (new_sorted c)|done|].
  apply (elem_of_new c).
Qed.

(** ** The indices list *)

Lemma u16_chunks_concat l : Forall in_u16 l -> u16_chunks (concat (to_be_bytes 2 <$> l)) = l.
Proof.
  induction 1 as [|x l Hx Hl IH]; [done|]. cbn [fmap list_fmap concat].
  pose proof (u16_be_roundtrip x Hx) as E.
  pose proof (length_to_be_bytes 2 x) as Hlen.
  destruct (to_be_bytes 2 x) as [|a [|b [|]]]; try discriminate.
  cbn. by rewrite E, IH.
Qed.

Lemma concat_u16_chunks n l :
  length l = (n * 2)%nat ->
  concat (to_be_bytes 2 <$> u16_chunks l) = l /\ length (u16_chunks l) = n /\
  Forall in_u16 (u16_chunks l).
Proof.
  revert l; induction n as [|n IH]; intros l Hl.
  - by destruct l.
  - destruct l as [|a [|b l]]; [cbn in Hl; lia..|].
    destruct (IH l) as (E & El & Ef); [cbn in Hl; lia|]. cbn [u16_chunks fmap list_fmap concat].
    split; [|split].
    + rewrite E. change 2%nat with (length [a; b]). by rewrite to_from_be_bytes.
    + cbn. by rewrite El.
    + constructor; [apply u16_of_two|done].
Qed.

Lemma length_concat_u16 (l : list Z) :
  length (concat (to_be_bytes 2 <$> l)) = (length l * 2)%nat.
Proof.
  induction l as [|x l IH]; [done|]. cbn [fmap list_fmap concat].
  rewrite length_app, length_to_be_bytes. cbn in *. lia.
Qed.

Lemma from_to_indices_list rs :
  wf rs -> (length (shards rs) <= 255)%nat ->
  exists l, to_indices_list rs = Ok l /\ from_indices_list l = Ok rs.
Proof.
  intros [Hc Hs] Hn. unfold to_indices_list. rewrite decide_False by lia.
  eexists; split; [reflexivity|].
  pose proof (u16_be_roundtrip _ Hc) as Ec.
  pose proof (length_to_be_bytes 2 (cluster_id rs)) as Hlen.
  destruct (to_be_bytes 2 (cluster_id rs)) as [|a [|b [|]]]; try discriminate.
  cbn [app from_indices_list]. rewrite Ec, u8_byte_of, Z.mod_small, Nat2Z.id by lia.
  rewrite decide_False.
  - rewrite u16_chunks_concat by done. by destruct rs.
  - cbn [length]. rewrite length_concat_u16. lia.
Qed.

Lemma to_from_indices_list l rs :
  from_indices_list l = Ok rs -> wf rs /\ to_indices_list rs = Ok l.
Proof.
  unfold from_indices_list. destruct l as [|b0 [|b1 [|b2 body]]]; try done.
  case_decide as Hl; [done|]. intros [= <-]. pose proof (u8_range b2).
  destruct (concat_u16_chunks (Z.to_nat (u8 b2)) body) as (E & Hn & Hf); [cbn in Hl; lia|].
  split; [split; cbn; [apply u16_of_two|done]|].
  unfold to_indices_list; cbn [shards cluster_id]. rewrite Hn, decide_False by lia.
  rewrite E, Z2Nat.id, byte_of_u8 by lia.
  change 2%nat with (length [b0; b1]). by rewrite to_from_be_bytes.
Qed.

(** The indices list is an exact encoding: a descriptor of [u16] shards encodes
    unless it has more than 255 shards, which is reported with the count; decoding
    the encoding gives the descriptor back, in its order; and conversely every
    byte string that decodes is the encoding of what it decodes to. *)
Theorem indices_list_roundtrip :
  (forall rs, wf rs ->
     if decide (length (shards rs) <= 255)%nat
     then exists l, to_indices_list rs = Ok l /\ from_indices_list l = Ok rs
     else to_indices_list rs = Err (TooManyShards (length (shards rs)))) /\
  (forall l rs, from_indices_list l = Ok rs -> wf rs /\ to_indices_list rs = Ok l).
Proof.
  split; [|apply to_from_indices_list].
  intros rs Hrs. case_decide; [by apply from_to_indices_list|].
  unfold to_indices_list. by rewrite decide_True by lia.
Qed.

(** ** The bit vector *)

Lemma testbit_land x k : 0 <= k -> bool_decide (Z.land x (Z.shiftl 1 k) <> 0) = Z.testbit x k.
Proof.
  intros Hk. rewrite Z.shiftl_1_l. destruct (Z.testbit x k) eqn:E.
  - apply bool_decide_eq_true_2. intros Hz. apply (f_equal (fun z => Z.testbit z k)) in Hz.
    by rewrite Z.land_spec, Z.pow2_bits_true, E, Z.bits_0 in Hz by lia.
  - apply bool_decide_eq_false_2. intros Hn. apply Hn. apply Z.bits_inj'. intros i Hi.
    rewrite Z.land_spec, Z.bits_0, Z.pow2_bits_eqb by lia.
    destruct (Z.eqb_spec k i) as [<-|]; [by rewrite E|by rewrite andb_false_r].
Qed.

(** The position of a bit: the byte and the bit within it, most significant first. *)
Definition bit_of (l : bytes) (idx : nat) : bool :=
  Z.testbit (u8 (default x00 (l !! (2 + idx / 8)%nat))) (7 - Z.of_nat (idx mod 8)).

Lemma mod8 idx : (idx mod 8 < 8)%nat.
Proof. apply Nat.mod_upper_bound. lia. Qed.

Lemma get_bit_of l idx : get_bit l idx = bit_of l idx.
Proof. unfold get_bit, bit_of. pose proof (mod8 idx). by rewrite testbit_land by lia. Qed.

Lemma length_set_bit out idx : length (set_bit out idx) = length out.
Proof. apply length_alter. Qed.

Lemma take2_set_bit out idx : take 2 (set_bit out idx) = take 2 out.
Proof.
  apply list_eq. intros j. destruct (decide (j < 2)%nat).
  - rewrite !lookup_take_lt by lia. unfold set_bit. by rewrite list_lookup_alter_ne by lia.
  - by rewrite !lookup_take_ge by lia.
Qed.

(** Setting a bit changes that bit and no other. *)
Lemma bit_of_set_bit out idx j :
  length out = (2 + BIT_VECTOR_BYTES)%nat -> (idx < BIT_VECTOR_SHARDS)%nat ->
  bit_of (set_bit out idx) j = bool_decide (j = idx) || bit_of out j.
Proof.
  intros Hl Hi. unfold BIT_VECTOR_BYTES, BIT_VECTOR_SHARDS in *. cbn in Hl.
  pose proof (mod8 idx). pose proof (mod8 j).
  pose proof (Nat.div_mod_eq idx 8). pose proof (Nat.div_mod_eq j 8).
  unfold bit_of, set_bit. destruct (decide (j / 8 = idx / 8)%nat) as [E|E].
  - rewrite E, list_lookup_alter_eq.
    destruct (lookup_lt_is_Some_2 out (2 + idx / 8)) as [b Hb]; [lia|].
    rewrite Hb. cbn [fmap option_fmap option_map from_option id].
    rewrite u8_byte_of. change 256 with (2 ^ 8).
    rewrite Z.mod_pow2_bits_low, Z.lor_spec, Z.shiftl_1_l, Z.pow2_bits_eqb by lia.
    rewrite orb_comm. f_equal.
    destruct (Z.eqb_spec (7 - Z.of_nat (idx mod 8)) (7 - Z.of_nat (j mod 8))).
    + by rewrite bool_decide_true by lia.
    + rewrite bool_decide_false; [done|]. intros ->. lia.
  - rewrite list_lookup_alter_ne by lia. rewrite bool_decide_false; [done|].
    intros ->. lia.
Qed.

Lemma set_bits_spec shards out :
  length out = (2 + BIT_VECTOR_BYTES)%nat -> Forall (fun s => 0 <= s < 1024) shards ->
  exists out', set_bits out shards = Ok out' /\ length out' = length out /\
    take 2 out' = take 2 out /\
    forall j, bit_of out' j = bool_decide (Z.of_nat j ∈ shards) || bit_of out j.
Proof.
  intros Hl Hf; revert out Hl; induction Hf as [|s shards Hs Hf IH]; intros out Hl; cbn.
  - by exists out.
  - rewrite decide_False by (unfold BIT_VECTOR_SHARDS; lia).
    destruct (IH (set_bit out (Z.to_nat s))) as (out' & E & El & Et & Eb);
      [by rewrite length_set_bit|].
    exists out'. rewrite El, length_set_bit, Et, take2_set_bit. repeat split; [done|].
    intros j. rewrite Eb, bit_of_set_bit by (done || (unfold BIT_VECTOR_SHARDS; lia)).
    rewrite orb_assoc. f_equal. rewrite <- bool_decide_or. apply bool_decide_ext.
    rewrite elem_of_cons. split; intros [?|?]; [by right|left; lia|right; lia|by left].
Qed.

Lemma from_bit_vector_130 l :
  length l = (2 + BIT_VECTOR_BYTES)%nat ->
  exists rs, from_bit_vector l = Ok rs /\ cluster_id rs = from_be_bytes (take 2 l) /\
    StronglySorted Z.lt (shards rs) /\
    forall s, s ∈ shards rs <-> 0 <= s < 1024 /\ bit_of l (Z.to_nat s).
Proof.
  intros Hl. unfold from_bit_vector. rewrite decide_False by lia. eexists; split; [done|].
  cbn [cluster_id shards]. split; [done|]. split.
  - apply (StronglySorted_fmap Z.of_nat lt); [lia|].
    apply StronglySorted_filter, StronglySorted_seq.
  - intros s. rewrite list_elem_of_fmap. setoid_rewrite list_elem_of_filter.
    setoid_rewrite elem_of_seq. setoid_rewrite get_bit_of. unfold BIT_VECTOR_SHARDS. split.
    + intros (j & -> & Hb & Hj). rewrite Nat2Z.id. split; [lia|done].
    + intros [Hs Hb]. exists (Z.to_nat s). repeat split; [lia|done|lia|lia].
Qed.

Lemma blank_length c :
  length (to_be_bytes 2 c ++ replicate BIT_VECTOR_BYTES x00) = (2 + BIT_VECTOR_BYTES)%nat.
Proof. by rewrite length_app, length_to_be_bytes, length_replicate. Qed.

Lemma bit_of_blank c j :
  bit_of (to_be_bytes 2 c ++ replicate BIT_VECTOR_BYTES x00) j = false.
Proof.
  unfold bit_of. rewrite lookup_app_r by (rewrite length_to_be_bytes; lia).
  rewrite length_to_be_bytes. pose proof (mod8 j).
  destruct (replicate _ _ !! _) as [b|] eqn:E; [apply lookup_replicate in E as [-> _]|];
    apply Z.testbit_0_l.
Qed.

Lemma to_bit_vector_spec rs :
  wf rs -> Forall (fun s => s < 1024) (shards rs) ->
  exists l, to_bit_vector rs = Ok l /\ length l = (2 + BIT_VECTOR_BYTES)%nat /\
    take 2 l = to_be_bytes 2 (cluster_id rs) /\
    forall j, bit_of l j = bool_decide (Z.of_nat j ∈ shards rs).
Proof.
  intros [Hc Hs] Hlt.
  destruct (set_bits_spec (shards rs) _ (blank_length (cluster_id rs))) as (l & E & El & Et & Eb).
  { apply list.Forall_forall. intros s Hin. rewrite list.Forall_forall in Hs, Hlt.
    specialize (Hs s Hin). specialize (Hlt s Hin). unfold in_u in Hs. lia. }
  exists l. split; [exact E|]. rewrite El, Et, blank_length. split; [done|]. split.
  - change 2%nat with (length (to_be_bytes 2 (cluster_id rs))) at 1.
    by rewrite take_app_length.
  - intros j. by rewrite Eb, bit_of_blank, orb_false_r.
Qed.

Lemma set_bits_Err out shards e :
  Forall in_u16 shards ->
  set_bits out shards = Err e <->
  exists pre s post, shards = pre ++ s :: post /\ Forall (fun s => s < 1024) pre /\
    1024 <= s /\ e = ShardOutOfRange s.
Proof.
  intros Hf; revert out; induction Hf as [|s shards Hs Hf IH]; intros out; cbn.
  - split; [done|]. by intros ([|] & ? & ? & ? & _).
  - unfold in_u in Hs. unfold BIT_VECTOR_SHARDS. case_decide as Hlt.
    + split.
      * intros [= <-]. exists [], s, shards. repeat split; [constructor|lia].
      * intros ([|p pre] & s' & post & E & Hpre & Hs' & ->); [by injection E as <- _|].
        injection E as <- _. split_Forall. lia.
    + rewrite IH. split.
      * intros (pre & s' & post & -> & Hpre & Hs' & ->).
        exists (s :: pre), s', post. repeat split; [|done]. constructor; [lia|done].
      * intros ([|p pre] & s' & post & E & Hpre & Hs' & ->); injection E as <- E; [lia|].
        split_Forall. naive_solver.
Qed.

Lemma from_to_bit_vector rs :
  wf rs -> Forall (fun s => s < 1024) (shards rs) ->
  exists l, to_bit_vector rs = Ok l /\ length l = 130%nat /\
    from_bit_vector l = Ok (new (cluster_id rs) (shards rs)).
Proof.
  intros Hwf Hlt. destruct (to_bit_vector_spec rs Hwf Hlt) as (l & E & El & Et & Eb).
  exists l. split; [done|]. split; [done|]. destruct Hwf as [Hc Hs].
  destruct (from_bit_vector_130 l El) as ([c sh] & -> & Ec & Hsort & Hin). cbn in *.
  f_equal. subst c. rewrite Et, u16_be_roundtrip by done. unfold new. f_equal.
  apply sorted_unique; [done|apply (new_sorted 0)|].
  intros s. etrans; [apply Hin|]. etrans; [|symmetry; apply (elem_of_new 0)].
  rewrite Eb, bool_decide_spec. split.
  - intros [Hr Hm]. by rewrite Z2Nat.id in Hm by lia.
  - intros Hm. rewrite list.Forall_forall in Hs, Hlt. specialize (Hs s Hm).
    specialize (Hlt s Hm). unfold in_u in Hs. rewrite Z2Nat.id by lia. split; [lia|done].
Qed.

(** The bit vector describes the same set: if every shard is below 1024 the
    descriptor encodes to 130 bytes which decode to the sorted, duplicate-free
    descriptor with the same cluster and shards, the one [new] builds; otherwise
    the first shard out of range is reported, and there is no other failure. *)
Theorem bit_vector_roundtrip (rs : t) :
  wf rs ->
  (Forall (fun s => s < 1024) (shards rs) ->
     exists l, to_bit_vector rs = Ok l /\ length l = 130%nat /\
       from_bit_vector l = Ok (new (cluster_id rs) (shards rs))) /\
  (forall e, to_bit_vector rs = Err e <->
     exists pre s post, shards rs = pre ++ s :: post /\
       Forall (fun s => s < 1024) pre /\ 1024 <= s /\ e = ShardOutOfRange s).
Proof.
  intros Hwf. split; [by apply from_to_bit_vector|].
  intros e. apply set_bits_Err. apply Hwf.
Qed.

Lemma bit_vector_roundtrip_witness :
  exists l, to_bit_vector (mk 1 [7; 0; 1023; 7]) = Ok l /\ length l = 130%nat /\
    from_bit_vector l = Ok (mk 1 [0; 7; 1023]).
Proof.
  apply (bit_vector_roundtrip (mk 1 [7; 0; 1023; 7])).
  - split; [unfold in_u; cbn; lia|]. repeat constructor; cbn; unfold in_u; lia.
  - repeat constructor.
Defined.

(** Bytes are determined by their bits. *)
Lemma byte_bits_eq a b :
  (forall k, 0 <= k < 8 -> Z.testbit (u8 a) k = Z.testbit (u8 b) k) -> a = b.
Proof.
  intros H. apply u8_inj. pose proof (u8_range a). pose proof (u8_range b).
  rewrite <- (Z.mod_small (u8 a) (2 ^ 8)), <- (Z.mod_small (u8 b) (2 ^ 8)) by (cbn; lia).
  apply Z.bits_inj'. intros k Hk. destruct (decide (k < 8)).
  - rewrite !Z.mod_pow2_bits_low by lia. apply H. lia.
  - by rewrite !Z.mod_pow2_bits_high by lia.
Qed.

Lemma bit_vector_ext l k :
  length l = (2 + BIT_VECTOR_BYTES)%nat -> length k = (2 + BIT_VECTOR_BYTES)%nat ->
  take 2 l = take 2 k ->
  (forall j, (j < BIT_VECTOR_SHARDS)%nat -> bit_of l j = bit_of k j) -> l = k.
Proof.
  unfold BIT_VECTOR_BYTES, BIT_VECTOR_SHARDS. cbn. intros Hl Hk Ht Hb.
  apply list_eq. intros i. destruct (decide (i < 2)%nat) as [Hi|Hi].
  - rewrite <- (lookup_take_lt l 2 i), <- (lookup_take_lt k 2 i) by lia. by rewrite Ht.
  - destruct (decide (i < 130)%nat) as [Hi'|Hi']; [|by rewrite !lookup_ge_None_2 by lia].
    destruct (lookup_lt_is_Some_2 l i) as [a Ha]; [lia|].
    destruct (lookup_lt_is_Some_2 k i) as [b Hb']; [lia|]. rewrite Ha, Hb'. f_equal.
    apply byte_bits_eq. intros n Hn.
    specialize (Hb ((i - 2) * 8 + Z.to_nat (7 - n))%nat ltac:(lia)). unfold bit_of in Hb.
    rewrite Nat.div_add_l, (Nat.div_small (Z.to_nat _)), Nat.add_0_r in Hb by lia.
    replace (((i - 2) * 8 + Z.to_nat (7 - n)) mod 8)%nat with (Z.to_nat (7 - n)) in Hb
      by (rewrite Nat.add_comm, Nat.Div0.mod_add, Nat.mod_small; lia).
    replace (2 + (i - 2))%nat with i in Hb by lia.
    rewrite Ha, Hb' in Hb. cbn in Hb. rewrite Z2Nat.id in Hb by lia.
    by replace (7 - (7 - n)) with n in Hb by lia.
Qed.

(** Every 130-byte string is the bit vector of exactly one sorted descriptor,
    the one it decodes to, and every other length is rejected with both lengths. *)
Theorem from_bit_vector_exact (l : bytes) :
  if decide (length l = 130%nat)
  then exists rs, from_bit_vector l = Ok rs /\ wf rs /\ StronglySorted Z.lt (shards rs) /\
    to_bit_vector rs = Ok l
  else from_bit_vector l = Err (BitVectorLength 130 (length l)).
Proof.
  case_decide as Hl; [|unfold from_bit_vector; by rewrite decide_True].
  destruct (from_bit_vector_130 l Hl) as (rs & E & Ec & Hsort & Hin). exists rs.
  assert (wf rs) as Hwf.
  { split.
    - rewrite Ec. destruct l as [|a [|b l]]; [discriminate..|]. apply u16_of_two.
    - apply list.Forall_forall. intros s [Hs _]%Hin. unfold in_u; lia. }
  assert (Forall (fun s => s < 1024) (shards rs)) as Hlt.
  { apply list.Forall_forall. intros s [Hs _]%Hin. lia. }
  split; [done|]. split; [done|]. split; [done|].
  destruct (to_bit_vector_spec rs Hwf Hlt) as (l' & -> & El & Et & Eb). f_equal.
  apply bit_vector_ext; [done|done| |].
  - rewrite Et, Ec. pose proof (to_from_be_bytes (take 2 l)) as H2.
    by rewrite length_take, Hl in H2.
  - intros j Hj. rewrite Eb. apply eq_true_iff_eq. rewrite bool_decide_eq_true, Hin, Nat2Z.id.
    unfold BIT_VECTOR_SHARDS in Hj. rewrite Is_true_true. intuition lia.
Qed.

End RelayShards.
