(* ===== verification/Net.v ===== *)
(** * Net: addresses, keys and node records

    The libp2p addresses the node handles, and the interfaces of the libraries that encode
    and parse node records: [enr], [data_encoding] and the key types of [libp2p]. *)

From Stdlib Require Import Strings.Byte.
From stdpp Require Import base gmap strings list numbers.
From S2P Require Import Prelude Bytes Text.

Open Scope Z_scope.

(** ** Addresses *)

(** A [PeerId] of libp2p is its bytes. *)
Abbreviation PeerId := bytes.

Inductive IpAddr : Type := V4 (ip : Z) | V6 (ip : Z).

#[export] Instance IpAddr_eq_dec : EqDecision IpAddr.
Proof. solve_decision. Defined.

#[export] Instance IpAddr_countable : Countable IpAddr.
Proof.
  refine (inj_countable' (fun a => match a with V4 ip => inl ip | V6 ip => inr ip end)
    (fun a => match a with inl ip => V4 ip | inr ip => V6 ip end) _).
  by intros [].
Defined.

(** The components of a multiaddr; those the code does not look at are kept as text. *)
Inductive Protocol : Type :=
  | Ip4 (ip : Z) | Ip6 (ip : Z) | Tcp (port : Z) | P2p (peer : PeerId)
  | OtherProtocol (s : string).

#[export] Instance Protocol_eq_dec : EqDecision Protocol.
Proof. solve_decision. Defined.

Abbreviation Multiaddr := (list Protocol).

(** ** Encodings *)

(** A [data_encoding::Encoding] without padding. *)
Class TextEncoding := {
  text_encode : bytes -> string;
  text_decode : bytes -> result string bytes;
  text_decode_encode b : text_decode (as_bytes (text_encode b)) = Ok b;
}.

(** [BASE64URL_NOPAD], and the key types of libp2p: [secp256k1::PublicKey::try_from_bytes]
    followed by [to_peer_id]. *)
Class EnrCrypto := {
  BASE64URL_NOPAD : TextEncoding;
  secp256k1_peer_id : bytes -> option PeerId;
}.

(** ** Node records *)

(** The methods of [enr::Enr] the program calls. *)
Class EnrOps (WakuEnr : Type) := {
  node_id : WakuEnr -> bytes;
  to_base64 : WakuEnr -> string;
  from_str : string -> result string WakuEnr;
  public_key_encoded : WakuEnr -> bytes;
  ip4 : WakuEnr -> option Z;
  tcp4 : WakuEnr -> option Z;
  get_decodable : string -> WakuEnr -> option (result string bytes);
}.

(** What the [enr] crate documents of the text form: [enr:] and the base64 of the record,
    which parses back. *)
Class EnrTextLaws (WakuEnr : Type) `{EnrCrypto} `{EnrOps WakuEnr} := {
  to_base64_form (e : WakuEnr) :
    exists raw, to_base64 e = "enr:" +:+ @text_encode BASE64URL_NOPAD raw;
  from_str_to_base64 (e : WakuEnr) : from_str (to_base64 e) = Ok e;
}.

(** The settings of an [enr::Builder]. *)
Record EnrBuilder : Type := mkEnrBuilder {
  b_ip4 : option Z;
  b_udp4 : option Z;
  b_tcp4 : option Z;
  b_values : list (string * bytes);
}.

(** [Builder::build] with a key, and the public key of a key. *)
Class EnrBuild (WakuEnr CombinedKey : Type) := {
  build : EnrBuilder -> CombinedKey -> result string WakuEnr;
  key_public : CombinedKey -> bytes;
}.

(** A built record has what was set, under the public key of the signing key. *)
Class EnrBuildLaws (WakuEnr CombinedKey : Type) `{EnrOps WakuEnr, EnrBuild WakuEnr CombinedKey} := {
  build_fields b key (e : WakuEnr) : build b key = Ok e ->
    ip4 e = b_ip4 b /\ tcp4 e = b_tcp4 b /\ public_key_encoded e = key_public key /\
    forall k v, b_values b = [(k, v)] -> get_decodable k e = Some (Ok v);
}.
