(* ===== verification/Discv5.v ===== *)
(** * Discv5: the [waku-discv5] crate, [lib.rs]

    The conversions between node records, their bytes and dialable peers, and the wrapper
    around the discv5 service.  The service is the class [Discv5Service], on an abstract
    state; a random key or target is an argument. *)

From Stdlib Require Import Strings.Byte.
From stdpp Require Import base gmap strings list numbers.
From S2P Require Import Prelude Bytes Text Core Framing Wire Enr Net.

Open Scope Z_scope.

(** [DiscoveryError]. *)
Inductive DiscoveryError : Type :=
  | EnrBuildError (e : string)
  | InitError (e : string)
  | Discv5Error (e : string).

(** Its [Display]. *)
Definition discovery_error_to_string (e : DiscoveryError) : string :=
  match e with
  | EnrBuildError e => "ENR build failed: " +:+ e
  | InitError e => "discv5 init failed: " +:+ e
  | Discv5Error e => "discv5 error: " +:+ e
  end.

(** ** Records *)

Section Records.
Context `{EnrCrypto} {WakuEnr : Type} `{EnrOps WakuEnr}.

(** [DiscoveredPeer]. *)
Record DiscoveredPeer : Type := mkDiscoveredPeer {
  dp_peer_id : PeerId;
  dp_addrs : list Multiaddr;
  dp_shards : RelayShards.t;
  dp_enr : WakuEnr;
}.

(** [enr_to_bytes]. *)
Definition enr_to_bytes (enr : WakuEnr) : bytes :=
  let s := to_base64 enr in
  let b64 := default s (strip_prefix "enr:" s) in
  default [] (ok (@text_decode BASE64URL_NOPAD (as_bytes b64))).

(** [enr_from_bytes]. *)
Definition enr_from_bytes (b : bytes) : option WakuEnr :=
  let text := "enr:" +:+ @text_encode BASE64URL_NOPAD b in
  ok (from_str text).

(** [enr_peer_id]. *)
Definition enr_peer_id (enr : WakuEnr) : option PeerId :=
  secp256k1_peer_id (public_key_encoded enr).

(** [enr_relay_shards]: the indices list, else the bit vector. *)
Definition enr_relay_shards (enr : WakuEnr) : option RelayShards.t :=
  match get_decodable ENR_KEY_RS enr with
  | Some (Ok b) => ok (RelayShards.from_indices_list b)
  | _ =>
      match get_decodable ENR_KEY_RSV enr with
      | Some (Ok b) => ok (RelayShards.from_bit_vector b)
      | _ => None
      end
  end.

(** [enr_to_dialable]. *)
Definition enr_to_dialable (enr : WakuEnr) : option DiscoveredPeer :=
  peer_id ← enr_peer_id enr;
  shards ← enr_relay_shards enr;
  ip ← ip4 enr;
  tcp ← tcp4 enr;
  let addr := [Ip4 ip; Tcp tcp; P2p peer_id] in
  Some (mkDiscoveredPeer peer_id [addr] shards enr).

Lemma enr_to_dialable_inv (e : WakuEnr) (p : DiscoveredPeer) :
  enr_to_dialable e = Some p ->
  enr_peer_id e = Some (dp_peer_id p) /\ enr_relay_shards e = Some (dp_shards p) /\
  dp_enr p = e /\
  exists ip tcp, ip4 e = Some ip /\ tcp4 e = Some tcp /\
    dp_addrs p = [[Ip4 ip; Tcp tcp; P2p (dp_peer_id p)]].
Proof.
  unfold enr_to_dialable.
  destruct (enr_peer_id e) as [id|]; [|done]. destruct (enr_relay_shards e) as [rs|]; [|done].
  destruct (ip4 e) as [ip|]; [|done]. destruct (tcp4 e) as [tcp|]; [|done].
  cbn. intros [= <-]. cbn. eauto 10.
Qed.

(** A record survives its bytes. *)
Lemma enr_from_to_bytes `{!EnrTextLaws WakuEnr} (e : WakuEnr) :
  enr_from_bytes (enr_to_bytes e) = Some e.
Proof.
  destruct (to_base64_form e) as [raw Hraw].
  unfold enr_from_bytes, enr_to_bytes. rewrite Hraw, strip_prefix_append.
  cbn [from_option id]. rewrite (@text_decode_encode BASE64URL_NOPAD). cbn [ok from_option id].
  by rewrite <- Hraw, from_str_to_base64.
Qed.

Lemma enrs_from_to_bytes `{!EnrTextLaws WakuEnr} (l : list WakuEnr) :
  omap enr_from_bytes (enr_to_bytes <$> l) = l.
Proof. induction l as [|e l IH]; [done|]. cbn. by rewrite enr_from_to_bytes, IH. Qed.

End Records.
Arguments DiscoveredPeer : clear implicits.

(** ** The service *)

(** [DiscoveryConfig]. *)
Record DiscoveryConfig (WakuEnr CombinedKey : Type) : Type := mkDiscoveryConfig {
  dc_listen_ip : Z;
  dc_udp_port : Z;                 (* u16 *)
  dc_tcp_port : option Z;          (* u16 *)
  dc_external_ip : option Z;
  dc_cluster_id : Z;               (* u16 *)
  dc_shards : list Z;              (* u16 *)
  dc_bootstrap : list WakuEnr;
  dc_key : option CombinedKey;
}.
Arguments mkDiscoveryConfig {_ _}.
Arguments dc_listen_ip {_ _}.
Arguments dc_udp_port {_ _}.
Arguments dc_tcp_port {_ _}.
Arguments dc_external_ip {_ _}.
Arguments dc_cluster_id {_ _}.
Arguments dc_shards {_ _}.
Arguments dc_bootstrap {_ _}.
Arguments dc_key {_ _}.

(** The calls made to [discv5::Discv5].  A query is given the predicate its results must
    satisfy. *)
Class Discv5Service (WakuEnr CombinedKey DV : Type) := {
  dv_new : WakuEnr -> CombinedKey -> Z -> Z -> result string DV;
  dv_add_enr : WakuEnr -> DV -> result string () * DV;
  dv_start : DV -> result string () * DV;
  dv_local_enr : DV -> WakuEnr;
  dv_find_node_predicate : bytes -> (WakuEnr -> bool) -> nat -> DV -> result string (list WakuEnr);
  dv_table_entries_enr : DV -> list WakuEnr;
}.

(** The local record is the one given, whatever is added and once started; a query returns records that
    satisfy its predicate, as many as asked for at most. *)
Class Discv5Laws (WakuEnr CombinedKey DV : Type) `{Discv5Service WakuEnr CombinedKey DV} := {
  local_enr_new e key ip port (d : DV) : dv_new e key ip port = Ok d -> dv_local_enr d = e;
  local_enr_add e (d : DV) : dv_local_enr (dv_add_enr e d).2 = dv_local_enr d;
  local_enr_start (d : DV) : dv_local_enr (dv_start d).2 = dv_local_enr d;
  find_node_sound target p n (d : DV) l : dv_find_node_predicate target p n d = Ok l ->
    Forall (fun e => p e = true) l /\ (length l <= n)%nat;
}.

Section Service.
Context `{EnrCrypto} {WakuEnr CombinedKey DV : Type} `{EnrOps WakuEnr}.
Context `{EnrBuild WakuEnr CombinedKey, Discv5Service WakuEnr CombinedKey DV}.

Abbreviation Config := (DiscoveryConfig WakuEnr CombinedKey).

(** [DiscoveryConfig::new] and its setters; [Ipv4Addr::LOCALHOST] is 127.0.0.1. *)
Definition discovery_config_new (udp_port : Z) : Config :=
  mkDiscoveryConfig 0x7F000001 udp_port None None (NetworkPreset.cluster_id TWN)
    (u16_range (NetworkPreset.shard_count TWN)) [] None.
Definition config_with_cluster (c : Config) (cluster_id : Z) (shards : list Z) : Config :=
  mkDiscoveryConfig (dc_listen_ip c) (dc_udp_port c) (dc_tcp_port c) (dc_external_ip c)
    cluster_id shards (dc_bootstrap c) (dc_key c).
Definition config_with_bootstrap (c : Config) (bootstrap : list WakuEnr) : Config :=
  mkDiscoveryConfig (dc_listen_ip c) (dc_udp_port c) (dc_tcp_port c) (dc_external_ip c)
    (dc_cluster_id c) (dc_shards c) bootstrap (dc_key c).

(** [build_waku_enr]. *)
Definition build_waku_enr (key : CombinedKey) (config : Config) : result DiscoveryError WakuEnr :=
  let shards := RelayShards.new (dc_cluster_id config) (dc_shards config) in
  rs_bytes ← map_err (fun e => EnrBuildError (enr_error_to_string e))
    (RelayShards.to_indices_list shards);
  let builder := mkEnrBuilder (Some (default (dc_listen_ip config) (dc_external_ip config)))
    (Some (dc_udp_port config)) (dc_tcp_port config) [(ENR_KEY_RS, rs_bytes)] in
  map_err EnrBuildError (build builder key).

(** [Discovery]. *)
Record Discovery : Type := mkDiscovery {
  discv5 : DV;
  disc_cluster_id : Z;             (* u16 *)
}.

(** [Discovery::new]; [generated] is the key made when none is given. *)
Definition discovery_new (generated : CombinedKey) (config : Config)
    : result DiscoveryError Discovery :=
  let key := default generated (dc_key config) in
  local_enr ← build_waku_enr key config;
  d ← map_err InitError (dv_new local_enr key (dc_listen_ip config) (dc_udp_port config));
  let d := foldl (fun d enr => (dv_add_enr enr d).2) d (dc_bootstrap config) in
  Ok (mkDiscovery d (dc_cluster_id config)).

(** [Discovery::start], [local_enr], [table_peers]. *)
Definition discovery_start (d : Discovery) : result DiscoveryError () * Discovery :=
  let '(r, dv) := dv_start (discv5 d) in
  (map_err Discv5Error r, mkDiscovery dv (disc_cluster_id d)).
Definition local_enr (d : Discovery) : WakuEnr := dv_local_enr (discv5 d).
Definition table_peers (d : Discovery) : list WakuEnr := dv_table_entries_enr (discv5 d).

(** The predicate of [discover]. *)
Definition in_cluster (cluster : Z) (enr : WakuEnr) : bool :=
  default false ((fun rs => bool_decide (RelayShards.cluster_id rs = cluster)) <$>
    enr_relay_shards enr).

(** [Discovery::discover] with a target, and [discover_dialable]. *)
Definition discover (target : bytes) (d : Discovery) : result DiscoveryError (list WakuEnr) :=
  map_err Discv5Error
    (dv_find_node_predicate target (in_cluster (disc_cluster_id d)) 16 (discv5 d)).

Definition discover_dialable (target : bytes) (d : Discovery)
    : result DiscoveryError (list (DiscoveredPeer WakuEnr)) :=
  (fun enrs : list WakuEnr => omap enr_to_dialable enrs) <$> discover target d.

(** ** What a node announces and finds *)

Lemma new_wf c l : in_u16 c -> Forall in_u16 l -> RelayShards.wf (RelayShards.new c l).
Proof.
  intros Hc Hl. split; [done|]. rewrite list.Forall_forall in *. intros x.
  rewrite RelayShards.elem_of_new. auto.
Qed.

Lemma local_enr_adds `{!Discv5Laws WakuEnr CombinedKey DV} (l : list WakuEnr) (d : DV) :
  dv_local_enr (foldl (fun d enr => (dv_add_enr enr d).2) d l) = dv_local_enr d.
Proof.
  revert d. induction l as [|e l IH]; intros d; [done|]. cbn. by rewrite IH, local_enr_add.
Qed.

Lemma built_record `{!EnrBuildLaws WakuEnr CombinedKey} (key : CombinedKey) (config : Config)
    (e : WakuEnr) :
  in_u16 (dc_cluster_id config) -> Forall in_u16 (dc_shards config) ->
  build_waku_enr key config = Ok e ->
  enr_relay_shards e = Some (RelayShards.new (dc_cluster_id config) (dc_shards config)) /\
  ip4 e = Some (default (dc_listen_ip config) (dc_external_ip config)) /\
  tcp4 e = dc_tcp_port config /\ public_key_encoded e = key_public key.
Proof.
  intros Hc Hs. unfold build_waku_enr. rewrite bind_Ok. intros (b & Hb & He).
  set (rs := RelayShards.new _ _) in *.
  destruct (RelayShards.to_indices_list rs) as [b'|] eqn:E; [|done]. cbn in Hb. injection Hb as ->.
  assert (length (RelayShards.shards rs) <= 255)%nat as Hlen.
  { unfold RelayShards.to_indices_list in E. case_decide; [done|lia]. }
  destruct (RelayShards.from_to_indices_list rs (new_wf _ _ Hc Hs) Hlen) as (l & El & Ed).
  rewrite E in El. injection El as <-.
  destruct (build _ key) as [e'|] eqn:Eb; [|done]. cbn in He. injection He as ->.
  destruct (build_fields _ _ _ Eb) as (Hip & Htcp & Hpk & Hv). cbn in *.
  split; [|done]. unfold enr_relay_shards. rewrite (Hv _ _ eq_refl). by rewrite Ed.
Qed.

(** A node announces itself truthfully: the record [Discovery::new] builds carries the
    configured shards, sorted and without duplicates, so that every node of its cluster
    accepts it; and it is dialable, on the advertised address and under the peer id of
    the node's own key, exactly when a TCP port is advertised.  More than 255 distinct
    shards are refused. *)
Theorem local_record_announces
    `{!EnrBuildLaws WakuEnr CombinedKey, !Discv5Laws WakuEnr CombinedKey DV}
    (generated : CombinedKey) (config : Config) (peer : PeerId) :
  in_u16 (dc_cluster_id config) -> Forall in_u16 (dc_shards config) ->
  secp256k1_peer_id (key_public (default generated (dc_key config))) = Some peer ->
  let rs := RelayShards.new (dc_cluster_id config) (dc_shards config) in
  (forall d, discovery_new generated config = Ok d ->
     enr_relay_shards (local_enr d) = Some rs /\
     in_cluster (dc_cluster_id config) (local_enr d) = true /\
     enr_to_dialable (local_enr d) =
       (fun tcp => mkDiscoveredPeer peer
          [[Ip4 (default (dc_listen_ip config) (dc_external_ip config)); Tcp tcp; P2p peer]]
          rs (local_enr d)) <$> dc_tcp_port config) /\
  ((255 < length (RelayShards.shards rs))%nat ->
   discovery_new generated config =
   Err (EnrBuildError (enr_error_to_string (TooManyShards (length (RelayShards.shards rs)))))).
Proof.
  intros Hc Hs Hpeer rs. unfold discovery_new. split.
  - intros d. rewrite bind_Ok. intros (e & Eb & Hd). apply bind_Ok in Hd as (dv & Ed & [= <-]).
    destruct (dv_new _ _ _ _) as [dv'|] eqn:En; [|done]. cbn in Ed. injection Ed as ->.
    destruct (built_record _ _ _ Hc Hs Eb) as (Hrs & Hip & Htcp & Hpk).
    unfold local_enr. cbn [discv5]. rewrite local_enr_adds, (local_enr_new _ _ _ _ _ En).
    split; [done|]. split; [unfold in_cluster; rewrite Hrs; cbn; by rewrite bool_decide_true|].
    unfold enr_to_dialable, enr_peer_id. rewrite Hpk, Hpeer, Hrs, Hip, Htcp.
    by destruct (dc_tcp_port config).
  - intros Hn. unfold build_waku_enr. fold rs. unfold RelayShards.to_indices_list.
    by rewrite decide_True.
Qed.

(** What a discovery round hands to the dialer: at most sixteen peers, each in the
    node's own cluster, with the shards its record announces and one address that ends
    in the peer id of the record's key. *)
Theorem discovered_in_cluster `{!Discv5Laws WakuEnr CombinedKey DV} (target : bytes)
    (d : Discovery) (peers : list (DiscoveredPeer WakuEnr)) (peer : DiscoveredPeer WakuEnr) :
  discover_dialable target d = Ok peers ->
  (length peers <= 16)%nat /\
  (peer ∈ peers ->
   RelayShards.cluster_id (dp_shards peer) = disc_cluster_id d /\
   enr_relay_shards (dp_enr peer) = Some (dp_shards peer) /\
   enr_peer_id (dp_enr peer) = Some (dp_peer_id peer) /\
   exists ip tcp, ip4 (dp_enr peer) = Some ip /\ tcp4 (dp_enr peer) = Some tcp /\
     dp_addrs peer = [[Ip4 ip; Tcp tcp; P2p (dp_peer_id peer)]]).
Proof.
  unfold discover_dialable, discover. destruct (dv_find_node_predicate _ _ _ _) as [l|] eqn:E; [|done].
  intros [= <-]. destruct (find_node_sound _ _ _ _ _ E) as [Hf Hl]. split.
  { etransitivity; [|exact Hl]. clear. induction l as [|e l IH]; cbn; [lia|].
    destruct (enr_to_dialable e); cbn; lia. }
  rewrite list_elem_of_omap. intros (e & He & Hd).
  apply (proj1 (list.Forall_forall _ _) Hf) in He. unfold in_cluster in He.
  destruct (enr_to_dialable_inv _ _ Hd) as (Hid & Hrs & <- & Haddr).
  rewrite Hrs in He. cbn in He. bool_facts. auto.
Qed.

End Service.

(** ** Concrete libraries for the witnesses

    Text that is its own encoding, a record that is its fields, and a service that knows
    the records it was given. *)

Program Definition plain_text : TextEncoding := {|
  text_encode := String.string_of_list_byte;
  text_decode b := Ok b;
|}.
Next Obligation. intros b. cbn. unfold as_bytes. by rewrite String.list_byte_of_string_of_list_byte. Qed.

Definition demo_crypto : EnrCrypto := {| BASE64URL_NOPAD := plain_text; secp256k1_peer_id := Some |}.

Record DemoEnr : Type := mkDemoEnr {
  de_key : bytes;
  de_ip4 : option Z;
  de_tcp4 : option Z;
  de_values : list (string * bytes);
}.

#[export] Instance DemoEnr_eq_dec : EqDecision DemoEnr.
Proof. solve_decision. Defined.

#[export] Instance DemoEnr_countable : Countable DemoEnr.
Proof.
  refine (inj_countable' (fun e => (de_key e, de_ip4 e, de_tcp4 e, de_values e))
    (fun '(a, b, c, d) => mkDemoEnr a b c d) _).
  record_countable.
Defined.

Definition demo_text (e : DemoEnr) : string :=
  "enr:" +:+ String.string_of_list_byte (@encode_to_vec _ countable_prost e).

Definition demo_enr : EnrOps DemoEnr := {|
  node_id := de_key;
  to_base64 := demo_text;
  from_str s := ok_or "no prefix" (strip_prefix "enr:" s) ≫=
    (fun t => @prost_decode _ countable_prost (as_bytes t));
  public_key_encoded := de_key;
  ip4 := de_ip4;
  tcp4 := de_tcp4;
  get_decodable k e := Ok <$> (list_to_map (de_values e) : gmap string bytes) !! k;
|}.

Definition demo_build : EnrBuild DemoEnr bytes := {|
  build b key := Ok (mkDemoEnr key (b_ip4 b) (b_tcp4 b) (b_values b));
  key_public := id;
|}.

(** The service: its own record, the others it was told of, and whether it runs. *)
Definition demo_service : Discv5Service DemoEnr bytes (DemoEnr * list DemoEnr * bool) := {|
  dv_new e _ _ _ := Ok (e, [], false);
  dv_add_enr e '(me, l, b) := (Ok tt, (me, l ++ [e], b));
  dv_start '(me, l, _) := (Ok tt, (me, l, true));
  dv_local_enr '(me, _, _) := me;
  dv_find_node_predicate _ p n '(_, l, b) :=
    if b : bool then Ok (take n (List.filter p l)) else Err "not started";
  dv_table_entries_enr '(_, l, _) := l;
|}.

#[local] Existing Instances demo_crypto demo_enr demo_build demo_service.

#[export] Instance demo_text_laws : EnrTextLaws DemoEnr.
Proof.
  split; intros e.
  - by exists (@encode_to_vec _ countable_prost e).
  - cbn [from_str to_base64 demo_enr]. unfold demo_text. rewrite strip_prefix_append.
    cbn [ok_or mbind result_bind].
    unfold as_bytes. rewrite String.list_byte_of_string_of_list_byte.
    apply (@prost_decode_encode _ countable_prost).
Qed.

#[export] Instance demo_build_laws : EnrBuildLaws DemoEnr bytes.
Proof.
  split. intros b key e [= <-]. cbn. do 3 (split; [done|]). intros k v ->. cbn.
  by rewrite lookup_insert_eq.
Qed.

#[export] Instance demo_service_laws : Discv5Laws DemoEnr bytes (DemoEnr * list DemoEnr * bool).
Proof.
  split.
  - by intros e key ip port d [= <-].
  - by intros e [[me l] b].
  - by intros [[me l] b].
  - intros target p n [[me l] []] k; [|done]. intros [= <-]. split.
    + apply Forall_take, List.Forall_forall. by intros e [_ He]%filter_In.
    + rewrite length_take. lia.
Qed.

Definition demo_config : DiscoveryConfig DemoEnr bytes :=
  mkDiscoveryConfig 0x7F000001 9000 (Some 60000) None 1 [7; 0; 7; 2] [] (Some [x05]).

Lemma local_record_announces_witness :
  exists d, discovery_new [] demo_config = Ok d /\
    enr_relay_shards (local_enr d) = Some (RelayShards.mk 1 [0; 2; 7]) /\
    dp_addrs <$> enr_to_dialable (local_enr d) = Some [[Ip4 0x7F000001; Tcp 60000; P2p [x05]]].
Proof.
  assert (Forall in_u16 (dc_shards demo_config)) as Hs
    by (cbn; split_Forall; unfold in_u; lia).
  eexists. split; [reflexivity|].
  destruct (proj1 (local_record_announces [] demo_config [x05] ltac:(done)
    Hs eq_refl) _ eq_refl) as (Hrs & _ & Hd).
  rewrite Hrs, Hd. split; reflexivity.
Defined.

(** A second node, told of the first one, finds it. *)
Definition demo_finder : result DiscoveryError Discovery :=
  d ← discovery_new [] demo_config;
  d' ← discovery_new [x06] (config_with_bootstrap (discovery_config_new 9001) [local_enr d]);
  Ok (discovery_start d').2.

Lemma discovered_in_cluster_witness :
  exists d peers peer, demo_finder = Ok d /\ discover_dialable [] d = Ok peers /\
    peer ∈ peers /\ RelayShards.cluster_id (dp_shards peer) = disc_cluster_id d.
Proof.
  destruct demo_finder as [d|e] eqn:E; vm_compute in E; [|discriminate E].
  injection E as <-. eexists _, _, _. split; [reflexivity|].
  split; [vm_compute; reflexivity|]. split; [left|].
  eapply (fun d l p H Hp => proj1 (proj2 (discovered_in_cluster [] d l p H) Hp)).
  - vm_compute. reflexivity.
  - left.
Defined.
