(* ===== verification/Dns.v ===== *)
(** * Dns: the [enrtree] resolver of [waku-discv5/src/dns.rs]

    A node list is a Merkle tree of DNS TXT records, signed at its root.  [resolve] walks
    it with an explicit stack.  DNS is the function [txt], the trait [TxtResolver]: no name
    is asked for twice (proved below), so a resolver whose answers change over time gives
    no other behaviour.  Hashes, encodings and signatures come from libraries. *)

From Stdlib Require Import Strings.Byte Strings.Ascii.
From stdpp Require Import base gmap strings list numbers.
From S2P Require Import Prelude Bytes Text Core Framing Wire Enr Net Discv5.

Open Scope Z_scope.

(** ** [dns.rs] *)

Definition MAX_RECORDS : nat := Z.to_nat 5000.

(** [DnsError]. *)
Inductive DnsError : Type :=
  | UrlError (e : string)
  | RootError (e : string)
  | SignatureError
  | ResolveError (e : string).

(** The libraries: [sha3], [data_encoding], [k256], and the Unicode case table. *)
Class DnsCrypto := {
  keccak256 : bytes -> bytes;
  BASE32_NOPAD : TextEncoding;
  VerifyingKey : Type;
  Signature : Type;
  from_sec1_bytes : bytes -> option VerifyingKey;
  signature_from_slice : bytes -> option Signature;
  verify_prehash : VerifyingKey -> bytes -> Signature -> bool;
  to_uppercase : string -> string;
}.

(** [EnrTreeLink]. *)
Record EnrTreeLink : Type := mkEnrTreeLink {
  pubkey : bytes;
  domain : string;
}.

Section Dns.
Context `{EnrCrypto, DnsCrypto} {WakuEnr : Type} `{EnrOps WakuEnr}.

(** [parse_enrtree]. *)
Definition parse_enrtree (url : string) : result DnsError EnrTreeLink :=
  rest ← ok_or (UrlError url) (strip_prefix "enrtree://" url);
  '(b32key, domain) ← ok_or (UrlError url) (split_once "@"%char rest);
  pubkey ← map_err (fun e => UrlError ("bad base32 pubkey: " +:+ e))
    (@text_decode BASE32_NOPAD (as_bytes (to_uppercase b32key)));
  Ok (mkEnrTreeLink pubkey domain).

(** [subdomain_hash]. *)
Definition subdomain_hash (content : string) : string :=
  @text_encode BASE32_NOPAD (take 16 (keccak256 (as_bytes content))).

(** [verify_secp256k1]. *)
Definition verify_secp256k1 (msg sig_rs pubkey : bytes) : result DnsError () :=
  let prehash := keccak256 msg in
  vk ← ok_or SignatureError (from_sec1_bytes pubkey);
  sig ← ok_or SignatureError (signature_from_slice sig_rs);
  if verify_prehash vk prehash sig then Ok tt else Err SignatureError.

(** [verify_root]; a [RootRecord] is its [e_root]. *)
Definition verify_root (record : string) (pubkey : bytes) : result DnsError string :=
  '(signed, rest) ← ok_or (RootError "missing sig") (find_str " sig=" record);
  let sig_b64 := trim rest in
  sig ← map_err (fun e => RootError ("bad sig base64: " +:+ e))
    (@text_decode BASE64URL_NOPAD (as_bytes sig_b64));
  if decide (length sig < 64)%nat then Err (RootError "sig too short")
  else
    _ ← verify_secp256k1 (as_bytes signed) (take 64 sig) pubkey;
    ok_or (RootError "missing e=") (head (omap (strip_prefix "e=") (split_whitespace signed))).

Variable txt : string -> result DnsError (list string).

(** The name of a tree node, and the content found there, if it hashes to the subdomain. *)
Definition node_name (domain hash : string) : string := hash +:+ "." +:+ domain.

Definition record_at (domain hash : string) : option string :=
  match txt (node_name domain hash) with
  | Ok (content :: _) => if decide (subdomain_hash content = hash) then Some content else None
  | _ => None
  end.

(** [branch.split(',').map(str::trim).filter(|h| !h.is_empty())]. *)
Definition children (branch : string) : list string :=
  filter (fun h => h <> "") (trim <$> split_on ","%char branch).

(** The variables of the loop, and the names looked up so far. *)
Record Walk : Type := mkWalk {
  enrs : list WakuEnr;
  visited : gset string;
  asked : list string;
}.

(** The body of the loop from the lookup on: the stack, whose top is its head, and the
    variables after it. *)
Definition visit (domain hash : string) (stack : list string) (w : Walk) : list string * Walk :=
  let w := mkWalk (enrs w) (visited w) (asked w ++ [node_name domain hash]) in
  match record_at domain hash with
  | None => (stack, w)
  | Some content =>
      match strip_prefix "enrtree-branch:" content with
      | Some branch => (reverse (children branch) ++ stack, w)
      | None =>
          if starts_with "enr:" content then
            match from_str content with
            | Ok enr => (stack, mkWalk (enrs w ++ [enr]) (visited w) (asked w))
            | Err _ => (stack, w)
            end
          else (stack, w)
      end
  end.

(** The loop.  Every turn lowers the budget or, for a hash that is empty or visited, the
    stack. *)
Fixpoint walk (domain : string) (budget : nat) : list string -> Walk -> Walk :=
  fix pop (stack : list string) (w : Walk) : Walk :=
    match stack with
    | [] => w
    | hash :: stack =>
        if decide (hash = "" \/ hash ∈ visited w) then pop stack w
        else
          let w := mkWalk (enrs w) ({[hash]} ∪ visited w) (asked w) in
          match budget with
          | O => w
          | S budget =>
              let '(stack, w) := visit domain hash stack w in
              walk domain budget stack w
          end
    end.

(** [resolve], with the names it looked up. *)
Definition resolve_asking (url : string) : result DnsError (list WakuEnr) * list string :=
  match parse_enrtree url with
  | Err e => (Err e, [])
  | Ok link =>
      let root :=
        root_records ← txt (domain link);
        root_txt ← ok_or (RootError "no enrtree-root record")
          (head (filter (fun r => starts_with "enrtree-root:v1" r) root_records));
        verify_root root_txt (pubkey link) in
      match root with
      | Err e => (Err e, [domain link])
      | Ok e_root =>
          let w := walk (domain link) MAX_RECORDS [e_root] (mkWalk [] ∅ [domain link]) in
          (Ok (enrs w), asked w)
      end
  end.
Definition resolve (url : string) : result DnsError (list WakuEnr) := (resolve_asking url).1.

(** ** The tree *)

#[local] Arguments strip_prefix : simpl never.

(** The hashes a walk may come to from a root, through records that hash to their names. *)
Inductive reachable (domain root : string) : string -> Prop :=
  | reach_root : root <> "" -> reachable domain root root
  | reach_child h content branch child :
      reachable domain root h -> record_at domain h = Some content ->
      strip_prefix "enrtree-branch:" content = Some branch -> child ∈ children branch ->
      reachable domain root child.

(** The node record at a leaf. *)
Definition leaf_at (domain hash : string) : option WakuEnr :=
  content ← record_at domain hash;
  match strip_prefix "enrtree-branch:" content with
  | Some _ => None
  | None => if starts_with "enr:" content then ok (from_str content) else None
  end.

(** It is the text of the record, which hashes to the name it is found under. *)
Lemma leaf_at_authentic domain h e :
  leaf_at domain h = Some e ->
  exists content others, txt (h +:+ "." +:+ domain) = Ok (content :: others) /\
    subdomain_hash content = h /\ starts_with "enr:" content = true /\ from_str content = Ok e.
Proof.
  unfold leaf_at, record_at, node_name.
  destruct (txt (h +:+ "." +:+ domain)) as [[|content others]|]; [done| |done].
  case_decide as Hs; [|done]. cbn. destruct (strip_prefix _ content); [done|].
  destruct (starts_with "enr:" content) eqn:En; [|done].
  destruct (from_str content) as [e'|] eqn:Ee; [|done]. cbn. intros [= ->].
  exists content, others. by split_and!.
Qed.

(** A tree that fits the cap. *)
Definition fits (domain root : string) : Prop :=
  forall hs, NoDup hs -> Forall (reachable domain root) hs -> (length hs <= MAX_RECORDS)%nat.

Definition children_at (domain hash : string) : list string :=
  match record_at domain hash ≫= strip_prefix "enrtree-branch:" with
  | Some branch => children branch
  | None => []
  end.

Lemma children_nonempty branch : "" ∉ children branch.
Proof. unfold children. rewrite list_elem_of_filter. tauto. Qed.

Lemma reach_children domain root h child :
  reachable domain root h -> child ∈ children_at domain h -> reachable domain root child.
Proof.
  unfold children_at. intros Hh. destruct (record_at domain h) as [content|] eqn:E; cbn; [|set_solver].
  destruct (strip_prefix _ content) as [branch|] eqn:Eb; [|set_solver].
  intros Hc. by eapply reach_child.
Qed.

Lemma visit_spec domain hash stack w :
  visit domain hash stack w =
  (reverse (children_at domain hash) ++ stack,
   mkWalk (enrs w ++ option_list (leaf_at domain hash)) (visited w)
     (asked w ++ [node_name domain hash])).
Proof.
  unfold visit, children_at, leaf_at.
  destruct (record_at domain hash) as [content|]; cbn; [|by rewrite app_nil_r].
  destruct (strip_prefix _ content) as [branch|]; cbn; [by rewrite app_nil_r|].
  destruct (starts_with _ content); cbn; [|by rewrite app_nil_r].
  destruct (from_str content); cbn; [done|by rewrite app_nil_r].
Qed.

(** What the loop has done: it has looked up the hashes [hs]. *)
Record walked (domain root : string) (hs stack : list string) (w : Walk) : Prop := {
  walked_nodup : NoDup hs;
  walked_visited : forall h, h ∈ visited w <-> h ∈ hs;
  walked_reachable : Forall (reachable domain root) hs;
  walked_stack : Forall (fun h => h = "" \/ reachable domain root h) stack;
  walked_enrs : enrs w = omap (leaf_at domain) hs;
  walked_asked : asked w = domain :: (node_name domain <$> hs);
  walked_root : root = "" \/ root ∈ hs \/ root ∈ stack;
  walked_closed : forall h c, h ∈ hs -> c ∈ children_at domain h -> c ∈ hs \/ c ∈ stack;
}.

(** What it comes to. *)
Definition outcome (domain root : string) (w : Walk) : Prop :=
  exists hs, NoDup hs /\ Forall (reachable domain root) hs /\ (length hs <= MAX_RECORDS)%nat /\
    enrs w = omap (leaf_at domain) hs /\ asked w = domain :: (node_name domain <$> hs) /\
    (fits domain root -> forall h, reachable domain root h -> h ∈ hs).

Lemma walked_done domain root hs w :
  walked domain root hs [] w -> (length hs <= MAX_RECORDS)%nat -> outcome domain root w.
Proof.
  intros [Hn Hv Hr _ He Ha Hroot Hc] Hl. exists hs. do 5 (split; [done|]). intros _ h.
  induction 1 as [Hne|h content branch child Hh IH Hat Hb Hin].
  - destruct Hroot as [->|[?|?]]; [done|done|set_solver].
  - destruct (Hc h child IH) as [?|?]; [|done|set_solver].
    unfold children_at. rewrite Hat. cbn. by rewrite Hb.
Qed.

(** A hash that is empty or visited is dropped. *)
Lemma walked_skip domain root hs h stack w :
  walked domain root hs (h :: stack) w -> h = "" \/ h ∈ visited w -> walked domain root hs stack w.
Proof.
  intros [Hn Hv Hr Hs He Ha Hroot Hc] Hskip. rewrite Hv in Hskip.
  apply list.Forall_cons in Hs as [_ Hs]. split; try done.
  - set_solver.
  - intros g c Hg Hin. destruct (Hc g c Hg Hin) as [?|[->|?]%elem_of_cons]; [by left| |by right].
    destruct Hskip as [->|?]; [|by left]. exfalso. unfold children_at in Hin.
    destruct (record_at domain g ≫= _); [by eapply children_nonempty|set_solver].
Qed.

(** A new one is looked up. *)
Lemma walked_visit domain root hs h stack w :
  walked domain root hs (h :: stack) w -> ~ (h = "" \/ h ∈ visited w) ->
  walked domain root (hs ++ [h]) (reverse (children_at domain h) ++ stack)
    (mkWalk (enrs w ++ option_list (leaf_at domain h)) ({[h]} ∪ visited w)
       (asked w ++ [node_name domain h])).
Proof.
  intros [Hn Hv Hr Hs He Ha Hroot Hc] Hnew. rewrite Hv in Hnew.
  apply list.Forall_cons in Hs as [Hh Hs].
  assert (reachable domain root h) as Hreach by (destruct Hh; [tauto|done]).
  split; cbn.
  - apply list.NoDup_app. split; [done|]. split; [|apply NoDup_singleton]. set_solver.
  - intros g. rewrite elem_of_union, Hv. set_solver.
  - apply Forall_app. split; [done|]. by constructor.
  - apply Forall_app. split; [|done]. apply list.Forall_forall. intros c.
    rewrite elem_of_reverse. right. by eapply reach_children.
  - rewrite He, omap_app. cbn. by destruct (leaf_at domain h).
  - by rewrite Ha, fmap_app.
  - set_solver.
  - intros g c [Hg| ->%list_elem_of_singleton]%elem_of_app Hin.
    + destruct (Hc g c Hg Hin); set_solver.
    + right. apply elem_of_app. left. by apply elem_of_reverse.
Qed.

Lemma walk_outcome domain root budget hs stack w :
  walked domain root hs stack w -> (length hs + budget = MAX_RECORDS)%nat ->
  outcome domain root (walk domain budget stack w).
Proof.
  revert hs stack w. induction budget as [|budget IHb]; intros hs stack w;
    (induction stack as [|h stack IHs] in w |- *; intros Hw Hl;
      [apply (walked_done _ _ hs); [done|lia]|]); cbn;
    (case_decide as Hskip; [by apply IHs; [eapply walked_skip|]|]).
  - destruct (walked_visit _ _ _ _ _ _ Hw Hskip) as [Hn _ Hr _ _ _ _ _].
    destruct Hw as [Hn' _ Hr' _ He Ha _ _]. exists hs. do 2 (split; [done|]). split; [lia|].
    do 2 (split; [done|]). intros Hfits. specialize (Hfits _ Hn Hr). rewrite length_app in Hfits.
    cbn in Hfits. lia.
  - rewrite visit_spec. cbn. apply (IHb (hs ++ [h])); [|rewrite length_app; cbn; lia].
    by apply walked_visit.
Qed.

Lemma walk_from_root domain root :
  outcome domain root (walk domain MAX_RECORDS [root] (mkWalk [] ∅ [domain])).
Proof.
  apply (walk_outcome _ _ _ []); [|done]. split; try done; try set_solver.
  - constructor.
  - apply list.Forall_singleton. destruct (decide (root = "")); [by left|right; by constructor].
Qed.

Lemma node_name_inj domain h h' : node_name domain h = node_name domain h' -> h = h'.
Proof.
  intros E%(f_equal as_bytes). unfold node_name in E. rewrite !as_bytes_app in E.
  by apply as_bytes_inj, (app_inv_tail _ _ _ E).
Qed.

Lemma node_name_not_domain domain h : node_name domain h <> domain.
Proof.
  intros E%(f_equal (fun s => length (as_bytes s))). unfold node_name in E.
  rewrite !as_bytes_app, !length_app in E. change (length (as_bytes ".")) with 1%nat in E. lia.
Qed.

Lemma find_str_Some pat s pre rest : find_str pat s = Some (pre, rest) -> s = pre +:+ pat +:+ rest.
Proof.
  revert pre rest. induction s as [|a s IH]; intros pre rest; cbn [find_str];
    (destruct (strip_prefix pat _) as [r|] eqn:E; [intros [= <- <-]; rewrite append_nil_l; by apply strip_prefix_Some|]);
    [done|].
  destruct (find_str pat s) as [[p r]|] eqn:Ef; [|done]. intros [= <- <-].
  rewrite append_cons. f_equal. by apply IH.
Qed.

(** The text before the signature was signed with the key. *)
Definition signed_by (key : bytes) (record : string) : Prop :=
  exists signed rest sig vk s, record = signed +:+ " sig=" +:+ rest /\
    @text_decode BASE64URL_NOPAD (as_bytes (trim rest)) = Ok sig /\
    from_sec1_bytes key = Some vk /\ signature_from_slice (take 64 sig) = Some s /\
    verify_prehash vk (keccak256 (as_bytes signed)) s = true.

Lemma verify_root_signed record key root : verify_root record key = Ok root -> signed_by key record.
Proof.
  unfold verify_root. rewrite bind_Ok. intros ([signed rest] & Hf%ok_or_Ok & E).
  apply find_str_Some in Hf. apply bind_Ok in E as (sig & Hd & E).
  case_decide; [done|]. apply bind_Ok in E as ([] & Hv & _).
  unfold verify_secp256k1 in Hv. apply bind_Ok in Hv as (vk & Hk%ok_or_Ok & Hv).
  apply bind_Ok in Hv as (s & Hs%ok_or_Ok & Hv).
  destruct (text_decode _) as [sig'|] eqn:Et; [|done]. cbn in Hd. injection Hd as ->.
  exists signed, rest, sig, vk, s. by destruct (verify_prehash _ _ _).
Qed.

(** C36. What [resolve] returns is authentic and, for a tree within the record cap,
    complete: the root record is signed by the key of the URL, and the result is the node
    records at a list of distinct hashes, each reached from the root through records that
    hash to the name they were asked under; when no more than 5000 hashes can be reached,
    every one of them is in that list; and each node record returned is the text DNS has
    under one of these hashes, and hashes to it. *)
Theorem resolve_exact (url : string) (result : list WakuEnr) :
  resolve url = Ok result ->
  exists link records root_txt root hs,
    parse_enrtree url = Ok link /\ txt (domain link) = Ok records /\ root_txt ∈ records /\
    signed_by (pubkey link) root_txt /\ verify_root root_txt (pubkey link) = Ok root /\
    result = omap (leaf_at (domain link)) hs /\ NoDup hs /\
    Forall (reachable (domain link) root) hs /\
    (fits (domain link) root -> forall h, reachable (domain link) root h -> h ∈ hs) /\
    (forall e, e ∈ result -> exists h content others, h ∈ hs /\
       txt (h +:+ "." +:+ domain link) = Ok (content :: others) /\ subdomain_hash content = h /\
       starts_with "enr:" content = true /\ from_str content = Ok e).
Proof.
  unfold resolve, resolve_asking. destruct (parse_enrtree url) as [link|]; [|done].
  destruct (txt (domain link)) as [records|] eqn:Et; cbn [mbind result_bind]; [|done].
  destruct (head (filter _ records)) as [root_txt|] eqn:Eh; cbn [ok_or mbind result_bind fst]; [|done].
  destruct (verify_root root_txt (pubkey link)) as [root|] eqn:Ev; cbn [fst]; [|done].
  pose proof (walk_from_root (domain link) root) as Hw.
  destruct (walk _ _ _ _) as [es vs asks]. cbn [enrs]. intros [= <-].
  destruct Hw as (hs & Hn & Hr & _ & He & _ & Hf).
  exists link, records, root_txt, root, hs.
  split; [done|]. split; [done|]. split.
  { apply head_Some_elem_of, list_elem_of_filter in Eh. tauto. }
  split; [by eapply verify_root_signed|]. do 5 (split; [done|]). cbn in He. rewrite He. intros e (h & Hh & Hl)%list_elem_of_omap.
  apply leaf_at_authentic in Hl as (content & others & Hl). by exists h, content, others.
Qed.

(** C39. Whatever DNS answers, cycles and endless trees included, [resolve] ends after at
    most 5001 lookups and never asks for a name twice. *)
Theorem resolve_bounded (url : string) :
  NoDup (resolve_asking url).2 /\ Z.of_nat (length (resolve_asking url).2) <= 5001.
Proof.
  unfold resolve_asking. destruct (parse_enrtree url) as [link|]; [|split; cbn; [constructor|lia]].
  destruct (_ ≫= _) as [root|]; cbn [snd]; [|split; cbn; [apply NoDup_singleton|lia]].
  destruct (walk_from_root (domain link) root) as (hs & Hn & _ & Hl & _ & Ha & _).
  rewrite Ha. split.
  - constructor.
    + intros (h & E & _)%list_elem_of_fmap. symmetry in E. by apply node_name_not_domain in E.
    + apply NoDup_fmap_2_strong; [|done]. intros h h' _ _. apply node_name_inj.
  - cbn. rewrite length_fmap. unfold MAX_RECORDS in Hl. lia.
Qed.

End Dns.

(** ** A tree with one leaf *)

Definition demo_dns : DnsCrypto := {|
  keccak256 := reverse;
  BASE32_NOPAD := plain_text;
  VerifyingKey := bytes;
  Signature := bytes;
  from_sec1_bytes := Some;
  signature_from_slice := Some;
  verify_prehash key _ s := bool_decide (take 1 s = key);
  to_uppercase := id;
|}.

#[local] Existing Instances demo_crypto demo_dns demo_enr.

Definition demo_leaf : DemoEnr := mkDemoEnr [x05] (Some 1) (Some 2) [].
Definition demo_branch : string := "enrtree-branch:" +:+ subdomain_hash (demo_text demo_leaf).
Definition demo_root : string :=
  "enrtree-root:v1 e=" +:+ subdomain_hash demo_branch +:+ " l= sig=" +:+
  String.string_of_list_byte (replicate 64 x4b).

Definition demo_txt (name : string) : result DnsError (list string) :=
  if decide (name = "n.org") then Ok ["v=spf1"; demo_root]
  else if decide (name = node_name "n.org" (subdomain_hash demo_branch)) then Ok [demo_branch]
  else if decide (name = node_name "n.org" (subdomain_hash (demo_text demo_leaf)))
  then Ok [demo_text demo_leaf]
  else Err (ResolveError "no such name").

Lemma resolve_exact_witness :
  exists link records root_txt, resolve demo_txt "enrtree://K@n.org" = Ok [demo_leaf] /\
    parse_enrtree "enrtree://K@n.org" = Ok link /\ demo_txt (domain link) = Ok records /\
    root_txt ∈ records /\ signed_by (pubkey link) root_txt.
Proof.
  assert (resolve demo_txt "enrtree://K@n.org" = Ok [demo_leaf]) as E by (vm_compute; reflexivity).
  destruct (resolve_exact demo_txt "enrtree://K@n.org" [demo_leaf] E)
    as (link & records & root_txt & root & hs & Hp & Ht & Hin & Hs & _).
  exists link, records, root_txt. split; [exact E|]. by repeat split.
Defined.
