(* ===== verification/Relay.v ===== *)
(** * Relay: the [waku-relay] crate

    The message-id function and gossipsub configuration of [lib.rs] and the
    validation engine of [validation.rs].

    Gossipsub itself comes from [libp2p]: its message is the record
    [gossipsub_message] (the public fields of [gossipsub::Message]), and the
    [build] of its configuration builder is an argument of [relay_config]. *)

From Stdlib Require Import Strings.Byte.
From stdpp Require Import base gmap strings list numbers.
From S2P Require Import Prelude Bytes Text Core Framing Wire.

Open Scope Z_scope.

(** ** [validation.rs] *)

Inductive Validation : Type := Accept | Reject | Ignore.

#[export] Instance Validation_eq_dec : EqDecision Validation.
Proof. solve_decision. Defined.

(** [gossipsub::MessageAcceptance] and [impl From<Validation>]. *)
Inductive MessageAcceptance : Type := MA_Accept | MA_Reject | MA_Ignore.

Definition acceptance_from (v : Validation) : MessageAcceptance :=
  match v with Accept => MA_Accept | Reject => MA_Reject | Ignore => MA_Ignore end.

Inductive RlnStatus : Type :=
  | Absent
  | Valid (epoch_gap_secs : Z) (double_signaling : bool)
  | Invalid.

Record MessageFacts : Type := mkMessageFacts {
  timestamp_gap_secs : option Z;   (* i64 *)
  rln : RlnStatus;
  shard_saturated : bool;
}.

Record ValidationPolicy : Type := mkValidationPolicy {
  enforce_rln : bool;
  timestamp_tolerance_secs : Z;    (* i64 *)
  max_epoch_gap_secs : Z;          (* i64 *)
}.

(** [ValidationPolicy::default]. *)
Definition policy_default : ValidationPolicy := {|
  enforce_rln := false;
  timestamp_tolerance_secs := TIMESTAMP_TOLERANCE_SECS;
  max_epoch_gap_secs := as_i64 RLN_MAX_EPOCH_GAP_SECS;
|}.

Section Validate.
Context `{BuildProfile}.

(** [i64::abs], which overflows on [i64::MIN]. *)
Definition i64_abs (z : Z) : option Z := i64_op (Z.abs z).

(** The timestamp test of [validate]: is the deviation beyond the tolerance? *)
Definition beyond_tolerance (gap : option Z) (policy : ValidationPolicy) : option bool :=
  match gap with
  | Some gap => a ← i64_abs gap; Some (bool_decide (timestamp_tolerance_secs policy < a))
  | None => Some false
  end.

(** [validate].  [None] is an overflow panic of [abs]. *)
Definition validate (facts : MessageFacts) (policy : ValidationPolicy) : option Validation :=
  late ← beyond_tolerance (timestamp_gap_secs facts) policy;
  if late : bool then Some Reject else
  if negb (enforce_rln policy) then Some Accept else
  match rln facts with
  | Absent => Some (if shard_saturated facts then Ignore else Accept)
  | Invalid => Some Reject
  | Valid epoch_gap_secs double_signaling =>
      a ← i64_abs epoch_gap_secs;
      Some (if bool_decide (max_epoch_gap_secs policy < a) || double_signaling
            then Reject else Accept)
  end.

(** The specification: the cases of 64/WAKU2-NETWORK over unbounded integers. *)
Definition late (facts : MessageFacts) (policy : ValidationPolicy) : Prop :=
  exists gap, timestamp_gap_secs facts = Some gap /\ timestamp_tolerance_secs policy < Z.abs gap.

Definition bad_proof (facts : MessageFacts) (policy : ValidationPolicy) : Prop :=
  rln facts = Invalid \/
  exists gap double, rln facts = Valid gap double /\
    (max_epoch_gap_secs policy < Z.abs gap \/ double = true).

Definition spec_verdict (facts : MessageFacts) (policy : ValidationPolicy) (v : Validation)
    : Prop :=
  match v with
  | Reject => late facts policy \/ enforce_rln policy = true /\ bad_proof facts policy
  | Ignore => ~ late facts policy /\ enforce_rln policy = true /\ rln facts = Absent /\
      shard_saturated facts = true
  | Accept => ~ late facts policy /\
      (enforce_rln policy = false \/
       rln facts = Absent /\ shard_saturated facts = false \/
       exists gap, rln facts = Valid gap false /\ Z.abs gap <= max_epoch_gap_secs policy)
  end.

(** Facts whose gaps are [i64] values with an absolute value. *)
Definition facts_ok (facts : MessageFacts) : Prop :=
  (forall gap, timestamp_gap_secs facts = Some gap -> in_i64 (Z.abs gap)) /\
  (forall gap double, rln facts = Valid gap double -> in_i64 (Z.abs gap)).

Lemma i64_abs_ok z : in_i64 (Z.abs z) -> i64_abs z = Some (Z.abs z).
Proof. apply i64_op_in_range. Qed.

Lemma spec_verdict_functional facts policy v v' :
  spec_verdict facts policy v -> spec_verdict facts policy v' -> v = v'.
Proof.
  unfold spec_verdict, bad_proof. intros Hv Hv'.
  destruct (rln facts), v, v'; try done; exfalso;
    repeat match goal with
    | H : exists _, _ |- _ => destruct H
    | H : _ /\ _ |- _ => destruct H
    | H : _ \/ _ |- _ => destruct H
    end; simplify_eq; try done; try congruence; lia.
Qed.

Lemma beyond_tolerance_ok facts policy :
  facts_ok facts ->
  exists b, beyond_tolerance (timestamp_gap_secs facts) policy = Some b /\
    (b = true <-> late facts policy).
Proof.
  intros [Hgap _]. unfold beyond_tolerance, late.
  destruct (timestamp_gap_secs facts) as [gap|]; [|naive_solver].
  rewrite i64_abs_ok by auto. cbn. eexists; split; [done|].
  rewrite bool_decide_eq_true. naive_solver.
Qed.

Lemma validate_meets_spec facts policy :
  facts_ok facts -> exists v, validate facts policy = Some v /\ spec_verdict facts policy v.
Proof.
  intros Hok. unfold validate.
  destruct (beyond_tolerance_ok facts policy Hok) as (b & -> & Hb). cbn.
  destruct b; [exists Reject; cbn; tauto|].
  assert (~ late facts policy) as Hl by (rewrite <- Hb; done).
  destruct (enforce_rln policy) eqn:Ee; cbn; [|exists Accept; cbn; tauto].
  destruct Hok as [_ Hok]. destruct (rln facts) as [|gap double|] eqn:Er.
  - destruct (shard_saturated facts) eqn:Es; eexists; (split; [done|]); cbn; naive_solver.
  - rewrite i64_abs_ok by eauto. cbn. eexists; split; [done|].
    case_bool_decide; cbn; [right; split; [done|right; eauto]|].
    destruct double; cbn; [right; split; [done|right; eauto]|].
    split; [done|]. right; right. exists gap. split; [done|lia].
  - exists Reject. split; [done|]. right. split; [done|by left].
Qed.

(** On every message whose gaps have an absolute value in [i64], validation
    never panics and decides exactly as the specification: late messages are
    rejected whatever the policy, without RLN everything else is accepted, and with
    RLN a missing proof is ignored on a saturated shard, an invalid, out-of-epoch or
    double-signalling proof is rejected, and all else is accepted. *)
Theorem validate_decides (facts : MessageFacts) (policy : ValidationPolicy) (v : Validation) :
  facts_ok facts -> validate facts policy = Some v <-> spec_verdict facts policy v.
Proof.
  intros Hok. destruct (validate_meets_spec facts policy Hok) as (v' & -> & Hv').
  split; [by intros [= <-]|]. intros Hv. f_equal. by eapply spec_verdict_functional.
Qed.

End Validate.

Lemma validate_decides_witness :
  @validate true (mkMessageFacts (Some (-20)) (Valid 21 false) false)
    (mkValidationPolicy true 20 20) = Some Reject.
Proof.
  apply (@validate_decides true).
  - split; cbn; [by intros ? [= <-]|by intros ? ? [= <- <-]].
  - right. split; [done|]. right. exists 21, false. split; [done|left; cbn; lia].
Defined.

(** ** [lib.rs] *)

Inductive RelayError : Type := RelayConfig (e : string) | RelayBuild (e : string).

(** The fields of [gossipsub::Message]. *)
Record gossipsub_message : Type := mk_gossipsub_message {
  source : option bytes;           (* PeerId *)
  data : bytes;
  sequence_number : option Z;
  topic : string;
}.

Section MessageId.
Context `{Sha256, Prost WakuMessage}.

(** [waku_message_id]. *)
Definition waku_message_id (message : gossipsub_message) : bytes :=
  match prost_decode (data message) with
  | Ok msg => deterministic_hash (topic message) msg
  | Err _ => finalize (update hasher_new (data message))
  end.

Lemma waku_message_id_length message : length (waku_message_id message) = 32%nat.
Proof.
  unfold waku_message_id. destruct (prost_decode _); [apply deterministic_hash_length|].
  apply sha256_length.
Qed.

(** The gossipsub id of a relayed message is the RFC-14 hash of what was
    published: whatever the source and sequence number, the id of an encoded
    message is its deterministic hash on that topic; an undecodable payload gets the
    digest of its bytes, on every topic alike; and every id has 32 bytes. *)
Theorem message_id_is_rfc14_hash (src : option bytes) (seqno : option Z) (t : string) :
  (forall m, waku_message_id (mk_gossipsub_message src (encode_to_vec m) seqno t) =
     deterministic_hash t m) /\
  (forall d e, prost_decode d = Err e ->
     waku_message_id (mk_gossipsub_message src d seqno t) = sha256 d) /\
  (forall d, length (waku_message_id (mk_gossipsub_message src d seqno t)) = 32%nat).
Proof.
  split; [|split].
  - intros m. unfold waku_message_id; cbn. by rewrite prost_decode_encode.
  - intros d e E. unfold waku_message_id; cbn. by rewrite E.
  - intros d. apply waku_message_id_length.
Qed.

End MessageId.

Lemma message_id_is_rfc14_hash_witness :
  @waku_message_id toy_sha256 countable_prost
    (mk_gossipsub_message None [x01; x01; x01] None "/waku/2/rs/1/0") =
  toy_digest [x01; x01; x01].
Proof.
  eapply (proj1 (proj2 (@message_id_is_rfc14_hash toy_sha256 countable_prost _ _ _))).
  vm_compute. reflexivity.
Defined.

Inductive ValidationMode : Type := VM_Strict | VM_Permissive | VM_Anonymous | VM_None.

(** The builder calls of [relay_config], a field per call; durations in seconds. *)
Record ConfigBuilder : Type := mkConfigBuilder {
  validation_mode : ValidationMode;
  message_id_fn : gossipsub_message -> bytes;
  validate_messages : bool;
  max_transmit_size : Z;
  mesh_n : Z;
  mesh_n_low : Z;
  mesh_n_high : Z;
  mesh_outbound_min : Z;
  heartbeat_interval : Z;
  history_length : Z;
  history_gossip : Z;
  fanout_ttl : Z;
  duplicate_cache_time : Z;
  flood_publish : bool;
}.

Definition relay_builder `{Sha256, Prost WakuMessage} : ConfigBuilder := {|
  validation_mode := VM_Anonymous;
  message_id_fn := waku_message_id;
  validate_messages := true;
  max_transmit_size := 1024 * 1024;
  mesh_n := 6;
  mesh_n_low := 5;
  mesh_n_high := 12;
  mesh_outbound_min := 2;
  heartbeat_interval := 1;
  history_length := 5;
  history_gossip := 3;
  fanout_ttl := 60;
  duplicate_cache_time := 120;
  flood_publish := true;
|}.

Section Build.
Context `{Sha256, Prost WakuMessage}.
Context {Config Behaviour : Type}.
Variable build : ConfigBuilder -> result string Config.
Variable behaviour_new : Config -> result string Behaviour.

(** [relay_config] and [build_relay]; the behaviour is made with anonymous
    authenticity. *)
Definition relay_config : result RelayError Config := map_err RelayConfig (build relay_builder).

Definition build_relay : result RelayError Behaviour :=
  config ← relay_config; map_err RelayBuild (behaviour_new config).

End Build.

(** [shard_topic]: an identity-hash topic, whose hash is the string itself. *)
Definition shard_topic (shard : ShardId.t) : string := ShardId.pubsub_topic shard.
