(* ===== verification/Store.v ===== *)
(** * Store: the [waku-store] crate

    The types and trait of [lib.rs] and the SQLite backend of [sqlite.rs].

    The table [messages] is a finite map from its primary key, the message hash, to
    the other columns.  The SQL texts of the source are written as the set
    operations they denote: a [WHERE] clause is a filter, [ORDER BY] a sort by the
    pair (sort_time, message_hash), whose blobs compare bytewise, [LIMIT] and
    [OFFSET] are prefixes and suffixes, a negative [LIMIT] being no limit and a
    negative [OFFSET] none.  Any statement may fail in the database: the state
    carries the outcomes of the statements still to come, and an operation of the
    store runs in the monad [db].

    SQLite types values, not columns.  The cells of a row have here the types the
    schema declares and the only [INSERT] binds, so the [try_get]s of the source
    decode; where the source uses [get], which panics on a value of another type, the
    cell is read with [get_i64]. *)

From Stdlib Require Import Strings.Byte.
From stdpp Require Import base gmap strings list numbers sorting.
From S2P Require Import Prelude Bytes Text Core.

Open Scope Z_scope.

(** ** [lib.rs] *)

(** [sqlx::Error] is its message. *)
Inductive StoreError : Type := Db (e : string) | Corrupt (e : string).

#[export] Instance StoreError_eq_dec : EqDecision StoreError.
Proof. solve_decision. Defined.

Record StoredMessage : Type := mkStoredMessage {
  stored_hash : bytes;
  stored_pubsub_topic : string;
  stored_message : option WakuMessage;
  receiver_time_ns : Z;            (* i64 *)
}.

Module StoreQuery.

Record t : Type := mk {
  pubsub_topic : option string;
  content_topics : list string;
  time_start_ns : option Z;        (* i64 *)
  time_end_ns : option Z;          (* i64 *)
  message_hashes : list bytes;
  include_data : bool;
  page_size : Z;                   (* u64 *)
  forward : bool;
  cursor : option bytes;
}.

(** [StoreQuery::default] and [StoreQuery::new]. *)
Definition default : t := {|
  pubsub_topic := None; content_topics := []; time_start_ns := None;
  time_end_ns := None; message_hashes := []; include_data := true;
  page_size := 20; forward := true; cursor := None;
|}.

Definition new : t := default.

(** The builder methods. *)
Definition with_content_topic (q : t) (topic : string) : t :=
  {| pubsub_topic := pubsub_topic q; content_topics := content_topics q ++ [topic];
     time_start_ns := time_start_ns q; time_end_ns := time_end_ns q;
     message_hashes := message_hashes q; include_data := include_data q;
     page_size := page_size q; forward := forward q; cursor := cursor q |}.

Definition with_time_range (q : t) (start_ns end_ns : Z) : t :=
  {| pubsub_topic := pubsub_topic q; content_topics := content_topics q;
     time_start_ns := Some start_ns; time_end_ns := Some end_ns;
     message_hashes := message_hashes q; include_data := include_data q;
     page_size := page_size q; forward := forward q; cursor := cursor q |}.

Definition with_page_size (q : t) (n : Z) : t :=
  {| pubsub_topic := pubsub_topic q; content_topics := content_topics q;
     time_start_ns := time_start_ns q; time_end_ns := time_end_ns q;
     message_hashes := message_hashes q; include_data := include_data q;
     page_size := n; forward := forward q; cursor := cursor q |}.

Definition with_cursor (q : t) (c : bytes) : t :=
  {| pubsub_topic := pubsub_topic q; content_topics := content_topics q;
     time_start_ns := time_start_ns q; time_end_ns := time_end_ns q;
     message_hashes := message_hashes q; include_data := include_data q;
     page_size := page_size q; forward := forward q; cursor := Some c |}.

End StoreQuery.

Record QueryResult : Type := mkQueryResult {
  messages : list StoredMessage;
  next_cursor : option bytes;
}.

(** ** [sqlite.rs]: the database *)

(** The columns of [messages] besides the primary key. *)
Record row : Type := mk_row {
  row_pubsub_topic : string;
  row_content_topic : string;
  row_payload : bytes;
  row_version : option Z;          (* INTEGER *)
  row_timestamp : option Z;        (* INTEGER *)
  row_meta : option bytes;
  row_rate_limit_proof : option bytes;
  row_ephemeral : option Z;        (* INTEGER *)
  row_receiver_time : Z;           (* INTEGER *)
  row_sort_time : Z;               (* INTEGER *)
}.

#[export] Instance row_eq_dec : EqDecision row.
Proof. solve_decision. Defined.

Abbreviation table := (gmap bytes row).
Abbreviation entry := (bytes * row)%type.

(** The connection: the table and, for the statements still to be executed, the
    error each of them will fail with, if any; past the end of the list they
    succeed. *)
Record SqliteStore : Type := mkSqliteStore {
  rows : table;
  faults : list (option string);
}.

Abbreviation db := (action SqliteStore StoreError).

(** Execute one statement. *)
Definition statement {A} (f : table -> A * table) : db A := fun d =>
  match faults d with
  | Some e :: fs => Some (Err (Db e), mkSqliteStore (rows d) fs)
  | fs => let '(a, rows') := f (rows d) in Some (Ok a, mkSqliteStore rows' (tail fs))
  end.

Definition select {A} (f : table -> A) : db A := statement (fun t => (f t, t)).

(** The value of one cell of a result. *)
Inductive cell : Type :=
  | NULL
  | INTEGER (n : Z)
  | TEXT (s : string)
  | BLOB (b : bytes).

(** [Row::get::<i64, _>]: [try_get], and a panic when the value is no integer. *)
Definition get_i64 (c : cell) : option Z :=
  match c with INTEGER n => Some n | _ => None end.

(** [sort_time], [message_hash], as the two [ORDER BY] clauses compare them. *)
Definition key_le (e e' : entry) : Prop :=
  row_sort_time e.2 < row_sort_time e'.2 \/
  row_sort_time e.2 = row_sort_time e'.2 /\ bytes_le e.1 e'.1.

Definition dir_le (forward : bool) (e e' : entry) : Prop :=
  if forward then key_le e e' else key_le e' e.

#[export] Instance key_le_dec : RelDecision key_le.
Proof. unfold key_le; solve_decision. Defined.
#[export] Instance dir_le_dec forward : RelDecision (dir_le forward).
Proof. unfold dir_le; intros e e'; destruct forward; apply _. Defined.

(** [ORDER BY sort_time ASC|DESC, message_hash ASC|DESC] over the whole table. *)
Definition order_by (forward : bool) (t : table) : list entry :=
  merge_sort (dir_le forward) (map_to_list t).

(** [LIMIT n]. *)
Definition sql_limit (n : Z) (l : list entry) : list entry :=
  if decide (n < 0) then l else take (Z.to_nat n) l.

(** [OFFSET n]. *)
Definition sql_offset (n : Z) (l : list entry) : list entry := drop (Z.to_nat n) l.

(** [DELETE FROM messages WHERE ...]: the rows left and [rows_affected]. *)
Definition sql_delete (P : entry -> bool) (t : table) : Z * table :=
  let t' := filter (fun e => P e = false) t in
  (Z.of_nat (size t) - Z.of_nat (size t'), t').

(** ** [sqlite.rs]: the operations outside the trait *)

(** [SqliteStore::migrate]: [CREATE TABLE IF NOT EXISTS] and [CREATE INDEX]. *)
Definition migrate : db () :=
  _ ← statement (fun t => (tt, t));
  statement (fun t => (tt, t)).

(** [SqliteStore::connect] on a database that holds [existing]: reading the url and
    opening the pool may fail like a statement. *)
Definition connect (existing : table) (faults : list (option string))
    : option (result StoreError () * SqliteStore) :=
  (_ ← statement (fun t => (tt, t)); _ ← statement (fun t => (tt, t)); migrate)
    (mkSqliteStore existing faults).

(** [SqliteStore::in_memory]. *)
Definition in_memory (faults : list (option string))
    : option (result StoreError () * SqliteStore) :=
  (_ ← statement (fun t => (tt, t)); migrate) (mkSqliteStore ∅ faults).

(** [SqliteStore::count]. *)
Definition count : db Z :=
  row ← select (fun t => INTEGER (Z.of_nat (size t)));
  n ← lift_panic (get_i64 row);
  mret (as_u64 n).

(** [SqliteStore::delete_older_than]. *)
Definition delete_older_than (cutoff_ns : Z) : db Z :=
  statement (sql_delete (fun e => bool_decide (row_sort_time e.2 < cutoff_ns))).

(** [SqliteStore::enforce_capacity]. *)
Definition enforce_capacity (max : Z) : db Z :=
  statement (fun t =>
    let doomed := fst <$> sql_offset (as_i64 max) (order_by false t) in
    sql_delete (fun e => bool_decide (e.1 ∈ doomed)) t).

(** [SqliteStore::cursor_sort_time]. *)
Definition cursor_sort_time (hash : bytes) : db (option Z) :=
  row ← select (fun t => (fun r => INTEGER (row_sort_time r)) <$> t !! hash);
  match row with
  | Some r => n ← lift_panic (get_i64 r); mret (Some n)
  | None => mret None
  end.

(** [row_to_message]. *)
Definition row_to_message (r : row) : WakuMessage := {|
  payload := row_payload r;
  content_topic := row_content_topic r;
  version := (fun v => as_u32 v) <$> row_version r;
  timestamp := row_timestamp r;
  meta := row_meta r;
  rate_limit_proof := row_rate_limit_proof r;
  ephemeral := (fun v => bool_decide (v <> 0)) <$> row_ephemeral r;
|}.

(** [row_to_hash]. *)
Definition row_to_hash (h : bytes) : result StoreError bytes :=
  if decide (length h = 32%nat) then Ok h
  else Err (Corrupt ("message_hash is " +:+ show_uint (Z.of_nat (length h)) +:+ " bytes")).

(** ** [sqlite.rs]: [impl MessageStore for SqliteStore] *)

(** The values bound by the [INSERT] of [put]. *)
Definition row_of (pubsub_topic : string) (msg : WakuMessage) (receiver_time_ns : Z) : row := {|
  row_pubsub_topic := pubsub_topic;
  row_content_topic := content_topic msg;
  row_payload := payload msg;
  row_version := (fun v => as_i64 v) <$> version msg;
  row_timestamp := timestamp msg;
  row_meta := meta msg;
  row_rate_limit_proof := rate_limit_proof msg;
  row_ephemeral := Z.b2z <$> ephemeral msg;
  row_receiver_time := receiver_time_ns;
  row_sort_time := default receiver_time_ns (timestamp msg);
|}.

(** [INSERT OR IGNORE]. *)
Definition insert_or_ignore (h : bytes) (r : row) (t : table) : table :=
  match t !! h with Some _ => t | None => <[h := r]> t end.

Definition put `{Sha256} (pubsub_topic : string) (msg : WakuMessage) (receiver_time_ns : Z)
    : db () :=
  let hash := deterministic_hash pubsub_topic msg in
  statement (fun t => (tt, insert_or_ignore hash (row_of pubsub_topic msg receiver_time_ns) t)).

Definition get (hash : bytes) : db (option WakuMessage) :=
  row ← select (fun t => t !! hash); mret (row_to_message <$> row).

(** The [WHERE] clause [query] builds, without its cursor part: a filter is added
    for each of the optional parts of the query that is present. *)
Definition matches (q : StoreQuery.t) (e : entry) : bool :=
  match StoreQuery.pubsub_topic q with
  | Some pt => bool_decide (row_pubsub_topic e.2 = pt)
  | None => true
  end &&
  (bool_decide (StoreQuery.content_topics q = []) ||
   bool_decide (row_content_topic e.2 ∈ StoreQuery.content_topics q)) &&
  (bool_decide (StoreQuery.message_hashes q = []) ||
   bool_decide (e.1 ∈ StoreQuery.message_hashes q)) &&
  match StoreQuery.time_start_ns q with
  | Some start => bool_decide (start <= row_sort_time e.2)
  | None => true
  end &&
  match StoreQuery.time_end_ns q with
  | Some end_ => bool_decide (row_sort_time e.2 < end_)
  | None => true
  end.

Definition bytes_lt (l k : bytes) : Prop := ~ bytes_le k l.

(** The cursor part: strictly after (sort_time, hash) in sort order. *)
Definition after_cursor (forward : bool) (cursor_key : option (Z * bytes)) (e : entry) : bool :=
  match cursor_key with
  | None => true
  | Some (ct, ch) =>
      if forward
      then bool_decide (ct < row_sort_time e.2) ||
        (bool_decide (row_sort_time e.2 = ct) && bool_decide (bytes_lt ch e.1))
      else bool_decide (row_sort_time e.2 < ct) ||
        (bool_decide (row_sort_time e.2 = ct) && bool_decide (bytes_lt e.1 ch))
  end.

Definition selected (q : StoreQuery.t) (cursor_key : option (Z * bytes)) (e : entry) : bool :=
  matches q e && after_cursor (StoreQuery.forward q) cursor_key e.

(** A row of the result page. *)
Definition to_stored (include_data : bool) (e : entry) : result StoreError StoredMessage :=
  hash ← row_to_hash e.1;
  Ok {| stored_hash := hash; stored_pubsub_topic := row_pubsub_topic e.2;
        stored_message := if include_data then Some (row_to_message e.2) else None;
        receiver_time_ns := row_receiver_time e.2 |}.

(** The first match of [query]. *)
Definition resolve_cursor (q : StoreQuery.t) : db (option (Z * bytes)) :=
  match StoreQuery.cursor q with
  | Some c => t ← cursor_sort_time c; mret ((fun t => (t, c)) <$> t)
  | None => mret None
  end.

(** [query].  A [Vec] has at most [isize::MAX] elements, so [rows.len() as i64] is
    the length. *)
Definition query `{BuildProfile} (q : StoreQuery.t) : db QueryResult :=
  cursor_key ← resolve_cursor q;
  let limit := as_i64 (Z.max (StoreQuery.page_size q) 1) in
  limit1 ← lift_panic (i64_op (limit + 1));
  rows ← select (fun t =>
    sql_limit limit1
      (filter (fun e => selected q cursor_key e = true) (order_by (StoreQuery.forward q) t)));
  let has_more := bool_decide (limit < Z.of_nat (length rows)) in
  let take_ := Nat.min (length rows) (Z.to_nat (as_u64 limit)) in
  page ← lift_panic (slice_to take_ rows);
  messages ← lift_result (mapM (to_stored (StoreQuery.include_data q)) page);
  let next_cursor := if has_more then stored_hash <$> list.last messages else None in
  mret {| messages := messages; next_cursor := next_cursor |}.

Definition message_count : db Z := count.

(** [exists]; the rows come back in the order of the table. *)
Definition exists_ (hashes : list bytes) : db (list bytes) :=
  if bool_decide (hashes = []) then mret [] else
  rows ← select (fun t => fst <$> filter (fun e : entry => e.1 ∈ hashes) (map_to_list t));
  lift_result (mapM row_to_hash rows).

(** ** The order of the table *)

#[export] Instance dir_le_total forward : Total (dir_le forward).
Proof.
  assert (Total key_le) as Hk.
  { intros e e'. unfold key_le.
    destruct (Z.lt_total (row_sort_time e.2) (row_sort_time e'.2)) as [?|[?|?]]; [tauto| |tauto].
    destruct (total bytes_le e.1 e'.1); [left|right]; right; split; done. }
  intros e e'. destruct forward; cbn; [apply Hk|apply or_comm, Hk].
Qed.

#[export] Instance dir_le_trans forward : Transitive (dir_le forward).
Proof.
  assert (Transitive key_le) as Hk.
  { intros a b c. unfold key_le. intros [?|[? ?]] [?|[? ?]]; [left; lia..|].
    right. split; [lia|by etrans]. }
  intros a b c. destruct forward; cbn; [apply Hk|]. intros ??; by etrans.
Qed.

Lemma dir_le_flip forward e e' : dir_le (negb forward) e e' <-> dir_le forward e' e.
Proof. by destruct forward. Qed.

Lemma dir_le_antisymm forward e e' : dir_le forward e e' -> dir_le forward e' e -> e.1 = e'.1.
Proof.
  unfold dir_le, key_le. destruct forward; intros [?|[? ?]] [?|[? ?]]; try lia;
    by apply (anti_symm bytes_le).
Qed.

Lemma order_by_perm forward t : order_by forward t ≡ₚ map_to_list t.
Proof. apply merge_sort_Permutation. Qed.

Lemma elem_of_order_by forward t e : e ∈ order_by forward t <-> t !! e.1 = Some e.2.
Proof. rewrite order_by_perm. destruct e. apply elem_of_map_to_list. Qed.

Lemma order_by_sorted forward t : StronglySorted (dir_le forward) (order_by forward t).
Proof. apply StronglySorted_merge_sort; apply _. Qed.

Lemma length_order_by forward t : length (order_by forward t) = size t.
Proof. by rewrite order_by_perm, length_map_to_list. Qed.

Lemma NoDup_order_by forward t : NoDup (order_by forward t).*1.
Proof. rewrite order_by_perm. apply NoDup_fst_map_to_list. Qed.

(** Within the table a hash determines its row. *)
Lemma order_by_functional forward t e e' :
  e ∈ order_by forward t -> e' ∈ order_by forward t -> e.1 = e'.1 -> e = e'.
Proof.
  rewrite !elem_of_order_by. destruct e as [h r], e' as [h' r']; cbn. congruence.
Qed.

(** Descending is the reverse of ascending. *)
Lemma StronglySorted_reverse {A} (R : relation A) l :
  StronglySorted R l -> StronglySorted (flip R) (reverse l).
Proof.
  induction 1 as [|x l Hl IH Hx]; [constructor|]. rewrite reverse_cons.
  apply StronglySorted_app_2; [|done|by repeat constructor].
  intros y z. rewrite elem_of_reverse, list_elem_of_singleton. intros Hy ->.
  by apply (proj1 (list.Forall_forall _ _) Hx).
Qed.

Lemma order_by_reverse t : order_by false t = reverse (order_by true t).
Proof.
  apply (StronglySorted_unique_strong (dir_le false)).
  - intros e e' He He' Hle Hle'. apply (order_by_functional false t); [done| |].
    + rewrite elem_of_reverse, elem_of_order_by in He'. by apply elem_of_order_by.
    + by apply (dir_le_antisymm false).
  - apply order_by_sorted.
  - apply (StronglySorted_reverse _ _ (order_by_sorted true t)).
  - by rewrite reverse_Permutation, !order_by_perm.
Qed.

Lemma bytes_lt_spec l k : bytes_lt l k <-> bytes_le l k /\ l <> k.
Proof.
  unfold bytes_lt. split.
  - intros Hn. destruct (total bytes_le l k); [|done]. split; [done|].
    intros ->. by apply Hn, bytes_le_refl.
  - intros [Hle Hne] Hle'. apply Hne. by apply (anti_symm bytes_le).
Qed.

(** The cursor clause of an entry selects the other entries that follow it. *)
Lemma after_cursor_spec forward c e :
  (c.1 = e.1 -> c = e) ->
  after_cursor forward (Some (row_sort_time c.2, c.1)) e = true <->
  dir_le forward c e /\ c <> e.
Proof.
  intros Hinj. assert (c <> e -> c.1 <> e.1) as Hne by naive_solver.
  unfold after_cursor, dir_le, key_le.
  destruct forward; rewrite orb_true_iff, andb_true_iff, !bool_decide_eq_true, bytes_lt_spec;
    split.
  - intros [Hlt|[Heq [Hle Hn]]]; (split; [|intros ->; try lia; done]); [by left|by right].
  - intros [[Hlt|[Heq Hle]] Hn]; [by left|right; auto].
  - intros [Hlt|[Heq [Hle Hn]]]; (split; [|intros ->; try lia; done]); [by left|by right].
  - intros [[Hlt|[Heq Hle]] Hn]; [by left|right]. split; [done|]. split; [done|].
    intros E. by apply Hne in Hn.
Qed.

(** In a sorted duplicate-free list, what the cursor clause of an element selects
    is the part after it. *)
Lemma filter_after_cursor forward l1 c l2 :
  StronglySorted (dir_le forward) (l1 ++ c :: l2) -> NoDup (l1 ++ c :: l2).*1 ->
  filter (fun e => after_cursor forward (Some (row_sort_time c.2, c.1)) e = true)
    (l1 ++ c :: l2) = l2.
Proof.
  intros Hs Hd.
  assert (forall e, e ∈ l1 ++ l2 -> c.1 <> e.1) as Hc.
  { intros e He E. rewrite fmap_app, fmap_cons in Hd.
    apply NoDup_app in Hd as (_ & Hd & Hd2). apply NoDup_cons in Hd2 as [Hd2 _].
    apply elem_of_app in He as [He|He].
    - apply (Hd e.1); [by apply list_elem_of_fmap_2|]. rewrite E. left.
    - apply Hd2. rewrite E. by apply list_elem_of_fmap_2. }
  rewrite filter_app, filter_cons, decide_False; [|rewrite after_cursor_spec by done; tauto].
  apply StronglySorted_app in Hs as (Hcross & _ & Hs).
  apply StronglySorted_inv in Hs as [_ Hs]. rewrite list.Forall_forall in Hs.
  rewrite filter_none, filter_all; [done| |].
  - intros e He. assert (e ∈ l1 ++ l2) as He' by set_solver. apply after_cursor_spec.
    + intros E. by destruct (Hc e He').
    + split; [auto|]. intros <-. by apply (Hc c He').
  - intros e He. assert (e ∈ l1 ++ l2) as He' by set_solver. rewrite after_cursor_spec.
    + intros [Hle _]. apply (Hc e He'). apply (dir_le_antisymm forward); [done|].
      apply Hcross; [done|left].
    + intros E. by destruct (Hc e He').
Qed.

(** ** Running without faults *)

Definition healthy (d : SqliteStore) : Prop := faults d = [].

Lemma statement_healthy {A} (f : table -> A * table) d :
  healthy d -> statement f d = Some (Ok (f (rows d)).1, mkSqliteStore (f (rows d)).2 []).
Proof. unfold statement, healthy. intros ->. by destruct (f (rows d)). Qed.

Lemma select_healthy {A} (f : table -> A) d :
  healthy d -> select f d = Some (Ok (f (rows d)), d).
Proof.
  intros Hd. unfold select. rewrite statement_healthy by done. by destruct d; rewrite <- Hd.
Qed.

Lemma statement_fault {A} (f : table -> A * table) d e fs :
  faults d = Some e :: fs -> statement f d = Some (Err (Db e), mkSqliteStore (rows d) fs).
Proof. unfold statement. by intros ->. Qed.

Lemma select_cases {A} (f : table -> A) d :
  exists d', rows d' = rows d /\
    (select f d = Some (Ok (f (rows d)), d') \/ exists e, select f d = Some (Err (Db e), d')).
Proof. unfold select, statement. destruct (faults d) as [|[e|] fs]; eexists; (split; [|by eauto]); done. Qed.

(** ** Pages *)

(** The keys of the table are message hashes. *)
Definition hashes_ok (t : table) : Prop := forall h r, t !! h = Some r -> length h = 32%nat.

(** What a row becomes in a result page. *)
Definition stored (q : StoreQuery.t) (e : entry) : StoredMessage := {|
  stored_hash := e.1; stored_pubsub_topic := row_pubsub_topic e.2;
  stored_message := if StoreQuery.include_data q then Some (row_to_message e.2) else None;
  receiver_time_ns := row_receiver_time e.2 |}.

(** The position a query resumes from: none without a cursor, and none when the
    cursor is not in the table. *)
Definition cursor_key (q : StoreQuery.t) (t : table) : option (Z * bytes) :=
  c ← StoreQuery.cursor q; r ← t !! c; Some (row_sort_time r, c).

(** All the rows a query still has to return, in its order. *)
Definition results (q : StoreQuery.t) (t : table) : list entry :=
  filter (fun e => selected q (cursor_key q t) e = true) (order_by (StoreQuery.forward q) t).

(** The number of rows on a page. *)
Definition page_len (q : StoreQuery.t) : nat := Z.to_nat (Z.max (StoreQuery.page_size q) 1).

(** The page sizes that are served: every [u64] but [u64::MAX], whose limit is -1, and
    but [i64::MAX] where adding one to it panics. *)
Definition page_size_ok `{BuildProfile} (q : StoreQuery.t) : Prop :=
  0 <= StoreQuery.page_size q < 2 ^ 64 - 1 /\
  (overflow_checks = true -> StoreQuery.page_size q <> 2 ^ 63 - 1).

(** The cursor of a page of the rows [l]: its last row when rows are left; and from
    [2^63] on, where the limit is negative and every number of rows exceeds it, also when
    none is. *)
Definition next_of (q : StoreQuery.t) (l : list entry) : option bytes :=
  if decide ((page_len q < length l)%nat \/ 2 ^ 63 <= StoreQuery.page_size q)
  then fst <$> list.last (take (page_len q) l) else None.

(** Reading one cell with [get] or not at all. *)
Lemma cursor_sort_time_select h :
  forall d, cursor_sort_time h d = select (fun t => row_sort_time <$> t !! h) d.
Proof.
  intros d. unfold cursor_sort_time, select, statement, mbind, action_bind.
  destruct (faults d) as [|[e|] fs]; [|done|]; cbn; by destruct (rows d !! h).
Qed.

Lemma count_select d : count d = select (fun t => as_u64 (Z.of_nat (size t))) d.
Proof.
  unfold count, select, statement, mbind, action_bind. by destruct (faults d) as [|[e|] fs].
Qed.

Lemma resolve_cursor_cases q d :
  exists d', rows d' = rows d /\
    (resolve_cursor q d = Some (Ok (cursor_key q (rows d)), d') \/
     exists e, resolve_cursor q d = Some (Err (Db e), d')).
Proof.
  unfold resolve_cursor, cursor_key, mbind, action_bind.
  destruct (StoreQuery.cursor q) as [c|]; [|by eauto]. cbn. rewrite cursor_sort_time_select.
  destruct (select_cases (fun t => row_sort_time <$> t !! c) d) as (d1 & E1 & [->|[e1 ->]]);
    exists d1; split; [done| |done|by eauto]. left. by destruct (rows d !! c).
Qed.

Lemma resolve_cursor_healthy q d :
  healthy d -> resolve_cursor q d = Some (Ok (cursor_key q (rows d)), d).
Proof.
  intros Hd. unfold resolve_cursor, cursor_key, mbind, action_bind.
  destruct (StoreQuery.cursor q) as [c|]; [|done]. cbn.
  rewrite cursor_sort_time_select, select_healthy by done.
  by destruct (rows d !! c).
Qed.

Lemma to_stored_ok t q e :
  hashes_ok t -> e ∈ order_by (StoreQuery.forward q) t ->
  to_stored (StoreQuery.include_data q) e = Ok (stored q e).
Proof.
  intros Ht He%elem_of_order_by. unfold to_stored, row_to_hash.
  by rewrite decide_True by eauto.
Qed.

Lemma elem_of_results q t e :
  e ∈ results q t <->
  t !! e.1 = Some e.2 /\ matches q e = true /\
  after_cursor (StoreQuery.forward q) (cursor_key q t) e = true.
Proof.
  unfold results, selected. rewrite list_elem_of_filter, elem_of_order_by, andb_true_iff. tauto.
Qed.

Lemma NoDup_results q t : NoDup (results q t).*1.
Proof.
  eapply sublist_NoDup; [apply (NoDup_order_by (StoreQuery.forward q) t)|].
  apply fmap_sublist, sublist_filter.
Qed.

Lemma results_sorted q t : StronglySorted (dir_le (StoreQuery.forward q)) (results q t).
Proof. apply StronglySorted_filter, order_by_sorted. Qed.

Lemma elem_of_limited (P : entry -> Prop) `{!forall e, Decision (P e)} n k l e :
  e ∈ take k (sql_limit n (filter P l)) -> P e /\ e ∈ l.
Proof.
  intros (i & He%list_elem_of_lookup_2 & _)%elem_of_take. unfold sql_limit in He.
  case_decide; [by apply list_elem_of_filter in He|].
  apply elem_of_take in He as (j & He%list_elem_of_lookup_2 & _).
  by apply list_elem_of_filter in He.
Qed.

Section Query.
Context `{BuildProfile}.

(** The three readings of the page size: the bound of the page, the [LIMIT] and the
    has-more test. *)
Lemma limit_spec q :
  page_size_ok q ->
  let limit := as_i64 (Z.max (StoreQuery.page_size q) 1) in
  as_u64 limit = Z.of_nat (page_len q) /\
  (exists n, i64_op (limit + 1) = Some n /\ (n < 0 \/ n = Z.of_nat (S (page_len q)))) /\
  (limit = Z.of_nat (page_len q) /\ StoreQuery.page_size q < 2 ^ 63 \/
   limit < 0 /\ 2 ^ 63 <= StoreQuery.page_size q).
Proof.
  intros [Hp Hc] limit. unfold page_len.
  set (p := StoreQuery.page_size q) in *.
  assert (limit = Z.max p 1 /\ p < 2 ^ 63 \/ limit = p - 2 ^ 64 /\ 2 ^ 63 <= p) as [[E Hs]|[E Hs]].
  { destruct (decide (p < 2 ^ 63)); [left; split; [|lia]; apply wrap_signed_small; unfold in_i; lia|].
    right. split; [|lia]. unfold limit, wrap_signed. rewrite Z.max_l by lia.
    rewrite (Z.mod_eq _ (2 ^ 64)) by lia.
    replace ((p + 2 ^ (64 - 1)) / 2 ^ 64) with 1; [lia|].
    apply (Z.div_unique_pos _ _ _ (p + 2 ^ (64 - 1) - 2 ^ 64)); lia. }
  - rewrite E, wrap_unsigned_small by (unfold in_u; lia). split; [lia|]. split; [|left; lia].
    unfold i64_op. case_decide as Hi; [exists (Z.max p 1 + 1); split; [done|lia]|].
    assert (p = 2 ^ 63 - 1) as Ep by (unfold in_i in Hi; lia).
    destruct overflow_checks; [by destruct (Hc eq_refl)|]. eexists. split; [done|]. left.
    by rewrite Ep.
  - rewrite E. split; [|split; [|right; lia]].
    + unfold wrap_unsigned. rewrite <- (Z.mod_unique _ (2 ^ 64) (-1) p); lia.
    + exists (p - 2 ^ 64 + 1). rewrite i64_op_in_range by (unfold in_i; lia). split; [done|lia].
Qed.

(** A [LIMIT] of one more than the page, or none, does not show on the page. *)
Lemma sql_limit_page n q l :
  n < 0 \/ n = Z.of_nat (S (page_len q)) ->
  take (page_len q) (sql_limit n l) = take (page_len q) l /\
  ((page_len q < length (sql_limit n l))%nat <-> (page_len q < length l)%nat).
Proof.
  unfold sql_limit. intros [Hn| ->]; [by rewrite decide_True|].
  rewrite decide_False, Nat2Z.id by lia. rewrite take_take, length_take.
  split; [f_equal; lia|lia].
Qed.

Lemma query_page q d :
  healthy d -> hashes_ok (rows d) -> page_size_ok q ->
  query q d = Some (Ok {|
    messages := stored q <$> take (page_len q) (results q (rows d));
    next_cursor := next_of q (results q (rows d)) |}, d).
Proof.
  intros Hd Ht Hp. destruct (limit_spec q Hp) as (Hu & (n & Hn & Hcases) & Hmore).
  unfold query, mbind, action_bind. rewrite resolve_cursor_healthy by done.
  unfold lift_panic at 1. rewrite Hn. cbn. rewrite select_healthy by done.
  change (filter _ _) with (results q (rows d)).
  set (L := results q (rows d)). destruct (sql_limit_page n q L Hcases) as [Hpage Hlen].
  rewrite Hu, Nat2Z.id. unfold lift_panic. rewrite slice_to_min, Hpage. cbn. unfold lift_result.
  rewrite (mapM_Ok _ (stored q)).
  2: { intros e He. apply (to_stored_ok (rows d)); [done|].
       apply elem_of_take in He as (i & He%list_elem_of_lookup_2 & _).
       by apply list_elem_of_filter in He as [_ He]. }
  unfold next_of. do 4 f_equal. rewrite fmap_last.
  case_decide.
  - rewrite bool_decide_true by lia. by destruct (list.last _).
  - by rewrite bool_decide_false by lia.
Qed.

Lemma query_not_corrupt q d e d' :
  hashes_ok (rows d) -> query q d <> Some (Err (Corrupt e), d').
Proof.
  intros Ht. unfold query, mbind, action_bind, lift_panic, lift_result.
  destruct (resolve_cursor_cases q d) as (d1 & E1 & [->|[e1 ->]]); [|done].
  destruct (i64_op _); [|done]. cbn.
  match goal with |- context [select ?f d1] =>
    destruct (select_cases f d1) as (d2 & E2 & [->|[e2 ->]]); [|done] end.
  rewrite slice_to_min. cbn.
  rewrite (mapM_Ok _ (stored q)); [done|].
  intros x Hx. rewrite E1 in Hx. apply (to_stored_ok (rows d)); [done|].
  by apply elem_of_limited in Hx as [_ Hx].
Qed.

(** Whatever the page size and the faults, a query does not write, and what it
    returns are matching rows. *)
Lemma query_sound q d res d' :
  hashes_ok (rows d) -> query q d = Some (res, d') ->
  rows d' = rows d /\
  forall page, res = Ok page -> exists l, messages page = stored q <$> l /\
    forall e, e ∈ l -> rows d !! e.1 = Some e.2 /\ matches q e = true.
Proof.
  intros Ht. unfold query, mbind, action_bind, lift_panic, lift_result.
  destruct (resolve_cursor_cases q d) as (d1 & E1 & [->|[e1 ->]]); [|by intros [= <- <-]].
  destruct (i64_op _) as [n|]; [|done]. cbn.
  match goal with |- context [select ?f d1] =>
    destruct (select_cases f d1) as (d2 & E2 & [->|[e2 ->]]) end;
    [|intros [= <- <-]; split; [congruence|done]].
  rewrite slice_to_min. cbn. rewrite E1. set (l := take _ _).
  assert (forall e, e ∈ l -> selected q (cursor_key q (rows d)) e = true /\
    e ∈ order_by (StoreQuery.forward q) (rows d)) as Hl.
  { intros e He. by apply elem_of_limited in He. }
  rewrite (mapM_Ok _ (stored q)).
  2: { intros e He. apply (to_stored_ok (rows d)); [done|]. by apply Hl. }
  intros [= <- <-]. split; [congruence|]. intros page [= <-]. exists l. split; [done|].
  intros e [Hs Ho]%Hl. split; [by apply elem_of_order_by in Ho|].
  unfold selected in Hs. by apply andb_true_iff in Hs as [? _].
Qed.

(** Outside of them nothing is served: [u64::MAX] asks for no row, whatever the store
    holds, and adding one to [i64::MAX] overflows. *)
Lemma query_extremes q d :
  healthy d ->
  (StoreQuery.page_size q = 2 ^ 64 - 1 ->
     query q d = Some (Ok {| messages := []; next_cursor := None |}, d)) /\
  (StoreQuery.page_size q = 2 ^ 63 - 1 -> overflow_checks = true -> query q d = None).
Proof.
  intros Hd. unfold query, mbind, action_bind. rewrite resolve_cursor_healthy by done.
  split; intros ->.
  - change (as_i64 (_ `max` 1)) with (-1). unfold lift_panic. cbn.
    rewrite i64_op_in_range by done. cbn. by rewrite select_healthy.
  - intros Hc. change (as_i64 (_ `max` 1)) with (2 ^ 63 - 1). unfold lift_panic.
    assert (i64_op (2 ^ 63 - 1 + 1) = None) as ->; [|done].
    unfold i64_op. rewrite decide_False by (unfold in_i; lia). by rewrite Hc.
Qed.

(** C2. What a query returns on a database without faults, for each value of the page
    size.  With [u64::MAX] it is an empty page without a cursor, and with [i64::MAX] the
    query panics in a build with overflow checks.  With every other page size the
    messages are, in the requested direction of (sort_time, hash) and without duplicates,
    the first [max(page_size, 1)] of exactly the stored messages that satisfy every filter
    and follow the cursor; the page carries a cursor, the hash of its last message, when
    some are left, and from a page size of [2^63] on whenever it has a message.  The store
    is left alone. *)
Theorem query_returns_page (q : StoreQuery.t) (d : SqliteStore) :
  healthy d -> hashes_ok (rows d) -> in_u64 (StoreQuery.page_size q) ->
  (StoreQuery.page_size q = 2 ^ 64 - 1 /\
     query q d = Some (Ok {| messages := []; next_cursor := None |}, d)) \/
  (StoreQuery.page_size q = 2 ^ 63 - 1 /\ overflow_checks = true /\ query q d = None) \/
  page_size_ok q /\
  exists page rest,
    query q d = Some (Ok {| messages := stored q <$> page;
      next_cursor := if decide (rest = [] /\ StoreQuery.page_size q < 2 ^ 63)
        then None else fst <$> list.last page |}, d) /\
    length page = Nat.min (page_len q) (length (page ++ rest)) /\
    StronglySorted (dir_le (StoreQuery.forward q)) (page ++ rest) /\
    NoDup (page ++ rest).*1 /\
    forall h r, (h, r) ∈ page ++ rest <->
      rows d !! h = Some r /\ matches q (h, r) = true /\
      after_cursor (StoreQuery.forward q) (cursor_key q (rows d)) (h, r) = true.
Proof.
  intros Hd Ht Hp. destruct (query_extremes q d Hd) as [Hmax Hover].
  destruct (decide (StoreQuery.page_size q = 2 ^ 64 - 1)) as [Em|Hm]; [left; auto|right].
  destruct (decide (overflow_checks = true /\ StoreQuery.page_size q = 2 ^ 63 - 1)) as [[Ec Ep]|Hn];
    [left; auto|right].
  assert (page_size_ok q) as Hok by (unfold page_size_ok, in_u in *; split; [lia|tauto]).
  split; [done|]. set (L := results q (rows d)).
  exists (take (page_len q) L), (drop (page_len q) L). rewrite take_drop.
  split; [|split; [|split; [|split]]].
  - rewrite query_page by done. do 4 f_equal. fold L. unfold next_of.
    assert (length (drop (page_len q) L) = length L - page_len q)%nat as Hl by apply length_drop.
    destruct (drop (page_len q) L); cbn in Hl; repeat case_decide; try done; exfalso; intuition (discriminate || lia).
  - apply length_take.
  - apply results_sorted.
  - apply NoDup_results.
  - intros h r. apply (elem_of_results q (rows d) (h, r)).
Qed.

(** Asking for page after page with the cursor returned by the one before, at most
    [fuel] times. *)
Fixpoint fetch_all (fuel : nat) (q : StoreQuery.t) (d : SqliteStore)
    : option (list StoredMessage * SqliteStore) :=
  match fuel with
  | O => None
  | S fuel =>
      match query q d with
      | Some (Ok res, d) =>
          match next_cursor res with
          | None => Some (messages res, d)
          | Some c =>
              '(more, d) ← fetch_all fuel (StoreQuery.with_cursor q c) d;
              Some (messages res ++ more, d)
          end
      | _ => None
      end
  end.

(** The rows a query matches, whatever its cursor. *)
Definition all_matches (q : StoreQuery.t) (t : table) : list entry :=
  filter (fun e => matches q e = true) (order_by (StoreQuery.forward q) t).

Lemma results_no_cursor q t : cursor_key q t = None -> results q t = all_matches q t.
Proof.
  intros Hc. unfold results, all_matches, selected. rewrite Hc. apply filter_ext.
  intros e _. cbn. by rewrite andb_true_r.
Qed.

Lemma all_matches_sorted q t :
  StronglySorted (dir_le (StoreQuery.forward q)) (all_matches q t) /\
  NoDup (all_matches q t).*1.
Proof.
  split; [apply StronglySorted_filter, order_by_sorted|].
  eapply sublist_NoDup; [apply (NoDup_order_by (StoreQuery.forward q) t)|].
  apply fmap_sublist, sublist_filter.
Qed.

Lemma elem_of_all_matches q t e :
  e ∈ all_matches q t <-> t !! e.1 = Some e.2 /\ matches q e = true.
Proof. unfold all_matches. rewrite list_elem_of_filter, elem_of_order_by. tauto. Qed.

(** Resuming from a returned row gives the rows after it. *)
Lemma results_with_cursor q t l1 c l2 :
  all_matches q t = l1 ++ c :: l2 -> results (StoreQuery.with_cursor q c.1) t = l2.
Proof.
  intros E. destruct (all_matches_sorted q t) as [Hs Hd]. rewrite E in Hs, Hd.
  assert (t !! c.1 = Some c.2) as Hc.
  { apply (elem_of_all_matches q). rewrite E. set_solver. }
  rewrite <- (filter_after_cursor _ l1 c l2 Hs Hd), <- E.
  unfold results, all_matches, cursor_key. cbn. rewrite Hc. cbn.
  rewrite list_filter_filter. apply filter_ext. intros e _. unfold selected. cbn.
  rewrite andb_true_iff. unfold matches; cbn. tauto.
Qed.

Lemma length_all_matches q t : (length (all_matches q t) <= size t)%nat.
Proof.
  rewrite <- (length_order_by (StoreQuery.forward q)). apply sublist_length, sublist_filter.
Qed.

Lemma page_len_pos q : (0 < page_len q)%nat.
Proof. unfold page_len. lia. Qed.

(** Where a client that has received [l1] asks on: at the start, or at the last row it got. *)
Definition resumes (q q' : StoreQuery.t) (t : table) (l1 : list entry) : Prop :=
  l1 = [] /\ q' = q /\ cursor_key q t = None \/
  exists c, list.last l1 = Some c /\ q' = StoreQuery.with_cursor q c.1.

(** The page it then gets, and where it asks on after it. *)
Lemma query_rest q q' d l1 l2 :
  healthy d -> hashes_ok (rows d) -> page_size_ok q ->
  all_matches q (rows d) = l1 ++ l2 -> resumes q q' (rows d) l1 ->
  query q' d = Some (Ok {| messages := stored q <$> take (page_len q) l2; next_cursor := next_of q l2 |}, d) /\
  forall c, StoreQuery.with_cursor q' c = StoreQuery.with_cursor q c.
Proof.
  intros Hd Ht Hp E Hc.
  assert (results q' (rows d) = l2 /\ page_size_ok q' /\ page_len q' = page_len q /\
    next_of q' l2 = next_of q l2 /\ (forall e, stored q' e = stored q e) /\
    (forall c, StoreQuery.with_cursor q' c = StoreQuery.with_cursor q c)) as (El & Hp' & Hn & Hx & Hs & Hw).
  { destruct Hc as [(-> & -> & Hc)|(c & Hl & ->)].
    - by rewrite results_no_cursor.
    - apply last_snoc_inv in Hl as [l1' ->]. rewrite <- app_assoc in E. cbn in E.
      by rewrite (results_with_cursor _ _ _ _ _ E). }
  split; [|done]. rewrite query_page by done. rewrite El, Hn, Hx.
  by rewrite (list_fmap_ext (stored q') (stored q)) by done.
Qed.

(** After a page: either it was the last one, or it ends with a row, whose hash the
    cursor is, and what is left is shorter. *)
Lemma page_cases q (l : list entry) :
  (next_of q l = None /\ take (page_len q) l = l) \/
  exists c, list.last (take (page_len q) l) = Some c /\ next_of q l = Some c.1 /\
    (length (drop (page_len q) l) < length l)%nat.
Proof.
  pose proof (page_len_pos q) as Hpos. unfold next_of.
  destruct l as [|e l]; [left; rewrite take_nil; by case_decide|].
  destruct (list.last (take (page_len q) (e :: l))) as [c|] eqn:Hl.
  - case_decide as Hc.
    + right. exists c. split; [done|]. split; [done|]. rewrite length_drop. cbn. lia.
    + left. split; [done|]. apply take_ge. lia.
  - apply last_None, (f_equal length) in Hl. rewrite length_take in Hl. cbn in Hl. lia.
Qed.

Lemma resumes_next q t l1 (page : list entry) c :
  list.last page = Some c -> resumes q (StoreQuery.with_cursor q c.1) t (l1 ++ page).
Proof. intros Hl. right. exists c. split; [|done]. by rewrite last_app, Hl. Qed.

Lemma fetch_all_rest fuel q q' d l1 l2 :
  healthy d -> hashes_ok (rows d) -> page_size_ok q ->
  all_matches q (rows d) = l1 ++ l2 -> resumes q q' (rows d) l1 ->
  (length l2 < fuel)%nat ->
  fetch_all fuel q' d = Some (stored q <$> l2, d).
Proof.
  intros Hd Ht Hp. revert q' l1 l2. induction fuel as [|fuel IH]; intros q' l1 l2 E Hc Hf; [lia|].
  destruct (query_rest q q' d l1 l2) as [Hq Hw]; [done..|]. cbn. rewrite Hq. cbn.
  destruct (page_cases q l2) as [[-> ->]|(c & Hl & -> & Hlt)]; [done|]. rewrite Hw.
  rewrite (IH _ (l1 ++ take (page_len q) l2) (drop (page_len q) l2)).
  - cbn. by rewrite <- fmap_app, take_drop.
  - by rewrite <- app_assoc, take_drop.
  - by apply resumes_next.
  - lia.
Qed.

Lemma fetch_all_matches q d :
  healthy d -> hashes_ok (rows d) -> page_size_ok q -> StoreQuery.cursor q = None ->
  fetch_all (S (size (rows d))) q d = Some (stored q <$> all_matches q (rows d), d).
Proof.
  intros Hd Ht Hp Hc. apply (fetch_all_rest _ q q d []); [done..| |].
  - left. unfold cursor_key. by rewrite Hc.
  - pose proof (length_all_matches q (rows d)). lia.
Qed.

(** C1. Pagination is complete on a database without faults, with every page size but
    two: starting without a cursor and following the returned cursors, [size + 1] pages
    are enough, and the pages put end to end are all the messages that match the query,
    each once, in order.  The two are [u64::MAX], with which the client receives one empty
    page however many messages match, and, in a build with overflow checks, [i64::MAX],
    with which the store panics. *)
Theorem paging_complete (q : StoreQuery.t) (d : SqliteStore) :
  healthy d -> hashes_ok (rows d) -> StoreQuery.cursor q = None ->
  (page_size_ok q ->
     exists l, fetch_all (S (size (rows d))) q d = Some (stored q <$> l, d) /\
       StronglySorted (dir_le (StoreQuery.forward q)) l /\ NoDup l.*1 /\
       forall h r, (h, r) ∈ l <-> rows d !! h = Some r /\ matches q (h, r) = true) /\
  (StoreQuery.page_size q = 2 ^ 64 - 1 -> fetch_all (S (size (rows d))) q d = Some ([], d)) /\
  (StoreQuery.page_size q = 2 ^ 63 - 1 -> overflow_checks = true -> query q d = None).
Proof.
  intros Hd Ht Hc. destruct (query_extremes q d Hd) as [Hmax Hover]. split; [|split; [|done]].
  - intros Hp. exists (all_matches q (rows d)).
    destruct (all_matches_sorted q (rows d)) as [Hs Hn].
    split; [by apply fetch_all_matches|]. split; [done|]. split; [done|].
    intros h r. apply (elem_of_all_matches q _ (h, r)).
  - intros Hm. cbn. by rewrite (Hmax Hm).
Qed.

(** A cursor that is no longer in the store is ignored: the query starts again
    from its first page, so a client paging through a store that drops its last row
    in between is sent back to the beginning. *)
Theorem lost_cursor_restarts (q : StoreQuery.t) (c : bytes) (d : SqliteStore) :
  healthy d -> StoreQuery.cursor q = None -> rows d !! c = None ->
  query (StoreQuery.with_cursor q c) d = query q d.
Proof.
  intros Hd Hq Hc. unfold query, mbind, action_bind. rewrite !resolve_cursor_healthy by done.
  unfold cursor_key. cbn. by rewrite Hq, Hc.
Qed.

End Query.

(** ** Writing and reading back *)

Section Writing.
Context `{Sha256}.

Lemma row_to_message_of topic m rt :
  wf_message m -> row_to_message (row_of topic m rt) = m.
Proof.
  intros [Hv _]. destruct m as [p ct v ts mt rl e]; unfold row_to_message, row_of; cbn in *.
  f_equal.
  - destruct v as [v|]; [|done]. cbn. f_equal. specialize (Hv v eq_refl).
    rewrite wrap_signed_small; [by apply wrap_unsigned_small|lia|unfold in_u, in_i in *; lia].
  - by destruct e as [[]|].
Qed.

Lemma insert_or_ignore_new h r t : t !! h = None -> insert_or_ignore h r t = <[h := r]> t.
Proof. unfold insert_or_ignore. by intros ->. Qed.

Lemma insert_or_ignore_old h r t : is_Some (t !! h) -> insert_or_ignore h r t = t.
Proof. unfold insert_or_ignore. by intros [? ->]. Qed.

Lemma lookup_insert_or_ignore_ne h h' r t :
  h <> h' -> insert_or_ignore h r t !! h' = t !! h'.
Proof. unfold insert_or_ignore. intros Hne. case_match; [done|by apply lookup_insert_ne]. Qed.

Lemma lookup_insert_or_ignore_eq h r t : is_Some (insert_or_ignore h r t !! h).
Proof.
  unfold insert_or_ignore. destruct (t !! h) eqn:E; [by eauto|].
  rewrite lookup_insert_eq. eauto.
Qed.

Lemma insert_or_ignore_subseteq h r t : t ⊆ insert_or_ignore h r t.
Proof. unfold insert_or_ignore. case_match; [done|by apply insert_subseteq]. Qed.

Lemma get_healthy h d :
  healthy d -> get h d = Some (Ok (row_to_message <$> rows d !! h), d).
Proof. intros Hd. unfold get, mbind, action_bind. by rewrite select_healthy. Qed.

(** C4. Storing a message: without a fault [put] succeeds; a message whose hash is
    new can then be read back unchanged, every field included, and the count grows by
    one; a message whose hash is known changes nothing, so the first one wins; no
    other hash is touched; storing again is a no-op whatever the receive time; and a
    database fault is reported and changes no row. *)
Theorem put_then_get (topic : string) (m : WakuMessage) (rt : Z) (d : SqliteStore) :
  wf_message m ->
  let h := deterministic_hash topic m in
  (healthy d -> exists d', put topic m rt d = Some (Ok tt, d') /\
     (rows d !! h = None ->
        get h d' = Some (Ok (Some m), d') /\ size (rows d') = S (size (rows d))) /\
     (is_Some (rows d !! h) -> d' = d) /\
     (forall h', h' <> h -> get h' d' = Some (Ok (row_to_message <$> rows d !! h'), d')) /\
     (forall rt', put topic m rt' d' = Some (Ok tt, d'))) /\
  (forall e fs, faults d = Some e :: fs ->
     put topic m rt d = Some (Err (Db e), mkSqliteStore (rows d) fs)).
Proof.
  intros Hm h. split; [|intros e fs; by apply statement_fault].
  intros Hd. unfold put. rewrite statement_healthy by done. cbn. eexists; split; [done|].
  fold h. split; [|split; [|split]].
  - intros Hn. rewrite get_healthy by done. cbn. rewrite insert_or_ignore_new by done.
    rewrite lookup_insert_eq. cbn. rewrite row_to_message_of by done.
    by rewrite map_size_insert_None.
  - intros Hs. rewrite insert_or_ignore_old by done. by destruct d; rewrite <- Hd.
  - intros h' Hne. rewrite get_healthy by done. cbn.
    by rewrite lookup_insert_or_ignore_ne.
  - intros rt'. rewrite statement_healthy by done. cbn.
    by rewrite (insert_or_ignore_old h (row_of topic m rt')) by apply lookup_insert_or_ignore_eq.
Qed.

(** ** The invariant of a store *)

(** Every row is keyed by the hash of its own message on its own topic, is sorted by
    that message's timestamp, or its receive time when it has none, and has fields of
    their Rust types. *)
Definition store_inv (t : table) : Prop := forall h r, t !! h = Some r ->
  h = deterministic_hash (row_pubsub_topic r) (row_to_message r) /\
  row_sort_time r = default (row_receiver_time r) (row_timestamp r) /\
  wf_message (row_to_message r).

(** The operations that write, with any outcome. *)
Inductive store_step : SqliteStore -> SqliteStore -> Prop :=
  | step_put topic m rt res d d' :
      wf_message m -> put topic m rt d = Some (res, d') -> store_step d d'
  | step_delete cutoff res d d' :
      delete_older_than cutoff d = Some (res, d') -> store_step d d'
  | step_capacity max res d d' :
      enforce_capacity max d = Some (res, d') -> store_step d d'.

Lemma statement_rows {A} (f : table -> A * table) d res d' :
  statement f d = Some (res, d') -> rows d' = rows d \/ rows d' = (f (rows d)).2.
Proof.
  unfold statement. destruct (faults d) as [|[e|] fs]; [|by intros [= <- <-]; left|];
    destruct (f (rows d)); intros [= <- <-]; by right.
Qed.

Lemma store_inv_put topic m rt t :
  wf_message m -> store_inv t ->
  store_inv (insert_or_ignore (deterministic_hash topic m) (row_of topic m rt) t).
Proof.
  intros Hm Ht h r. unfold insert_or_ignore. case_match; [by apply Ht|].
  rewrite lookup_insert_Some. intros [[<- <-]|[_ Hl]]; [|by apply Ht].
  rewrite row_to_message_of by done. split; [done|]. by split.
Qed.

Lemma store_inv_filter P `{!forall e, Decision (P e)} (t : table) :
  store_inv t -> store_inv (filter P t).
Proof. intros Ht h r [Hl _]%map_lookup_filter_Some. by apply Ht. Qed.

Lemma store_step_inv d d' : store_step d d' -> store_inv (rows d) -> store_inv (rows d').
Proof.
  intros [topic m rt res d1 d2 Hm E|cutoff res d1 d2 E|max res d1 d2 E] Ht;
    apply statement_rows in E as [->| ->]; try done.
  - by apply store_inv_put.
  - by apply store_inv_filter.
  - by apply store_inv_filter.
Qed.

Lemma store_inv_hashes_ok t : store_inv t -> hashes_ok t.
Proof. intros Ht h r [-> _]%Ht. apply deterministic_hash_length. Qed.

Definition reachable (d : SqliteStore) : Prop :=
  exists fs, rtc store_step (mkSqliteStore ∅ fs) d.

Lemma reachable_inv d : reachable d -> store_inv (rows d).
Proof.
  intros [fs Hr]. remember (mkSqliteStore ∅ fs) as d0 eqn:E0.
  assert (store_inv (rows d0)) as H0 by (subst d0; intros h r; cbn; by rewrite lookup_empty).
  clear E0. induction Hr as [|d1 d2 d3 Hs _ IH]; [done|]. by eapply IH, store_step_inv.
Qed.

(** C5. Whatever sequence of puts and retention runs a store has gone through, with
    any database faults on the way, every row it holds is keyed by the RFC-14 hash of
    the message it decodes to: looking a hash up returns only a message with that
    hash, and no stored row is ever reported as corrupt by a query. *)
Theorem reachable_store_sound `{BuildProfile} (d : SqliteStore) :
  reachable d ->
  (forall h m d', get h d = Some (Ok (Some m), d') ->
     wf_message m /\ exists topic, h = deterministic_hash topic m) /\
  (forall q e d', query q d <> Some (Err (Corrupt e), d')).
Proof.
  intros Hr%reachable_inv. split.
  - intros h m d'. unfold get, select, statement, mbind, action_bind.
    destruct (faults d) as [|[e|] fs]; [| done |]; cbn;
      (destruct (rows d !! h) as [r|] eqn:E; cbn; [|done]); intros [= <- _];
      apply Hr in E as (-> & _ & Hw); eauto.
  - intros q e d'. by apply query_not_corrupt, store_inv_hashes_ok.
Qed.

End Writing.

(** ** Retention *)

Lemma elem_of_split_sorted forward t k h r :
  (h, r) ∈ drop k (order_by forward t) -> t !! h = Some r.
Proof.
  intros He. apply (elem_of_order_by forward t (h, r)).
  rewrite <- (take_drop k (order_by forward t)). set_solver.
Qed.

Lemma order_by_not_both forward t k e :
  e ∈ take k (order_by forward t) -> e.1 ∈ (drop k (order_by forward t)).*1 -> False.
Proof.
  intros H1 H2. pose proof (NoDup_order_by forward t) as Hd.
  rewrite <- (take_drop k (order_by forward t)), fmap_app in Hd.
  apply NoDup_app in Hd as (_ & Hd & _). apply (Hd e.1); [|done]. by apply list_elem_of_fmap_2.
Qed.

(** What is left after deleting the rows from position [k] on. *)
Lemma delete_tail t k :
  let doomed := (drop k (order_by false t)).*1 in
  filter (fun e : entry => bool_decide (e.1 ∈ doomed) = false) t =
  list_to_map (take k (order_by false t)).
Proof.
  intros doomed. apply map_eq. intros h. apply option_eq. intros r.
  assert (NoDup (take k (order_by false t)).*1) as Hd.
  { eapply sublist_NoDup; [apply (NoDup_order_by false t)|].
    apply fmap_sublist, sublist_take. }
  rewrite map_lookup_filter_Some, <- elem_of_list_to_map by done.
  rewrite bool_decide_eq_false. split.
  - intros [Hl Hn]. apply (elem_of_order_by false t (h, r)) in Hl.
    rewrite <- (take_drop k (order_by false t)) in Hl. apply elem_of_app in Hl as [Hl|Hl]; [done|].
    destruct Hn. by apply (list_elem_of_fmap_2 fst) in Hl.
  - intros Hl. split.
    + apply (elem_of_order_by false t (h, r)).
      rewrite <- (take_drop k (order_by false t)). set_solver.
    + intros Hd'. by apply (order_by_not_both false t k (h, r)).
Qed.

Lemma enforce_capacity_healthy max d :
  healthy d ->
  let k := Z.to_nat (as_i64 max) in
  let t' := list_to_map (take k (order_by false (rows d))) in
  enforce_capacity max d =
    Some (Ok (Z.of_nat (size (rows d)) - Z.of_nat (size t')), mkSqliteStore t' []).
Proof.
  intros Hd k t'. unfold enforce_capacity. rewrite statement_healthy by done.
  unfold sql_delete, sql_offset. cbn. by rewrite delete_tail.
Qed.

Lemma size_list_to_map_take k t :
  size (list_to_map (take k (order_by false t)) : table) = Nat.min k (size t).
Proof.
  rewrite <- (length_map_to_list (M := gmap bytes)), map_to_list_to_map.
  - by rewrite length_take, length_order_by.
  - eapply sublist_NoDup; [apply (NoDup_order_by false t)|].
    apply fmap_sublist, sublist_take.
Qed.

(** Time retention deletes exactly the messages older than the cutoff and
    reports how many. *)
Theorem delete_older_than_exact (cutoff : Z) (d : SqliteStore) :
  healthy d -> exists n d', delete_older_than cutoff d = Some (Ok n, d') /\ healthy d' /\
    n = Z.of_nat (size (rows d)) - Z.of_nat (size (rows d')) /\ 0 <= n /\
    (n = 0 <-> forall h r, rows d !! h = Some r -> cutoff <= row_sort_time r) /\
    forall h r, rows d' !! h = Some r <-> rows d !! h = Some r /\ cutoff <= row_sort_time r.
Proof.
  intros Hd. unfold delete_older_than. rewrite statement_healthy by done.
  unfold sql_delete. do 2 eexists. split; [done|]. split; [done|]. split; [done|]. cbn.
  set (t' := filter _ (rows d)).
  assert (forall h r, t' !! h = Some r <-> rows d !! h = Some r /\ cutoff <= row_sort_time r)
    as Ht'.
  { intros h r. unfold t'. rewrite map_lookup_filter_Some, bool_decide_eq_false. cbn.
    intuition lia. }
  assert (t' ⊆ rows d) as Hsub by apply map_filter_subseteq.
  pose proof (map_subseteq_size t' (rows d) Hsub). split; [lia|]. split; [|done]. split.
  - intros Hn h r Hl.
    assert (t' = rows d) as E by (apply map_subseteq_size_eq; [done|lia]).
    rewrite <- E in Hl. by apply Ht' in Hl as [_ ?].
  - intros Hall. assert (t' = rows d) as ->; [|lia].
    apply map_eq. intros h. apply option_eq. intros r. rewrite Ht'. naive_solver.
Qed.

(** Capacity retention with a limit below [2^63] keeps exactly the newest
    messages: it leaves [min(max, size)] of them, reports how many went, and every
    deleted message comes before every kept one in (sort_time, hash) order. *)
Theorem enforce_capacity_keeps_newest (max : Z) (d : SqliteStore) :
  healthy d -> 0 <= max < 2 ^ 63 ->
  exists n d', enforce_capacity max d = Some (Ok n, d') /\ healthy d' /\
    rows d' ⊆ rows d /\ size (rows d') = Nat.min (Z.to_nat max) (size (rows d)) /\
    n = Z.of_nat (size (rows d)) - Z.of_nat (size (rows d')) /\
    forall h r h' r', rows d' !! h = Some r -> rows d !! h' = Some r' -> rows d' !! h' = None ->
      key_le (h', r') (h, r).
Proof.
  intros Hd Hmax. rewrite enforce_capacity_healthy by done. do 2 eexists. split; [done|].
  rewrite wrap_signed_small by (unfold in_i; lia). cbn.
  set (k := Z.to_nat max). set (L := order_by false (rows d)).
  assert (NoDup (take k L).*1) as Hnd.
  { eapply sublist_NoDup; [apply (NoDup_order_by false (rows d))|].
    apply fmap_sublist, sublist_take. }
  split; [done|]. split; [|split; [apply size_list_to_map_take|split; [done|]]].
  - apply map_subseteq_spec. intros h r. rewrite <- elem_of_list_to_map by done. intros He.
    apply (elem_of_order_by false _ (h, r)). fold L. rewrite <- (take_drop k L). set_solver.
  - intros h r h' r' Hk Hl Hn. apply elem_of_list_to_map in Hk; [|done].
    apply (elem_of_order_by false _ (h', r')) in Hl. fold L in Hl.
    rewrite <- (take_drop k L) in Hl. apply elem_of_app in Hl as [Hl|Hl].
    + apply elem_of_list_to_map in Hl; [congruence|done].
    + pose proof (order_by_sorted false (rows d)) as Hs. fold L in Hs.
      rewrite <- (take_drop k L) in Hs. by apply (StronglySorted_app_1_elem_of _ _ _ _ _ Hs).
Qed.

(** A capacity of [2^63] or more becomes a negative offset: instead of keeping
    everything, the retention deletes every message of the store. *)
Theorem enforce_capacity_huge_wipes (max : Z) (d : SqliteStore) :
  healthy d -> 2 ^ 63 <= max < 2 ^ 64 ->
  enforce_capacity max d = Some (Ok (Z.of_nat (size (rows d))), mkSqliteStore ∅ []).
Proof.
  intros Hd Hmax. rewrite enforce_capacity_healthy by done.
  assert (as_i64 max < 0) as Hneg.
  { unfold wrap_signed. pose proof (Z.div_mod (max + 2 ^ (64 - 1)) (2 ^ 64)) as Hdm.
    replace ((max + 2 ^ (64 - 1)) / 2 ^ 64) with 1 in Hdm; [lia|].
    apply (Z.div_unique_pos _ _ _ (max + 2 ^ (64 - 1) - 2 ^ 64)); lia. }
  replace (Z.to_nat (as_i64 max)) with 0%nat by lia.
  rewrite size_list_to_map_take, Z.sub_0_r. done.
Qed.

(** ** The other reads *)

(** The rows [exists] selects. *)
Lemma elem_of_exists_rows (hashes : list bytes) (t : table) h :
  h ∈ (filter (fun e : entry => e.1 ∈ hashes) (map_to_list t)).*1 <->
  h ∈ hashes /\ is_Some (t !! h).
Proof.
  rewrite list_elem_of_fmap. split.
  - intros ([h' r] & -> & [Hh Hr%elem_of_map_to_list]%list_elem_of_filter). cbn in *. eauto.
  - intros [Hh [r Hr]]. exists (h, r). split; [done|].
    apply list_elem_of_filter. by rewrite elem_of_map_to_list.
Qed.

Lemma exists_cases hashes d :
  hashes_ok (rows d) ->
  exists d' l, rows d' = rows d /\ NoDup l /\
    (forall h, h ∈ l <-> h ∈ hashes /\ is_Some (rows d !! h)) /\
    (exists_ hashes d = Some (Ok l, d') /\ (healthy d -> d' = d) \/
     exists e, exists_ hashes d = Some (Err (Db e), d') /\ ~ healthy d).
Proof.
  intros Ht. unfold exists_. case_bool_decide as He.
  { exists d, []. subst hashes. split; [done|]. split; [constructor|]. split; [set_solver|].
    by left. }
  unfold mbind, action_bind, lift_result.
  set (f := fun t : table => (filter (fun e : entry => e.1 ∈ hashes) (map_to_list t)).*1).
  assert (mapM row_to_hash (f (rows d)) = Ok (f (rows d))) as Hm.
  { rewrite (mapM_Ok _ id); [by rewrite list_fmap_id|].
    intros h [_ [r Hr]]%elem_of_exists_rows. unfold row_to_hash. by rewrite decide_True by eauto. }
  destruct (select_cases f d) as (d1 & E1 & Hs). exists d1, (f (rows d)).
  split; [done|]. split.
  { eapply sublist_NoDup; [apply (NoDup_fst_map_to_list (rows d))|].
    apply fmap_sublist, sublist_filter. }
  split; [intros h; apply elem_of_exists_rows|].
  destruct Hs as [E|[e E]]; rewrite E; [left|right].
  - rewrite Hm. split; [done|]. intros Hd. rewrite select_healthy in E by done. by injection E.
  - exists e. split; [done|]. intros Hd. by rewrite select_healthy in E.
Qed.

(** [exists] returns exactly the requested hashes that are stored, each once
    however often it was asked for, and the message count is the number of rows. *)
Theorem exists_exact (hashes : list bytes) (d : SqliteStore) :
  healthy d -> hashes_ok (rows d) ->
  (exists l, exists_ hashes d = Some (Ok l, d) /\ NoDup l /\
     forall h, h ∈ l <-> h ∈ hashes /\ is_Some (rows d !! h)) /\
  (Z.of_nat (size (rows d)) < 2 ^ 64 ->
     message_count d = Some (Ok (Z.of_nat (size (rows d))), d)).
Proof.
  intros Hd Ht. split.
  - destruct (exists_cases hashes d Ht) as (d' & l & _ & Hn & Hl & [[E Hd']|(e & _ & Hnd)]); [|done].
    exists l. by rewrite E, Hd'.
  - intros Hs. unfold message_count. rewrite count_select, select_healthy by done.
    by rewrite wrap_unsigned_small by (unfold in_u; lia).
Qed.

(** ** Paging through a store that grows *)

(** Strictly before, in the order of the query. *)
Definition dir_lt (forward : bool) (e e' : entry) : Prop :=
  after_cursor forward (Some (row_sort_time e.2, e.1)) e' = true.

Lemma bytes_lt_trans l k m : bytes_lt l k -> bytes_lt k m -> bytes_lt l m.
Proof.
  unfold bytes_lt. intros H1 H2 H3. destruct (total bytes_le k l) as [?|Hlk]; [done|].
  apply H2. by etrans.
Qed.

Lemma after_cursor_trans forward K c e :
  after_cursor forward K c = true -> dir_lt forward c e -> after_cursor forward K e = true.
Proof.
  destruct K as [[t h]|]; [|done]. unfold dir_lt, after_cursor.
  destruct forward; rewrite !orb_true_iff, !andb_true_iff, !bool_decide_eq_true;
    intros [?|[? ?]] [?|[? ?]]; try (left; lia); right; split;
    try congruence; by eapply bytes_lt_trans.
Qed.

Lemma dir_lt_intro forward e e' : dir_le forward e e' -> e.1 <> e'.1 -> dir_lt forward e e'.
Proof. intros Hle Hne. by apply after_cursor_spec; [|split; [|congruence]]. Qed.

Lemma dir_lt_le_ne forward e e' : dir_lt forward e e' -> dir_le forward e e' /\ e <> e'.
Proof.
  unfold dir_lt, after_cursor, dir_le, key_le, bytes_lt.
  destruct forward; rewrite orb_true_iff, andb_true_iff, !bool_decide_eq_true;
    (intros [?|[? Hn]]; split; [by left|intros ->; lia|right; split; [done|]
      |intros ->; by apply Hn, bytes_le_refl]).
  - by destruct (total bytes_le e.1 e'.1).
  - by destruct (total bytes_le e'.1 e.1).
Qed.

Lemma sorted_strict forward l :
  StronglySorted (dir_le forward) l -> NoDup l.*1 -> StronglySorted (dir_lt forward) l.
Proof.
  induction 1 as [|e l Hl IH He]; [constructor|]. cbn. intros [Hn Hd]%NoDup_cons.
  constructor; [by apply IH|]. rewrite list.Forall_forall in *. intros e' He'.
  apply dir_lt_intro; [by apply He|]. intros E. apply Hn. rewrite E.
  by apply list_elem_of_fmap_2.
Qed.

Section Growing.
Context `{BuildProfile}.

(** One page from each store of [ds] in turn, until a page has no cursor. *)
Fixpoint fetch_from (q : StoreQuery.t) (ds : list SqliteStore) : option (list StoredMessage) :=
  match ds with
  | [] => None
  | d :: ds =>
      match query q d with
      | Some (Ok res, _) =>
          match next_cursor res with
          | None => Some (messages res)
          | Some c =>
              more ← fetch_from (StoreQuery.with_cursor q c) ds;
              Some (messages res ++ more)
          end
      | _ => None
      end
  end.

(** The stores the pages are asked of: each healthy, with proper keys, and holding at
    least what the ones before it held. *)
Definition growing (ds : list SqliteStore) : Prop :=
  Forall (fun d => healthy d /\ hashes_ok (rows d)) ds /\
  StronglySorted (fun d d' => rows d ⊆ rows d') ds.

Lemma results_strict q t : StronglySorted (dir_lt (StoreQuery.forward q)) (results q t).
Proof. apply sorted_strict; [apply results_sorted|apply NoDup_results]. Qed.

(** What follows the last row of a page follows all of it. *)
Lemma page_precedes forward (page : list entry) (c : entry) (l : list entry) :
  StronglySorted (dir_lt forward) page -> list.last page = Some c ->
  (forall e', e' ∈ l -> after_cursor forward (Some (row_sort_time c.2, c.1)) e' = true) ->
  forall e e', e ∈ page -> e' ∈ l -> dir_lt forward e e'.
Proof.
  intros Hs [page' ->]%last_snoc_inv Ha e e' He He'.
  apply elem_of_app in He as [He| ->%list_elem_of_singleton]; [|by apply Ha].
  eapply after_cursor_trans; [|by apply Ha].
  by apply (StronglySorted_app_1_elem_of _ _ _ _ _ Hs); [|left].
Qed.

Lemma fetch_from_spec ds q K msgs :
  growing ds -> page_size_ok q ->
  (forall d, d ∈ ds -> cursor_key q (rows d) = K) ->
  fetch_from q ds = Some msgs ->
  exists l, msgs = stored q <$> l /\ StronglySorted (dir_lt (StoreQuery.forward q)) l /\
    (forall e, e ∈ l -> matches q e = true /\
       after_cursor (StoreQuery.forward q) K e = true /\
       exists d, d ∈ ds /\ rows d !! e.1 = Some e.2) /\
    (forall e d, head ds = Some d -> rows d !! e.1 = Some e.2 -> matches q e = true ->
       after_cursor (StoreQuery.forward q) K e = true -> e ∈ l).
Proof.
  revert q K msgs. induction ds as [|d ds IH]; intros q K msgs [Hok Hs] Hp HK Hf; [done|].
  apply list.Forall_cons in Hok as [[Hd Ht] Hok]. apply StronglySorted_inv in Hs as [Hs Hsub].
  rewrite list.Forall_forall in Hsub.
  cbn in Hf. rewrite query_page in Hf by done. cbn in Hf.
  set (L := results q (rows d)) in *.
  pose proof (results_strict q (rows d)) as HL. fold L in HL.
  assert (forall e, e ∈ L <-> rows d !! e.1 = Some e.2 /\ matches q e = true /\
    after_cursor (StoreQuery.forward q) K e = true) as HLe.
  { intros e. unfold L. rewrite elem_of_results, (HK d) by left. done. }
  destruct (page_cases q L) as [[Hn Ht']|(c & Hl & Hn & _)]; rewrite Hn in Hf.
  { injection Hf as <-. exists L. rewrite Ht'. split; [done|]. split; [done|].
    split; [|intros e d' [= <-]; rewrite HLe; tauto].
    intros e (He1 & He2 & He3)%HLe. do 2 (split; [done|]). exists d. by split; [left|]. }
  set (page := take (page_len q) L) in *.
  assert (L = page ++ drop (page_len q) L) as HLs by (symmetry; apply take_drop).
  destruct (fetch_from _ ds) as [more|] eqn:Em; [|done]. injection Hf as <-.
  assert (c ∈ page) as Hc by (by apply last_Some_elem_of).
  assert (c ∈ L) as HcL by (rewrite HLs; set_solver).
  pose proof (proj1 (HLe c) HcL) as (Hc1 & Hc2 & Hc3).
  destruct (IH (StoreQuery.with_cursor q c.1) (Some (row_sort_time c.2, c.1)) more)
    as (l & -> & Hl1 & Hl2 & Hl3); [done|done| |done|].
  { intros d' Hd'. unfold cursor_key; cbn.
    by rewrite (lookup_weaken _ _ _ _ Hc1 (Hsub d' Hd')). }
  exists (page ++ l). split; [by rewrite fmap_app|]. rewrite HLs in HL.
  assert (forall e e', e ∈ page -> e' ∈ l -> dir_lt (StoreQuery.forward q) e e') as Hx.
  { apply (page_precedes _ page c l); [by eapply StronglySorted_app_1_l|done|].
    intros e' He'. by destruct (Hl2 e' He') as (_ & Ha & _). }
  split; [|split].
  - apply StronglySorted_app_2; [done|by eapply StronglySorted_app_1_l|done].
  - intros e [He|He]%elem_of_app.
    + assert (e ∈ L) as (?&?&?)%HLe by (rewrite HLs; set_solver).
      do 2 (split; [done|]). exists d. by split; [left|].
    + destruct (Hl2 e He) as (He1 & He2 & d' & Hd' & He3). split; [done|].
      split; [by eapply after_cursor_trans|]. exists d'. split; [by right|done].
  - intros e d' [= <-] He1 He2 He3. assert (e ∈ L) as HeL by (by apply HLe).
    rewrite HLs in HeL. apply elem_of_app in HeL as [He|He]; apply elem_of_app; [by left|right].
    destruct ds as [|d2 ds2]; [done|]. apply (Hl3 e d2); [done| |done|].
    + apply (lookup_weaken _ _ _ _ He1). apply Hsub. left.
    + by apply (StronglySorted_app_1_elem_of _ _ _ _ _ HL).
Qed.

(** Going on after a row leaves fewer rows. *)
Lemma results_shrink q t c :
  c ∈ results q t -> (length (results (StoreQuery.with_cursor q c.1) t) < length (results q t))%nat.
Proof.
  intros Hc. pose proof Hc as (Hrow & Hm & Ha)%elem_of_results.
  assert (cursor_key (StoreQuery.with_cursor q c.1) t = Some (row_sort_time c.2, c.1)) as Hk
    by (unfold cursor_key; cbn; by rewrite Hrow).
  assert (results (StoreQuery.with_cursor q c.1) t =
    filter (fun e => after_cursor (StoreQuery.forward q) (Some (row_sort_time c.2, c.1)) e = true)
      (results q t)) as ->.
  { unfold results. rewrite Hk, list_filter_filter. cbn [StoreQuery.with_cursor StoreQuery.forward].
    apply filter_ext. intros e _. unfold selected. cbn [StoreQuery.with_cursor StoreQuery.forward].
    change (matches (StoreQuery.with_cursor q c.1) e) with (matches q e). rewrite !andb_true_iff.
    split; [|tauto]. intros [He Hce]. split_and!; try done. by eapply after_cursor_trans. }
  apply (length_filter_lt _ _ c Hc). intros Hcc. by apply dir_lt_le_ne in Hcc as [_ ?].
Qed.

Lemma fetch_from_total (ds : list SqliteStore) (q : StoreQuery.t) (K : option (Z * bytes)) (t : table) :
  growing ds -> page_size_ok q -> Forall (fun d => rows d ⊆ t) ds ->
  (forall d, d ∈ ds -> cursor_key q (rows d) = K) -> cursor_key q t = K ->
  (length (results q t) < length ds)%nat -> is_Some (fetch_from q ds).
Proof.
  revert q K. induction ds as [|d ds IH]; intros q K [Hok Hs] Hp Ht HK HKt Hlen; [cbn in Hlen; lia|].
  apply list.Forall_cons in Hok as [[Hd Hh] Hok]. apply StronglySorted_inv in Hs as [Hs Hsub].
  rewrite list.Forall_forall in Hsub. apply list.Forall_cons in Ht as [Hdt Ht].
  cbn [fetch_from]. rewrite query_page by done. cbn [next_cursor messages].
  destruct (page_cases q (results q (rows d))) as [[-> _]|(c & Hl & -> & _)]; [done|].
  apply last_Some_elem_of, elem_of_take in Hl as (i & Hc%list_elem_of_lookup_2 & _).
  pose proof Hc as (Hrow & Hm & Ha)%elem_of_results. rewrite (HK d) in Ha by left.
  pose proof (lookup_weaken _ _ _ _ Hrow Hdt) as Hrowt.
  assert (c ∈ results q t) as Hct by (apply elem_of_results; by rewrite HKt).
  apply results_shrink in Hct.
  destruct (IH (StoreQuery.with_cursor q c.1) (Some (row_sort_time c.2, c.1))) as [more ->]; try done.
  - intros d' Hd'. unfold cursor_key; cbn. by rewrite (lookup_weaken _ _ _ _ Hrow (Hsub d' Hd')).
  - unfold cursor_key; cbn. by rewrite Hrowt.
  - cbn in Hlen. lia.
Qed.

Lemma growing_last ds d : growing ds -> list.last ds = Some d -> Forall (fun d' => rows d' ⊆ rows d) ds.
Proof.
  intros [_ Hs] [ds' ->]%last_snoc_inv. apply StronglySorted_app in Hs as (Hx & _ & _).
  apply Forall_app. split; [|by repeat constructor]. apply list.Forall_forall. intros d' Hd'.
  apply Hx; [done|left].
Qed.

(** C3. Keyset pagination survives concurrent inserts: when messages are only added
    to the store between the page requests and the database does not fail, a client that
    follows the cursors with a served page size ([page_size_ok]: not [u64::MAX], nor
    [i64::MAX] in a build with overflow checks) comes to an end once it may ask for more
    pages than the store has messages by then; and it has then received, strictly in order
    and hence without duplicates, every matching message that was stored when it began,
    and only stored matching messages. *)
Theorem paging_survives_puts (q : StoreQuery.t) (d : SqliteStore) (ds : list SqliteStore) :
  growing (d :: ds) -> page_size_ok q -> StoreQuery.cursor q = None ->
  (forall d', list.last (d :: ds) = Some d' -> (size (rows d') < length (d :: ds))%nat ->
     is_Some (fetch_from q (d :: ds))) /\
  forall msgs, fetch_from q (d :: ds) = Some msgs ->
  exists l, msgs = stored q <$> l /\
    StronglySorted (fun e e' => dir_le (StoreQuery.forward q) e e' /\ e <> e') l /\
    (forall h r, rows d !! h = Some r -> matches q (h, r) = true -> (h, r) ∈ l) /\
    (forall h r, (h, r) ∈ l -> matches q (h, r) = true /\
       exists d', d' ∈ d :: ds /\ rows d' !! h = Some r).
Proof.
  intros Hg Hp Hc. assert (forall t, cursor_key q t = None) as Hk
    by (intros t; unfold cursor_key; by rewrite Hc).
  split.
  { intros d' Hl Hlen. apply (fetch_from_total _ q None (rows d')); [done|done|by apply growing_last|done..|].
    rewrite results_no_cursor by done. pose proof (length_all_matches q (rows d')). lia. }
  intros msgs Hf. destruct (fetch_from_spec (d :: ds) q None msgs) as (l & -> & Hs & H1 & H2); [done..|].
  exists l. split; [done|]. split; [|split].
  - eapply StronglySorted_weaken; [|exact Hs]. intros e e'. apply dir_lt_le_ne.
  - intros h r Hl Hm. by apply (H2 (h, r) d).
  - intros h r (Hm & _ & Hd)%H1. eauto.
Qed.

End Growing.

(** ** A concrete store *)

Definition demo_message (n : Z) : WakuMessage := {|
  payload := [byte_of n]; content_topic := "/a/1/b/p"; version := Some 2;
  timestamp := Some (100 + n); meta := None; rate_limit_proof := None; ephemeral := Some false;
|}.

Definition demo_put (n : Z) (t : table) : table :=
  insert_or_ignore (@deterministic_hash toy_sha256 "/waku/2/rs/1/0" (demo_message n))
    (row_of "/waku/2/rs/1/0" (demo_message n) 7) t.

Definition demo_store : SqliteStore := mkSqliteStore (demo_put 3 (demo_put 1 (demo_put 2 ∅))) [].

Definition demo_query : StoreQuery.t :=
  StoreQuery.with_page_size (StoreQuery.with_content_topic StoreQuery.new "/a/1/b/p") 2.

Lemma demo_message_wf n : in_i64 (100 + n) -> wf_message (demo_message n).
Proof. intros Hn. split; cbn; [intros v [= <-]; unfold in_u; lia|by intros t [= <-]]. Qed.

Lemma demo_store_inv : @store_inv toy_sha256 (rows demo_store).
Proof.
  repeat (apply store_inv_put; [by apply demo_message_wf|]).
  intros h r. by rewrite lookup_empty.
Qed.

Lemma demo_hashes_ok : hashes_ok (rows demo_store).
Proof. apply (@store_inv_hashes_ok toy_sha256), demo_store_inv. Qed.

Lemma demo_query_ok `{BuildProfile} : page_size_ok demo_query.
Proof. split; cbn; lia. Qed.

(** The same query with the largest page size. *)
Definition huge_query : StoreQuery.t := StoreQuery.with_page_size demo_query (2 ^ 64 - 1).

Lemma query_returns_page_witness :
  (exists page (rest : list entry), @query true demo_query demo_store =
    Some (Ok {| messages := stored demo_query <$> page;
      next_cursor := if decide (rest = [] /\ 2 < 2 ^ 63) then None else fst <$> list.last page |},
      demo_store)) /\
  @query true huge_query demo_store = Some (Ok {| messages := []; next_cursor := None |}, demo_store).
Proof.
  split.
  - destruct (@query_returns_page true demo_query demo_store eq_refl demo_hashes_ok
      ltac:(unfold in_u; cbn; lia)) as [[E _]|[[E _]|(_ & page & rest & E & _)]]; [discriminate E..|].
    exists page, rest. exact E.
  - destruct (@query_returns_page true huge_query demo_store eq_refl demo_hashes_ok
      ltac:(unfold in_u; cbn; lia)) as [[_ E]|[[E _]|([[_ E] _] & _)]]; [exact E|discriminate E|].
    cbn in E. lia.
Defined.

Lemma paging_complete_witness :
  (exists l, @fetch_all true 4 demo_query demo_store = Some (stored demo_query <$> l, demo_store)) /\
  @fetch_all true 4 huge_query demo_store = Some ([], demo_store).
Proof.
  split.
  - destruct (proj1 (@paging_complete true demo_query demo_store eq_refl demo_hashes_ok eq_refl)
      demo_query_ok) as (l & E & _).
    exists l. exact E.
  - exact (proj1 (proj2 (@paging_complete true huge_query demo_store eq_refl demo_hashes_ok eq_refl))
      eq_refl).
Defined.

Lemma lost_cursor_restarts_witness :
  @query true (StoreQuery.with_cursor demo_query [x00]) demo_store =
  @query true demo_query demo_store.
Proof. by apply (@lost_cursor_restarts true demo_query [x00] demo_store). Defined.

Lemma put_then_get_witness :
  exists d', @put toy_sha256 "/waku/2/rs/1/0" (demo_message 4) 9 demo_store = Some (Ok tt, d') /\
    get (@deterministic_hash toy_sha256 "/waku/2/rs/1/0" (demo_message 4)) d' =
      Some (Ok (Some (demo_message 4)), d').
Proof.
  destruct (proj1 (@put_then_get toy_sha256 "/waku/2/rs/1/0" (demo_message 4) 9 demo_store
    ltac:(by apply demo_message_wf)) eq_refl) as (d' & E & Hnew & _).
  exists d'. split; [exact E|]. apply Hnew. vm_compute. reflexivity.
Defined.

(** A store that has gone through three puts, the second of which failed on a full disk,
    and a retention run that deleted the first message: one row is left. *)
Definition demo_life : SqliteStore := mkSqliteStore (demo_put 3 ∅) [].

Lemma demo_life_reachable : @reachable toy_sha256 demo_life.
Proof.
  exists [None; Some "disk full"].
  eapply rtc_l; [apply (@step_put toy_sha256 "/waku/2/rs/1/0" (demo_message 1) 7 (Ok tt));
    [by apply demo_message_wf|reflexivity]|].
  eapply rtc_l; [apply (@step_put toy_sha256 "/waku/2/rs/1/0" (demo_message 2) 7 (Err (Db "disk full")));
    [by apply demo_message_wf|reflexivity]|].
  eapply rtc_l; [apply (@step_put toy_sha256 "/waku/2/rs/1/0" (demo_message 3) 7 (Ok tt));
    [by apply demo_message_wf|reflexivity]|].
  eapply rtc_l; [|apply rtc_refl]. apply (step_delete 102 (Ok 1)). vm_compute. reflexivity.
Qed.

Lemma reachable_store_sound_witness :
  let h := @deterministic_hash toy_sha256 "/waku/2/rs/1/0" (demo_message 3) in
  size (rows demo_life) = 1%nat /\
  get h demo_life = Some (Ok (Some (demo_message 3)), demo_life) /\
  (wf_message (demo_message 3) /\ exists topic, h = @deterministic_hash toy_sha256 topic (demo_message 3)) /\
  forall q e d', @query true q demo_life <> Some (Err (Corrupt e), d').
Proof.
  intros h. split; [vm_compute; reflexivity|].
  assert (get h demo_life = Some (Ok (Some (demo_message 3)), demo_life)) as E
    by (vm_compute; reflexivity).
  split; [exact E|].
  destruct (@reachable_store_sound toy_sha256 true demo_life demo_life_reachable) as [Hget Hq].
  split; [exact (Hget h (demo_message 3) demo_life E)|exact Hq].
Defined.

Lemma delete_older_than_exact_witness :
  exists n d', delete_older_than 102 demo_store = Some (Ok n, d') /\ 0 <= n.
Proof.
  destruct (delete_older_than_exact 102 demo_store eq_refl) as (n & d' & E & _ & _ & Hn & _).
  exists n, d'. split; [exact E|exact Hn].
Defined.

Lemma enforce_capacity_keeps_newest_witness :
  exists n d', enforce_capacity 2 demo_store = Some (Ok n, d') /\ size (rows d') = 2%nat.
Proof.
  destruct (enforce_capacity_keeps_newest 2 demo_store eq_refl ltac:(lia))
    as (n & d' & E & _ & _ & Hs & _).
  exists n, d'. split; [exact E|]. rewrite Hs. vm_compute. reflexivity.
Defined.

Lemma enforce_capacity_huge_wipes_witness :
  enforce_capacity (2 ^ 63) demo_store = Some (Ok 3, mkSqliteStore ∅ []).
Proof.
  rewrite (enforce_capacity_huge_wipes (2 ^ 63) demo_store); [|reflexivity|lia].
  vm_compute. reflexivity.
Defined.

Lemma exists_exact_witness : message_count demo_store = Some (Ok 3, demo_store).
Proof.
  apply (exists_exact [] demo_store eq_refl demo_hashes_ok). vm_compute. reflexivity.
Defined.

Lemma paging_survives_puts_witness :
  exists l, @fetch_from true demo_query
      [mkSqliteStore (demo_put 2 ∅) []; demo_store; demo_store; demo_store] =
    Some (stored demo_query <$> l).
Proof.
  destruct (@paging_survives_puts true demo_query (mkSqliteStore (demo_put 2 ∅) [])
    [demo_store; demo_store; demo_store]) as [Htotal Hall].
  - assert (rows (mkSqliteStore (demo_put 2 ∅) []) ⊆ rows demo_store) as Hsub
      by (cbn; etrans; apply insert_or_ignore_subseteq).
    split; [|by repeat constructor].
    assert (hashes_ok (demo_put 2 ∅)) as Hh.
    { apply (@store_inv_hashes_ok toy_sha256), store_inv_put; [by apply demo_message_wf|].
      intros h r. by rewrite lookup_empty. }
    repeat constructor; [exact Hh|exact demo_hashes_ok..].
  - exact demo_query_ok.
  - reflexivity.
  - destruct (Htotal demo_store eq_refl) as [msgs Em]; [vm_compute; lia|].
    destruct (Hall msgs Em) as (l & El & _). exists l. rewrite <- El. exact Em.
Defined.
