(* ===== verification/Faults.v ===== *)
(** * Faults: the store when the database fails

    Any statement the SQLite backend executes may fail.  [transparent] says what that may
    do to an operation of [Store]: it fails with the error of the database, and has then
    written nothing, or it is carried out as it would be without faults.  Every operation
    has this property, and the clients that page through a store use it to ask again. *)

From Stdlib Require Import Strings.Byte.
From stdpp Require Import base gmap strings list numbers sorting.
From S2P Require Import Prelude Bytes Text Core Store.

Open Scope Z_scope.

(** The same database, with no statement left that will fail. *)
Definition healed (d : SqliteStore) : SqliteStore := mkSqliteStore (rows d) [].

Lemma healed_healthy d : healthy d -> healed d = d.
Proof. unfold healed, healthy. destruct d as [t fs]; cbn. by intros ->. Qed.

(** Up to the statement that failed with [e]. *)
Definition failed_with (e : string) (d d' : SqliteStore) : Prop :=
  rows d' = rows d /\ exists used, faults d = used ++ Some e :: faults d'.

Definition transparent {A} (m : db A) : Prop := forall d,
  (exists e d', m d = Some (Err (Db e), d') /\ failed_with e d d') \/
  match m (healed d) with
  | None => m d = None
  | Some (res, h) => healthy h /\
      exists d', m d = Some (res, d') /\ rows d' = rows h /\ exists used, faults d = used ++ faults d'
  end.

(** An operation that does not write. *)
Definition reads {A} (m : db A) : Prop :=
  forall d res d', m d = Some (res, d') -> rows d' = rows d.

Lemma transparent_statement {A} (f : table -> A * table) : transparent (statement f).
Proof.
  intros d. rewrite (statement_healthy f (healed d)) by done. unfold statement.
  destruct (faults d) as [|[e|] fs] eqn:E; destruct (f (rows d)) as [a t] eqn:Ef; cbn.
  - right. split; [done|]. eexists. rewrite Ef. split; [done|]. split; [done|]. by exists [].
  - left. do 2 eexists. split; [done|]. split; [done|]. rewrite E. by exists [].
  - right. split; [done|]. eexists. rewrite Ef. split; [done|]. split; [done|]. by exists [None].
Qed.

Lemma transparent_ret {A} (a : A) : transparent (mret a).
Proof. intros d. right. split; [done|]. exists d. split; [done|]. split; [done|]. by exists []. Qed.

Lemma transparent_lift_result {A} (r : result StoreError A) : transparent (lift_result r).
Proof. intros d. right. split; [done|]. exists d. split; [done|]. split; [done|]. by exists []. Qed.

Lemma transparent_lift_panic {A} (o : option A) : transparent (lift_panic o).
Proof.
  intros d. right. destruct o as [a|]; cbn; [|done]. split; [done|].
  exists d. split; [done|]. split; [done|]. by exists [].
Qed.

Lemma transparent_bind {A B} (m : db A) (k : A -> db B) :
  transparent m -> reads m -> (forall a, transparent (k a)) -> transparent (m ≫= k).
Proof.
  intros Hm Hr Hk d. unfold mbind, action_bind.
  destruct (Hm d) as [(e & d1 & E & Hf)|H1]; [left; rewrite E; by eauto|].
  destruct (m (healed d)) as [[res h]|] eqn:Eh; [|right; by rewrite H1].
  destruct H1 as (Hh & d1 & E1 & Hrows & used & Hu). rewrite E1.
  destruct res as [a|err]; [|right; by eauto 8].
  assert (h = healed d1) as -> by (rewrite <- (healed_healthy h Hh); unfold healed; by rewrite Hrows).
  destruct (Hk a d1) as [(e & d2 & E2 & Hd & used2 & Hu2)|H2].
  - left. exists e, d2. split; [done|]. split; [by rewrite Hd, (Hr _ _ _ E1)|].
    exists (used ++ used2). by rewrite Hu, Hu2, app_assoc.
  - right. destruct (k a (healed d1)) as [[res h]|]; [|done].
    destruct H2 as (Hh2 & d2 & E2 & Hd & used2 & Hu2). split; [done|]. exists d2.
    split; [done|]. split; [done|]. exists (used ++ used2). by rewrite Hu, Hu2, app_assoc.
Qed.

Lemma reads_select {A} (f : table -> A) : reads (select f).
Proof. intros d res d'. destruct (select_cases f d) as (d1 & E & [->|[e ->]]); by intros [= _ <-]. Qed.

Lemma reads_ret {A} (a : A) : reads (mret a).
Proof. by intros d res d' [= _ <-]. Qed.

Lemma reads_lift_panic {A} (o : option A) : reads (lift_panic o).
Proof. intros d res d'. destruct o; by intros [= _ <-]. Qed.

Lemma reads_lift_result {A} (r : result StoreError A) : reads (lift_result r).
Proof. by intros d res d' [= _ <-]. Qed.

Lemma reads_bind {A B} (m : db A) (k : A -> db B) : reads m -> (forall a, reads (k a)) -> reads (m ≫= k).
Proof.
  intros Hm Hk d res d'. unfold mbind, action_bind. destruct (m d) as [[[a|e] d1]|] eqn:E; [| |done].
  - intros E2. by rewrite (Hk _ _ _ _ E2), (Hm _ _ _ E).
  - intros [= _ <-]. by eapply Hm.
Qed.

#[export] Hint Resolve transparent_statement transparent_ret transparent_lift_result
  transparent_lift_panic transparent_bind reads_select reads_ret reads_lift_panic
  reads_lift_result reads_bind : waku.

Lemma reads_resolve_cursor q : reads (resolve_cursor q).
Proof.
  unfold resolve_cursor. destruct (StoreQuery.cursor q); [|auto with waku].
  apply reads_bind; [|auto with waku]. intros d res d'. rewrite cursor_sort_time_select.
  apply reads_select.
Qed.

Lemma transparent_resolve_cursor q : transparent (resolve_cursor q).
Proof.
  unfold resolve_cursor. destruct (StoreQuery.cursor q) as [c|]; [|auto with waku].
  apply transparent_bind; [| |auto with waku].
  - intros d. rewrite !cursor_sort_time_select. apply transparent_statement.
  - intros d res d'. rewrite cursor_sort_time_select. apply reads_select.
Qed.

Lemma transparent_query `{BuildProfile} q : transparent (query q).
Proof.
  unfold query. apply transparent_bind; [apply transparent_resolve_cursor|apply reads_resolve_cursor|].
  intros key. apply transparent_bind; [auto with waku..|]. intros n.
  apply transparent_bind; [apply transparent_statement|apply reads_select|]. auto with waku.
Qed.

(** C21. A database error costs an operation of the store nothing but its answer: each of
    them, whatever statement fails, either returns the error of the database and leaves
    the table as it was, or answers and writes what it would on a database without faults. *)
Theorem store_fails_cleanly `{Sha256, BuildProfile} :
  transparent migrate /\
  (forall topic m rt, transparent (put topic m rt)) /\
  (forall h, transparent (get h)) /\
  (forall q, transparent (query q)) /\
  (forall hashes, transparent (exists_ hashes)) /\
  transparent message_count /\
  (forall cutoff, transparent (delete_older_than cutoff)) /\
  (forall max, transparent (enforce_capacity max)).
Proof.
  split_and!; intros; try apply transparent_statement.
  5: { intros d. unfold message_count. rewrite !count_select. apply transparent_statement. }
  - unfold migrate. apply transparent_bind; auto with waku. apply (reads_select (fun _ => tt)).
  - unfold get. apply transparent_bind; auto with waku. apply transparent_statement.
  - apply transparent_query.
  - unfold exists_. case_bool_decide; auto with waku. apply transparent_bind; auto with waku.
    apply transparent_statement.
Qed.

(** ** Paging through a store that fails *)

Section Paging.
Context `{BuildProfile}.

(** The page a client gets at the place it asks on, and the error it may get instead. *)
Lemma query_rest_faulty q q' d l1 l2 :
  hashes_ok (rows d) -> page_size_ok q ->
  all_matches q (rows d) = l1 ++ l2 -> resumes q q' (rows d) l1 ->
  exists res d', query q' d = Some (res, d') /\ rows d' = rows d /\
    ((exists e, res = Err (Db e) /\ Some e ∈ faults d /\ (length (faults d') < length (faults d))%nat) \/
     res = Ok {| messages := stored q <$> take (page_len q) l2; next_cursor := next_of q l2 |}) /\
    exists used, faults d = used ++ faults d'.
Proof.
  intros Ht Hp E Hr.
  destruct (transparent_query q' d) as [(e & d' & Eq & Hd & used & Hu)|Hq].
  - exists (Err (Db e)), d'. split; [done|]. split; [done|]. split.
    + left. exists e. rewrite Hu. split; [done|]. split.
      * apply elem_of_app. right. left.
      * rewrite length_app. cbn. lia.
    + exists (used ++ [Some e]). by rewrite <- app_assoc.
  - destruct (query_rest q q' (healed d) l1 l2) as [Eh _]; [done..|]. rewrite Eh in Hq.
    destruct Hq as (_ & d' & Eq & Hd & Hu). eexists _, d'. split; [done|]. split; [done|].
    split; [by right|done].
Qed.

End Paging.
