(* ===== verification/StoreServe.v ===== *)
(** * StoreServe: the store interface and the store-query service

    The trait [MessageStore] of [waku-store/src/lib.rs] as a type class, the
    contract its implementations owe their clients, the proof that SQLite honours
    it, and the service of [store_query.rs], whose theorems are proved against the
    interface. *)

From Stdlib Require Import Strings.Byte.
From stdpp Require Import base gmap strings list numbers.
From S2P Require Import Prelude Bytes Text Core Framing Wire Store.

Open Scope Z_scope.

(** ** The trait *)

(** [trait MessageStore]: the operations on a backend state.  [None] is a panic. *)
Class MessageStore (St : Type) := {
  ms_put : string -> WakuMessage -> Z -> St -> option (result StoreError () * St);
  ms_get : bytes -> St -> option (result StoreError (option WakuMessage) * St);
  ms_query : StoreQuery.t -> St -> option (result StoreError QueryResult * St);
  ms_exists : list bytes -> St -> option (result StoreError (list bytes) * St);
  ms_message_count : St -> option (result StoreError Z * St);
}.

(** What a client may rely on: seen from outside a store is a map from hashes to
    messages.  A successful [put] adds the message under its hash unless the hash is
    taken, a failed one changes nothing; reads do not write, and return what is in
    the map. *)
Class MessageStoreLaws (St : Type) `{Sha256, MessageStore St} := {
  contents : St -> gmap bytes WakuMessage;
  (* the stores a program can be handed *)
  valid : St -> Prop;
  law_put : forall topic m rt s res s',
    valid s -> wf_message m -> ms_put topic m rt s = Some (res, s') ->
    valid s' /\
    contents s' = match res with
      | Ok _ => match contents s !! deterministic_hash topic m with
                | Some _ => contents s
                | None => <[deterministic_hash topic m := m]> (contents s)
                end
      | Err _ => contents s
      end;
  law_get : forall h s res s',
    valid s -> ms_get h s = Some (res, s') ->
    valid s' /\ contents s' = contents s /\ forall o, res = Ok o -> o = contents s !! h;
  law_query : forall q s res s',
    valid s -> ms_query q s = Some (res, s') ->
    valid s' /\ contents s' = contents s /\
    forall page, res = Ok page -> Forall (fun sm =>
      exists m, contents s !! stored_hash sm = Some m /\
        stored_message sm = (if StoreQuery.include_data q then Some m else None) /\
        (StoreQuery.message_hashes q <> [] -> stored_hash sm ∈ StoreQuery.message_hashes q) /\
        (StoreQuery.content_topics q <> [] -> content_topic m ∈ StoreQuery.content_topics q) /\
        (forall pt, StoreQuery.pubsub_topic q = Some pt -> stored_pubsub_topic sm = pt))
      (messages page);
  law_exists : forall hs s res s',
    valid s -> ms_exists hs s = Some (res, s') ->
    valid s' /\ contents s' = contents s /\
    forall l, res = Ok l -> forall h, h ∈ l <-> h ∈ hs /\ is_Some (contents s !! h);
}.

(** ** [store_query.rs] *)

(** [<[u8; 32]>::try_from(slice).ok()]. *)
Definition hash_of_slice (h : bytes) : option bytes :=
  if decide (length h = 32%nat) then Some h else None.

(** [request_to_query]. *)
Definition request_to_query (req : StoreWire.StoreQueryRequest) : StoreQuery.t := {|
  StoreQuery.pubsub_topic := StoreWire.pubsub_topic req;
  StoreQuery.content_topics := StoreWire.content_topics req;
  StoreQuery.time_start_ns := StoreWire.time_start req;
  StoreQuery.time_end_ns := StoreWire.time_end req;
  StoreQuery.message_hashes := omap hash_of_slice (StoreWire.message_hashes req);
  StoreQuery.include_data := StoreWire.include_data req;
  StoreQuery.page_size := default 20 (StoreWire.pagination_limit req);
  StoreQuery.forward := StoreWire.pagination_forward req;
  StoreQuery.cursor := StoreWire.req_pagination_cursor req ≫= hash_of_slice;
|}.

(** [impl Display for StoreError]. *)
Definition store_error_to_string (e : StoreError) : string :=
  match e with
  | Db e => "database error: " +:+ e
  | Corrupt e => "corrupt stored row: " +:+ e
  end.

Section Serve.
Context {St : Type} `{MessageStore St}.

(** The three answers of the service. *)
Definition respond (request_id : string) (code : Z) (desc : string) : StoreWire.StoreQueryResponse := {|
  StoreWire.res_request_id := request_id;
  StoreWire.status_code := Some code;
  StoreWire.status_desc := Some desc;
  StoreWire.messages := [];
  StoreWire.pagination_cursor := None;
|}.

Definition key_value (m : StoredMessage) : StoreWire.WakuMessageKeyValue := {|
  StoreWire.message_hash := Some (stored_hash m);
  StoreWire.message := stored_message m;
  StoreWire.kv_pubsub_topic := Some (stored_pubsub_topic m);
|}.

(** [serve]. *)
Definition serve (store : St) (req : StoreWire.StoreQueryRequest)
    : option (StoreWire.StoreQueryResponse * St) :=
  '(res, store) ← ms_query (request_to_query req) store;
  Some (match res with
        | Ok result => {|
            StoreWire.res_request_id := StoreWire.req_request_id req;
            StoreWire.status_code := Some 200;
            StoreWire.status_desc := Some "OK";
            StoreWire.messages := key_value <$> messages result;
            StoreWire.pagination_cursor := next_cursor result;
          |}
        | Err e => respond (StoreWire.req_request_id req) 500 (store_error_to_string e)
        end, store).

(** What a response may carry: the hash of a stored message, with the message exactly
    when data was asked for, among the hashes and content topics asked for. *)
Definition kv_sound (known : gmap bytes WakuMessage) (req : StoreWire.StoreQueryRequest)
    (kv : StoreWire.WakuMessageKeyValue) : Prop :=
  exists h m, StoreWire.message_hash kv = Some h /\ known !! h = Some m /\
    StoreWire.message kv = (if StoreWire.include_data req then Some m else None) /\
    ((exists h', h' ∈ StoreWire.message_hashes req /\ length h' = 32%nat) ->
       h ∈ StoreWire.message_hashes req) /\
    (StoreWire.content_topics req <> [] -> content_topic m ∈ StoreWire.content_topics req).

Lemma elem_of_hash_slices (h : bytes) (hs : list bytes) : h ∈ omap hash_of_slice hs <-> h ∈ hs /\ length h = 32%nat.
Proof.
  rewrite list_elem_of_omap. unfold hash_of_slice. split.
  - intros (h' & Hin & E). case_decide; [|done]. by injection E as <-.
  - intros [Hin Hl]. exists h. by rewrite decide_True.
Qed.

(** The store service is sound for every backend that honours the contract: it
    echoes the request id, answers 200 or 500, leaves the stored messages as they
    were, and returns only stored messages under their own hashes, restricted to the
    requested hashes and content topics; an error answer carries no message. *)
Theorem serve_sound `{Sha256, !MessageStoreLaws St} (s s' : St)
    (req : StoreWire.StoreQueryRequest) (resp : StoreWire.StoreQueryResponse) :
  valid s -> serve s req = Some (resp, s') ->
  valid s' /\ contents s' = contents s /\
  StoreWire.res_request_id resp = StoreWire.req_request_id req /\
  (StoreWire.status_code resp = Some 200 \/
   StoreWire.status_code resp = Some 500 /\ StoreWire.messages resp = []) /\
  Forall (kv_sound (contents s) req) (StoreWire.messages resp).
Proof.
  intros Hv. unfold serve. destruct (ms_query _ s) as [[res s1]|] eqn:E; [|done].
  apply law_query in E as (Hv' & Hc & Hp); [|done]. cbn. intros [= <- <-].
  split; [done|]. split; [done|].
  destruct res as [page|e]; cbn; [|split; [done|split; [by right|constructor]]].
  split; [done|]. split; [by left|]. apply Forall_fmap. specialize (Hp page eq_refl).
  eapply list.Forall_impl; [exact Hp|]. intros sm (m & Hl & Hm & Hh & Ht & _).
  exists (stored_hash sm), m. split; [done|]. split; [done|]. split; [done|]. split; [|done].
  intros (h' & Hh' & Hlen). eapply elem_of_hash_slices, Hh.
  intros E. apply (not_elem_of_nil h'). rewrite <- E. by apply elem_of_hash_slices.
Qed.

(** Malformed inputs are dropped, not refused: a request that asks for hashes
    none of which has 32 bytes is answered as if it asked for every message, and a
    pagination cursor of another length as if it had none. *)
Theorem serve_drops_malformed (s : St) (id : string) (data fwd : bool) (pt : option string)
    (cts : list string) (t0 t1 : option Z) (hs : list bytes) (cur : bytes) (lim : option Z) :
  Forall (fun h => length h <> 32%nat) hs -> length cur <> 32%nat ->
  serve s (StoreWire.mkStoreQueryRequest id data pt cts t0 t1 hs (Some cur) fwd lim) =
  serve s (StoreWire.mkStoreQueryRequest id data pt cts t0 t1 [] None fwd lim).
Proof.
  intros Hhs Hcur. unfold serve, request_to_query. cbn.
  assert (omap hash_of_slice hs = []) as ->.
  { apply elem_of_nil_inv. intros h [Hin Hl]%elem_of_hash_slices.
    by apply (proj1 (list.Forall_forall _ _) Hhs) in Hin. }
  assert (hash_of_slice cur = None) as ->; [|done].
  unfold hash_of_slice. by rewrite decide_False.
Qed.

End Serve.

(** ** SQLite honours the contract *)

#[export] Instance sqlite_store `{Sha256, BuildProfile} : MessageStore SqliteStore := {|
  ms_put := put; ms_get := get; ms_query := query; ms_exists := exists_;
  ms_message_count := message_count;
|}.

Section SqliteLaws.
Context `{Sha256, BuildProfile}.

Definition sqlite_contents (d : SqliteStore) : gmap bytes WakuMessage := row_to_message <$> rows d.
Definition sqlite_valid (d : SqliteStore) : Prop := store_inv (rows d).

Lemma sqlite_law_put topic m rt d res d' :
  sqlite_valid d -> wf_message m -> put topic m rt d = Some (res, d') ->
  sqlite_valid d' /\
  sqlite_contents d' = match res with
    | Ok _ => match sqlite_contents d !! deterministic_hash topic m with
              | Some _ => sqlite_contents d
              | None => <[deterministic_hash topic m := m]> (sqlite_contents d)
              end
    | Err _ => sqlite_contents d
    end.
Proof.
  intros Hd Hm E. split.
  { eapply store_step_inv; [by eapply step_put|done]. }
  revert E. unfold put, statement, sqlite_contents.
  destruct (faults d) as [|[e|] fs]; intros [= <- <-]; cbn; try done;
    unfold insert_or_ignore; rewrite lookup_fmap;
    destruct (rows d !! deterministic_hash topic m); cbn; try done;
    by rewrite fmap_insert, row_to_message_of.
Qed.

Lemma matches_content q e :
  matches q e = true ->
  (StoreQuery.message_hashes q <> [] -> e.1 ∈ StoreQuery.message_hashes q) /\
  (StoreQuery.content_topics q <> [] -> row_content_topic e.2 ∈ StoreQuery.content_topics q) /\
  (forall pt, StoreQuery.pubsub_topic q = Some pt -> row_pubsub_topic e.2 = pt).
Proof.
  unfold matches. rewrite !andb_true_iff, !orb_true_iff, !bool_decide_eq_true.
  intros [[[[Hp Hc] Hh] _] _]. split; [tauto|]. split; [tauto|].
  intros pt Ept. rewrite Ept in Hp. by apply bool_decide_eq_true in Hp.
Qed.

Lemma sqlite_law_query q d res d' :
  sqlite_valid d -> query q d = Some (res, d') ->
  sqlite_valid d' /\ sqlite_contents d' = sqlite_contents d /\
  forall page, res = Ok page -> Forall (fun sm =>
    exists m, sqlite_contents d !! stored_hash sm = Some m /\
      stored_message sm = (if StoreQuery.include_data q then Some m else None) /\
      (StoreQuery.message_hashes q <> [] -> stored_hash sm ∈ StoreQuery.message_hashes q) /\
      (StoreQuery.content_topics q <> [] -> content_topic m ∈ StoreQuery.content_topics q) /\
      (forall pt, StoreQuery.pubsub_topic q = Some pt -> stored_pubsub_topic sm = pt))
    (messages page).
Proof.
  intros Hd E. apply query_sound in E as [Er Hp]; [|by apply store_inv_hashes_ok].
  unfold sqlite_valid, sqlite_contents. rewrite Er. split; [done|]. split; [done|].
  intros page Ep. destruct (Hp page Ep) as (l & -> & Hl). apply Forall_fmap.
  apply list.Forall_forall. intros e (He & Hm)%Hl. exists (row_to_message e.2).
  change (stored_hash (stored q e)) with e.1. rewrite lookup_fmap, He.
  split; [done|]. split; [done|]. by apply matches_content.
Qed.

Lemma sqlite_law_get h d res d' :
  sqlite_valid d -> get h d = Some (res, d') ->
  sqlite_valid d' /\ sqlite_contents d' = sqlite_contents d /\
  forall o, res = Ok o -> o = sqlite_contents d !! h.
Proof.
  intros Hd. unfold get, mbind, action_bind, sqlite_valid, sqlite_contents. rewrite lookup_fmap.
  destruct (select_cases (fun t => t !! h) d) as (d1 & E1 & [->|[e ->]]); intros [= <- <-];
    rewrite E1; split; [done| |done|done]. split; [done|]. by intros o [= <-].
Qed.

Lemma sqlite_law_exists hs d res d' :
  sqlite_valid d -> exists_ hs d = Some (res, d') ->
  sqlite_valid d' /\ sqlite_contents d' = sqlite_contents d /\
  forall l, res = Ok l -> forall h, h ∈ l <-> h ∈ hs /\ is_Some (sqlite_contents d !! h).
Proof.
  intros Hd. unfold sqlite_valid, sqlite_contents.
  destruct (exists_cases hs d (store_inv_hashes_ok _ Hd))
    as (d1 & l & E1 & _ & Hl & [[-> _]|(e & -> & _)]); intros [= <- <-]; rewrite E1;
    split; [done| |done|done]. split; [done|].
  intros l' [= <-] h. by rewrite Hl, lookup_fmap, fmap_is_Some.
Qed.

#[export] Program Instance sqlite_store_laws : MessageStoreLaws SqliteStore := {|
  contents := sqlite_contents; valid := sqlite_valid;
  law_put := sqlite_law_put; law_get := sqlite_law_get; law_query := sqlite_law_query;
  law_exists := sqlite_law_exists;
|}.

End SqliteLaws.

(** ** End to end *)

Section EndToEnd.
Context `{Sha256, BuildProfile}.

(** A by-hash request for one message. *)
Definition hash_request (id : string) (fwd : bool) (h : bytes) : StoreWire.StoreQueryRequest :=
  StoreWire.mkStoreQueryRequest id true None [] None None [h] None fwd None.

Lemma NoDup_singleton_eq {A} (l : list A) x : NoDup l -> (forall y, y ∈ l <-> y = x) -> l = [x].
Proof.
  intros Hd Hl. destruct l as [|a l]; [by destruct (not_elem_of_nil x); apply Hl|].
  assert (a = x) as -> by (apply Hl; left). f_equal. apply elem_of_nil_inv. intros y Hy.
  assert (y = x) as -> by (apply Hl; by right). by apply list.NoDup_cons in Hd as [? _].
Qed.

Lemma results_by_hash (id : string) (fwd : bool) (t : table) (h : bytes) (r : row) :
  length h = 32%nat -> t !! h = Some r ->
  results (request_to_query (hash_request id fwd h)) t = [(h, r)].
Proof.
  intros Hlen Hr. set (q := request_to_query _).
  assert (StoreQuery.message_hashes q = [h]) as Hq.
  { cbn. unfold hash_of_slice. by rewrite decide_True. }
  apply NoDup_singleton_eq; [eapply NoDup_fmap_1, NoDup_results|].
  intros [h' r']. rewrite elem_of_results. unfold matches. rewrite Hq. cbn.
  rewrite !andb_true_r, bool_decide_eq_true, list_elem_of_singleton. split.
  - intros (Hl & -> & _). congruence.
  - intros [= -> ->]. done.
Qed.

(** Store and serve, end to end: once a new message is put, a by-hash request
    is answered 200 with exactly that message, its hash and its pubsub topic, and no
    cursor. *)
Theorem put_then_served (topic id : string) (fwd : bool) (m : WakuMessage) (rt : Z)
    (d : SqliteStore) :
  healthy d -> store_inv (rows d) -> wf_message m ->
  rows d !! deterministic_hash topic m = None ->
  exists d', put topic m rt d = Some (Ok tt, d') /\
    serve d' (hash_request id fwd (deterministic_hash topic m)) = Some ({|
      StoreWire.res_request_id := id; StoreWire.status_code := Some 200;
      StoreWire.status_desc := Some "OK";
      StoreWire.messages := [{| StoreWire.message_hash := Some (deterministic_hash topic m);
        StoreWire.message := Some m; StoreWire.kv_pubsub_topic := Some topic |}];
      StoreWire.pagination_cursor := None |}, d').
Proof.
  intros Hd Hi Hm Hn. unfold put. rewrite statement_healthy by done. cbn [fst snd].
  rewrite insert_or_ignore_new by done. set (h := deterministic_hash topic m) in *.
  eexists; split; [done|]. set (d' := mkSqliteStore _ _).
  assert (store_inv (rows d')) as Hi'.
  { cbn. rewrite <- insert_or_ignore_new by done. by apply store_inv_put. }
  set (q := request_to_query (hash_request id fwd h)).
  assert (results q (rows d') = [(h, row_of topic m rt)]) as Hq.
  { apply results_by_hash; [apply deterministic_hash_length|apply lookup_insert_eq]. }
  pose proof (query_page q d' eq_refl (store_inv_hashes_ok _ Hi')
    ltac:(split; cbn; lia)) as E.
  rewrite Hq in E. unfold serve. change (ms_query (request_to_query _) d') with (query q d').
  change (page_len q) with 20%nat in E. rewrite E. unfold key_value, stored. cbn -[row_to_message row_of]. by rewrite row_to_message_of.
Qed.

End EndToEnd.

Lemma serve_sound_witness :
  exists resp s', @serve SqliteStore (@sqlite_store toy_sha256 true) demo_store
      (hash_request "q" true []) = Some (resp, s') /\
    StoreWire.res_request_id resp = "q".
Proof.
  do 2 eexists. split; [vm_compute; reflexivity|].
  eapply (@serve_sound SqliteStore (@sqlite_store toy_sha256 true) toy_sha256
    (@sqlite_store_laws toy_sha256 true) demo_store _ (hash_request "q" true [])).
  - apply demo_store_inv.
  - vm_compute. reflexivity.
Defined.

Lemma serve_drops_malformed_witness :
  @serve SqliteStore (@sqlite_store toy_sha256 true) demo_store
    (StoreWire.mkStoreQueryRequest "q" true None [] None None [[x00]] (Some []) true None) =
  @serve SqliteStore (@sqlite_store toy_sha256 true) demo_store
    (StoreWire.mkStoreQueryRequest "q" true None [] None None [] None true None).
Proof.
  apply (@serve_drops_malformed SqliteStore (@sqlite_store toy_sha256 true)); [|done].
  by repeat constructor.
Defined.

Lemma put_then_served_witness :
  exists d', @put toy_sha256 "/waku/2/rs/1/0" (demo_message 9) 5 demo_store = Some (Ok tt, d').
Proof.
  destruct (@put_then_served toy_sha256 true "/waku/2/rs/1/0" "id" true (demo_message 9) 5 demo_store)
    as (d' & E & _).
  - reflexivity.
  - apply demo_store_inv.
  - by apply demo_message_wf.
  - vm_compute. reflexivity.
  - exists d'. exact E.
Defined.
