(* ===== verification/Services.v ===== *)
(** * Services: the node's bookkeeping

    The parts of [waku-node] that keep state of their own and do not touch the
    swarm: the filter registry and the peer book of [runtime.rs], the counters of
    [metrics.rs] and the configuration of [lib.rs]. *)

From Stdlib Require Import Strings.Byte.
From stdpp Require Import base gmap strings list numbers.
From S2P Require Import Prelude Bytes Text Core Framing Wire Net.

Open Scope Z_scope.

(** ** The filter registry *)

Record FilterSub : Type := mkFilterSub {
  sub_pubsub_topic : option string;
  sub_content_topics : list string;
}.

#[export] Instance FilterSub_eq_dec : EqDecision FilterSub.
Proof. solve_decision. Defined.

(** [FilterSub::matches]. *)
Definition sub_matches (s : FilterSub) (topic content_topic : string) : bool :=
  let topic_ok := match sub_pubsub_topic s with
                  | Some t => bool_decide (t = topic)
                  | None => true
                  end in
  let ct_ok := bool_decide (sub_content_topics s = []) ||
    existsb (fun c => bool_decide (c = content_topic)) (sub_content_topics s) in
  topic_ok && ct_ok.

(** [FilterRegistry]. *)
Abbreviation FilterRegistry := (gmap PeerId (list FilterSub)).

(** The filter a request names. *)
Definition sub_of (req : Filter.FilterSubscribeRequest) : FilterSub :=
  mkFilterSub (Filter.pubsub_topic req) (Filter.content_topics req).

(** [apply_filter_request]. *)
Definition apply_filter_request (filters : FilterRegistry) (peer : PeerId)
    (req : Filter.FilterSubscribeRequest) : Filter.FilterSubscribeResponse * FilterRegistry :=
  let kind := Filter.filter_subscribe_type req in
  let id := Filter.req_request_id req in
  if decide (kind = Filter.SUBSCRIBE) then
    (Filter.ok id, <[peer := default [] (filters !! peer) ++ [sub_of req]]> filters)
  else if decide (kind = Filter.UNSUBSCRIBE) then
    (Filter.ok id,
     match filters !! peer with
     | Some subs => <[peer := filter (fun s =>
         sub_pubsub_topic s <> Filter.pubsub_topic req \/
         sub_content_topics s <> Filter.content_topics req) subs]> filters
     | None => filters
     end)
  else if decide (kind = Filter.UNSUBSCRIBE_ALL) then (Filter.ok id, delete peer filters)
  else if decide (kind = Filter.PING) then (Filter.ok id, filters)
  else (Filter.error id 400 "unknown type", filters).

(** The [targets] of [push_filter_matches]. *)
Definition push_targets (filters : FilterRegistry) (topic : string) (msg : WakuMessage)
    : list PeerId :=
  fst <$> filter (fun e : PeerId * list FilterSub =>
    existsb (fun s => sub_matches s topic (content_topic msg)) e.2 = true) (map_to_list filters).

(** The registry after a history of requests, from the empty one. *)
Definition registry_after (history : list (PeerId * Filter.FilterSubscribeRequest))
    : FilterRegistry :=
  foldl (fun fs '(p, r) => (apply_filter_request fs p r).2) ∅ history.

(** The specification of a registry: a filter of a peer is active when the peer
    subscribed it and has since unsubscribed neither it nor everything. *)
Definition cancels (p : PeerId) (sub : FilterSub)
    (r : PeerId * Filter.FilterSubscribeRequest) : Prop :=
  r.1 = p /\
  (Filter.filter_subscribe_type r.2 = Filter.UNSUBSCRIBE_ALL \/
   Filter.filter_subscribe_type r.2 = Filter.UNSUBSCRIBE /\ sub_of r.2 = sub).

Definition subscribes (p : PeerId) (sub : FilterSub)
    (r : PeerId * Filter.FilterSubscribeRequest) : Prop :=
  r.1 = p /\ Filter.filter_subscribe_type r.2 = Filter.SUBSCRIBE /\ sub_of r.2 = sub.

Definition active (p : PeerId) (sub : FilterSub)
    (history : list (PeerId * Filter.FilterSubscribeRequest)) : Prop :=
  exists pre r post, history = pre ++ r :: post /\ subscribes p sub r /\
    Forall (fun r' => ~ cancels p sub r') post.

(** What the filter of a subscription means. *)
Definition wants (sub : FilterSub) (topic ct : string) : Prop :=
  (forall t, sub_pubsub_topic sub = Some t -> t = topic) /\
  (sub_content_topics sub = [] \/ ct ∈ sub_content_topics sub).

Lemma sub_matches_spec s topic ct : sub_matches s topic ct = true <-> wants s topic ct.
Proof.
  unfold sub_matches, wants. rewrite andb_true_iff, orb_true_iff, bool_decide_eq_true.
  rewrite existsb_exists. setoid_rewrite bool_decide_eq_true. setoid_rewrite <- list_elem_of_In.
  assert (forall a b c d : Prop, (a <-> c) -> (b <-> d) -> (a /\ b <-> c /\ d)) as Hand by tauto.
  apply Hand; [|naive_solver].
  destruct (sub_pubsub_topic s); [rewrite bool_decide_eq_true|]; naive_solver.
Qed.

Abbreviation subs_of filters p := (default [] (filters !! p)).

Lemma apply_other filters p p' req :
  p <> p' -> (apply_filter_request filters p req).2 !! p' = filters !! p'.
Proof.
  intros Hne. unfold apply_filter_request. repeat case_decide; cbn; try done;
    repeat case_match; by simplify_map_eq.
Qed.

(** One request, on the filters of the peer that sent it. *)
Lemma elem_of_apply filters p req sub :
  sub ∈ subs_of (apply_filter_request filters p req).2 p <->
  subscribes p sub (p, req) \/ sub ∈ subs_of filters p /\ ~ cancels p sub (p, req).
Proof.
  unfold apply_filter_request, subscribes, cancels, Filter.SUBSCRIBE, Filter.UNSUBSCRIBE,
    Filter.UNSUBSCRIBE_ALL, Filter.PING in *. cbn.
  destruct (decide (Filter.filter_subscribe_type req = 1)) as [E1|N1]; cbn.
  { rewrite lookup_insert_eq. cbn. rewrite elem_of_app, list_elem_of_singleton. naive_solver lia. }
  destruct (decide (Filter.filter_subscribe_type req = 2)) as [E2|N2]; cbn.
  { assert (forall s, sub_pubsub_topic s <> Filter.pubsub_topic req \/
      sub_content_topics s <> Filter.content_topics req <-> sub_of req <> s) as Hs.
    { intros [a b]. unfold sub_of; cbn. split; [intros [?|?] [= ]; congruence|].
      intros Hn. destruct (decide (a = Filter.pubsub_topic req)); [right|by left]. congruence. }
    destruct (filters !! p) as [subs|] eqn:Ep; cbn.
    - rewrite lookup_insert_eq. cbn. rewrite list_elem_of_filter, Hs. naive_solver lia.
    - rewrite Ep. cbn. naive_solver (lia || set_solver). }
  destruct (decide (Filter.filter_subscribe_type req = 3)) as [E3|N3]; cbn.
  { rewrite lookup_delete_eq. cbn. naive_solver (lia || set_solver). }
  case_decide; cbn; naive_solver lia.
Qed.

Lemma active_snoc p sub history r :
  active p sub (history ++ [r]) <->
  subscribes p sub r \/ active p sub history /\ ~ cancels p sub r.
Proof.
  unfold active. split.
  - intros (pre & r' & post & E & Hs & Hc). destruct post as [|x post _] using rev_ind.
    + apply app_inj_tail in E as [_ <-]. by left.
    + rewrite app_comm_cons, app_assoc in E. apply app_inj_tail in E as [-> ->].
      apply Forall_app in Hc as [Hc Hx]. apply list.Forall_cons in Hx as [Hx _].
      right. split; [|done]. by exists pre, r', post.
  - intros [Hs|[(pre & r' & post & -> & Hs & Hc) Hn]].
    + exists history, r, []. split; [done|]. split; [done|constructor].
    + exists pre, r', (post ++ [r]). rewrite <- app_assoc. split; [done|]. split; [done|].
      apply Forall_app. split; [done|]. by constructor.
Qed.

Lemma registry_active history p sub :
  sub ∈ subs_of (registry_after history) p <-> active p sub history.
Proof.
  induction history as [|[p' r] history IH] using rev_ind.
  - unfold registry_after, active. cbn. rewrite lookup_empty. cbn. split; [set_solver|].
    intros ([|? ?] & ? & ? & ? & _); discriminate.
  - rewrite active_snoc, <- IH. unfold registry_after. rewrite foldl_snoc. cbn.
    fold (registry_after history). destruct (decide (p' = p)) as [->|Hne].
    + apply elem_of_apply.
    + rewrite apply_other by done. unfold subscribes, cancels; cbn. naive_solver.
Qed.

Lemma elem_of_push_targets filters topic msg p :
  p ∈ push_targets filters topic msg <->
  exists s, s ∈ subs_of filters p /\ wants s topic (content_topic msg).
Proof.
  unfold push_targets. rewrite list_elem_of_fmap. setoid_rewrite list_elem_of_filter.
  setoid_rewrite existsb_exists. setoid_rewrite <- list_elem_of_In.
  setoid_rewrite sub_matches_spec. split.
  - intros ([p' subs] & -> & (s & Hs & Hw) & Hin%elem_of_map_to_list). cbn in *.
    rewrite Hin. eauto.
  - intros (s & Hs & Hw). destruct (filters !! p) as [subs|] eqn:E; cbn in Hs; [|set_solver].
    exists (p, subs). split; [done|]. split; [eauto|]. by apply elem_of_map_to_list.
Qed.

Lemma NoDup_push_targets filters topic msg : NoDup (push_targets filters topic msg).
Proof.
  unfold push_targets. eapply sublist_NoDup; [apply (NoDup_fst_map_to_list filters)|].
  apply fmap_sublist, sublist_filter.
Qed.

(** C37. The filter service delivers what was subscribed: after any history of
    subscribe, unsubscribe, unsubscribe-all, ping and unknown requests by any peers, a
    message is pushed to exactly the peers with an active filter that wants its topic
    and content topic, to each of them once. *)
Theorem filter_pushes_exact (history : list (PeerId * Filter.FilterSubscribeRequest))
    (topic : string) (msg : WakuMessage) :
  NoDup (push_targets (registry_after history) topic msg) /\
  forall p, p ∈ push_targets (registry_after history) topic msg <->
    exists sub, active p sub history /\ wants sub topic (content_topic msg).
Proof.
  split; [apply NoDup_push_targets|]. intros p. rewrite elem_of_push_targets.
  by setoid_rewrite registry_active.
Qed.

(** Every filter request is acknowledged under its own id, 200 for the four known
    types and 400 for any other, and only the filters of the sender can change: not at
    all on a ping or an unknown type. *)
Theorem filter_request_ack (filters : FilterRegistry) (p : PeerId)
    (req : Filter.FilterSubscribeRequest) :
  let '(ack, filters') := apply_filter_request filters p req in
  let kind := Filter.filter_subscribe_type req in
  Filter.res_request_id ack = Filter.req_request_id req /\
  Filter.status_code ack = (if decide (0 <= kind <= 3) then 200 else 400) /\
  (forall p', p <> p' -> filters' !! p' = filters !! p') /\
  (~ 1 <= kind <= 3 -> filters' = filters).
Proof.
  pose proof (fun p' => apply_other filters p p' req) as Ho. revert Ho.
  unfold apply_filter_request, Filter.SUBSCRIBE, Filter.UNSUBSCRIBE, Filter.UNSUBSCRIBE_ALL,
    Filter.PING. cbn. intros Ho.
  repeat case_decide; cbn in *; (split; [done|]); (split; [done || lia|]); (split; [done|]);
    done || lia.
Qed.

Lemma filter_pushes_example :
  push_targets (registry_after
    [([x01], Filter.mkFilterSubscribeRequest "a" Filter.SUBSCRIBE (Some "/t") ["/c"]);
     ([x01], Filter.mkFilterSubscribeRequest "b" Filter.SUBSCRIBE None []);
     ([x02], Filter.mkFilterSubscribeRequest "c" Filter.SUBSCRIBE (Some "/t") []);
     ([x02], Filter.mkFilterSubscribeRequest "d" Filter.UNSUBSCRIBE (Some "/t") [])])
    "/t" (message_new "/c" []) = [[x01]].
Proof. vm_compute. reflexivity. Qed.

(** ** The peer book *)

(** [PEER_BOOK_CAP]. *)
Definition PEER_BOOK_CAP : nat := 200.

Section PeerBook.
Context {WakuEnr : Type} `{EnrOps WakuEnr}.

(** [remember_enr]. *)
Definition remember_enr (book : list WakuEnr) (enr : WakuEnr) : list WakuEnr :=
  if existsb (fun e => bool_decide (node_id e = node_id enr)) book then book
  else
    let book := if decide (PEER_BOOK_CAP <= length book)%nat then drop 1 book else book in
    book ++ [enr].

Definition book_after (enrs : list WakuEnr) : list WakuEnr := foldl remember_enr [] enrs.

Definition book_ok (book : list WakuEnr) : Prop :=
  NoDup (node_id <$> book) /\ (length book <= PEER_BOOK_CAP)%nat.

Lemma elem_of_sublist {A} (x : A) l k : l `sublist_of` k -> x ∈ l -> x ∈ k.
Proof. intros Hs Hx. by eapply elem_of_submseteq; [|apply sublist_submseteq]. Qed.

Lemma remember_known book enr :
  node_id enr ∈ (node_id <$> book) -> remember_enr book enr = book.
Proof.
  intros (e & E & He)%list_elem_of_fmap. unfold remember_enr.
  rewrite (proj2 (existsb_exists _ _)); [done|]. exists e. rewrite <- list_elem_of_In.
  by rewrite bool_decide_eq_true.
Qed.

Lemma remember_new book enr :
  node_id enr ∉ (node_id <$> book) ->
  remember_enr book enr =
    (if decide (PEER_BOOK_CAP <= length book)%nat then drop 1 book else book) ++ [enr].
Proof.
  intros Hn. unfold remember_enr. destruct (existsb _ book) eqn:E; [|done].
  apply existsb_exists in E as (e & He & E). apply bool_decide_eq_true in E.
  destruct Hn. rewrite <- E. apply list_elem_of_fmap_2. by apply list_elem_of_In.
Qed.

Lemma remember_ok book enr : book_ok book -> book_ok (remember_enr book enr).
Proof.
  intros [Hd Hl]. destruct (decide (node_id enr ∈ node_id <$> book)) as [Hin|Hn].
  { by rewrite remember_known. }
  rewrite remember_new by done. set (b := if decide _ then _ else _).
  assert (b `sublist_of` book) as Hb.
  { unfold b. case_decide; [apply sublist_drop|done]. }
  split.
  - rewrite fmap_app. apply list.NoDup_app. split; [|split].
    + eapply sublist_NoDup; [exact Hd|]. by apply fmap_sublist.
    + intros x Hx%(elem_of_sublist _ _ _ (fmap_sublist node_id _ _ Hb)).
      cbn; rewrite list_elem_of_singleton; by intros ->.
    + apply NoDup_singleton.
  - rewrite length_app. cbn. unfold b. unfold PEER_BOOK_CAP in *. case_decide; rewrite ?length_drop; lia.
Qed.

Lemma foldl_remember_ok book enrs : book_ok book -> book_ok (foldl remember_enr book enrs).
Proof. revert book; induction enrs as [|e l IH]; intros book Hb; [done|]. by apply IH, remember_ok. Qed.

(** ENRs with distinct node ids go through the book first in, first out. *)
Lemma foldl_remember_fifo enrs :
  NoDup (node_id <$> enrs) -> book_after enrs = drop (length enrs - PEER_BOOK_CAP) enrs.
Proof.
  induction enrs as [|e enrs IH] using rev_ind; [done|]. rewrite fmap_app. intros Hd.
  apply list.NoDup_app in Hd as (Hd & Hx & _). unfold book_after. rewrite foldl_snoc.
  fold (book_after enrs). rewrite IH by done. rewrite remember_new.
  - rewrite length_drop, length_app. unfold PEER_BOOK_CAP. cbn [length]. case_decide as Hc.
    + rewrite drop_drop. rewrite drop_app_le by lia. f_equal. f_equal. lia.
    + replace (length enrs - 200)%nat with 0%nat by lia.
      by replace (length enrs + 1 - 200)%nat with 0%nat by lia.
  - intros Hin. apply (Hx (node_id e)); [|by left].
    by eapply elem_of_sublist; [apply fmap_sublist, sublist_drop|].
Qed.

(** The peer book stays within its 200 entries and never holds two ENRs of one
    node, whatever is remembered in whatever order; ENRs of distinct nodes leave it
    first in, first out; and an ENR of a known node is ignored, so the first ENR of a
    node is never replaced by a newer one. *)
Theorem peer_book_bounded_fifo (enrs : list WakuEnr) :
  NoDup (node_id <$> book_after enrs) /\ (length (book_after enrs) <= 200)%nat /\
  (NoDup (node_id <$> enrs) -> book_after enrs = drop (length enrs - 200) enrs) /\
  (forall enr, node_id enr ∈ (node_id <$> book_after enrs) ->
     book_after (enrs ++ [enr]) = book_after enrs).
Proof.
  assert (book_ok (book_after enrs)) as [Hd Hl].
  { apply foldl_remember_ok. split; [constructor|cbn; lia]. }
  split; [done|]. split; [done|]. split; [apply foldl_remember_fifo|].
  intros enr Hin. unfold book_after at 1. rewrite foldl_snoc. by apply remember_known.
Qed.

End PeerBook.

(** ** [metrics.rs] *)

(** The counters, each an [AtomicU64]; a [MetricsSnapshot] reads the same fields. *)
Record Metrics : Type := mkMetrics {
  relay_messages : Z;              (* u64 *)
  store_queries : Z;               (* u64 *)
  lightpush_requests : Z;          (* u64 *)
  filter_pushes : Z;               (* u64 *)
  rate_limited : Z;                (* u64 *)
}.

Module MetricsOps.

(** [fetch_add], which wraps around in every build. *)
Definition fetch_add (counter n : Z) : Z := as_u64 (counter + n).

Definition new : Metrics := mkMetrics 0 0 0 0 0.
Definition relay_message (m : Metrics) : Metrics :=
  mkMetrics (fetch_add (relay_messages m) 1) (store_queries m) (lightpush_requests m)
    (filter_pushes m) (rate_limited m).
Definition store_query (m : Metrics) : Metrics :=
  mkMetrics (relay_messages m) (fetch_add (store_queries m) 1) (lightpush_requests m)
    (filter_pushes m) (rate_limited m).
Definition lightpush_request (m : Metrics) : Metrics :=
  mkMetrics (relay_messages m) (store_queries m) (fetch_add (lightpush_requests m) 1)
    (filter_pushes m) (rate_limited m).
Definition filter_pushes_add (n : Z) (m : Metrics) : Metrics :=
  mkMetrics (relay_messages m) (store_queries m) (lightpush_requests m)
    (fetch_add (filter_pushes m) n) (rate_limited m).
Definition rate_limited (m : Metrics) : Metrics :=
  mkMetrics (relay_messages m) (store_queries m) (lightpush_requests m) (filter_pushes m)
    (fetch_add (Services.rate_limited m) 1).
Definition snapshot (m : Metrics) : Metrics := m.

End MetricsOps.

(** ** [lib.rs]: the node configuration *)

Module Config.

Record t : Type := mk {
  preset : NetworkPreset.t;
  shards : list Z;                 (* u16 *)
  relay : bool;
  rln_relay : bool;
  store : bool;
  filter : bool;
  lightpush : bool;
  peer_exchange : bool;
  discv5 : bool;
  dns_discovery : bool;
}.

(** [Config::default]. *)
Definition default : t := {|
  preset := TWN; shards := []; relay := true; rln_relay := true; store := false;
  filter := false; lightpush := false; peer_exchange := false; discv5 := true;
  dns_discovery := true;
|}.

(** [Config::effective_shards]. *)
Definition effective_shards (c : t) : list Z :=
  if bool_decide (shards c = []) then u16_range (NetworkPreset.shard_count (preset c))
  else shards c.

End Config.
