(* ===== verification/Ratelimit.v ===== *)
(** * Ratelimit: the token buckets of [waku-node/src/ratelimit.rs]

    Tokens are [f64] numbers; an [Instant] is its nanoseconds. *)

From Stdlib Require Import Strings.Byte Floats.SpecFloat.
From stdpp Require Import base gmap strings list numbers.
From S2P Require Import Prelude Bytes Text Float64 Net Services.

Open Scope Z_scope.

(** ** Time *)

(** [Duration::as_secs_f64]: whole seconds plus the nanoseconds left. *)
Definition as_secs_f64 (nanos : Z) : f64 :=
  f64_add (f64_of_Z (nanos / 1000000000))
    (f64_div (f64_of_Z (nanos mod 1000000000)) (f64_of_Z 1000000000)).

(** [Instant::saturating_duration_since]. *)
Definition saturating_duration_since (now earlier : Z) : Z := Z.max 0 (now - earlier).

(** ** The limiter *)

Record Bucket : Type := mkBucket { tokens : f64; last_seen : Z (* Instant *) }.

Module RateLimiter.

Record t : Type := mk {
  capacity : f64;
  refill_per_sec : f64;
  buckets : gmap PeerId Bucket;
}.

(** [RateLimiter::new]. *)
Definition new (capacity : Z (* u32 *)) (period_secs : f64) : t :=
  let capacity := f64_of_Z (Z.max capacity 1) in
  {| capacity := capacity;
     refill_per_sec := f64_div capacity (f64_max period_secs MIN_POSITIVE);
     buckets := ∅ |}.

(** The bucket of a peer as of [now], refilled. *)
Definition refilled (rl : t) (peer : PeerId) (now : Z) : f64 :=
  let bucket := default (mkBucket (capacity rl) now) (buckets rl !! peer) in
  let elapsed := as_secs_f64 (saturating_duration_since now (last_seen bucket)) in
  f64_min (f64_add (tokens bucket) (f64_mul elapsed (refill_per_sec rl))) (capacity rl).

(** [RateLimiter::allow]. *)
Definition allow (rl : t) (peer : PeerId) (now : Z) : bool * t :=
  let left := refilled rl peer now in
  let ok := SFleb (f64_of_Z 1) left in
  let left := if ok then f64_sub left (f64_of_Z 1) else left in
  (ok, mk (capacity rl) (refill_per_sec rl) (<[peer := mkBucket left now]> (buckets rl))).

(** A sequence of requests, each a peer and an instant, and its verdicts. *)
Fixpoint allow_all (rl : t) (reqs : list (PeerId * Z)) : list bool * t :=
  match reqs with
  | [] => ([], rl)
  | (p, now) :: reqs =>
      let '(ok, rl) := allow rl p now in
      let '(oks, rl) := allow_all rl reqs in
      (ok :: oks, rl)
  end.

End RateLimiter.

(** [RateLimiters]. *)
Record RateLimiters : Type := mkRateLimiters {
  store_limiter : RateLimiter.t;
  lightpush_limiter : RateLimiter.t;
}.

(** [RateLimiters::default]. *)
Definition rate_limiters_default : RateLimiters := {|
  store_limiter := RateLimiter.new 10 (f64_of_Z 1);
  lightpush_limiter := RateLimiter.new 10 (f64_of_Z 1);
|}.

(** ** Facts *)

Lemma allow_other rl p p' now :
  p <> p' ->
  RateLimiter.buckets (RateLimiter.allow rl p now).2 !! p' = RateLimiter.buckets rl !! p'.
Proof. intros Hne. cbn. by apply lookup_insert_ne. Qed.

Lemma allow_depends rl rl' p now :
  RateLimiter.capacity rl = RateLimiter.capacity rl' ->
  RateLimiter.refill_per_sec rl = RateLimiter.refill_per_sec rl' ->
  RateLimiter.buckets rl !! p = RateLimiter.buckets rl' !! p ->
  (RateLimiter.allow rl p now).1 = (RateLimiter.allow rl' p now).1 /\
  RateLimiter.buckets (RateLimiter.allow rl p now).2 !! p =
  RateLimiter.buckets (RateLimiter.allow rl' p now).2 !! p.
Proof.
  intros Hc Hr Hb. unfold RateLimiter.allow, RateLimiter.refilled. cbn.
  rewrite Hc, Hr, Hb, !lookup_insert_eq. done.
Qed.

(** The verdicts of the requests of one peer. *)
Definition verdicts_of (p : PeerId) (reqs : list (PeerId * Z)) (oks : list bool) : list bool :=
  snd <$> filter (fun x : PeerId * bool => x.1 = p) (zip reqs.*1 oks).

Lemma verdicts_of_cons p q now reqs ok oks :
  verdicts_of p ((q, now) :: reqs) (ok :: oks) =
  if decide (q = p) then ok :: verdicts_of p reqs oks else verdicts_of p reqs oks.
Proof.
  unfold verdicts_of. rewrite fmap_cons. change (zip ?l ?k) with (zip_with pair l k).
  cbn [zip_with]. rewrite filter_cons. cbn [fst]. by case_decide.
Qed.

Lemma allow_all_peer rl rl' p reqs :
  RateLimiter.capacity rl = RateLimiter.capacity rl' ->
  RateLimiter.refill_per_sec rl = RateLimiter.refill_per_sec rl' ->
  RateLimiter.buckets rl !! p = RateLimiter.buckets rl' !! p ->
  verdicts_of p reqs (RateLimiter.allow_all rl reqs).1 =
  (RateLimiter.allow_all rl' (filter (fun r => r.1 = p) reqs)).1.
Proof.
  revert rl rl'. induction reqs as [|[q now] reqs IH]; intros rl rl' Hc Hr Hb; [done|].
  cbn [RateLimiter.allow_all].
  destruct (RateLimiter.allow rl q now) as [ok rl1] eqn:E1.
  destruct (RateLimiter.allow_all rl1 reqs) as [oks rl2] eqn:E2. cbn [fst].
  assert (RateLimiter.capacity rl1 = RateLimiter.capacity rl /\
    RateLimiter.refill_per_sec rl1 = RateLimiter.refill_per_sec rl) as [Hc1 Hr1]
    by (by injection E1 as _ <-).
  rewrite verdicts_of_cons, filter_cons. cbn [fst]. case_decide as Hq.
  - subst q. cbn [RateLimiter.allow_all].
    destruct (RateLimiter.allow rl' p now) as [ok' rl1'] eqn:E1'.
    destruct (allow_depends rl rl' p now Hc Hr Hb) as [Hok Hbk].
    rewrite E1, E1' in Hok, Hbk. cbn in Hok, Hbk. subst ok'.
    specialize (IH rl1 rl1'). rewrite E2 in IH.
    destruct (RateLimiter.allow_all rl1' _) as [oks' rl2'] eqn:E2'. cbn [fst] in *. f_equal.
    apply IH; [| |done]; injection E1' as _ <-; cbn; congruence.
  - specialize (IH rl1 rl'). rewrite E2 in IH. apply IH; [congruence|congruence|].
    rewrite <- Hb, <- (allow_other rl q p now Hq). by rewrite E1.
Qed.

(** Peers do not share tokens: in any interleaving of requests the verdicts a
    peer gets are those it would get if it were alone. *)
Theorem limiter_isolates_peers (rl : RateLimiter.t) (p : PeerId) (reqs : list (PeerId * Z)) :
  verdicts_of p reqs (RateLimiter.allow_all rl reqs).1 =
  (RateLimiter.allow_all rl (filter (fun r => r.1 = p) reqs)).1.
Proof. by apply allow_all_peer. Qed.

(** ** Bursts *)

(** What an instant adds to a bucket. *)
Lemma refilled_at_once rl p now left :
  default (mkBucket (RateLimiter.capacity rl) now) (RateLimiter.buckets rl !! p) = mkBucket left now ->
  RateLimiter.refilled rl p now =
  f64_min (f64_add left (f64_mul (S754_zero false) (RateLimiter.refill_per_sec rl)))
    (RateLimiter.capacity rl).
Proof.
  intros Hb. unfold RateLimiter.refilled. rewrite Hb. cbn [last_seen tokens].
  unfold saturating_duration_since. rewrite Z.sub_diag. done.
Qed.

Section Burst.
Variable c : Z.
Variable refill : f64.
Hypothesis Hc : 1 <= c < 2 ^ 53.

Abbreviation limiter bs := (RateLimiter.mk (f64_of_Z c) refill bs).

(** One request at the instant of the last one, with [j] tokens left. *)
Lemma allow_step (j : Z) p now bs :
  is_finite refill = true -> 0 <= j <= c ->
  default (mkBucket (f64_of_Z c) now) (bs !! p) = mkBucket (f64_of_Z j) now ->
  RateLimiter.allow (limiter bs) p now =
  (bool_decide (1 <= j), limiter (<[p := mkBucket (f64_of_Z (Z.max 0 (j - 1))) now]> bs)).
Proof.
  intros Hr Hj Hb. unfold RateLimiter.allow. rewrite (refilled_at_once (limiter bs) p now _ Hb).
  assert (f64_add (f64_of_Z j) (f64_mul (S754_zero false) refill) = f64_of_Z j) as E.
  { destruct (nonneg_cases j) as [->|Hs]; [lia|by destruct refill as [[]|[]| |[]]|].
    rewrite f64_of_small by done. by destruct refill as [[]|[]| |[]]. }
  cbn [RateLimiter.refill_per_sec RateLimiter.capacity RateLimiter.buckets].
  rewrite E, min_small, one_le by (done || unfold small_int; lia).
  case_bool_decide as H1.
  - rewrite sub_one by (unfold small_int; lia). by rewrite Z.max_r by lia.
  - by replace (Z.max 0 (j - 1)) with j by lia.
Qed.

Lemma burst_from (k j : nat) p now bs :
  is_finite refill = true -> Z.of_nat j <= c ->
  default (mkBucket (f64_of_Z c) now) (bs !! p) = mkBucket (f64_of_Z (Z.of_nat j)) now ->
  (RateLimiter.allow_all (limiter bs) (replicate k (p, now))).1 =
  replicate (Nat.min k j) true ++ replicate (k - j) false.
Proof.
  intros Hr. revert j bs. induction k as [|k IH]; intros j bs Hj Hb; [done|].
  cbn [replicate RateLimiter.allow_all]. rewrite (allow_step (Z.of_nat j)) by (done || lia).
  specialize (IH (pred j) (<[p := mkBucket (f64_of_Z (Z.max 0 (Z.of_nat j - 1))) now]> bs) ltac:(lia)).
  rewrite lookup_insert_eq in IH. cbn [default] in IH.
  replace (Z.max 0 (Z.of_nat j - 1)) with (Z.of_nat (pred j)) in * by lia. specialize (IH eq_refl).
  destruct (RateLimiter.allow_all _ _) as [oks rl']. cbn in IH |- *. rewrite IH.
  destruct j as [|j]; cbn; [by rewrite Nat.min_0_r, Nat.sub_0_r|].
  by rewrite bool_decide_true by lia.
Qed.

(** When the rate is no number the bucket is full whenever it is looked at. *)
Lemma unlimited_from (k : nat) p now bs :
  is_finite refill = false -> last_seen (default (mkBucket (f64_of_Z c) now) (bs !! p)) = now ->
  (RateLimiter.allow_all (limiter bs) (replicate k (p, now))).1 = replicate k true.
Proof.
  intros Hr. revert bs. induction k as [|k IH]; intros bs Hb; [done|].
  cbn [replicate RateLimiter.allow_all].
  assert (RateLimiter.refilled (limiter bs) p now = f64_of_Z c) as E.
  { destruct (default _ _) as [t l] eqn:Ed; cbn in Hb; subst l. rewrite (refilled_at_once (limiter bs) p now t Ed).
    cbn [RateLimiter.refill_per_sec RateLimiter.capacity].
    assert (f64_add t (f64_mul (S754_zero false) refill) = S754_nan) as -> by (by destruct refill, t).
    done. }
  unfold RateLimiter.allow. rewrite E, one_le, bool_decide_true by lia.
  cbn [RateLimiter.capacity RateLimiter.refill_per_sec].
  match goal with |- context [RateLimiter.mk _ _ ?b] => specialize (IH b) end.
  rewrite lookup_insert_eq in IH. specialize (IH eq_refl).
  destruct (RateLimiter.allow_all _ _) as [oks rl']. cbn in IH |- *. by rewrite IH.
Qed.

End Burst.

(** C40. A limiter gives a peer a burst of its capacity and no more: whatever the capacity, of
    any number of requests of one peer at one instant the first [capacity] are allowed (one,
    for a capacity of zero) and all others refused; provided the period is long enough for
    the rate to be a number, because with a shorter one, such as zero seconds, no request is
    ever refused. *)
Theorem limiter_burst (capacity : Z) (period : f64) (k : nat) (p : PeerId) (now : Z) :
  in_u32 capacity ->
  let rl := RateLimiter.new capacity period in
  let c := Z.to_nat (Z.max capacity 1) in
  (RateLimiter.allow_all rl (replicate k (p, now))).1 =
  if is_finite (RateLimiter.refill_per_sec rl)
  then replicate (Nat.min k c) true ++ replicate (k - c) false
  else replicate k true.
Proof.
  intros Hcap rl c. unfold in_u in Hcap. destruct (is_finite _) eqn:Hr.
  - apply burst_from; [lia|done|lia|]. cbn. subst c. by rewrite Z2Nat.id by lia.
  - by apply unlimited_from; [lia|..].
Qed.

Lemma allow_all_capacity rl reqs :
  RateLimiter.capacity (RateLimiter.allow_all rl reqs).2 = RateLimiter.capacity rl.
Proof.
  revert rl. induction reqs as [|[q now] reqs IH]; intros rl; [done|].
  cbn [RateLimiter.allow_all]. destruct (RateLimiter.allow rl q now) as [ok rl1] eqn:E1.
  specialize (IH rl1). destruct (RateLimiter.allow_all rl1 reqs). cbn in *. rewrite IH.
  by injection E1 as _ <-.
Qed.

(** The limiter of the defaults, with any buckets. *)
Definition default_limiter (bs : gmap PeerId Bucket) : RateLimiter.t :=
  let rl := store_limiter rate_limiters_default in
  RateLimiter.mk (RateLimiter.capacity rl) (RateLimiter.refill_per_sec rl) bs.

(** The default limiters give an unknown peer a burst of exactly ten: of any
    number of requests at one instant the first ten are allowed and all others
    refused; and no history of requests, at whatever instants, leaves a peer with more
    than ten tokens to spend. *)
Theorem default_limiter_burst (k : nat) (p : PeerId) (now : Z) (bs : gmap PeerId Bucket) :
  bs !! p = None ->
  (RateLimiter.allow_all (default_limiter bs) (replicate k (p, now))).1 =
    replicate (Nat.min k 10) true ++ replicate (k - 10) false /\
  forall reqs p' now',
    SFleb (RateLimiter.refilled (RateLimiter.allow_all (default_limiter bs) reqs).2 p' now')
      (f64_of_Z 10) = true.
Proof.
  intros Hb. change (default_limiter bs) with (RateLimiter.mk (f64_of_Z 10) (f64_of_Z 10) bs).
  split.
  2: { intros reqs p' now'. unfold RateLimiter.refilled. rewrite allow_all_capacity.
       by apply f64_min_le. }
  apply (burst_from 10 (f64_of_Z 10) ltac:(lia) k 10); [done|lia|]. by rewrite Hb.
Qed.

Lemma default_limiter_burst_witness :
  (RateLimiter.allow_all (store_limiter rate_limiters_default) (replicate 12 ([x01], 5))).1 =
  replicate 10 true ++ replicate 2 false.
Proof. exact (proj1 (default_limiter_burst 12 [x01] 5 ∅ eq_refl)). Defined.

Lemma limiter_burst_witness :
  (RateLimiter.allow_all (RateLimiter.new 300 (f64_of_Z 60)) (replicate 301 ([x01], 5))).1 =
    replicate 300 true ++ [false] /\
  (RateLimiter.allow_all (RateLimiter.new 300 (f64_of_Z 0)) (replicate 301 ([x01], 5))).1 =
    replicate 301 true.
Proof.
  split.
  - rewrite (limiter_burst 300 (f64_of_Z 60) 301 [x01] 5) by (unfold in_u; lia). reflexivity.
  - rewrite (limiter_burst 300 (f64_of_Z 0) 301 [x01] 5) by (unfold in_u; lia). reflexivity.
Defined.

(** A tenth of a second buys one token back, a nanosecond less does not. *)
Lemma default_refill_example :
  let rl := (RateLimiter.allow_all (store_limiter rate_limiters_default)
               (replicate 10 ([x01], 0))).2 in
  (RateLimiter.allow rl [x01] 100000000).1 = true /\
  (RateLimiter.allow rl [x01] 99999999).1 = false.
Proof. vm_compute. done. Qed.
