(* ===== verification/Node.v ===== *)
(** * Node: the driver of [waku-node/src/runtime.rs]

    The task [run] owns the libp2p swarm and handles one command or one swarm event at
    a time.  Its state and everything it shares ([NodeState]) is passed along
    explicitly; a handler is an [action] on it, failing with [tt] when the receiver of
    events is gone, as the source does with [map_err(|_| ())?].

    The swarm comes from libp2p: the class [Swarm] lists the calls the driver makes,
    on an abstract state.  Clocks are read by the environment ([Clock]).  A spawned
    [store.put] is a task left in the state, run by [run_put_task] at any later time.
    Reply channels and response channels are numbers. *)

From Stdlib Require Import Strings.Byte.
From stdpp Require Import base gmap strings list numbers.
From S2P Require Import Prelude Bytes Text Core Framing Wire Relay Store StoreServe Net Discv5 Services Ratelimit.

Open Scope Z_scope.

(** ** Addresses *)

(** [multiaddr_ip]. *)
Fixpoint multiaddr_ip (addr : Multiaddr) : option IpAddr :=
  match addr with
  | [] => None
  | Ip4 ip :: _ => Some (V4 ip)
  | Ip6 ip :: _ => Some (V6 ip)
  | _ :: addr => multiaddr_ip addr
  end.

(** ** Events, commands and replies *)

(** The events of the node. *)
Inductive Event : Type :=
  | Listening (addr : Multiaddr)
  | PeerConnected (peer : PeerId)
  | PeerDisconnected (peer : PeerId)
  | MetadataMismatch (peer : PeerId) (theirs : option Z)
  | EvMessage (shard : ShardId.t) (message : WakuMessage) (id : bytes)
      (propagation_source : PeerId)
  | FilterMessage (pubsub_topic : option string) (message : WakuMessage).

(** [Command]; [reply] names the oneshot channel. *)
Inductive Command : Type :=
  | CmdSubscribe (shard : ShardId.t) (reply : Z)
  | CmdPublish (shard : ShardId.t) (message : WakuMessage) (reply : Z)
  | CmdDial (addr : Multiaddr) (reply : Z)
  | CmdStoreQuery (peer : PeerId) (request : StoreWire.StoreQueryRequest) (reply : Z)
  | CmdLightPush (peer : PeerId) (request : Lightpush.LightpushRequest) (reply : Z)
  | CmdPeerExchange (peer : PeerId) (num_peers : Z) (reply : Z)
  | CmdFilterSubscribe (peer : PeerId) (request : Filter.FilterSubscribeRequest) (reply : Z)
  | CmdShutdown.

(** What a oneshot channel carries, by command. *)
Inductive Answer : Type :=
  | UnitAnswer (r : result string ())
  | HashAnswer (r : result string bytes)
  | StoreAnswer (r : result string StoreWire.StoreQueryResponse)
  | LightpushAnswer (r : result string Lightpush.LightpushResponse)
  | PeerExchangeAnswer (r : result string PeerExchange.PeerExchangeRpc)
  | FilterAnswer (r : result string Filter.FilterSubscribeResponse).

(** The requests and responses the request-response behaviours send. *)
Inductive OutRequest : Type :=
  | MetadataRequest (m : Metadata.WakuMetadata)
  | StoreRequest (m : StoreWire.StoreQueryRequest)
  | LightpushRequest (m : Lightpush.LightpushRequest)
  | PeerExchangeRequest (m : PeerExchange.PeerExchangeRpc)
  | FilterRequest (m : Filter.FilterSubscribeRequest)
  | PushRequest (m : Filter.MessagePush).

Inductive OutResponse : Type :=
  | MetadataResponse (m : Metadata.WakuMetadata)
  | StoreResponse (m : StoreWire.StoreQueryResponse)
  | LightpushResponse (m : Lightpush.LightpushResponse)
  | PeerExchangeResponse (m : PeerExchange.PeerExchangeRpc)
  | FilterResponse (m : Filter.FilterSubscribeResponse)
  | PushResponse (m : Filter.FilterPushResponse).

(** [request_response::Message]: an inbound request with its response channel, or the
    response to the outbound request of that id. *)
Inductive rr_message (Req Res : Type) : Type :=
  | RRequest (request : Req) (channel : Z)
  | RResponse (request_id : Z) (response : Res).
Arguments RRequest {_ _} _ _.
Arguments RResponse {_ _} _ _.

(** The swarm events the driver matches on. *)
Inductive SwarmEvent : Type :=
  | NewListenAddr (address : Multiaddr)
  | ConnectionEstablished (peer : PeerId) (remote : Multiaddr)
  | ConnectionClosed (peer : PeerId) (remote : Multiaddr)
  | RelayMessage (propagation_source : PeerId) (message_id : bytes) (message : gossipsub_message)
  | MetadataEvent (peer : PeerId) (m : rr_message Metadata.WakuMetadata Metadata.WakuMetadata)
  | StoreQueryEvent (peer : PeerId)
      (m : rr_message StoreWire.StoreQueryRequest StoreWire.StoreQueryResponse)
  | StoreQueryFailure (request_id : Z) (error : string)
  | LightpushEvent (peer : PeerId)
      (m : rr_message Lightpush.LightpushRequest Lightpush.LightpushResponse)
  | LightpushFailure (request_id : Z) (error : string)
  | PeerExchangeEvent (peer : PeerId)
      (m : rr_message PeerExchange.PeerExchangeRpc PeerExchange.PeerExchangeRpc)
  | PeerExchangeFailure (request_id : Z) (error : string)
  | FilterSubscribeEvent (peer : PeerId)
      (m : rr_message Filter.FilterSubscribeRequest Filter.FilterSubscribeResponse)
  | FilterSubscribeFailure (request_id : Z) (error : string)
  | FilterPushEvent (peer : PeerId)
      (m : rr_message Filter.MessagePush Filter.FilterPushResponse)
  | OtherEvent.

(** ** The swarm *)

Class Swarm (SW : Type) := {
  relay_subscribe : string -> SW -> result string bool * SW;
  relay_publish : string -> bytes -> SW -> result string bytes * SW;
  relay_mesh_peers : string -> SW -> list PeerId;
  relay_report : bytes -> PeerId -> MessageAcceptance -> SW -> SW;
  swarm_dial : Multiaddr -> SW -> result string () * SW;
  swarm_disconnect : PeerId -> SW -> SW;
  swarm_send_request : PeerId -> OutRequest -> SW -> Z * SW;
  swarm_send_response : Z -> OutResponse -> SW -> SW;
}.

(** ** The state of the driver *)

(** [Pending]: reply channels by outbound request id, a map per protocol. *)
Module Pending.

Record t : Type := mk {
  store_queries : gmap Z Z;
  lightpush : gmap Z Z;
  peer_exchange : gmap Z Z;
  filter : gmap Z Z;
}.

Definition default : t := mk ∅ ∅ ∅ ∅.

Definition set_store_queries (x : gmap Z Z) (p : t) : t :=
  mk x (lightpush p) (peer_exchange p) (filter p).
Definition set_lightpush (x : gmap Z Z) (p : t) : t :=
  mk (store_queries p) x (peer_exchange p) (filter p).
Definition set_peer_exchange (x : gmap Z Z) (p : t) : t :=
  mk (store_queries p) (lightpush p) x (filter p).
Definition set_filter (x : gmap Z Z) (p : t) : t :=
  mk (store_queries p) (lightpush p) (peer_exchange p) x.

End Pending.

(** The constants of a running node: [local_cluster], [local_meta], [ip_limit]. *)
Record NodeParams : Type := mkNodeParams {
  local_cluster : Z;               (* u32 *)
  local_meta : Metadata.WakuMetadata;
  ip_limit : Z;                    (* usize *)
}.

(** What the clocks show while an event is handled: the two readings of
    [now_unix_nanos] and [Instant::now]. *)
Record Clock : Type := mkClock {
  now_unix_nanos : Z;              (* i64 *)
  rx_time_nanos : Z;               (* i64 *)
  instant_now : Z;
}.

(** Everything the driver owns or shares. *)
Record NodeState (SW St WakuEnr : Type) : Type := mkNodeState {
  swarm : SW;   (* the libp2p swarm *)
  pending : Pending.t;
  filters : FilterRegistry;
  limits : RateLimiters;
  ip_counts : gmap IpAddr Z;
  connected : gset PeerId;
  listen_addrs : list Multiaddr;
  metrics : Metrics;
  peer_book : list WakuEnr;
  store : option St;   (* the shared backend *)
  evt_rx_open : bool;   (* the receiver of events exists *)
  events : list Event;   (* events sent, oldest first *)
  replies : list (Z * Answer);   (* oneshot replies sent, oldest first *)
  put_tasks : list (string * WakuMessage * Z);   (* spawned [store.put] tasks *)
}.
Arguments mkNodeState {_ _ _}.
Arguments swarm {_ _ _} _.
Arguments pending {_ _ _} _.
Arguments filters {_ _ _} _.
Arguments limits {_ _ _} _.
Arguments ip_counts {_ _ _} _.
Arguments connected {_ _ _} _.
Arguments listen_addrs {_ _ _} _.
Arguments metrics {_ _ _} _.
Arguments peer_book {_ _ _} _.
Arguments store {_ _ _} _.
Arguments evt_rx_open {_ _ _} _.
Arguments events {_ _ _} _.
Arguments replies {_ _ _} _.
Arguments put_tasks {_ _ _} _.

Section Setters.
Context {SW St WakuEnr : Type}.

Definition set_swarm (x : SW) (s : NodeState SW St WakuEnr) : NodeState SW St WakuEnr :=
  mkNodeState x (pending s) (filters s) (limits s) (ip_counts s) (connected s)
    (listen_addrs s) (metrics s) (peer_book s) (store s) (evt_rx_open s) (events s)
    (replies s) (put_tasks s).
Definition set_pending (x : Pending.t) (s : NodeState SW St WakuEnr) : NodeState SW St WakuEnr :=
  mkNodeState (swarm s) x (filters s) (limits s) (ip_counts s) (connected s)
    (listen_addrs s) (metrics s) (peer_book s) (store s) (evt_rx_open s) (events s)
    (replies s) (put_tasks s).
Definition set_filters (x : FilterRegistry) (s : NodeState SW St WakuEnr) : NodeState SW St WakuEnr :=
  mkNodeState (swarm s) (pending s) x (limits s) (ip_counts s) (connected s)
    (listen_addrs s) (metrics s) (peer_book s) (store s) (evt_rx_open s) (events s)
    (replies s) (put_tasks s).
Definition set_limits (x : RateLimiters) (s : NodeState SW St WakuEnr) : NodeState SW St WakuEnr :=
  mkNodeState (swarm s) (pending s) (filters s) x (ip_counts s) (connected s)
    (listen_addrs s) (metrics s) (peer_book s) (store s) (evt_rx_open s) (events s)
    (replies s) (put_tasks s).
Definition set_ip_counts (x : gmap IpAddr Z) (s : NodeState SW St WakuEnr) : NodeState SW St WakuEnr :=
  mkNodeState (swarm s) (pending s) (filters s) (limits s) x (connected s) (listen_addrs
    s) (metrics s) (peer_book s) (store s) (evt_rx_open s) (events s) (replies s)
    (put_tasks s).
Definition set_connected (x : gset PeerId) (s : NodeState SW St WakuEnr) : NodeState SW St WakuEnr :=
  mkNodeState (swarm s) (pending s) (filters s) (limits s) (ip_counts s) x (listen_addrs
    s) (metrics s) (peer_book s) (store s) (evt_rx_open s) (events s) (replies s)
    (put_tasks s).
Definition set_listen_addrs (x : list Multiaddr) (s : NodeState SW St WakuEnr) : NodeState SW St WakuEnr :=
  mkNodeState (swarm s) (pending s) (filters s) (limits s) (ip_counts s) (connected s) x
    (metrics s) (peer_book s) (store s) (evt_rx_open s) (events s) (replies s) (put_tasks
    s).
Definition set_metrics (x : Metrics) (s : NodeState SW St WakuEnr) : NodeState SW St WakuEnr :=
  mkNodeState (swarm s) (pending s) (filters s) (limits s) (ip_counts s) (connected s)
    (listen_addrs s) x (peer_book s) (store s) (evt_rx_open s) (events s) (replies s)
    (put_tasks s).
Definition set_peer_book (x : list WakuEnr) (s : NodeState SW St WakuEnr) : NodeState SW St WakuEnr :=
  mkNodeState (swarm s) (pending s) (filters s) (limits s) (ip_counts s) (connected s)
    (listen_addrs s) (metrics s) x (store s) (evt_rx_open s) (events s) (replies s)
    (put_tasks s).
Definition set_store (x : option St) (s : NodeState SW St WakuEnr) : NodeState SW St WakuEnr :=
  mkNodeState (swarm s) (pending s) (filters s) (limits s) (ip_counts s) (connected s)
    (listen_addrs s) (metrics s) (peer_book s) x (evt_rx_open s) (events s) (replies s)
    (put_tasks s).
Definition set_evt_rx_open (x : bool) (s : NodeState SW St WakuEnr) : NodeState SW St WakuEnr :=
  mkNodeState (swarm s) (pending s) (filters s) (limits s) (ip_counts s) (connected s)
    (listen_addrs s) (metrics s) (peer_book s) (store s) x (events s) (replies s)
    (put_tasks s).
Definition set_events (x : list Event) (s : NodeState SW St WakuEnr) : NodeState SW St WakuEnr :=
  mkNodeState (swarm s) (pending s) (filters s) (limits s) (ip_counts s) (connected s)
    (listen_addrs s) (metrics s) (peer_book s) (store s) (evt_rx_open s) x (replies s)
    (put_tasks s).
Definition set_replies (x : list (Z * Answer)) (s : NodeState SW St WakuEnr) : NodeState SW St WakuEnr :=
  mkNodeState (swarm s) (pending s) (filters s) (limits s) (ip_counts s) (connected s)
    (listen_addrs s) (metrics s) (peer_book s) (store s) (evt_rx_open s) (events s) x
    (put_tasks s).
Definition set_put_tasks (x : list (string * WakuMessage * Z)) (s : NodeState SW St WakuEnr) : NodeState SW St WakuEnr :=
  mkNodeState (swarm s) (pending s) (filters s) (limits s) (ip_counts s) (connected s)
    (listen_addrs s) (metrics s) (peer_book s) (store s) (evt_rx_open s) (events s)
    (replies s) x.
End Setters.

(** ** The handlers *)

Section Driver.
Context {SW St WakuEnr : Type} `{Swarm SW, MessageStore St, EnrOps WakuEnr}.
Context `{EnrCrypto}.
Context `{Sha256, BuildProfile, Prost WakuMessage}.
Variable params : NodeParams.

Abbreviation state := (NodeState SW St WakuEnr).
Abbreviation node := (action state ()).

(** Calls on the swarm. *)
Definition on_swarm {A} (f : SW -> A * SW) : node A := fun s =>
  let '(a, sw) := f (swarm s) in Some (Ok a, set_swarm sw s).
Definition tell_swarm (f : SW -> SW) : node () := modify (fun s => set_swarm (f (swarm s)) s).

(** [evt_tx.send(ev).await.map_err(|_| ())?]. *)
Definition send_event (ev : Event) : node () := fun s =>
  if evt_rx_open s then Some (Ok tt, set_events (events s ++ [ev]) s) else Some (Err tt, s).

(** [let _ = reply.send(..)]. *)
Definition send_reply (reply : Z) (a : Answer) : node () :=
  modify (fun s => set_replies (replies s ++ [(reply, a)]) s).

Definition count_metric (f : Metrics -> Metrics) : node () :=
  modify (fun s => set_metrics (f (metrics s)) s).

(** [let _ = swarm.behaviour_mut().<protocol>.send_response(channel, response)]. *)
Definition respond_on (channel : Z) (response : OutResponse) : node () :=
  tell_swarm (swarm_send_response channel response).

(** [pending.<protocol>.insert(id, reply)] after [send_request]. *)
Definition request_pending (peer : PeerId) (req : OutRequest)
    (record : Z -> Pending.t -> Pending.t) : node () :=
  id ← on_swarm (swarm_send_request peer req);
  modify (fun s => set_pending (record id (pending s)) s).

(** [if let Some(tx) = pending.<protocol>.remove(&request_id) { tx.send(..) }]. *)
Definition resolve_pending (get : Pending.t -> gmap Z Z) (set : gmap Z Z -> Pending.t -> Pending.t)
    (request_id : Z) (a : Answer) : node () :=
  p ← gets pending;
  match get p !! request_id with
  | Some reply =>
      _ ← modify (set_pending (set (delete request_id (get p)) p));
      send_reply reply a
  | None => mret tt
  end.

(** [handle_command]. *)
Definition handle_command (cmd : Command) : node () :=
  match cmd with
  | CmdSubscribe shard reply =>
      res ← on_swarm (relay_subscribe (shard_topic shard));
      send_reply reply (UnitAnswer ((fun _ => tt) <$> res))
  | CmdPublish shard message reply =>
      let data := encode_to_vec message in
      let hash := deterministic_hash (ShardId.pubsub_topic shard) message in
      res ← on_swarm (relay_publish (shard_topic shard) data);
      let res := match res with
                 | Ok id => ok_or "gossipsub returned a non-32-byte message id" (hash_of_slice id)
                 | Err e => Err e
                 end in
      _ ← lift_panic match res with
          | Ok id => if overflow_checks && bool_decide (id <> hash) then None else Some tt
          | Err _ => Some tt
          end;
      send_reply reply (HashAnswer res)
  | CmdDial addr reply =>
      res ← on_swarm (swarm_dial addr);
      send_reply reply (UnitAnswer res)
  | CmdStoreQuery peer request reply =>
      request_pending peer (StoreRequest request)
        (fun id p => Pending.set_store_queries (<[id := reply]> (Pending.store_queries p)) p)
  | CmdLightPush peer request reply =>
      request_pending peer (LightpushRequest request)
        (fun id p => Pending.set_lightpush (<[id := reply]> (Pending.lightpush p)) p)
  | CmdPeerExchange peer num_peers reply =>
      request_pending peer (PeerExchangeRequest (PeerExchange.query num_peers))
        (fun id p => Pending.set_peer_exchange (<[id := reply]> (Pending.peer_exchange p)) p)
  | CmdFilterSubscribe peer request reply =>
      request_pending peer (FilterRequest request)
        (fun id p => Pending.set_filter (<[id := reply]> (Pending.filter p)) p)
  | CmdShutdown => mret tt
  end.

(** [push_filter_matches]: one push per target; the number of them. *)
Fixpoint send_pushes (peers : list PeerId) (push : Filter.MessagePush) : node () :=
  match peers with
  | [] => mret tt
  | peer :: peers =>
      _ ← on_swarm (swarm_send_request peer (PushRequest push));
      send_pushes peers push
  end.

Definition push_filter_matches (topic : string) (msg : WakuMessage) : node Z :=
  targets ← gets (fun s => push_targets (filters s) topic msg);
  _ ← send_pushes targets (Filter.mkMessagePush (Some msg) (Some topic));
  mret (Z.of_nat (length targets)).

(** The [timestamp_gap_secs] of an inbound message. *)
Definition timestamp_gap (now : Z) (msg : WakuMessage) : option (option Z) :=
  match timestamp msg with
  | Some ts => d ← i64_op (now - ts); Some (Some (Z.quot d 1000000000))
  | None => Some None
  end.

(** The body of the [Accept] branch of a relay message. *)
Definition accept_relay (clock : Clock) (source : PeerId) (message_id : bytes) (topic : string)
    (shard : ShardId.t) (decoded : WakuMessage) : node () :=
  _ ← count_metric MetricsOps.relay_message;
  _ ← modify (fun s =>
        match store s with
        | Some _ =>
            if bool_decide (ephemeral decoded <> Some true)
            then set_put_tasks (put_tasks s ++ [(topic, decoded, rx_time_nanos clock)]) s
            else s
        | None => s
        end);
  pushed ← push_filter_matches topic decoded;
  _ ← count_metric (MetricsOps.filter_pushes_add pushed);
  let id := default (deterministic_hash topic decoded) (hash_of_slice message_id) in
  send_event (EvMessage shard decoded id source).

(** The verdict on a relay message. *)
Definition relay_verdict (clock : Clock) (decoded : WakuMessage) : option Validation :=
  gap ← timestamp_gap (now_unix_nanos clock) decoded;
  validate {| timestamp_gap_secs := gap; rln := Absent; shard_saturated := false |}
    policy_default.

(** The relay branch of [handle_event]. *)
Definition handle_relay (clock : Clock) (source : PeerId) (message_id : bytes)
    (message : gossipsub_message) : node () :=
  let topic := Relay.topic message in
  acceptance ← match ShardId.parse topic, ok (prost_decode (data message)) with
    | Ok shard, Some decoded =>
        verdict ← lift_panic (relay_verdict clock decoded);
        _ ← (if decide (verdict = Accept)
             then accept_relay clock source message_id topic shard decoded
             else mret tt);
        mret (acceptance_from verdict)
    | _, _ => mret (acceptance_from Reject)
    end;
  tell_swarm (relay_report message_id source acceptance).

(** [handle_metadata]. *)
Definition handle_metadata (peer : PeerId)
    (m : rr_message Metadata.WakuMetadata Metadata.WakuMetadata) : node (option Event) :=
  match m with
  | RRequest _ channel =>
      _ ← respond_on channel (MetadataResponse (local_meta params));
      mret None
  | RResponse _ response =>
      match Metadata.cluster_id response with
      | Some theirs =>
          if decide (theirs <> local_cluster params) then
            _ ← tell_swarm (swarm_disconnect peer);
            mret (Some (MetadataMismatch peer (Some theirs)))
          else mret None
      | None => mret None
      end
  end.

(** [serve_lightpush]. *)
Definition serve_lightpush (req : Lightpush.LightpushRequest)
    : node Lightpush.LightpushResponse :=
  let id := Lightpush.req_request_id req in
  match Lightpush.req_message req with
  | None => mret (Lightpush.error id 400 "missing message")
  | Some message =>
      let topic := Lightpush.req_pubsub_topic req in
      let data := encode_to_vec message in
      res ← on_swarm (relay_publish topic data);
      match res with
      | Ok _ =>
          count ← gets (fun s => as_u32 (Z.of_nat (length (relay_mesh_peers topic (swarm s)))));
          mret (Lightpush.ok id count)
      | Err e => mret (Lightpush.error id 503 e)
      end
  end.

(** The answer to a store-query request. *)
Definition serve_store_query (clock : Clock) (peer : PeerId) (request : StoreWire.StoreQueryRequest)
    : node StoreWire.StoreQueryResponse :=
  let id := StoreWire.req_request_id request in
  allowed ← state_of (fun s =>
    let '(b, rl) := RateLimiter.allow (store_limiter (limits s)) peer (instant_now clock) in
    (b, set_limits (mkRateLimiters rl (lightpush_limiter (limits s))) s));
  if negb allowed then
    _ ← count_metric MetricsOps.rate_limited;
    mret (respond id 429 "rate limited")
  else
    _ ← count_metric MetricsOps.store_query;
    st ← gets store;
    match st with
    | Some st =>
        '(response, st) ← lift_panic (serve st request);
        _ ← modify (set_store (Some st));
        mret response
    | None => mret (respond id 503 "store not enabled")
    end.

(** The answer to a lightpush request. *)
Definition answer_lightpush (clock : Clock) (peer : PeerId) (request : Lightpush.LightpushRequest)
    : node Lightpush.LightpushResponse :=
  allowed ← state_of (fun s =>
    let '(b, rl) := RateLimiter.allow (lightpush_limiter (limits s)) peer (instant_now clock) in
    (b, set_limits (mkRateLimiters (store_limiter (limits s)) rl) s));
  if negb allowed then
    _ ← count_metric MetricsOps.rate_limited;
    mret (Lightpush.error (Lightpush.req_request_id request) 429 "rate limited")
  else
    _ ← count_metric MetricsOps.lightpush_request;
    serve_lightpush request.

(** The ENRs served to a peer-exchange request. *)
Definition serve_peer_exchange (request : PeerExchange.PeerExchangeRpc)
    : node PeerExchange.PeerExchangeRpc :=
  let num := default 0 (PeerExchange.requested request) in
  enrs ← gets (fun s => enr_to_bytes <$> take (Z.to_nat num) (peer_book s));
  mret (PeerExchange.response enrs).

(** The ip-colocation guard of a new connection: whether it is kept. *)
Definition admit_ip (remote : Multiaddr) : node bool := fun s =>
  if decide (0 < ip_limit params) then
    match multiaddr_ip remote with
    | Some ip =>
        let count := default 0 (ip_counts s !! ip) + 1 in
        if decide (ip_limit params < count)
        then Some (Ok false, set_ip_counts (<[ip := count - 1]> (ip_counts s)) s)
        else Some (Ok true, set_ip_counts (<[ip := count]> (ip_counts s)) s)
    | None => Some (Ok true, s)
    end
  else Some (Ok true, s).

(** The accounting of a closed connection. *)
Definition release_ip (remote : Multiaddr) : node () := modify (fun s =>
  match multiaddr_ip remote with
  | Some ip =>
      match ip_counts s !! ip with
      | Some count =>
          let count := Z.max 0 (count - 1) in
          set_ip_counts
            (if decide (count = 0) then delete ip (ip_counts s)
             else <[ip := count]> (ip_counts s)) s
      | None => s
      end
  | None => s
  end).

(** The store-query branches of [handle_event]. *)
Definition store_query_message (clock : Clock) (peer : PeerId)
    (m : rr_message StoreWire.StoreQueryRequest StoreWire.StoreQueryResponse) : node () :=
  match m with
  | RRequest request channel =>
      response ← serve_store_query clock peer request;
      respond_on channel (StoreResponse response)
  | RResponse request_id response =>
      resolve_pending Pending.store_queries Pending.set_store_queries request_id
        (StoreAnswer (Ok response))
  end.

Definition store_query_failure (request_id : Z) (error : string) : node () :=
  resolve_pending Pending.store_queries Pending.set_store_queries request_id
    (StoreAnswer (Err error)).

(** The light-push branches. *)
Definition lightpush_message (clock : Clock) (peer : PeerId)
    (m : rr_message Lightpush.LightpushRequest Lightpush.LightpushResponse) : node () :=
  match m with
  | RRequest request channel =>
      response ← answer_lightpush clock peer request;
      respond_on channel (LightpushResponse response)
  | RResponse request_id response =>
      resolve_pending Pending.lightpush Pending.set_lightpush request_id
        (LightpushAnswer (Ok response))
  end.

Definition lightpush_failure (request_id : Z) (error : string) : node () :=
  resolve_pending Pending.lightpush Pending.set_lightpush request_id
    (LightpushAnswer (Err error)).

(** The peer-exchange branches. *)
Definition peer_exchange_message
    (m : rr_message PeerExchange.PeerExchangeRpc PeerExchange.PeerExchangeRpc) : node () :=
  match m with
  | RRequest request channel =>
      response ← serve_peer_exchange request;
      respond_on channel (PeerExchangeResponse response)
  | RResponse request_id response =>
      resolve_pending Pending.peer_exchange Pending.set_peer_exchange request_id
        (PeerExchangeAnswer (Ok response))
  end.

Definition peer_exchange_failure (request_id : Z) (error : string) : node () :=
  resolve_pending Pending.peer_exchange Pending.set_peer_exchange request_id
    (PeerExchangeAnswer (Err error)).

(** The filter-subscribe branches: as the full node, and as the client. *)
Definition filter_subscribe_message (peer : PeerId)
    (m : rr_message Filter.FilterSubscribeRequest Filter.FilterSubscribeResponse) : node () :=
  match m with
  | RRequest request channel =>
      response ← state_of (fun s =>
        let '(ack, fs) := apply_filter_request (filters s) peer request in
        (ack, set_filters fs s));
      respond_on channel (FilterResponse response)
  | RResponse request_id response =>
      resolve_pending Pending.filter Pending.set_filter request_id (FilterAnswer (Ok response))
  end.

Definition filter_subscribe_failure (request_id : Z) (error : string) : node () :=
  resolve_pending Pending.filter Pending.set_filter request_id (FilterAnswer (Err error)).

(** The filter-push branch, as the client; responses to our own pushes are ignored. *)
Definition filter_push_message (m : rr_message Filter.MessagePush Filter.FilterPushResponse)
    : node () :=
  match m with
  | RRequest request channel =>
      _ ← match Filter.waku_message request with
          | Some m => send_event (FilterMessage (Filter.push_pubsub_topic request) m)
          | None => mret tt
          end;
      respond_on channel (PushResponse (Filter.mkFilterPushResponse 200))
  | RResponse _ _ => mret tt
  end.

(** [handle_event].  The handler of an event that reports something awaits the send after
    everything it does to the state others share; what is left then concerns the swarm
    only ([effects_precede_send] of [Channels]). *)
Definition handle_event (clock : Clock) (event : SwarmEvent) : node () :=
  match event with
  | NewListenAddr address =>
      _ ← modify (fun s => set_listen_addrs (listen_addrs s ++ [address]) s);
      send_event (Listening address)
  | ConnectionEstablished peer remote =>
      admitted ← admit_ip remote;
      if negb admitted then tell_swarm (swarm_disconnect peer)
      else
        _ ← modify (fun s => set_connected ({[peer]} ∪ connected s) s);
        _ ← on_swarm (swarm_send_request peer (MetadataRequest (local_meta params)));
        send_event (PeerConnected peer)
  | ConnectionClosed peer remote =>
      _ ← release_ip remote;
      _ ← modify (fun s => set_connected (connected s ∖ {[peer]}) s);
      send_event (PeerDisconnected peer)
  | RelayMessage source message_id message => handle_relay clock source message_id message
  | MetadataEvent peer m =>
      ev ← handle_metadata peer m;
      match ev with Some ev => send_event ev | None => mret tt end
  | StoreQueryEvent peer m => store_query_message clock peer m
  | StoreQueryFailure request_id error => store_query_failure request_id error
  | LightpushEvent peer m => lightpush_message clock peer m
  | LightpushFailure request_id error => lightpush_failure request_id error
  | PeerExchangeEvent _ m => peer_exchange_message m
  | PeerExchangeFailure request_id error => peer_exchange_failure request_id error
  | FilterSubscribeEvent peer m => filter_subscribe_message peer m
  | FilterSubscribeFailure request_id error => filter_subscribe_failure request_id error
  | FilterPushEvent _ m => filter_push_message m
  | OtherEvent => mret tt
  end.

(** ** The loop *)

(** What [tokio::select!] delivers: a command ([None] when every handle is dropped),
    or a swarm event and the clocks while it is handled. *)
Inductive Input : Type :=
  | InCommand (cmd : option Command)
  | InEvent (clock : Clock) (event : SwarmEvent).

(** [run] on the inputs it is given, and whether the loop has ended. *)
Fixpoint run (inputs : list Input) (s : state) : option (bool * state) :=
  match inputs with
  | [] => Some (false, s)
  | InCommand None :: _ | InCommand (Some CmdShutdown) :: _ => Some (true, s)
  | InCommand (Some cmd) :: inputs =>
      '(_, s) ← handle_command cmd s;
      run inputs s
  | InEvent clock event :: inputs =>
      '(res, s) ← handle_event clock event s;
      match res with
      | Ok _ => run inputs s
      | Err _ => Some (true, s)
      end
  end.

(** The spawned [store.put] of one task: its error is logged and dropped. *)
Definition run_put_task (i : nat) (s : state) : option state :=
  match put_tasks s !! i, store s with
  | Some (topic, msg, rx_time), Some st =>
      '(_, st) ← ms_put topic msg rx_time st;
      Some (set_put_tasks (delete i (put_tasks s)) (set_store (Some st) s))
  | _, _ => None
  end.

(** The state [spawn] starts [run] in. *)
Definition initial_state (sw : SW) (st : option St) : state :=
  mkNodeState sw Pending.default ∅ rate_limiters_default ∅ ∅ [] MetricsOps.new [] st true [] [] [].

End Driver.
