(* ===== verification/NodeFacts.v ===== *)
(** * NodeFacts: what the driver guarantees

    Theorems on the handlers of [Node]: the relay decision and its effects, the
    connection accounting, the exactly-once answer to outbound requests, the metadata
    handshake and the service answers. *)

From Stdlib Require Import Strings.Byte.
From stdpp Require Import base gmap strings list numbers.
From S2P Require Import Prelude Bytes Text Core Framing Wire Relay Store StoreServe Net Discv5 Services Ratelimit Node.

Open Scope Z_scope.

(** ** The timestamp window *)

Lemma abs_quot d n : 0 < n -> Z.abs (Z.quot d n) = Z.abs d / n.
Proof.
  intros Hn. rewrite <- Z.quot_abs by lia. rewrite (Z.abs_eq n) by lia.
  apply Z.quot_div_nonneg; lia.
Qed.

Section Window.
Context `{BuildProfile}.

Lemma validate_gap d :
  in_i64 d ->
  validate {| timestamp_gap_secs := Some (Z.quot d 1000000000); rln := Absent;
              shard_saturated := false |} policy_default =
  Some (if decide (Z.abs d < 21 * 1000000000) then Accept else Reject).
Proof.
  intros Hd. unfold validate, beyond_tolerance. cbn [timestamp_gap_secs].
  assert (0 <= Z.abs d / 1000000000 <= 2 ^ 63 / 1000000000) as Hb.
  { unfold in_i in Hd. split; [apply Z.div_pos; lia|apply Z.div_le_mono; lia]. }
  assert (2 ^ 63 / 1000000000 < 2 ^ 63) as Hc by done.
  rewrite i64_abs_ok; rewrite abs_quot by lia; [|unfold in_i; lia]. cbn.
  unfold TIMESTAMP_TOLERANCE_SECS. case_decide as Hw.
  - rewrite bool_decide_false; [done|]. apply Z.nlt_ge.
    apply Z.lt_succ_r. apply Z.div_lt_upper_bound; lia.
  - rewrite bool_decide_true; [done|]. apply (Z.lt_le_trans _ 21); [lia|].
    apply Z.div_le_lower_bound; lia.
Qed.

(** C38. The relay accepts a timestamped message exactly when it is less than 21
    seconds from the local clock, in either direction, because the gap is truncated to
    whole seconds before it is compared with the 20 seconds of tolerance; a message
    without timestamp is always accepted.  A gap that overflows [i64] is a panic in a
    build with overflow checks, and in a release build is rejected, the wrapped value
    being far from zero. *)
Theorem relay_window (clock : Clock) (m : WakuMessage) :
  0 <= now_unix_nanos clock < 2 ^ 62 -> wf_message m ->
  relay_verdict clock m =
  match timestamp m with
  | None => Some Accept
  | Some ts =>
      if decide (in_i64 (now_unix_nanos clock - ts)) then
        Some (if decide (Z.abs (now_unix_nanos clock - ts) < 21 * 1000000000)
              then Accept else Reject)
      else if overflow_checks then None else Some Reject
  end.
Proof.
  intros Hnow [_ Hts]. unfold relay_verdict, timestamp_gap.
  destruct (timestamp m) as [ts|]; [|done]. specialize (Hts ts eq_refl).
  set (d := now_unix_nanos clock - ts). unfold i64_op. case_decide as Hd.
  - apply (validate_gap d Hd).
  - destruct overflow_checks; [done|].
    pose proof (wrap_signed_range 64 d ltac:(lia)) as Hr.
    etrans; [exact (validate_gap (as_i64 d) Hr)|]. rewrite decide_False; [done|].
    unfold in_i in *. unfold wrap_signed in *. subst d.
    set (d := now_unix_nanos clock - ts) in *.
    assert ((d + 2 ^ (64 - 1)) / 2 ^ 64 = 1) as Hq 
      by (symmetry; apply Z.div_unique_pos with (d - 2 ^ 63); lia).
    pose proof (Z.div_mod (d + 2 ^ (64 - 1)) (2 ^ 64) ltac:(lia)) as Hdm. rewrite Hq in Hdm. lia.
Qed.

End Window.

Lemma relay_window_witness :
  @relay_verdict true (mkClock 1700000020999999999 0 0)
    (mkWakuMessage [] "/a/1/b/p" None (Some 1700000000000000000) None None None) = Some Accept.
Proof.
  rewrite (@relay_window true); [reflexivity|cbn; lia|].
  split; cbn; [done|]. intros t [= <-]. unfold in_i; lia.
Defined.

(** ** What a handler does to the state

    [along R m]: the state [m] ends in is related by [R] to the one it started in. *)

Section Frames.
Context {SW St WakuEnr : Type} `{Swarm SW, MessageStore St, EnrOps WakuEnr}.
Context `{EnrCrypto}.
Context `{Sha256, BuildProfile, Prost WakuMessage}.
Variable params : NodeParams.

Abbreviation state := (NodeState SW St WakuEnr).
Abbreviation node := (action state ()).

(** The swarm after pushing to a list of peers. *)
Definition pushed_swarm (push : Filter.MessagePush) (peers : list PeerId) (sw : SW) : SW :=
  foldl (fun sw p => (swarm_send_request p (PushRequest push) sw).2) sw peers.

Lemma send_pushes_run peers push (s : state) :
  send_pushes peers push s = Some (Ok tt, set_swarm (pushed_swarm push peers (swarm s)) s).
Proof.
  revert s. induction peers as [|p peers IH]; intros s; [by destruct s|].
  cbn [send_pushes]. unfold mbind, action_bind, on_swarm.
  destruct (swarm_send_request p (PushRequest push) (swarm s)) as [id sw] eqn:E.
  rewrite IH. cbn. by rewrite E.
Qed.

Definition along {A} (R : relation state) (m : node A) : Prop :=
  forall s res s', m s = Some (res, s') -> R s s'.

Lemma along_ret {A} (R : relation state) `{!Reflexive R} (a : A) : along R (mret a).
Proof. by intros s res s' [= <- <-]. Qed.

Lemma along_bind {A A'} (R : relation state) `{!Transitive R} (m : node A) (k : A -> node A') :
  along R m -> (forall a, along R (k a)) -> along R (m ≫= k).
Proof.
  intros Hm Hk s res s'. unfold mbind, action_bind.
  destruct (m s) as [[[a|e] s1]|] eqn:E; [| |done].
  - intros E2. etrans; [by eapply Hm|by eapply Hk].
  - intros [= <- <-]. by eapply Hm.
Qed.

Lemma along_weaken {A} (R R' : relation state) (m : node A) :
  (forall s s', R s s' -> R' s s') -> along R m -> along R' m.
Proof. intros HR Hm s res s' E. by eapply HR, Hm. Qed.

(** Frames: what a handler leaves alone. *)
Definition frame {A B} (f : state -> B) : node A -> Prop := along (fun s s' => f s' = f s).

#[local] Instance frame_preorder {B} (f : state -> B) : PreOrder (fun s s' => f s' = f s).
Proof. split; [done|]. intros s1 s2 s3 E1 E2. by rewrite E2. Qed.

Lemma frame_ret {A B} (f : state -> B) (a : A) : frame f (mret a).
Proof. apply along_ret, _. Qed.

Lemma frame_bind {A A' B} (f : state -> B) (m : node A) (k : A -> node A') :
  frame f m -> (forall a, frame f (k a)) -> frame f (m ≫= k).
Proof. apply along_bind, _. Qed.

Lemma frame_modify {B} (f : state -> B) g : (forall s, f (g s) = f s) -> frame f (modify g).
Proof. by intros Hg s res s' [= <- <-]. Qed.

Lemma frame_gets {A B} (f : state -> B) (g : state -> A) : frame f (gets g).
Proof. by intros s res s' [= <- <-]. Qed.

Lemma frame_lift_panic {A B} (f : state -> B) (o : option A) : frame f (lift_panic o).
Proof. intros s res s'. unfold lift_panic. destruct o; [by intros [= <- <-]|done]. Qed.

Lemma frame_on_swarm {A B} (f : state -> B) (g : SW -> A * SW) :
  (forall x s, f (set_swarm x s) = f s) -> frame f (on_swarm g).
Proof.
  intros Hf s res s'. unfold on_swarm. destruct (g (swarm s)). intros [= <- <-]. apply Hf.
Qed.

Lemma frame_send_event {B} (f : state -> B) ev :
  (forall x s, f (set_events x s) = f s) -> frame f (send_event ev).
Proof. intros Hf s res s'. unfold send_event. destruct (evt_rx_open s); intros [= <- <-]; auto. Qed.

Lemma frame_state_of {A B} (f : state -> B) (g : state -> A * state) :
  (forall s, f (g s).2 = f s) -> frame f (state_of g).
Proof.
  intros Hg s res s'. unfold state_of. specialize (Hg s). destruct (g s). by intros [= <- <-].
Qed.

Lemma frame_send_pushes {B} (f : state -> B) peers push :
  (forall x s, f (set_swarm x s) = f s) -> frame f (send_pushes peers push).
Proof. intros Hf s res s'. rewrite send_pushes_run. intros [= <- <-]. apply Hf. Qed.

Lemma frame_admit_ip {B} (f : state -> B) remote :
  (forall x s, f (set_ip_counts x s) = f s) -> frame f (admit_ip params remote).
Proof. intros Hf s res s'. unfold admit_ip. repeat case_match; by intros [= <- <-]. Qed.

End Frames.

(** Decompose a handler into its primitive operations. *)
Ltac solve_frame :=
  repeat first
    [ apply frame_ret | apply frame_admit_ip; done | apply frame_gets | apply frame_lift_panic
    | apply frame_bind; [|intros]
    | apply frame_send_event; done | apply frame_on_swarm; done | apply frame_send_pushes; done
    | apply frame_modify; intros; repeat case_match; done
    | apply frame_state_of; intros; repeat case_match; done
    | case_match ].

(** ** Relay messages *)

Section Facts.
Context {SW St WakuEnr : Type} `{Swarm SW, MessageStore St, EnrOps WakuEnr}.
Context `{EnrCrypto}.
Context `{Sha256, BuildProfile, Prost WakuMessage}.
Variable params : NodeParams.

Abbreviation state := (NodeState SW St WakuEnr).
Abbreviation node := (action state ()).

(** The store task an accepted message leaves behind, if any. *)
Definition new_task (clock : Clock) (topic : string) (m : WakuMessage) (s : state)
    : list (string * WakuMessage * Z) :=
  match store s with
  | Some _ => if bool_decide (ephemeral m <> Some true) then [(topic, m, rx_time_nanos clock)] else []
  | None => []
  end.

(** The state after an accepted message. *)
Definition accepted (clock : Clock) (source : PeerId) (message_id : bytes) (topic : string)
    (shard : ShardId.t) (m : WakuMessage) (s : state) : state :=
  let targets := push_targets (filters s) topic m in
  let push := Filter.mkMessagePush (Some m) (Some topic) in
  let id := default (deterministic_hash topic m) (hash_of_slice message_id) in
  set_swarm (relay_report message_id source MA_Accept (pushed_swarm push targets (swarm s)))
    (set_events (events s ++ [EvMessage shard m id source])
      (set_put_tasks (put_tasks s ++ new_task clock topic m s)
        (set_metrics (MetricsOps.filter_pushes_add (Z.of_nat (length targets))
          (MetricsOps.relay_message (metrics s))) s))).

Lemma relay_message_run (clock : Clock) (source : PeerId) (message_id : bytes)
    (message : gossipsub_message) (s : state) :
  evt_rx_open s = true ->
  let topic := Relay.topic message in
  handle_event params clock (RelayMessage source message_id message) s =
  match ShardId.parse topic, ok (prost_decode (data message)) with
  | Ok shard, Some m =>
      match relay_verdict clock m with
      | Some Accept => Some (Ok tt, accepted clock source message_id topic shard m s)
      | Some v => Some (Ok tt, set_swarm (relay_report message_id source (acceptance_from v)
                                            (swarm s)) s)
      | None => None
      end
  | _, _ => Some (Ok tt, set_swarm (relay_report message_id source MA_Reject (swarm s)) s)
  end.
Proof.
  intros Ho topic. cbn [handle_event]. unfold handle_relay. fold topic.
  destruct (ShardId.parse topic) as [shard|e]; [|done].
  destruct (ok (prost_decode (data message))) as [m|]; [|done].
  unfold mbind, action_bind, lift_panic. cbn [mbind option_bind].
  destruct (relay_verdict clock m) as [v|]; [|done]. cbn.
  case_decide as Hv; [subst v|by destruct v].
  unfold accept_relay, push_filter_matches, count_metric, modify, mbind, action_bind, gets.
  destruct s; cbn in *. subst.
  unfold accepted, new_task. destruct store as [st|]; cbn.
  - destruct (bool_decide (ephemeral m <> Some true)); rewrite send_pushes_run; cbn;
      by rewrite ?app_nil_r.
  - rewrite send_pushes_run. cbn. by rewrite app_nil_r.
Qed.

(** C7. A relay message is handled by its verdict.  When the topic is a shard topic,
    the payload decodes and the verdict is Accept, the application gets one event with
    the gossipsub id, a put task is queued exactly when there is a store and the
    message is not ephemeral, each subscriber whose filter matches is sent one push,
    the counters count it and Accept is reported.  In every other case that does not
    panic the message is dropped: the verdict is reported to gossipsub, Reject for an
    undecodable message or a topic that is no shard, and nothing else changes. *)

Theorem relay_message_effects (clock : Clock) (source : PeerId) (message_id : bytes)
    (message : gossipsub_message) (s : state) :
  evt_rx_open s = true ->
  let topic := Relay.topic message in
  handle_event params clock (RelayMessage source message_id message) s =
  match ShardId.parse topic, ok (prost_decode (data message)) with
  | Ok shard, Some m =>
      match relay_verdict clock m with
      | Some Accept => Some (Ok tt, accepted clock source message_id topic shard m s)
      | Some v => Some (Ok tt, set_swarm (relay_report message_id source (acceptance_from v)
                                            (swarm s)) s)
      | None => None
      end
  | _, _ => Some (Ok tt, set_swarm (relay_report message_id source MA_Reject (swarm s)) s)
  end.
Proof. apply relay_message_run. Qed.

(** ** What a handler leaves alone *)

(** Of the events, only the two connection events touch the counts. *)
Definition is_connection_event (ev : SwarmEvent) : bool :=
  match ev with ConnectionEstablished _ _ | ConnectionClosed _ _ => true | _ => false end.

Lemma ip_counts_frame_command cmd : frame (ip_counts : state -> _) (handle_command cmd).
Proof.
  destruct cmd; unfold handle_command, request_pending, send_reply; solve_frame.
Qed.

Lemma ip_counts_frame_event clock ev :
  is_connection_event ev = false -> frame (ip_counts : state -> _) (handle_event params clock ev).
Proof.
  intros Hev. destruct ev; try done; cbn [handle_event];
    unfold store_query_message, store_query_failure, lightpush_message, lightpush_failure,
      peer_exchange_message, peer_exchange_failure, filter_subscribe_message,
      filter_subscribe_failure, filter_push_message,
      handle_relay, accept_relay, push_filter_matches, count_metric, handle_metadata,
      serve_store_query, answer_lightpush, serve_lightpush, serve_peer_exchange, resolve_pending,
      respond_on, tell_swarm, send_reply; solve_frame.
Qed.

(** ** Sent events stay sent *)

Definition grows {A} : node A -> Prop := along (fun s s' => events s `prefix_of` events s').

#[local] Instance grows_preorder : PreOrder (fun s s' : state => events s `prefix_of` events s').
Proof. split; [intros s; reflexivity|]. intros s1 s2 s3 E1 E2. by etrans. Qed.

Lemma grows_frame {A} (m : node A) : frame events m -> grows m.
Proof. apply along_weaken. by intros s s' ->. Qed.

Lemma grows_bind {A A'} (m : node A) (k : A -> node A') :
  grows m -> (forall a, grows (k a)) -> grows (m ≫= k).
Proof. apply along_bind, _. Qed.

Lemma grows_send_event ev : grows (send_event ev).
Proof.
  intros s res s'. unfold send_event. destruct (evt_rx_open s); intros [= <- <-]; [|done].
  by apply prefix_app_r.
Qed.

Ltac solve_grows :=
  repeat first
    [ apply grows_send_event | apply grows_frame; solve [solve_frame]
    | apply grows_bind; [|intros] | case_match ].

Lemma events_frame_command cmd : frame (events : state -> _) (handle_command cmd).
Proof. destruct cmd; unfold handle_command, request_pending, send_reply; solve_frame. Qed.

Lemma events_grow_command cmd : grows (handle_command cmd).
Proof. apply grows_frame, events_frame_command. Qed.

Lemma events_grow_event clock ev : grows (handle_event params clock ev).
Proof.
  destruct ev; cbn [handle_event];
    unfold store_query_message, store_query_failure, lightpush_message, lightpush_failure,
      peer_exchange_message, peer_exchange_failure, filter_subscribe_message,
      filter_subscribe_failure, filter_push_message, release_ip,
      handle_relay, accept_relay, push_filter_matches, count_metric, handle_metadata,
      serve_store_query, answer_lightpush, serve_lightpush, serve_peer_exchange, resolve_pending,
      respond_on, tell_swarm, send_reply; solve_grows.
Qed.

Lemma events_grow_run i s stopped s' :
  run params [i] s = Some (stopped, s') -> events s `prefix_of` events s'.
Proof.
  destruct i as [[cmd|]|clock ev]; cbn [run]; [|by intros [= <- <-]|].
  - assert (cmd = CmdShutdown \/ cmd <> CmdShutdown) as [->|Hc] by (destruct cmd; auto);
      [by intros [= <- <-]|].
    pose proof (events_grow_command cmd s) as Hg. destruct (handle_command cmd s) as [[r s1]|];
      [|by destruct cmd].
    specialize (Hg _ _ eq_refl). by destruct cmd; try done; intros [= <- <-].
  - pose proof (events_grow_event clock ev s) as Hg.
    destruct (handle_event params clock ev s) as [[[[]|] s1]|]; [| |done];
      intros [= <- <-]; by eapply Hg.
Qed.

(** ** At most one event per input *)

Definition sends {A} (n : nat) (m : node A) : Prop :=
  forall s res s', m s = Some (res, s') -> (length (events s') <= length (events s) + n)%nat.

Lemma sends_frame {A} n (m : node A) : frame events m -> sends n m.
Proof. intros Hm s res s' E. rewrite (Hm _ _ _ E). lia. Qed.

Lemma sends_bind {A A'} n k (m : node A) (f : A -> node A') :
  sends n m -> (forall a, sends k (f a)) -> sends (n + k) (m ≫= f).
Proof.
  intros Hm Hf s res s'. unfold mbind, action_bind.
  destruct (m s) as [[[a|e] s1]|] eqn:E; [| |done]; apply Hm in E.
  - intros E2%Hf. lia.
  - intros [= <- <-]. lia.
Qed.

Lemma sends_event ev : sends 1 (send_event ev).
Proof.
  intros s res s'. unfold send_event. destruct (evt_rx_open s); intros [= <- <-]; [|lia].
  cbn. rewrite length_app. cbn. lia.
Qed.

Ltac solve_sends :=
  repeat first
    [ apply sends_event | apply sends_frame; solve [solve_frame]
    | apply (sends_bind 0 1); [apply sends_frame; solve [solve_frame]|intros]
    | apply (sends_bind 1 0); [|intros; apply sends_frame; solve [solve_frame]]
    | case_match ].

Lemma event_sends_one clock ev : sends 1 (handle_event params clock ev).
Proof.
  destruct ev; cbn [handle_event];
    unfold store_query_message, store_query_failure, lightpush_message, lightpush_failure,
      peer_exchange_message, peer_exchange_failure, filter_subscribe_message,
      filter_subscribe_failure, filter_push_message, release_ip,
      handle_relay, accept_relay, push_filter_matches, count_metric, handle_metadata,
      serve_store_query, answer_lightpush, serve_lightpush, serve_peer_exchange, resolve_pending,
      respond_on, tell_swarm, send_reply; solve_sends.
Qed.

(** ** Connections *)

(** Every count is at least one and at most the limit. *)
Definition ip_counts_ok (s : state) : Prop :=
  map_Forall (fun _ n => 1 <= n <= ip_limit params) (ip_counts s).

Lemma admit_ip_ok remote s res s' :
  ip_counts_ok s -> admit_ip params remote s = Some (res, s') -> ip_counts_ok s'.
Proof.
  unfold ip_counts_ok, admit_ip. intros Hs. case_decide; [|by intros [= <- <-]].
  destruct (multiaddr_ip remote) as [ip|]; [|by intros [= <- <-]].
  assert (0 <= default 0 (ip_counts s !! ip) <= ip_limit params) as Hc.
  { destruct (ip_counts s !! ip) as [n|] eqn:E; cbn; [|lia]. apply Hs in E. cbn in E. lia. }
  case_decide; intros [= <- <-]; cbn; apply map_Forall_insert_2; try done; lia.
Qed.

Lemma release_ip_ok remote s res s' :
  ip_counts_ok s -> release_ip remote s = Some (res, s') -> ip_counts_ok s'.
Proof.
  unfold ip_counts_ok, release_ip, modify. intros Hs [= <- <-].
  destruct (multiaddr_ip remote) as [ip|]; [|done].
  destruct (ip_counts s !! ip) as [n|] eqn:E; [|done]. apply Hs in E as En. cbn in En.
  cbn. case_decide.
  - by apply map_Forall_delete.
  - apply map_Forall_insert_2; [lia|done].
Qed.

(** Sequencing for an invariant. *)
Lemma bind_inv {A A'} (m : node A) (k : A -> node A') s res s' :
  (m ≫= k) s = Some (res, s') ->
  exists r1 s1, m s = Some (r1, s1) /\
    (s' = s1 /\ (exists e, r1 = Err e) \/ exists a, r1 = Ok a /\ k a s1 = Some (res, s')).
Proof.
  unfold mbind, action_bind. destruct (m s) as [[[a|e] s1]|]; [| |done].
  - intros E. exists (Ok a), s1. eauto.
  - intros [= <- <-]. exists (Err e), s1. eauto.
Qed.

Lemma ip_counts_ok_frame {A} (m : node A) s res s' :
  frame ip_counts m -> m s = Some (res, s') -> ip_counts_ok s -> ip_counts_ok s'.
Proof. unfold ip_counts_ok. by intros Hf ->%Hf. Qed.

Lemma handle_event_ip_ok clock ev s res s' :
  ip_counts_ok s -> handle_event params clock ev s = Some (res, s') -> ip_counts_ok s'.
Proof.
  intros Hs E. destruct (is_connection_event ev) eqn:Hev.
  - destruct ev as [|p remote|p remote| | | | | | | | | | | |]; try done;
      cbn [handle_event] in E;
      apply bind_inv in E as (r1 & s1 & E1 & [[-> _]|(a & _ & E)]);
      try (by eapply admit_ip_ok); try (by eapply release_ip_ok).
    + eapply ip_counts_ok_frame; [|exact E|by eapply admit_ip_ok]. unfold tell_swarm. solve_frame.
    + eapply ip_counts_ok_frame; [|exact E|by eapply release_ip_ok]. solve_frame.
  - eapply ip_counts_ok_frame; [by apply ip_counts_frame_event|exact E|done].
Qed.

(** The ip-colocation accounting stays within bounds: in every run of the driver
    from its initial state, whatever commands and events it is given, the count of every
    address is between one and the limit, and with limit 0 nothing is counted. *)
Theorem ip_counts_bounded (sw : SW) (st : option St) (inputs : list Input) (stopped : bool)
    (s' : state) :
  run params inputs (initial_state sw st) = Some (stopped, s') ->
  forall ip n, ip_counts s' !! ip = Some n -> 1 <= n <= ip_limit params.
Proof.
  assert (forall s, ip_counts_ok s -> run params inputs s = Some (stopped, s') -> ip_counts_ok s')
    as Hrun.
  { induction inputs as [|i inputs IH]; intros s Hs; [by intros [= <- <-]|].
    destruct i as [[cmd|]|clock ev]; cbn; [|by intros [= <- <-]|].
    - assert (cmd = CmdShutdown \/ cmd <> CmdShutdown) as [->|Hc] by (destruct cmd; auto);
        [by intros [= <- <-]|].
      destruct (handle_command cmd s) as [[r s1]|] eqn:E;
        [|by destruct cmd].
      intros Hr. apply (IH s1); [|by destruct cmd].
      eapply ip_counts_ok_frame; [apply ip_counts_frame_command|exact E|done].
    - destruct (handle_event params clock ev s) as [[r s1]|] eqn:E; [|done]. cbn.
      apply handle_event_ip_ok in E; [|done].
      destruct r; [by apply IH|by intros [= <- <-]]. }
  intros E ip n Hl. eapply (Hrun (initial_state sw st)); [apply map_Forall_empty|exact E|exact Hl].
Qed.

(** The state after an admitted connection. *)
Definition joined (p : PeerId) (s : state) : state :=
  set_events (events s ++ [PeerConnected p])
    (set_swarm (swarm_send_request p (MetadataRequest (local_meta params)) (swarm s)).2
      (set_connected ({[p]} ∪ connected s) s)).

Lemma established_run clock p remote (s : state) b s1 :
  admit_ip params remote s = Some (Ok b, s1) -> evt_rx_open s1 = true ->
  handle_event params clock (ConnectionEstablished p remote) s =
  Some (Ok tt, if b then joined p s1 else set_swarm (swarm_disconnect p (swarm s1)) s1).
Proof.
  intros E Ho. cbn [handle_event]. unfold mbind, action_bind. rewrite E. destruct b; [|done].
  cbn. unfold on_swarm, send_event, modify, joined. cbn.
  destruct (swarm_send_request p _ _) as [id sw]. cbn. by rewrite Ho.
Qed.

(** The state after a closed connection. *)
Lemma closed_run clock p remote (s : state) :
  evt_rx_open s = true ->
  exists s1, release_ip remote s = Some (Ok tt, s1) /\ evt_rx_open s1 = true /\
    connected s1 = connected s /\
    handle_event params clock (ConnectionClosed p remote) s =
    Some (Ok tt, set_events (events s1 ++ [PeerDisconnected p])
                   (set_connected (connected s1 ∖ {[p]}) s1)).
Proof.
  intros Ho. eexists. split; [reflexivity|].
  match goal with |- evt_rx_open ?x = true /\ _ => set (s1 := x) end.
  assert (evt_rx_open s1 = true /\ connected s1 = connected s) as [Ho1 Hc1].
  { subst s1. repeat case_match; done. }
  split; [done|]. split; [done|]. cbn [handle_event].
  unfold mbind, action_bind, release_ip, modify, send_event. fold s1. cbn. by rewrite Ho1.
Qed.

Lemma release_ip_count remote ip (s s1 : state) n :
  multiaddr_ip remote = Some ip -> ip_counts s !! ip = Some n -> 1 <= n ->
  release_ip remote s = Some (Ok tt, s1) -> default 0 (ip_counts s1 !! ip) = n - 1.
Proof.
  intros Hip Hn Hpos [= <-]. rewrite Hip, Hn. cbn. rewrite Z.max_r by lia.
  case_decide; [rewrite lookup_delete_eq; cbn; lia|by rewrite lookup_insert_eq].
Qed.

(** A refused connection frees a slot it never held: with an address at its limit,
    a further connection is refused and disconnected without being counted, but when it
    closes the count goes down all the same, so the next connection from that address is
    admitted while all the earlier ones are still open. *)
Theorem refused_connection_frees_slot (c1 c2 c3 : Clock) (p q : PeerId) (remote : Multiaddr)
    (ip : IpAddr) (s : state) :
  0 < ip_limit params -> multiaddr_ip remote = Some ip -> evt_rx_open s = true ->
  ip_counts s !! ip = Some (ip_limit params) ->
  exists s1 s2 s3,
    handle_event params c1 (ConnectionEstablished p remote) s = Some (Ok tt, s1) /\
    swarm s1 = swarm_disconnect p (swarm s) /\ connected s1 = connected s /\
    ip_counts s1 !! ip = Some (ip_limit params) /\
    handle_event params c2 (ConnectionClosed p remote) s1 = Some (Ok tt, s2) /\
    default 0 (ip_counts s2 !! ip) = ip_limit params - 1 /\
    handle_event params c3 (ConnectionEstablished q remote) s2 = Some (Ok tt, s3) /\
    connected s3 = {[q]} ∪ connected s ∖ {[p]}.
Proof.
  intros Hlim Hip Ho Hc.
  assert (admit_ip params remote s = Some (Ok false,
    set_ip_counts (<[ip := ip_limit params]> (ip_counts s)) s)) as E1.
  { unfold admit_ip. rewrite decide_True, Hip, Hc by done. cbn.
    rewrite decide_True by lia. by rewrite Z.add_simpl_r. }
  set (s1 := set_swarm (swarm_disconnect p (swarm s))
    (set_ip_counts (<[ip := ip_limit params]> (ip_counts s)) s)).
  destruct (closed_run c2 p remote s1 Ho) as (s2 & Er & Ho2 & Hc2 & E2).
  assert (default 0 (ip_counts s2 !! ip) = ip_limit params - 1) as Hd.
  { apply (release_ip_count remote ip s1); [done|apply lookup_insert_eq|lia|done]. }
  exists s1. do 2 eexists. split; [exact (established_run c1 p remote s false _ E1 Ho)|].
  split; [done|]. split; [done|]. split; [apply lookup_insert_eq|]. split; [exact E2|].
  split; [exact Hd|]. split.
  - apply (established_run c3 q remote _ true).
    + unfold admit_ip. rewrite decide_True, Hip by done. cbn. rewrite Hd, Z.sub_add.
      rewrite decide_False by lia. reflexivity.
    + exact Ho2.
  - cbn. by rewrite Hc2.
Qed.

(** Closing any one of a peer's connections takes the peer out of the connected
    set and reports it disconnected, even when it has other connections: after two
    connections and one close a peer that is still connected is not listed. *)
Theorem close_forgets_peer (c1 c2 c3 : Clock) (p : PeerId) (r1 r2 : Multiaddr) (s : state) :
  ip_limit params = 0 -> evt_rx_open s = true ->
  exists s', run params [InEvent c1 (ConnectionEstablished p r1);
                         InEvent c2 (ConnectionEstablished p r2);
                         InEvent c3 (ConnectionClosed p r1)] s = Some (false, s') /\
    (p ∉ connected s') /\
    events s' = events s ++ [PeerConnected p; PeerConnected p; PeerDisconnected p].
Proof.
  intros Hlim Ho.
  assert (forall r (t : state), admit_ip params r t = Some (Ok true, t)) as Ha.
  { intros r t. unfold admit_ip. by rewrite decide_False by lia. }
  cbn [run]. rewrite (established_run c1 p r1 s true s) by done. cbn [mbind option_bind].
  rewrite (established_run c2 p r2 _ true _ (Ha _ _)) by done. cbn [mbind option_bind].
  destruct (closed_run c3 p r1 (joined p (joined p s)) Ho) as (s1 & Er & _ & Hc & ->).
  eexists. split; [reflexivity|]. cbn. split; [set_solver|].
  assert (events s1 = events (joined p (joined p s))) as ->.
  { injection Er as <-. repeat case_match; done. }
  cbn. by rewrite <- !app_assoc.
Qed.

(** ** Outbound requests *)

(** A command that sends a request, the map its reply channel waits in, and an event
    that settles it: the response, or a failure. *)
Inductive exchange : Command -> PeerId -> OutRequest -> Z -> (Pending.t -> gmap Z Z) ->
    (Z -> SwarmEvent) -> Answer -> Prop :=
  | ex_store peer req reply from resp :
      exchange (CmdStoreQuery peer req reply) peer (StoreRequest req) reply Pending.store_queries
        (fun id => StoreQueryEvent from (RResponse id resp)) (StoreAnswer (Ok resp))
  | ex_store_failure peer req reply err :
      exchange (CmdStoreQuery peer req reply) peer (StoreRequest req) reply Pending.store_queries
        (fun id => StoreQueryFailure id err) (StoreAnswer (Err err))
  | ex_lightpush peer req reply from resp :
      exchange (CmdLightPush peer req reply) peer (LightpushRequest req) reply Pending.lightpush
        (fun id => LightpushEvent from (RResponse id resp)) (LightpushAnswer (Ok resp))
  | ex_lightpush_failure peer req reply err :
      exchange (CmdLightPush peer req reply) peer (LightpushRequest req) reply Pending.lightpush
        (fun id => LightpushFailure id err) (LightpushAnswer (Err err))
  | ex_peer_exchange peer n reply from resp :
      exchange (CmdPeerExchange peer n reply) peer (PeerExchangeRequest (PeerExchange.query n))
        reply Pending.peer_exchange
        (fun id => PeerExchangeEvent from (RResponse id resp)) (PeerExchangeAnswer (Ok resp))
  | ex_peer_exchange_failure peer n reply err :
      exchange (CmdPeerExchange peer n reply) peer (PeerExchangeRequest (PeerExchange.query n))
        reply Pending.peer_exchange
        (fun id => PeerExchangeFailure id err) (PeerExchangeAnswer (Err err))
  | ex_filter peer req reply from resp :
      exchange (CmdFilterSubscribe peer req reply) peer (FilterRequest req) reply Pending.filter
        (fun id => FilterSubscribeEvent from (RResponse id resp)) (FilterAnswer (Ok resp))
  | ex_filter_failure peer req reply err :
      exchange (CmdFilterSubscribe peer req reply) peer (FilterRequest req) reply Pending.filter
        (fun id => FilterSubscribeFailure id err) (FilterAnswer (Err err)).

Lemma resolve_pending_run get set id a (s : state) :
  resolve_pending get set id a s =
  Some (Ok tt, match get (pending s) !! id with
               | Some reply => set_replies (replies s ++ [(reply, a)])
                   (set_pending (set (delete id (get (pending s))) (pending s)) s)
               | None => s
               end).
Proof.
  unfold resolve_pending, mbind, action_bind, gets.
  destruct (get (pending s) !! id); done.
Qed.

(** A request, parked and settled. *)
Lemma outbound_exchange (cmd : Command) (peer : PeerId) (out : OutRequest) (reply : Z)
    (get : Pending.t -> gmap Z Z) (ev : Z -> SwarmEvent) (a : Answer) (s : state) :
  exchange cmd peer out reply get ev a ->
  let id := (swarm_send_request peer out (swarm s)).1 in
  get (pending s) !! id = None ->
  exists s1, handle_command cmd s = Some (Ok tt, s1) /\
    get (pending s1) !! id = Some reply /\ replies s1 = replies s /\
    forall clock, exists s2, handle_event params clock (ev id) s1 = Some (Ok tt, s2) /\
      replies s2 = replies s ++ [(reply, a)] /\ pending s2 = pending s /\
      forall clock', handle_event params clock' (ev id) s2 = Some (Ok tt, s2).
Proof.
  intros Hex. destruct Hex; cbn zeta; intros Hn; cbn [handle_command handle_event];
    unfold store_query_message, store_query_failure, lightpush_message, lightpush_failure,
      peer_exchange_message, peer_exchange_failure, filter_subscribe_message,
      filter_subscribe_failure;
    unfold request_pending, mbind, action_bind, on_swarm, modify;
    (destruct (swarm_send_request peer _ (swarm s)) as [id sw]; cbn in Hn);
    (eexists; split; [reflexivity|]); cbn; (split; [apply lookup_insert_eq|]);
    (split; [done|]); intros clock; setoid_rewrite resolve_pending_run; cbn;
    rewrite lookup_insert_eq; eexists; (split; [reflexivity|]); cbn;
    rewrite delete_insert_eq, (delete_id _ _ Hn); (split; [done|]);
    (split; [by destruct s as [? []]|]); intros clock'; cbn;
    rewrite ?Hn; by destruct s as [? []].
Qed.

(** C10. A store, lightpush, peer-exchange or filter request is answered exactly once:
    when the swarm gives it an id not pending yet, the command parks its reply channel
    under that id and replies nothing; the response or failure with that id then sends
    exactly that reply to exactly that channel and leaves the pending tables as they
    were before, and a second response with the same id is ignored. *)

Theorem outbound_answered_once (cmd : Command) (peer : PeerId) (out : OutRequest) (reply : Z)
    (get : Pending.t -> gmap Z Z) (ev : Z -> SwarmEvent) (a : Answer) (s : state) :
  exchange cmd peer out reply get ev a ->
  let id := (swarm_send_request peer out (swarm s)).1 in
  get (pending s) !! id = None ->
  exists s1, handle_command cmd s = Some (Ok tt, s1) /\
    get (pending s1) !! id = Some reply /\ replies s1 = replies s /\
    forall clock, exists s2, handle_event params clock (ev id) s1 = Some (Ok tt, s2) /\
      replies s2 = replies s ++ [(reply, a)] /\ pending s2 = pending s /\
      forall clock', handle_event params clock' (ev id) s2 = Some (Ok tt, s2).
Proof. apply outbound_exchange. Qed.

(** ** From the mesh to the store *)

(** An accepted message, and its put task. *)
Lemma accepted_task_run clock source id message shard m st r st' (s : state) :
  evt_rx_open s = true -> store s = Some st ->
  ShardId.parse (Relay.topic message) = Ok shard -> prost_decode (data message) = Ok m ->
  relay_verdict clock m = Some Accept -> ephemeral m <> Some true ->
  ms_put (Relay.topic message) m (rx_time_nanos clock) st = Some (r, st') ->
  let s1 := accepted clock source id (Relay.topic message) shard m s in
  handle_event params clock (RelayMessage source id message) s = Some (Ok tt, s1) /\
  run_put_task (length (put_tasks s)) s1 = Some (set_put_tasks (put_tasks s) (set_store (Some st') s1)).
Proof.
  intros Ho Hst Hp Hd Hv He Hput s1. split.
  - rewrite relay_message_run, Hp, Hd by done. cbn [ok]. by rewrite Hv.
  - assert (put_tasks s1 = put_tasks s ++ [(Relay.topic message, m, rx_time_nanos clock)]) as Ht.
    { cbn. unfold new_task. by rewrite Hst, bool_decide_true. }
    unfold run_put_task. rewrite Ht, list_lookup_middle, delete_middle, app_nil_r by done.
    change (store s1) with (store s). by rewrite Hst, Hput.
Qed.

(** C6. Store on relay, end to end: when an accepted non-ephemeral message arrives with
    the id the configured message-id function gives it, the application sees that id,
    one put task is queued, and once the task has run successfully the store holds a
    message under that id: the received one, unless the id was taken before. *)
Theorem relayed_message_stored `{!MessageStoreLaws St} (clock : Clock) (source : PeerId)
    (message : gossipsub_message) (shard : ShardId.t) (m : WakuMessage) (st st' : St) (s : state) :
  evt_rx_open s = true -> store s = Some st -> valid st ->
  ShardId.parse (Relay.topic message) = Ok shard -> prost_decode (data message) = Ok m ->
  wf_message m -> ephemeral m <> Some true -> relay_verdict clock m = Some Accept ->
  ms_put (Relay.topic message) m (rx_time_nanos clock) st = Some (Ok tt, st') ->
  let id := waku_message_id message in
  exists s1 s2,
    handle_event params clock (RelayMessage source id message) s = Some (Ok tt, s1) /\
    events s1 = events s ++ [EvMessage shard m id source] /\ store s1 = Some st /\
    run_put_task (length (put_tasks s)) s1 = Some s2 /\ put_tasks s2 = put_tasks s /\
    store s2 = Some st' /\
    contents st' !! id =
      Some (default m (contents st !! id)).
Proof.
  intros Ho Hst Hv Hp Hd Hm He Hver Hput id.
  assert (id = deterministic_hash (Relay.topic message) m) as Hid.
  { unfold id, waku_message_id. by rewrite Hd. }
  destruct (accepted_task_run clock source id message shard m st _ st' s Ho Hst Hp Hd Hver He Hput)
    as [E1 E2].
  do 2 eexists. split; [exact E1|]. split.
  { cbn. unfold hash_of_slice. rewrite decide_True; [done|]. apply waku_message_id_length. }
  split; [done|]. split; [exact E2|]. split; [done|]. split; [done|].
  destruct (law_put _ _ _ _ _ _ Hv Hm Hput) as [_ ->]. rewrite <- Hid.
  destruct (contents st !! id) eqn:Ec; [done|]. apply lookup_insert_eq.
Qed.

(** ** Publishing *)

(** What gossipsub documents of [publish]: on success it returns the id the configured
    function gives the anonymous message. *)
Definition publish_returns_id : Prop :=
  forall topic data sw id sw', relay_publish topic data sw = (Ok id, sw') ->
    id = waku_message_id (mk_gossipsub_message None data None topic).

Lemma publish_run (shard : ShardId.t) (m : WakuMessage) (reply : Z) (s : state) :
  publish_returns_id ->
  exists s', handle_command (CmdPublish shard m reply) s = Some (Ok tt, s') /\
    let r := (relay_publish (ShardId.pubsub_topic shard) (encode_to_vec m) (swarm s)).1 in
    replies s' = replies s ++ [(reply, HashAnswer match r with
      | Ok _ => Ok (deterministic_hash (ShardId.pubsub_topic shard) m)
      | Err e => Err e
      end)].
Proof.
  intros Hpub. cbn [handle_command]. unfold mbind, action_bind, on_swarm, shard_topic.
  destruct (relay_publish _ _ (swarm s)) as [r sw] eqn:E. cbn [fst].
  destruct r as [id|e]; [|by eexists].
  apply Hpub in E.
  assert (id = deterministic_hash (ShardId.pubsub_topic shard) m) as ->.
  { rewrite E. unfold waku_message_id. cbn. by rewrite prost_decode_encode. }
  unfold hash_of_slice. rewrite decide_True by apply deterministic_hash_length. cbn.
  rewrite bool_decide_false by tauto. rewrite andb_false_r. by eexists.
Qed.

(** Publishing never panics and answers its caller once, with the deterministic hash
    of the message on the shard's topic, or with gossipsub's error: the debug assertion
    that the two ids agree holds. *)

Theorem publish_answers_hash (shard : ShardId.t) (m : WakuMessage) (reply : Z) (s : state) :
  publish_returns_id ->
  exists s', handle_command (CmdPublish shard m reply) s = Some (Ok tt, s') /\
    let r := (relay_publish (ShardId.pubsub_topic shard) (encode_to_vec m) (swarm s)).1 in
    replies s' = replies s ++ [(reply, HashAnswer match r with
      | Ok _ => Ok (deterministic_hash (ShardId.pubsub_topic shard) m)
      | Err e => Err e
      end)].
Proof. apply publish_run. Qed.

(** ** Services *)

(** A light push is published only for a peer within its rate, and the answer says
    what happened: 429 without any publishing when the limiter refuses, 400 when the
    message is missing, 200 with the number of mesh peers when gossipsub took it and 503
    with its error when not, always under the id of the request. *)
Theorem lightpush_answers (clock : Clock) (peer : PeerId) (req : Lightpush.LightpushRequest)
    (channel : Z) (s : state) :
  let '(allowed, rl) := RateLimiter.allow (lightpush_limiter (limits s)) peer (instant_now clock) in
  let id := Lightpush.req_request_id req in
  let answer resp sw := swarm_send_response channel (LightpushResponse resp) sw in
  exists s', handle_event params clock (LightpushEvent peer (RRequest req channel)) s =
      Some (Ok tt, s') /\
    limits s' = mkRateLimiters (store_limiter (limits s)) rl /\
    swarm s' =
      if negb allowed then answer (Lightpush.error id 429 "rate limited") (swarm s)
      else match Lightpush.req_message req with
      | None => answer (Lightpush.error id 400 "missing message") (swarm s)
      | Some m =>
          let topic := Lightpush.req_pubsub_topic req in
          match relay_publish topic (encode_to_vec m) (swarm s) with
          | (Ok _, sw) =>
              answer (Lightpush.ok id (as_u32 (Z.of_nat (length (relay_mesh_peers topic sw))))) sw
          | (Err e, sw) => answer (Lightpush.error id 503 e) sw
          end
      end.
Proof.
  destruct (RateLimiter.allow (lightpush_limiter (limits s)) peer (instant_now clock))
    as [allowed rl] eqn:Ea. cbn zeta.
  cbn [handle_event]. unfold lightpush_message, answer_lightpush, mbind, action_bind, state_of. rewrite Ea.
  destruct allowed; cbn; [|by eexists]. unfold serve_lightpush.
  destruct (Lightpush.req_message req) as [m|]; cbn; [|by eexists].
  unfold mbind, action_bind, on_swarm. cbn.
  destruct (relay_publish _ _ (swarm s)) as [[id|e] sw]; cbn; by eexists.
Qed.

(** A metadata event. *)
Lemma metadata_event_run (clock : Clock) (peer : PeerId) (s : state) m :
  evt_rx_open s = true ->
  handle_event params clock (MetadataEvent peer m) s =
  Some (Ok tt, match m with
    | RRequest _ channel =>
        set_swarm (swarm_send_response channel (MetadataResponse (local_meta params)) (swarm s)) s
    | RResponse _ resp =>
        match Metadata.cluster_id resp with
        | Some c => if decide (c = local_cluster params) then s
            else set_events (events s ++ [MetadataMismatch peer (Some c)])
                   (set_swarm (swarm_disconnect peer (swarm s)) s)
        | None => s
        end
    end).
Proof.
  intros Ho. destruct m as [req channel|id resp]; [done|]. cbn [handle_event].
  unfold handle_metadata, mbind, action_bind. destruct (Metadata.cluster_id resp) as [c|]; [|done].
  destruct (decide (c = local_cluster params)) as [E|E].
  - by rewrite decide_False by tauto.
  - rewrite decide_True by done. cbn. unfold send_event. cbn. by rewrite Ho.
Qed.

(** The metadata handshake: an inbound request is answered with the local metadata
    and nothing else happens; a response disconnects the peer and reports a mismatch
    exactly when it names a cluster other than ours, and changes nothing otherwise. *)
Theorem metadata_handshake (clock : Clock) (peer : PeerId) (s : state) :
  evt_rx_open s = true ->
  (forall req channel,
     handle_event params clock (MetadataEvent peer (RRequest req channel)) s =
     Some (Ok tt, set_swarm (swarm_send_response channel
       (MetadataResponse (local_meta params)) (swarm s)) s)) /\
  (forall id resp,
     handle_event params clock (MetadataEvent peer (RResponse id resp)) s =
     Some (Ok tt,
       match Metadata.cluster_id resp with
       | Some c => if decide (c = local_cluster params) then s
           else set_events (events s ++ [MetadataMismatch peer (Some c)])
                  (set_swarm (swarm_disconnect peer (swarm s)) s)
       | None => s
       end)).
Proof. intros Ho. split; intros; by rewrite metadata_event_run. Qed.

End Facts.

(** ** A concrete swarm

    It numbers the requests, records the calls, the one that built it first, and publishes under the configured id. *)

Inductive SwarmCall : Type :=
  | CallBuild (identity : bytes)
  | CallSubscribe (topic : string)
  | CallPublish (topic : string) (data : bytes)
  | CallReport (id : bytes) (source : PeerId) (a : MessageAcceptance)
  | CallDial (addr : Multiaddr)
  | CallDisconnect (peer : PeerId)
  | CallRequest (peer : PeerId) (r : OutRequest)
  | CallResponse (channel : Z) (r : OutResponse).

Record LogSwarm : Type := mkLogSwarm { next_id : Z; calls : list SwarmCall }.

Definition call (c : SwarmCall) (sw : LogSwarm) : LogSwarm :=
  mkLogSwarm (next_id sw + 1) (calls sw ++ [c]).

Definition log_swarm `{Sha256, Prost WakuMessage} : Swarm LogSwarm := {|
  relay_subscribe t sw := (Ok true, call (CallSubscribe t) sw);
  relay_publish t d sw :=
    (Ok (waku_message_id (mk_gossipsub_message None d None t)), call (CallPublish t d) sw);
  relay_mesh_peers _ _ := [];
  relay_report id src a sw := call (CallReport id src a) sw;
  swarm_dial addr sw := (Ok tt, call (CallDial addr) sw);
  swarm_disconnect p sw := call (CallDisconnect p) sw;
  swarm_send_request p r sw := (next_id sw, call (CallRequest p r) sw);
  swarm_send_response ch r sw := call (CallResponse ch r) sw;
|}.

#[local] Existing Instances toy_sha256 countable_prost log_swarm.
#[local] Existing Instances demo_crypto demo_enr.
#[local] Instance demo_profile : BuildProfile := true.

Definition demo_params : NodeParams := mkNodeParams 1 (Metadata.mkWakuMetadata (Some 1) [0; 1]) 1.
Definition demo_clock : Clock := mkClock 105 106 0.
Definition demo_addr : Multiaddr := [Ip4 2130706433; Tcp 1].
Definition demo_state : NodeState LogSwarm SqliteStore DemoEnr :=
  initial_state (mkLogSwarm 0 []) (Some (mkSqliteStore ∅ [])).

Definition demo_gossip : gossipsub_message :=
  mk_gossipsub_message None (encode_to_vec (demo_message 4)) None "/waku/2/rs/1/0".

Lemma relay_message_effects_witness :
  handle_event demo_params demo_clock (RelayMessage [x07] [x00] demo_gossip) demo_state =
  Some (Ok tt, accepted demo_clock [x07] [x00] "/waku/2/rs/1/0" (ShardId.new 1 0) (demo_message 4)
    demo_state).
Proof.
  rewrite (relay_message_effects demo_params demo_clock [x07] [x00] demo_gossip demo_state eq_refl).
  vm_compute. reflexivity.
Defined.

Lemma ip_counts_bounded_witness :
  exists s', run demo_params [InEvent demo_clock (ConnectionEstablished [x01] demo_addr)] demo_state
      = Some (false, s') /\
    forall ip n, ip_counts s' !! ip = Some n -> 1 <= n <= 1.
Proof.
  eexists. split; [vm_compute; reflexivity|].
  apply (ip_counts_bounded demo_params (mkLogSwarm 0 []) (Some (mkSqliteStore ∅ []))
    [InEvent demo_clock (ConnectionEstablished [x01] demo_addr)] false).
  vm_compute. reflexivity.
Defined.

Lemma refused_connection_frees_slot_witness :
  exists s1 s2 s3,
    handle_event demo_params demo_clock (ConnectionEstablished [x02] demo_addr)
      (set_ip_counts {[V4 2130706433 := 1]} demo_state) = Some (Ok tt, s1) /\
    handle_event demo_params demo_clock (ConnectionClosed [x02] demo_addr) s1 = Some (Ok tt, s2) /\
    handle_event demo_params demo_clock (ConnectionEstablished [x03] demo_addr) s2 =
      Some (Ok tt, s3) /\ [x03] ∈ connected s3.
Proof.
  destruct (refused_connection_frees_slot demo_params demo_clock demo_clock demo_clock [x02] [x03]
    demo_addr (V4 2130706433) (set_ip_counts {[V4 2130706433 := 1]} demo_state))
    as (s1 & s2 & s3 & E1 & _ & _ & _ & E2 & _ & E3 & Hc); [reflexivity..|].
  exists s1, s2, s3. split; [exact E1|]. split; [exact E2|]. split; [exact E3|].
  rewrite Hc. set_solver.
Defined.

Lemma close_forgets_peer_witness :
  exists s', run (mkNodeParams 1 (Metadata.mkWakuMetadata None []) 0)
      [InEvent demo_clock (ConnectionEstablished [x01] demo_addr);
       InEvent demo_clock (ConnectionEstablished [x01] []);
       InEvent demo_clock (ConnectionClosed [x01] demo_addr)] demo_state = Some (false, s') /\
    ([x01] ∉ connected s').
Proof.
  destruct (close_forgets_peer (mkNodeParams 1 (Metadata.mkWakuMetadata None []) 0)
    demo_clock demo_clock demo_clock [x01] demo_addr [] demo_state eq_refl eq_refl)
    as (s' & E & Hn & _).
  exists s'. split; [exact E|exact Hn].
Defined.

Lemma outbound_answered_once_witness :
  exists s1, handle_command (CmdStoreQuery [x01] (hash_request "q" true []) 77) demo_state =
      Some (Ok tt, s1) /\ replies s1 = [].
Proof.
  destruct (outbound_answered_once demo_params
    (CmdStoreQuery [x01] (hash_request "q" true []) 77) [x01] (StoreRequest (hash_request "q" true []))
    77 Pending.store_queries (fun id => StoreQueryFailure id "timeout") (StoreAnswer (Err "timeout"))
    demo_state (ex_store_failure _ _ _ _) eq_refl) as (s1 & E & _ & Hr & _).
  exists s1. split; [exact E|exact Hr].
Defined.

Lemma relayed_message_stored_witness :
  exists s1 s2,
    handle_event demo_params demo_clock
      (RelayMessage [x07] (waku_message_id demo_gossip) demo_gossip) demo_state = Some (Ok tt, s1) /\
    run_put_task 0 s1 = Some s2.
Proof.
  edestruct (@relayed_message_stored LogSwarm SqliteStore DemoEnr _ _ _ _ _ _ _ demo_params
    sqlite_store_laws demo_clock [x07] demo_gossip (ShardId.new 1 0) (demo_message 4)
    (mkSqliteStore ∅ [])
    (mkSqliteStore (insert_or_ignore (deterministic_hash "/waku/2/rs/1/0" (demo_message 4))
       (row_of "/waku/2/rs/1/0" (demo_message 4) 106) ∅) []) demo_state) as (s1 & s2 & E1 & _ & _ & E2 & _).
  - reflexivity.
  - reflexivity.
  - intros h r Hl. exfalso. cbn in Hl. by rewrite lookup_empty in Hl.
  - vm_compute. reflexivity.
  - vm_compute. reflexivity.
  - by apply demo_message_wf.
  - discriminate.
  - vm_compute. reflexivity.
  - reflexivity.
  - exists s1, s2. split; [exact E1|exact E2].
Defined.

Lemma publish_answers_hash_witness :
  exists s', handle_command (CmdPublish (ShardId.new 1 0) (demo_message 4) 5) demo_state =
      Some (Ok tt, s') /\
    replies s' = [(5, HashAnswer (Ok (deterministic_hash "/waku/2/rs/1/0" (demo_message 4))))].
Proof.
  destruct (publish_answers_hash (ShardId.new 1 0) (demo_message 4) 5 demo_state) as (s' & E & Hr).
  - intros topic data sw id sw' [= <- <-]. reflexivity.
  - exists s'. split; [exact E|exact Hr].
Defined.

Lemma metadata_handshake_witness :
  handle_event demo_params demo_clock
    (MetadataEvent [x01] (RResponse 0 (Metadata.mkWakuMetadata (Some 2) []))) demo_state =
  Some (Ok tt, set_events [MetadataMismatch [x01] (Some 2)]
    (set_swarm (mkLogSwarm 1 [CallDisconnect [x01]]) demo_state)).
Proof.
  rewrite (proj2 (metadata_handshake demo_params demo_clock [x01] demo_state eq_refl)).
  vm_compute. reflexivity.
Defined.
