(* ===== verification/Handle.v ===== *)
(** * Handle: the methods of [NodeHandle] in [waku-node/src/runtime.rs]

    A handle shares the command channel with the driver.  A method sends one command,
    waits on the oneshot channel of that command, and turns what it gets into its result;
    it fails with [NodeStopped] when the driver is gone, before or while it waits. *)

From Stdlib Require Import Strings.Byte.
From stdpp Require Import base gmap strings list numbers.
From S2P Require Import Prelude Bytes Text Core Framing Wire Relay Store StoreServe Net Discv5 Services Ratelimit Node NodeFacts.

Open Scope Z_scope.

(** [NodeError]; the two build errors come from [spawn]. *)
Inductive NodeError : Type :=
  | BuildError (e : string)
  | ListenError (e : string)
  | NodeStopped
  | CommandError (e : string).

(** What a method has come to: it has returned, or it is still waiting. *)
Inductive outcome (A : Type) : Type :=
  | Done (r : result NodeError A)
  | Waiting.
Arguments Done {_} _.
Arguments Waiting {_}.

Section Handle.
Context {SW St WakuEnr : Type} `{Swarm SW, MessageStore St, EnrOps WakuEnr}.
Context `{EnrCrypto}.
Context `{Sha256, BuildProfile, Prost WakuMessage}.
Variable params : NodeParams.

Abbreviation state := (NodeState SW St WakuEnr).

(** The driver as its handles see it: gone, or running in a state. *)
Definition driver : Type := option state.

(** The answer sent on a oneshot channel, if it was sent. *)
Fixpoint answer_on (reply : Z) (sent : list (Z * Answer)) : option Answer :=
  match sent with
  | [] => None
  | (r, a) :: sent => if decide (r = reply) then Some a else answer_on reply sent
  end.

(** [rx.await] while the driver goes through the inputs [later]: the answer as soon as it
    is there, [NodeStopped] when the driver ends or panics without it. *)
Fixpoint wait {A} (reply : Z) (decode : Answer -> option (result string A)) (later : list Input)
    (s : state) : outcome A :=
  match answer_on reply (replies s) ≫= decode with
  | Some r => Done (map_err CommandError r)
  | None =>
      match later with
      | [] => Waiting
      | i :: later =>
          match run params [i] s with
          | Some (false, s) => wait reply decode later s
          | Some (true, _) | None => Done (Err NodeStopped)
          end
      end
  end.

(** The common shape of the methods: [cmd_tx.send(cmd).await], then [rx.await]. *)
Definition call {A} (cmd : Command) (reply : Z) (decode : Answer -> option (result string A))
    (later : list Input) (d : driver) : outcome A :=
  match d with
  | None => Done (Err NodeStopped)
  | Some s =>
      match run params [InCommand (Some cmd)] s with
      | Some (false, s) => wait reply decode later s
      | Some (true, _) | None => Done (Err NodeStopped)
      end
  end.

(** The types the oneshot channels carry. *)
Definition as_unit (a : Answer) : option (result string ()) :=
  match a with UnitAnswer r => Some r | _ => None end.
Definition as_hash (a : Answer) : option (result string bytes) :=
  match a with HashAnswer r => Some r | _ => None end.
Definition as_store (a : Answer) : option (result string StoreWire.StoreQueryResponse) :=
  match a with StoreAnswer r => Some r | _ => None end.
Definition as_lightpush (a : Answer) : option (result string Lightpush.LightpushResponse) :=
  match a with LightpushAnswer r => Some r | _ => None end.
Definition as_peer_exchange (a : Answer) : option (result string PeerExchange.PeerExchangeRpc) :=
  match a with PeerExchangeAnswer r => Some r | _ => None end.
Definition as_filter (a : Answer) : option (result string Filter.FilterSubscribeResponse) :=
  match a with FilterAnswer r => Some r | _ => None end.

Definition map_outcome {A B} (f : A -> B) (o : outcome A) : outcome B :=
  match o with Done r => Done (f <$> r) | Waiting => Waiting end.

(** The methods; [reply] is the channel the method creates. *)
Definition subscribe (shard : ShardId.t) (reply : Z) : list Input -> driver -> outcome () :=
  call (CmdSubscribe shard reply) reply as_unit.

Definition publish (shard : ShardId.t) (message : WakuMessage) (reply : Z)
    : list Input -> driver -> outcome bytes :=
  call (CmdPublish shard message reply) reply as_hash.

Definition dial (addr : Multiaddr) (reply : Z) : list Input -> driver -> outcome () :=
  call (CmdDial addr reply) reply as_unit.

Definition store_query (peer : PeerId) (request : StoreWire.StoreQueryRequest) (reply : Z)
    : list Input -> driver -> outcome StoreWire.StoreQueryResponse :=
  call (CmdStoreQuery peer request reply) reply as_store.

Definition light_push (peer : PeerId) (pubsub_topic : string) (message : WakuMessage) (reply : Z)
    : list Input -> driver -> outcome Lightpush.LightpushResponse :=
  let request := Lightpush.mkLightpushRequest "" pubsub_topic (Some message) in
  call (CmdLightPush peer request reply) reply as_lightpush.

(** [shutdown]; a failed send is ignored. *)
Definition shutdown (d : driver) : driver :=
  s ← d;
  match run params [InCommand (Some CmdShutdown)] s with
  | Some (false, s) => Some s
  | _ => None
  end.

(** [peer_exchange]. *)
Definition peer_exchange (peer : PeerId) (num_peers : Z) (reply : Z) (later : list Input)
    (d : driver) : outcome (list WakuEnr) :=
  map_outcome (fun rpc => omap enr_from_bytes (PeerExchange.enrs rpc))
    (call (CmdPeerExchange peer num_peers reply) reply as_peer_exchange later d).

Definition filter_request (peer : PeerId) (kind : Z) (pubsub_topic : option string)
    (content_topics : list string) (reply : Z)
    : list Input -> driver -> outcome Filter.FilterSubscribeResponse :=
  let request := Filter.mkFilterSubscribeRequest "" kind pubsub_topic content_topics in
  call (CmdFilterSubscribe peer request reply) reply as_filter.

Definition filter_subscribe (peer : PeerId) (pubsub_topic : string) (content_topics : list string)
    (reply : Z) : list Input -> driver -> outcome Filter.FilterSubscribeResponse :=
  filter_request peer Filter.SUBSCRIBE (Some pubsub_topic) content_topics reply.

Definition filter_unsubscribe (peer : PeerId) (pubsub_topic : string)
    (content_topics : list string) (reply : Z)
    : list Input -> driver -> outcome Filter.FilterSubscribeResponse :=
  filter_request peer Filter.UNSUBSCRIBE (Some pubsub_topic) content_topics reply.

(** The reads of the shared state: [listen_addresses], [connected_peers]. *)
Definition listen_addresses (peer_id : PeerId) (s : state) : list Multiaddr :=
  (fun a => a ++ [P2p peer_id]) <$> listen_addrs s.
Definition connected_peers (s : state) : list PeerId := elements (connected s).

(** [NodeError] as text. *)
Definition node_error_to_string (e : NodeError) : string :=
  match e with
  | BuildError e => "transport/build error: " +:+ e
  | ListenError e => "listen failed: " +:+ e
  | NodeStopped => "the node task has stopped"
  | CommandError e => "command failed: " +:+ e
  end.

(** ** The node as its handles share it

    The state and whether the driver task still runs: what the handles share with it (the
    store, the connected peers, the counters) outlives the task.  Of a task
    that panics the model keeps the state before the input.  The handlers panic, if they do,
    before they touch what is shared, but for one counter: a store query that panics has been
    counted in [store_queries]. *)
Record World : Type := mkWorld {
  w_node : state;
  w_running : bool;
}.

Definition driver_of (w : World) : driver := if w_running w then Some (w_node w) else None.

Definition step_world (w : World) (i : Input) : World :=
  if w_running w then
    match run params [i] (w_node w) with
    | Some (stopped, s) => mkWorld s (negb stopped)
    | None => mkWorld (w_node w) false
    end
  else w.

Definition advance (inputs : list Input) (w : World) : World := foldl step_world w inputs.

(** ** What a caller gets *)

Lemma answer_on_fresh reply sent a :
  (reply ∉ sent.*1) -> answer_on reply (sent ++ [(reply, a)]) = Some a.
Proof.
  induction sent as [|[r b] sent IH]; cbn; intros Hn.
  - by rewrite decide_True.
  - rewrite decide_False by (intros ->; apply Hn; left). apply IH. intros Hi. apply Hn. by right.
Qed.

Lemma answer_on_none reply sent : (reply ∉ sent.*1) -> answer_on reply sent = None.
Proof.
  induction sent as [|[r b] sent IH]; cbn; intros Hn; [done|].
  rewrite decide_False by (intros ->; apply Hn; left). apply IH. intros Hi. apply Hn. by right.
Qed.

Lemma run_one_command cmd s s' :
  cmd <> CmdShutdown -> handle_command cmd s = Some (Ok tt, s') ->
  run params [InCommand (Some cmd)] s = Some (false, s').
Proof. intros Hc E. destruct cmd; try done; cbn [run]; by rewrite E. Qed.

(** The event with the id of a fresh request settles the call that sent it. *)
Lemma call_answered {A} (cmd : Command) (peer : PeerId) (out : OutRequest) (reply : Z)
    (get : Pending.t -> gmap Z Z) (ev : Z -> SwarmEvent) (a : Answer)
    (decode : Answer -> option (result string A)) (r : result string A)
    (clock : Clock) (later : list Input) (s : state) :
  exchange cmd peer out reply get ev a -> decode a = Some r ->
  let id := (swarm_send_request peer out (swarm s)).1 in
  get (pending s) !! id = None -> (reply ∉ (replies s).*1) ->
  call cmd reply decode (InEvent clock (ev id) :: later) (Some s) =
    Done (map_err CommandError r).
Proof.
  intros Hex Hdec id Hid Hreply.
  destruct (outbound_exchange params cmd peer out reply get ev a s Hex Hid)
    as (s1 & E1 & _ & Hr1 & Hev).
  unfold call. rewrite (run_one_command _ _ s1) by (done || by destruct Hex).
  destruct (Hev clock) as (s2 & E2 & Hr2 & _). fold id in E2.
  cbn [wait]. rewrite Hr1, answer_on_none by done.
  cbn [mbind option_bind run]. rewrite E2. cbn [mbind option_bind].
  destruct later as [|i later]; cbn [wait]; rewrite Hr2, answer_on_fresh by done;
    cbn [mbind option_bind]; by rewrite Hdec.
Qed.

(** A method that sends a request to a peer returns exactly what came of it: with a
    fresh reply channel and a request id not in use, it waits while nothing happens,
    returns the response or the failure as soon as the event with its id arrives,
    whatever follows, and returns [NodeStopped] if the node is shut down or every handle
    is dropped first; after a shutdown it returns [NodeStopped] at once. *)
Theorem call_settles {A} (cmd : Command) (peer : PeerId) (out : OutRequest) (reply : Z)
    (get : Pending.t -> gmap Z Z) (ev : Z -> SwarmEvent) (a : Answer)
    (decode : Answer -> option (result string A)) (r : result string A)
    (clock : Clock) (later : list Input) (s : state) :
  exchange cmd peer out reply get ev a -> decode a = Some r ->
  let id := (swarm_send_request peer out (swarm s)).1 in
  get (pending s) !! id = None -> (reply ∉ (replies s).*1) ->
  call cmd reply decode [] (Some s) = Waiting /\
  call cmd reply decode (InEvent clock (ev id) :: later) (Some s) =
    Done (map_err CommandError r) /\
  call cmd reply decode (InCommand (Some CmdShutdown) :: later) (Some s) = Done (Err NodeStopped) /\
  call cmd reply decode (InCommand None :: later) (Some s) = Done (Err NodeStopped) /\
  call cmd reply decode later (shutdown (Some s)) = Done (Err NodeStopped).
Proof.
  intros Hex Hdec id Hid Hreply.
  destruct (outbound_exchange params cmd peer out reply get ev a s Hex Hid)
    as (s1 & E1 & _ & Hr1 & _).
  assert (run params [InCommand (Some cmd)] s = Some (false, s1)) as Hrun.
  { apply run_one_command; [by destruct Hex|done]. }
  assert (answer_on reply (replies s1) = None) as Hnone
    by (rewrite Hr1; by apply answer_on_none).
  split; [|split; [by eapply call_answered|]]; unfold call; rewrite Hrun.
  - cbn. by rewrite Hnone.
  - split; [cbn; by rewrite Hnone|]. split; [cbn; by rewrite Hnone|done].
Qed.

(** Publishing through a handle returns the deterministic hash of the message on the
    shard's topic as soon as gossipsub accepts it, and its error otherwise. *)
Theorem publish_through_handle (shard : ShardId.t) (m : WakuMessage) (reply : Z)
    (later : list Input) (s : state) :
  publish_returns_id -> (reply ∉ (replies s).*1) ->
  publish shard m reply later (Some s) =
  Done match (relay_publish (ShardId.pubsub_topic shard) (encode_to_vec m) (swarm s)).1 with
       | Ok _ => Ok (deterministic_hash (ShardId.pubsub_topic shard) m)
       | Err e => Err (CommandError e)
       end.
Proof.
  intros Hpub Hreply. destruct (publish_run shard m reply s Hpub) as (s1 & E1 & Hr1).
  unfold publish, call. rewrite (run_one_command _ _ s1) by done.
  assert (forall a, replies s1 = replies s ++ [(reply, a)] ->
    wait reply as_hash later s1 = match as_hash a with
      | Some r => Done (map_err CommandError r) | None => wait reply as_hash later s1 end) as Hw.
  { intros a Ha. destruct later; cbn [wait]; rewrite Ha, answer_on_fresh by done;
      cbn [mbind option_bind]; by destruct (as_hash a). }
  rewrite (Hw _ Hr1). cbn. by destruct (relay_publish _ _ (swarm s)) as [[] ?].
Qed.

(** Peer exchange from end to end: a node that is asked for [num_peers] records answers
    with the bytes of the first ones of its peer book, and the method of the asking node,
    given that answer, returns exactly these records. *)
Theorem peer_exchange_end_to_end `{!EnrTextLaws WakuEnr} (peer me : PeerId) (num_peers : Z)
    (reply channel : Z) (c1 c2 : Clock) (later : list Input) (s server : state) :
  let id := (swarm_send_request peer (PeerExchangeRequest (PeerExchange.query num_peers))
    (swarm s)).1 in
  Pending.peer_exchange (pending s) !! id = None -> (reply ∉ (replies s).*1) ->
  exists rpc,
    handle_event params c1
      (PeerExchangeEvent me (RRequest (PeerExchange.query num_peers) channel)) server =
    Some (Ok tt, set_swarm (swarm_send_response channel (PeerExchangeResponse rpc) (swarm server))
      server) /\
    peer_exchange peer num_peers reply
      (InEvent c2 (PeerExchangeEvent peer (RResponse id rpc)) :: later) (Some s) =
    Done (Ok (take (Z.to_nat num_peers) (peer_book server))).
Proof.
  intros id Hid Hreply.
  exists (PeerExchange.response (enr_to_bytes <$> take (Z.to_nat num_peers) (peer_book server))).
  split; [done|]. unfold peer_exchange.
  rewrite (call_answered _ peer _ reply _
    (fun id => PeerExchangeEvent peer (RResponse id
      (PeerExchange.response (enr_to_bytes <$> take (Z.to_nat num_peers) (peer_book server)))))
    _ as_peer_exchange (Ok _) c2 later s (ex_peer_exchange _ _ _ _ _) eq_refl Hid Hreply).
  cbn [map_err map_outcome fmap result_fmap]. by rewrite PeerExchange.enrs_response, enrs_from_to_bytes.
Qed.

End Handle.

#[local] Existing Instances toy_sha256 countable_prost log_swarm demo_crypto demo_enr demo_profile.

Lemma call_settles_witness :
  store_query demo_params [x01] (hash_request "q" true []) 77
    [InEvent demo_clock (StoreQueryFailure 0 "timeout")] (Some demo_state) =
  Done (Err (CommandError "timeout")).
Proof.
  unfold store_query.
  exact (proj1 (proj2 (call_settles demo_params
    (CmdStoreQuery [x01] (hash_request "q" true []) 77) [x01]
    (StoreRequest (hash_request "q" true [])) 77 Pending.store_queries
    (fun id => StoreQueryFailure id "timeout") (StoreAnswer (Err "timeout")) as_store
    (Err "timeout") demo_clock [] demo_state (ex_store_failure _ _ _ _) eq_refl eq_refl
    (not_elem_of_nil 77)))).
Defined.

Lemma publish_through_handle_witness :
  publish demo_params (ShardId.new 1 0) (demo_message 4) 5 [] (Some demo_state) =
  Done (Ok (deterministic_hash "/waku/2/rs/1/0" (demo_message 4))).
Proof.
  rewrite (publish_through_handle demo_params (ShardId.new 1 0) (demo_message 4) 5 [] demo_state).
  - reflexivity.
  - intros topic data sw id sw' [= <- <-]. reflexivity.
  - apply not_elem_of_nil.
Defined.

Definition demo_record (k : byte) : DemoEnr := mkDemoEnr [k] (Some 1) (Some 2) [].

Lemma peer_exchange_end_to_end_witness :
  exists rpc,
    peer_exchange demo_params [x01] 2 9
      [InEvent demo_clock (PeerExchangeEvent [x01] (RResponse 0 rpc))] (Some demo_state) =
    Done (Ok [demo_record x05; demo_record x06]).
Proof.
  destruct (peer_exchange_end_to_end demo_params [x01] [x02] 2 9 3 demo_clock demo_clock []
    demo_state (set_peer_book [demo_record x05; demo_record x06; demo_record x07] demo_state)
    eq_refl (not_elem_of_nil 9)) as (rpc & _ & E).
  exists rpc. exact E.
Defined.
