(* ===== verification/Runs.v ===== *)
(** * Runs: what holds along every run of the driver

    [NodeFacts] says what one input does; here are the accounts a whole run keeps: every
    caller's channel is answered or waiting, exactly once, with the kind of answer it is
    for; and the shared reads of a handle ([connected_peers], [listen_addresses], the relay
    counter) are functions of the events the application was sent. *)

From Stdlib Require Import Strings.Byte.
From stdpp Require Import base gmap strings list numbers.
From S2P Require Import Prelude Bytes Text Core Framing Wire Relay Store StoreServe Net Discv5 Services Ratelimit Node NodeFacts Handle.

Open Scope Z_scope.

(** ** Request ids *)

(** The behaviour an outbound request belongs to. *)
Inductive Behaviour : Type := OnMetadata | OnStore | OnLightpush | OnPeerExchange | OnFilter | OnPush.

Definition behaviour_of (r : OutRequest) : Behaviour :=
  match r with
  | MetadataRequest _ => OnMetadata
  | StoreRequest _ => OnStore
  | LightpushRequest _ => OnLightpush
  | PeerExchangeRequest _ => OnPeerExchange
  | FilterRequest _ => OnFilter
  | PushRequest _ => OnPush
  end.

(** What libp2p documents of [OutboundRequestId]: an id is unique among the requests of the
    same behaviour. *)
Class UniqueRequestIds (SW : Type) `{Swarm SW} := {
  issued : SW -> Behaviour -> Z -> Prop;
  send_fresh : forall peer r sw,
    ~ issued sw (behaviour_of r) (swarm_send_request peer r sw).1;
  send_issues : forall peer r sw,
    issued (swarm_send_request peer r sw).2 (behaviour_of r) (swarm_send_request peer r sw).1;
  issued_request : forall peer r sw k id,
    issued sw k id -> issued (swarm_send_request peer r sw).2 k id;
  issued_subscribe : forall t sw k id, issued sw k id -> issued (relay_subscribe t sw).2 k id;
  issued_publish : forall t data sw k id, issued sw k id -> issued (relay_publish t data sw).2 k id;
  issued_report : forall mid p a sw k id, issued sw k id -> issued (relay_report mid p a sw) k id;
  issued_dial : forall a sw k id, issued sw k id -> issued (swarm_dial a sw).2 k id;
  issued_disconnect : forall p sw k id, issued sw k id -> issued (swarm_disconnect p sw) k id;
  issued_response : forall ch r sw k id, issued sw k id -> issued (swarm_send_response ch r sw) k id;
}.

(** ** Answers *)

(** The types of the oneshot channels. *)
Inductive AnswerKind : Type :=
  | Units | Hashes | StoreAnswers | LightpushAnswers | PeerExchangeAnswers | FilterAnswers.

Definition kind_of (a : Answer) : AnswerKind :=
  match a with
  | UnitAnswer _ => Units
  | HashAnswer _ => Hashes
  | StoreAnswer _ => StoreAnswers
  | LightpushAnswer _ => LightpushAnswers
  | PeerExchangeAnswer _ => PeerExchangeAnswers
  | FilterAnswer _ => FilterAnswers
  end.

(** The channel a command carries, and its type. *)
Definition wants (cmd : Command) : option (Z * AnswerKind) :=
  match cmd with
  | CmdSubscribe _ reply => Some (reply, Units)
  | CmdPublish _ _ reply => Some (reply, Hashes)
  | CmdDial _ reply => Some (reply, Units)
  | CmdStoreQuery _ _ reply => Some (reply, StoreAnswers)
  | CmdLightPush _ _ reply => Some (reply, LightpushAnswers)
  | CmdPeerExchange _ _ reply => Some (reply, PeerExchangeAnswers)
  | CmdFilterSubscribe _ _ reply => Some (reply, FilterAnswers)
  | CmdShutdown => None
  end.

(** The channels of the commands among some inputs. *)
Definition asked_by (i : Input) : option (Z * AnswerKind) :=
  match i with InCommand (Some cmd) => wants cmd | _ => None end.
Definition asked (inputs : list Input) : list (Z * AnswerKind) := omap (M := list) asked_by inputs.

Definition values (m : gmap Z Z) : list Z := (map_to_list m).*2.

Lemma values_insert (m : gmap Z Z) id r :
  m !! id = None -> values (<[id := r]> m) ≡ₚ r :: values m.
Proof. intros Hn. unfold values. by rewrite map_to_list_insert. Qed.

Lemma values_delete (m : gmap Z Z) id r :
  m !! id = Some r -> r :: values (delete id m) ≡ₚ values m.
Proof. intros Hl. unfold values. by rewrite <- (map_to_list_delete m id r Hl). Qed.

(** The four tables, each with the type of its channels. *)
Definition waiting (p : Pending.t) : list (Z * AnswerKind) :=
  ((fun r => (r, StoreAnswers)) <$> values (Pending.store_queries p)) ++
  ((fun r => (r, LightpushAnswers)) <$> values (Pending.lightpush p)) ++
  ((fun r => (r, PeerExchangeAnswers)) <$> values (Pending.peer_exchange p)) ++
  ((fun r => (r, FilterAnswers)) <$> values (Pending.filter p)).

Definition given (l : list (Z * Answer)) : list (Z * AnswerKind) := (fun r => (r.1, kind_of r.2)) <$> l.

Section Runs.
Context {SW St WakuEnr : Type} `{Swarm SW, MessageStore St, EnrOps WakuEnr}.
Context `{EnrCrypto}.
Context `{Sha256, BuildProfile, Prost WakuMessage}.
Context `{!UniqueRequestIds SW}.
Variable params : NodeParams.

Abbreviation state := (NodeState SW St WakuEnr).
Abbreviation node := (action state ()).

(** The channels the driver knows of: answered, or waiting. *)
Definition accounted (s : state) : list (Z * AnswerKind) := given (replies s) ++ waiting (pending s).

(** ** Ids stay issued *)

Definition later (s s' : state) : Prop :=
  forall k id, issued (swarm s) k id -> issued (swarm s') k id.

#[local] Instance later_preorder : PreOrder later.
Proof. split; unfold later; [by intros s k id|]. intros s1 s2 s3 E1 E2 k id Hi. by apply E2, E1. Qed.

Lemma later_frame {A} (m : node A) : frame swarm m -> along later m.
Proof. apply along_weaken. by intros s s' E k id; rewrite E. Qed.

Lemma later_on_swarm {A} (f : SW -> A * SW) :
  (forall sw k id, issued sw k id -> issued (f sw).2 k id) -> along later (on_swarm f).
Proof.
  intros Hf s res s'. unfold on_swarm. specialize (Hf (swarm s)).
  destruct (f (swarm s)) as [a sw]. by intros [= <- <-].
Qed.

Lemma later_tell_swarm (f : SW -> SW) :
  (forall sw k id, issued sw k id -> issued (f sw) k id) -> along later (tell_swarm f).
Proof. intros Hf s res s' [= <- <-] k id. apply Hf. Qed.

Lemma later_send_pushes peers push : along later (send_pushes peers push).
Proof.
  induction peers as [|p peers IH]; cbn [send_pushes]; [apply along_ret, _|].
  apply along_bind; [apply _| |done]. apply later_on_swarm. intros sw k id. apply issued_request.
Qed.

(** Decompose a handler into primitive operations on the swarm and frames. *)
Ltac solve_later :=
  repeat first
    [ apply later_send_pushes
    | apply later_on_swarm; intros;
        solve [eauto using issued_request, issued_subscribe, issued_publish, issued_dial]
    | apply later_tell_swarm; intros;
        solve [eauto using issued_report, issued_disconnect, issued_response]
    | apply later_frame; solve [solve_frame]
    | apply along_bind; [apply _| |intros]
    | case_match ].

Lemma later_command cmd : along later (handle_command cmd).
Proof. destruct cmd; unfold handle_command, request_pending, send_reply; solve_later. Qed.

Lemma later_event clock ev : along later (handle_event params clock ev).
Proof.
  destruct ev; cbn [handle_event];
    unfold store_query_message, store_query_failure, lightpush_message, lightpush_failure,
      peer_exchange_message, peer_exchange_failure, filter_subscribe_message,
      filter_subscribe_failure, filter_push_message, release_ip,
      handle_relay, accept_relay, push_filter_matches, count_metric, handle_metadata,
      serve_store_query, answer_lightpush, serve_lightpush, serve_peer_exchange, resolve_pending,
      respond_on, send_reply; solve_later.
Qed.

(** ** The accounts of the channels *)

(** The table of the requests of a behaviour; the driver keeps none for its own. *)
Definition table_of (k : Behaviour) (p : Pending.t) : gmap Z Z :=
  match k with
  | OnStore => Pending.store_queries p
  | OnLightpush => Pending.lightpush p
  | OnPeerExchange => Pending.peer_exchange p
  | OnFilter => Pending.filter p
  | OnMetadata | OnPush => ∅
  end.

(** The ids that wait were issued. *)
Definition ids_ok (s : state) : Prop :=
  forall k id, is_Some (table_of k (pending s) !! id) -> issued (swarm s) k id.

Lemma ids_ok_later s s' : later s s' -> pending s' = pending s -> ids_ok s -> ids_ok s'.
Proof. intros Hl Hp Hs k id Hi. apply Hl, Hs. by rewrite <- Hp. Qed.

Lemma accounts_frame {A} (m : node A) s res s' :
  frame replies m -> frame pending m -> along later m -> ids_ok s -> m s = Some (res, s') ->
  ids_ok s' /\ accounted s' = accounted s.
Proof.
  intros Hr Hp Hl Hs E. apply Hr in E as Er. apply Hp in E as Ep. apply Hl in E as El.
  split; [by eapply ids_ok_later|]. unfold accounted. by rewrite Er, Ep.
Qed.

Lemma send_reply_accounts reply a (s : state) :
  exists s', send_reply reply a s = Some (Ok tt, s') /\ swarm s' = swarm s /\ pending s' = pending s /\
    accounted s' ≡ₚ (reply, kind_of a) :: accounted s.
Proof.
  eexists. split; [reflexivity|]. split; [done|]. split; [done|].
  unfold accounted, given. cbn. rewrite fmap_app, <- app_assoc. cbn. by rewrite <- Permutation_middle.
Qed.

(** A request, parked under a new id. *)
Lemma request_pending_accounts k kind peer req set reply (s : state) res s' :
  behaviour_of req = k ->
  (forall id p, table_of k p !! id = None -> waiting (set id p) ≡ₚ (reply, kind) :: waiting p) ->
  (forall id p k' id', is_Some (table_of k' (set id p) !! id') ->
     is_Some (table_of k' p !! id') \/ k' = k /\ id' = id) ->
  ids_ok s -> request_pending peer req set s = Some (res, s') ->
  ids_ok s' /\ accounted s' ≡ₚ (reply, kind) :: accounted s.
Proof.
  intros <- Hw Ht Hs. unfold request_pending, mbind, action_bind, on_swarm.
  pose proof (send_fresh peer req (swarm s)) as Hf. pose proof (send_issues peer req (swarm s)) as Hi.
  pose proof (issued_request peer req (swarm s)) as Hl.
  destruct (swarm_send_request peer req (swarm s)) as [id sw]. cbn in *. intros [= <- <-]. split.
  - intros k' id' [Hp|[-> ->]]%Ht; [|done]. by apply Hl, Hs.
  - unfold accounted. cbn. rewrite Hw; [by rewrite Permutation_middle|].
    apply eq_None_not_Some. intros Hp. by apply Hf, Hs.
Qed.

(** The answer to a command that only uses the swarm. *)
Lemma answered_at_once reply a sw (s : state) res s' :
  (forall k id, issued (swarm s) k id -> issued sw k id) -> ids_ok s ->
  send_reply reply a (set_swarm sw s) = Some (res, s') ->
  ids_ok s' /\ accounted s' ≡ₚ (reply, kind_of a) :: accounted s.
Proof.
  intros Hl Hs. destruct (send_reply_accounts reply a (set_swarm sw s)) as (s2 & -> & Hsw & Hp & Ha).
  intros [= <- <-]. split; [|exact Ha]. apply (ids_ok_later s); [|done|done]. intros k id. rewrite Hsw. apply Hl.
Qed.

Ltac park k :=
  eapply (request_pending_accounts k); [ | | |eassumption|eassumption];
    [done|intros id p Hn; unfold waiting; cbn in *; rewrite values_insert by done; cbn;
     rewrite <- ?Permutation_middle; done
    |intros id p k' id' Hi; destruct k'; cbn in *; try (by left);
     apply lookup_insert_is_Some' in Hi as [->|Hi]; [by right|by left]].

Lemma command_accounts cmd (s : state) res s' :
  ids_ok s -> handle_command cmd s = Some (res, s') ->
  ids_ok s' /\ accounted s' ≡ₚ option_list (wants cmd) ++ accounted s.
Proof.
  intros Hs E. destruct cmd; cbn [handle_command wants option_list app] in *.
  - unfold mbind, action_bind, on_swarm in E. pose proof (issued_subscribe (shard_topic shard) (swarm s)) as Hl.
    destruct (relay_subscribe _ _) as [r sw]. by eapply answered_at_once in E.
  - unfold mbind, action_bind, on_swarm, lift_panic in E.
    pose proof (issued_publish (shard_topic shard) (encode_to_vec message) (swarm s)) as Hl.
    destruct (relay_publish _ _ _) as [r sw].
    destruct r as [id|e]; [destruct (ok_or _ _) as [h|e]; cbn in E;
      [match type of E with context [if ?b then None else _] => destruct b; [done|] end|]|];
      by eapply answered_at_once in E.
  - unfold mbind, action_bind, on_swarm in E. pose proof (issued_dial addr (swarm s)) as Hl.
    destruct (swarm_dial _ _) as [r sw]. by eapply answered_at_once in E.
  - park OnStore.
  - park OnLightpush.
  - park OnPeerExchange.
  - park OnFilter.
  - by injection E as <- <-.
Qed.

(** A response, or a failure: the channel goes from the table to the answers. *)
Lemma resolve_accounts get set id a (s : state) res s' :
  (forall p r, get p !! id = Some r ->
     (r, kind_of a) :: waiting (set (delete id (get p)) p) ≡ₚ waiting p) ->
  (forall p k id', is_Some (table_of k (set (delete id (get p)) p) !! id') ->
     is_Some (table_of k p !! id')) ->
  ids_ok s -> resolve_pending get set id a s = Some (res, s') ->
  ids_ok s' /\ accounted s' ≡ₚ accounted s.
Proof.
  intros Hw Ht Hs. rewrite resolve_pending_run. intros [= <- <-].
  destruct (get (pending s) !! id) as [r|] eqn:E; [|done]. split.
  - intros k id' Hi. apply Hs. cbn in Hi. by apply Ht in Hi.
  - unfold accounted, given. cbn. rewrite fmap_app, <- app_assoc. cbn. by rewrite Hw.
Qed.

Ltac settle :=
  eapply resolve_accounts; [ | |eassumption|eassumption];
    [intros p r Hlook; unfold waiting; cbn in *; rewrite <- (values_delete _ _ _ Hlook); cbn;
     rewrite <- ?Permutation_middle; done
    |intros p k id' Hi; destruct k; cbn in *; try done;
     apply lookup_delete_is_Some in Hi as [_ Hi]; done].

Lemma event_accounts clock ev (s : state) res s' :
  ids_ok s -> handle_event params clock ev s = Some (res, s') ->
  ids_ok s' /\ accounted s' ≡ₚ accounted s.
Proof.
  intros Hs E. pose proof (later_event clock ev) as Hl.
  assert (frame replies (handle_event params clock ev) ->
    frame pending (handle_event params clock ev) ->
    ids_ok s' /\ accounted s' ≡ₚ accounted s) as Hframe.
  { intros Hr Hp. destruct (accounts_frame _ s res s' Hr Hp Hl Hs E) as [Hs' ->]. done. }
  destruct ev as [| | | | |peer m|id err|peer m|id err|peer m|id err|peer m|id err| |];
    try (destruct m as [req channel|id resp]); cbn [handle_event] in *;
    unfold store_query_message, store_query_failure, lightpush_message, lightpush_failure,
      peer_exchange_message, peer_exchange_failure, filter_subscribe_message,
      filter_subscribe_failure in *;
    try settle; clear E; apply Hframe; clear Hframe; unfold filter_push_message, release_ip,
      handle_relay, accept_relay, push_filter_matches, count_metric, handle_metadata,
      serve_store_query, answer_lightpush, serve_lightpush, serve_peer_exchange,
      respond_on, tell_swarm; solve_frame.
Qed.

(** ** Whole runs *)

Lemma run_accounts inputs (s : state) stopped s' :
  ids_ok s -> run params inputs s = Some (stopped, s') ->
  exists handled rest, inputs = handled ++ rest /\ (stopped = false -> rest = []) /\
    run params handled s = Some (stopped, s') /\ ids_ok s' /\
    accounted s' ≡ₚ asked handled ++ accounted s.
Proof.
  revert s. induction inputs as [|i inputs IH]; intros s Hs.
  { intros [= <- <-]. by exists [], []. }
  assert (forall s1, run params [i] s = Some (true, s1) -> ids_ok s1 ->
    accounted s1 ≡ₚ option_list (asked_by i) ++ accounted s ->
    exists handled rest, i :: inputs = handled ++ rest /\ (true = false -> rest = []) /\
      run params handled s = Some (true, s1) /\ ids_ok s1 /\
      accounted s1 ≡ₚ asked handled ++ accounted s) as Hstop.
  { intros s1 Hr Hs1 Ha. exists [i], inputs. by split_and!. }
  assert (forall s1, (forall l, run params (i :: l) s = run params l s1) -> ids_ok s1 ->
    accounted s1 ≡ₚ option_list (asked_by i) ++ accounted s ->
    run params inputs s1 = Some (stopped, s') ->
    exists handled rest, i :: inputs = handled ++ rest /\ (stopped = false -> rest = []) /\
      run params handled s = Some (stopped, s') /\ ids_ok s' /\
      accounted s' ≡ₚ asked handled ++ accounted s) as Hgo.
  { intros s1 Hr Hs1 Ha Hrun. destruct (IH s1 Hs1 Hrun) as (handled & rest & -> & Hrest & Hh & Hs' & Ha').
    exists (i :: handled), rest. rewrite Hr. split_and!; try done.
    rewrite Ha', Ha. unfold asked. cbn. destruct (asked_by i); cbn; [|done].
    by rewrite Permutation_middle. }
  destruct i as [[cmd|]|clock ev].
  - assert (cmd = CmdShutdown \/ cmd <> CmdShutdown) as [->|Hc] by (destruct cmd; auto).
    { cbn. intros [= <- <-]. by apply Hstop. }
    assert (forall l, run params (InCommand (Some cmd) :: l) s =
      ('(_, s) ← handle_command cmd s; run params l s)) as Hstep by (intros l; by destruct cmd).
    rewrite Hstep. destruct (handle_command cmd s) as [[res s1]|] eqn:E; [|done]. cbn.
    apply command_accounts in E as [Hs1 Ha]; [|done]. by apply Hgo.
  - cbn. intros [= <- <-]. by apply Hstop.
  - cbn [run]. destruct (handle_event params clock ev s) as [[res s1]|] eqn:E; [|done]. cbn.
    pose proof E as E'. apply event_accounts in E' as [Hs1 Ha]; [|done]. destruct res as [[]|[]].
    + apply Hgo; [|done|done]. intros l. cbn [run]. by rewrite E.
    + intros [= <- <-]. apply Hstop; [|done|done]. cbn [run]. by rewrite E.
Qed.

(** C18. No caller is forgotten and none is answered twice: in every run of the driver, from its
    start on and whatever commands and events it is given, the channels of the commands it
    has handled are, each exactly once, either answered with the kind of answer the caller
    waits for, or parked in the pending table of that kind under the id of a request.  In
    particular callers with channels of their own are answered at most once. *)
Theorem every_caller_accounted (sw : SW) (st : option St) (inputs : list Input) (stopped : bool)
    (s' : state) :
  run params inputs (initial_state sw st) = Some (stopped, s') ->
  exists handled rest, inputs = handled ++ rest /\ (stopped = false -> rest = []) /\
    run params handled (initial_state sw st) = Some (stopped, s') /\
    given (replies s') ++ waiting (pending s') ≡ₚ asked handled /\
    (NoDup (asked handled).*1 -> NoDup (replies s').*1).
Proof.
  intros E. destruct (run_accounts inputs (initial_state sw st) stopped s')
    as (handled & rest & -> & Hrest & Hh & _ & Ha); [|done|].
  { intros k id [r Hr]. by destruct k. }
  rewrite app_nil_r in Ha. exists handled, rest. split_and!; try done.
  intros Hn. rewrite <- Ha in Hn. unfold accounted in Hn. rewrite fmap_app in Hn.
  apply list.NoDup_app in Hn as (Hn & _ & _). unfold given in Hn. by rewrite <- list_fmap_compose in Hn.
Qed.

End Runs.

(** ** What a handle reads

    [connected_peers], [listen_addresses] and the counters read state the driver shares.
    Here it is computed from the events the driver has sent. *)

Definition note_event (peers : gset PeerId) (ev : Event) : gset PeerId :=
  match ev with
  | PeerConnected p => {[p]} ∪ peers
  | PeerDisconnected p => peers ∖ {[p]}
  | _ => peers
  end.

Definition announced (ev : Event) : option Multiaddr :=
  match ev with Listening a => Some a | _ => None end.

Definition is_message (ev : Event) : bool :=
  match ev with EvMessage _ _ _ _ => true | _ => false end.

Definition peers_after (l : list Event) : gset PeerId := foldl note_event ∅ l.
Definition addrs_after (l : list Event) : list Multiaddr := omap (M := list) announced l.
Definition relayed_in (l : list Event) : nat := length (filter (fun ev => is_message ev = true) l).

Section Reads.
Context {SW St WakuEnr : Type} `{Swarm SW, MessageStore St, EnrOps WakuEnr}.
Context `{EnrCrypto}.
Context `{Sha256, BuildProfile, Prost WakuMessage}.
Variable params : NodeParams.

Abbreviation state := (NodeState SW St WakuEnr).
Abbreviation node := (action state ()).

(** The part of the state that is read. *)
Definition read_part (s : state) : gset PeerId * list Multiaddr * Z :=
  (connected s, listen_addrs s, relay_messages (metrics s)).

(** The application is listening, and the state is what the events say. *)
Definition reflects (s : state) : Prop :=
  evt_rx_open s = true /\
  read_part s = (peers_after (events s), addrs_after (events s),
                 as_u64 (Z.of_nat (relayed_in (events s)))).

(** An event with its effect. *)
Definition effect (ev : Event) (r : gset PeerId * list Multiaddr * Z) : gset PeerId * list Multiaddr * Z :=
  let '(peers, addrs, n) := r in
  (note_event peers ev, match announced ev with Some a => addrs ++ [a] | None => addrs end,
   if is_message ev then MetricsOps.fetch_add n 1 else n).

Lemma reflects_event ev (s s' : state) :
  reflects s -> evt_rx_open s' = true -> events s' = events s ++ [ev] ->
  read_part s' = effect ev (read_part s) -> reflects s'.
Proof.
  intros [_ Hr] Ho He Hs. split; [done|]. rewrite Hs, Hr, He.
  unfold effect, peers_after, addrs_after, relayed_in. rewrite foldl_app, omap_app, list.filter_app, length_app.
  cbn. f_equal; [f_equal; destruct (announced ev); by rewrite ?app_nil_r|].
  unfold MetricsOps.fetch_add, wrap_unsigned. destruct (is_message ev); cbn.
  - rewrite Zplus_mod_idemp_l, decide_True by done. cbn. f_equal. lia.
  - rewrite decide_False by done. cbn. f_equal. lia.
Qed.

Lemma reflects_same (s s' : state) :
  reflects s -> evt_rx_open s' = evt_rx_open s -> events s' = events s -> read_part s' = read_part s ->
  reflects s'.
Proof. unfold reflects. by intros [-> ->] -> -> ->. Qed.

Definition quiet {A} (m : node A) : Prop :=
  frame (evt_rx_open : state -> _) m /\ frame (events : state -> _) m /\ frame read_part m.

Lemma reflects_quiet {A} (m : node A) s res s' :
  quiet m -> reflects s -> m s = Some (res, s') -> reflects s'.
Proof. intros (Ho & He & Hr) Hs E. by apply (reflects_same s); [|eapply Ho|eapply He|eapply Hr]. Qed.

Lemma quiet_command cmd : quiet (handle_command cmd).
Proof.
  split_and!; destruct cmd; unfold handle_command, request_pending, send_reply; solve_frame.
Qed.

(** The events that change what is read, or that are reported. *)
Definition is_reported (ev : SwarmEvent) : bool :=
  match ev with
  | NewListenAddr _ | ConnectionEstablished _ _ | ConnectionClosed _ _ | RelayMessage _ _ _
  | MetadataEvent _ _ | FilterPushEvent _ _ => true
  | _ => false
  end.

Lemma quiet_event clock ev : is_reported ev = false -> quiet (handle_event params clock ev).
Proof.
  intros Hev. split_and!; destruct ev; try done; cbn [handle_event];
    unfold store_query_message, store_query_failure, lightpush_message, lightpush_failure,
      peer_exchange_message, peer_exchange_failure, filter_subscribe_message,
      filter_subscribe_failure, count_metric, serve_store_query, answer_lightpush, serve_lightpush,
      serve_peer_exchange, resolve_pending, respond_on, tell_swarm, send_reply; solve_frame.
Qed.

Lemma admit_ip_quiet remote s res s' :
  reflects s -> admit_ip params remote s = Some (res, s') -> reflects s'.
Proof. apply reflects_quiet. by split_and!; apply frame_admit_ip. Qed.

Lemma reflects_reported clock ev (s : state) res s' :
  is_reported ev = true -> reflects s -> handle_event params clock ev s = Some (res, s') -> reflects s'.
Proof.
  intros Hev Hs. pose proof Hs as [Ho _]. destruct ev as [a|p remote|p remote|src id msg|p m| | | | | | | | |p m|];
    try done.
  - cbn. unfold mbind, action_bind, send_event. cbn. rewrite Ho. intros [= <- <-].
    by apply (reflects_event (Listening a) s).
  - intros E. pose proof E as E1. cbn [handle_event] in E1. apply bind_inv in E1 as (r1 & s1 & E1 & _).
    assert (exists b, r1 = Ok b) as [b ->].
    { unfold admit_ip in E1. repeat case_match; injection E1 as <- <-; eauto. }
    apply admit_ip_quiet in E1 as Hs1; [|done]. pose proof Hs1 as [Ho1 _].
    rewrite (established_run params clock p remote s b s1 E1 Ho1) in E. injection E as <- <-.
    destruct b; [by apply (reflects_event (PeerConnected p) s1)|by apply (reflects_same s1)].
  - destruct (closed_run params clock p remote s Ho) as (s1 & E1 & Ho1 & _ & ->). intros [= <- <-].
    apply (reflects_event (PeerDisconnected p) s1); [|done..].
    eapply reflects_quiet; [|exact Hs|exact E1]. split_and!; unfold release_ip; solve_frame.
  - rewrite relay_message_run by done. destruct (ShardId.parse _) as [shard|]; [|by intros [= <- <-]; apply (reflects_same s)].
    destruct (ok _) as [m|]; [|by intros [= <- <-]; apply (reflects_same s)].
    destruct (relay_verdict clock m) as [[| |]|]; [|by intros [= <- <-]; apply (reflects_same s)..|done].
    intros [= <- <-]. by eapply (reflects_event (EvMessage shard m _ src) s).
  - rewrite metadata_event_run by done. intros [= <- <-].
    repeat case_match; try done; try by apply (reflects_same s). by eapply (reflects_event (MetadataMismatch p _) s).
  - cbn. unfold filter_push_message. destruct m as [req channel|]; [|by intros [= <- <-]].
    destruct (Filter.waku_message req) as [m|]; unfold mbind, action_bind, send_event; cbn;
      rewrite ?Ho; intros [= <- <-]; [by eapply (reflects_event (FilterMessage _ m) s)|by apply (reflects_same s)].
Qed.

Lemma reflects_input i (s : state) stopped s' :
  reflects s -> run params [i] s = Some (stopped, s') -> reflects s'.
Proof.
  intros Hs. destruct i as [[cmd|]|clock ev]; [|by intros [= <- <-]|].
  - assert (cmd = CmdShutdown \/ cmd <> CmdShutdown) as [->|Hc] by (destruct cmd; auto);
      [by intros [= <- <-]|].
    assert (run params [InCommand (Some cmd)] s = ('(_, s) ← handle_command cmd s; Some (false, s))) as ->
      by by destruct cmd.
    destruct (handle_command cmd s) as [[r s1]|] eqn:E; [|done]. cbn. intros [= <- <-].
    by eapply reflects_quiet, E; [apply quiet_command|].
  - cbn [run]. destruct (handle_event params clock ev s) as [[r s1]|] eqn:E; [|done].
    assert (reflects s1) as Hs1.
    { destruct (is_reported ev) eqn:Hev; [by eapply reflects_reported|].
      by eapply reflects_quiet, E; [apply quiet_event|]. }
    cbn. by destruct r; intros [= <- <-].
Qed.

(** ** Moves of the node

    The driver is not alone on the state it shares: put tasks end, discovery fills the peer
    book, and the store has other users. *)

Inductive move : relation state :=
  | move_input i stopped s s' : run params [i] s = Some (stopped, s') -> move s s'
  | move_put i s s' : run_put_task i s = Some s' -> move s s'
  | move_book l s : move s (set_peer_book l s)
  | move_store st s : move s (set_store st s).

Definition moves : relation state := rtc move.

Lemma run_put_task_inv i (s s' : state) :
  run_put_task i s = Some s' -> exists st, s' = set_put_tasks (delete i (put_tasks s)) (set_store st s).
Proof.
  unfold run_put_task. destruct (put_tasks s !! i) as [[[topic m] rx]|]; [|done].
  destruct (store s) as [st|]; [|done]. destruct (ms_put topic m rx st) as [[r st']|]; [|done].
  intros [= <-]. by eexists.
Qed.

Lemma moves_events s s' : moves s s' -> events s `prefix_of` events s'.
Proof.
  induction 1 as [s|s1 s2 s3 Hm _ IH]; [done|]. etrans; [|exact IH]. clear IH.
  destruct Hm as [i stopped s s' E|i s s' E| |]; [by eapply events_grow_run| |done..].
  apply run_put_task_inv in E as [st ->]. done.
Qed.

Lemma moves_reflect s s' : moves s s' -> reflects s -> reflects s'.
Proof.
  induction 1 as [s|s1 s2 s3 Hm _ IH]; [done|]. intros Hs. apply IH. clear IH.
  destruct Hm as [i stopped s s' E|i s s' E|l s|st s]; [by eapply reflects_input| |by apply (reflects_same s)..].
  apply run_put_task_inv in E as [st ->]. by apply (reflects_same s).
Qed.

Lemma reflects_initial sw st : reflects (initial_state sw st).
Proof. done. Qed.

Lemma moves_step_world (w : World) i : moves (w_node w) (w_node (step_world params w i)).
Proof.
  unfold step_world. destruct (w_running w); [|apply rtc_refl].
  destruct (run params [i] (w_node w)) as [[stopped s]|] eqn:E; [|apply rtc_refl].
  by eapply rtc_once, move_input.
Qed.

Lemma moves_advance inputs (w : World) : moves (w_node w) (w_node (advance params inputs w)).
Proof.
  revert w. induction inputs as [|i inputs IH]; intros w; [apply rtc_refl|].
  unfold moves. etrans; [apply moves_step_world|apply IH].
Qed.

End Reads.

(** ** Panics

    [None] is a panic.  [total m]: the handler [m] does not panic, in whatever state.  The
    panics the model knows are those of arithmetic, of slices and of decoding a cell with
    [get]; a poisoned lock and a cell of a foreign type are not among them. *)

Section Panics.
Context {SW WakuEnr : Type} `{Swarm SW, EnrOps WakuEnr}.
Context `{EnrCrypto}.
Context `{Sha256, BuildProfile, Prost WakuMessage}.
Variable params : NodeParams.

Abbreviation state := (NodeState SW SqliteStore WakuEnr).

Definition total {St E A} (m : action St E A) : Prop := forall s, is_Some (m s).

Lemma total_bind {St E A B} (m : action St E A) (k : A -> action St E B) :
  total m -> (forall a, total (k a)) -> total (m ≫= k).
Proof.
  intros Hm Hk s. unfold mbind, action_bind. destruct (Hm s) as [[[a|e] s1] ->]; [apply Hk|done].
Qed.

Lemma total_statement {A} (f : table -> A * table) : total (statement f).
Proof. intros d. unfold statement. destruct (f (rows d)), (faults d) as [|[e|] fs]; done. Qed.

Lemma total_lift_panic {St E A} (o : option A) : is_Some o -> total (E := E) (lift_panic (St := St) o).
Proof. by intros [a ->] s. Qed.

Lemma total_on_swarm {A} (f : SW -> A * SW) : total (on_swarm (St := SqliteStore) (WakuEnr := WakuEnr) f).
Proof. intros s. unfold on_swarm. by destruct (f (swarm s)). Qed.

Lemma total_send_event ev : total (send_event (SW := SW) (St := SqliteStore) (WakuEnr := WakuEnr) ev).
Proof. intros s. unfold send_event. by destruct (evt_rx_open s). Qed.

Lemma total_state_of {St E A} (f : St -> A * St) : total (E := E) (state_of f).
Proof. intros s. unfold state_of. by destruct (f s). Qed.

Lemma total_admit_ip remote :
  total (admit_ip (SW := SW) (St := SqliteStore) (WakuEnr := WakuEnr) params remote).
Proof. intros s. unfold admit_ip. repeat case_match; done. Qed.

Lemma total_send_pushes peers push :
  total (send_pushes (SW := SW) (St := SqliteStore) (WakuEnr := WakuEnr) peers push).
Proof. intros s. by rewrite send_pushes_run. Qed.

Ltac solve_total :=
  repeat first
    [ apply total_bind; [|intros]
    | apply total_on_swarm | apply total_send_event | apply total_state_of | apply total_admit_ip
    | apply total_send_pushes
    | by intros ?
    | case_match ].

(** With wrapping arithmetic: *)
Section Release.
Hypothesis Hrelease : overflow_checks = false.

Lemma i64_op_total z : is_Some (i64_op z).
Proof. unfold i64_op. rewrite Hrelease. by case_decide. Qed.

Lemma query_total q : total (query q).
Proof.
  assert (forall h, total (cursor_sort_time h)) as Hcursor
    by (intros h d; rewrite cursor_sort_time_select; apply total_statement).
  unfold query, resolve_cursor, select. cbv zeta.
  repeat first [apply Hcursor | apply total_bind; [|intros] | apply total_statement
    | apply total_lift_panic, i64_op_total | by intros ? | rewrite slice_to_min; by intros ? | case_match].
Qed.

Lemma relay_verdict_total clock m : is_Some (relay_verdict clock m).
Proof.
  unfold relay_verdict, timestamp_gap, validate, beyond_tolerance, i64_abs.
  destruct (timestamp m) as [ts|]; [|done].
  destruct (i64_op_total (now_unix_nanos clock - ts)) as [d ->]. cbn.
  destruct (i64_op_total (Z.abs (Z.quot d 1000000000))) as [a ->]. cbn. by case_bool_decide.
Qed.

Lemma command_total cmd : total (handle_command (SW := SW) (St := SqliteStore) (WakuEnr := WakuEnr) cmd).
Proof.
  destruct cmd; unfold handle_command, request_pending, send_reply; solve_total.
  match goal with E : overflow_checks && _ = true |- _ => by rewrite Hrelease in E end.
Qed.

Lemma serve_total (d : SqliteStore) req : is_Some (serve d req).
Proof.
  unfold serve. cbn [ms_query sqlite_store].
  by destruct (query_total (request_to_query req) d) as [[r st] ->].
Qed.

Lemma event_total clock ev :
  total (handle_event (SW := SW) (St := SqliteStore) (WakuEnr := WakuEnr) params clock ev).
Proof.
  destruct ev; cbn [handle_event];
    unfold store_query_message, store_query_failure, lightpush_message, lightpush_failure,
      peer_exchange_message, peer_exchange_failure, filter_subscribe_message,
      filter_subscribe_failure, filter_push_message, release_ip,
      handle_relay, accept_relay, push_filter_matches, count_metric, handle_metadata,
      serve_store_query, answer_lightpush, serve_lightpush, serve_peer_exchange, resolve_pending,
      respond_on, tell_swarm, send_reply; solve_total;
    apply total_lift_panic; [apply relay_verdict_total|apply serve_total].
Qed.

(** None of these panics occurs. *)
Lemma run_total inputs (s : state) : is_Some (run params inputs s).
Proof.
  revert s. induction inputs as [|i inputs IH]; intros s; [done|].
  destruct i as [[cmd|]|clock ev]; [|done|]; cbn [run].
  - destruct (command_total cmd s) as [[r s1] E]. by destruct cmd; try done; rewrite E; apply IH.
  - destruct (event_total clock ev s) as [[[u|u] s1] ->]; [apply IH|done].
Qed.

End Release.

(** A request for a page of [i64::MAX] messages. *)
Definition huge_page : StoreWire.StoreQueryRequest :=
  StoreWire.mkStoreQueryRequest "" false None [] None None [] None true (Some (2 ^ 63 - 1)).

(** C19. In a build with overflow checks one store query stops a node for good: any peer the
    rate limiter lets through can ask for a page of [i64::MAX] messages, on which the driver
    panics while it serves it.  Whatever comes after, the driver handles nothing any more:
    it does not run, the events and the replies are those sent before, and every call of a
    handle is answered with [NodeStopped]. *)
Theorem huge_page_stops_node (clock : Clock) (peer : PeerId) (channel : Z) (d : SqliteStore)
    (later : list Input) (s : state) :
  overflow_checks = true -> store s = Some d -> healthy d ->
  (RateLimiter.allow (store_limiter (limits s)) peer (instant_now clock)).1 = true ->
  let query := InEvent clock (StoreQueryEvent peer (RRequest huge_page channel)) in
  let w := advance params (query :: later) (mkWorld s true) in
  w_running w = false /\ events (w_node w) = events s /\ replies (w_node w) = replies s /\
  forall A cmd reply (decode : Answer -> option (result string A)) inputs,
    Handle.call params cmd reply decode inputs (driver_of w) = Done (Err NodeStopped).
Proof.
  intros Hc Hst Hd Hrate query w.
  assert (run params [query] s = None) as Hpanic.
  { unfold query. cbn [run handle_event].
    unfold store_query_message, serve_store_query, mbind, action_bind, state_of.
    destruct (RateLimiter.allow _ _ _) as [allowed rl]. cbn in Hrate. subst allowed.
    cbn -[serve]. rewrite Hst. unfold lift_panic, serve. cbn [ms_query sqlite_store].
    by rewrite (proj2 (query_extremes (request_to_query huge_page) d Hd) eq_refl Hc). }
  assert (w = mkWorld s false) as ->.
  { unfold w, advance. cbn [foldl]. unfold step_world at 2. cbn [w_running w_node]. rewrite Hpanic.
    induction later as [|i later IH]; [done|]. exact IH. }
  do 3 (split; [done|]). by intros.
Qed.

End Panics.

(** ** A concrete run *)

#[local] Existing Instances toy_sha256 countable_prost log_swarm demo_crypto demo_enr demo_profile.

(** The logging swarm numbers all requests in one sequence. *)
#[local] Program Instance log_swarm_ids : UniqueRequestIds LogSwarm := {|
  issued sw _ id := id < next_id sw;
|}.
Solve All Obligations with (cbn; intros; lia).

(** A subscription, two store queries, one of which fails, and the end of the handles. *)
Definition demo_inputs : list Input :=
  [InCommand (Some (CmdSubscribe (ShardId.new 1 0) 5));
   InCommand (Some (CmdStoreQuery [x01] (hash_request "q" true []) 6));
   InCommand (Some (CmdStoreQuery [x01] (hash_request "r" true []) 7));
   InEvent demo_clock (StoreQueryFailure 1 "timeout");
   InCommand None;
   InCommand (Some (CmdSubscribe (ShardId.new 1 1) 8))].

Lemma every_caller_accounted_witness :
  exists s' handled rest, run demo_params demo_inputs demo_state = Some (true, s') /\
    demo_inputs = handled ++ rest /\
    given (replies s') ++ waiting (pending s') ≡ₚ asked handled /\ NoDup (replies s').*1.
Proof.
  destruct (run demo_params demo_inputs demo_state) as [[[] s']|] eqn:E;
    [|vm_compute in E; discriminate E..].
  destruct (every_caller_accounted demo_params (mkLogSwarm 0 []) (Some (mkSqliteStore ∅ [])) demo_inputs
    true s' E) as (handled & rest & Hi & _ & _ & Hp & Hn).
  exists s', handled, rest. split; [reflexivity|]. split; [exact Hi|]. split; [exact Hp|]. apply Hn.
  assert (NoDup (asked demo_inputs).*1) as Hd by (vm_compute; repeat constructor; set_solver).
  rewrite Hi in Hd. unfold asked in Hd. rewrite omap_app, fmap_app in Hd. by apply list.NoDup_app in Hd as [Hd _].
Defined.

(** A debug build of the demonstration node, and one request. *)
Lemma huge_page_stops_node_witness :
  w_running (advance demo_params [InEvent demo_clock (StoreQueryEvent [x01] (RRequest huge_page 3));
    InCommand (Some (CmdSubscribe (ShardId.new 1 0) 5))] (mkWorld demo_state true)) = false.
Proof.
  exact (proj1 (huge_page_stops_node demo_params demo_clock [x01] 3 (mkSqliteStore ∅ [])
    [InCommand (Some (CmdSubscribe (ShardId.new 1 0) 5))] demo_state eq_refl eq_refl eq_refl eq_refl)).
Defined.
