(* ===== verification/Channels.v ===== *)
(** * Channels: the bounded channels between [main], the handles and the driver

    [spawn] makes a command channel of 64 places and an event channel of 256.  A handle that
    sends a command waits while the first is full; the driver, in the middle of handling an
    event, waits while the second is; and [main], while it starts, waits for the answers of
    its own commands without reading events.

    The rest of the library takes the channels to have room.  Here they are bounded, and the
    driver can be seen at the send of its event: [at_send] is the state of the node there,
    with everything the handler has done before it, and [sys_held] the state it goes on in.
    [effects_precede_send] says that the two differ in the event and the swarm only;
    [bounded_refines] that a bounded execution is one of the unbounded driver on the commands
    of the channel; the other theorems say when the program gets on and when it does not. *)

From Stdlib Require Import Strings.Byte.
From stdpp Require Import base gmap strings list numbers relations.
From S2P Require Import Prelude Bytes Text Core Framing Wire Relay Store StoreServe Net Discv5 Services Ratelimit Node NodeFacts Handle Runs.

Open Scope Z_scope.

Definition COMMAND_CHANNEL : nat := 64.
Definition EVENT_CHANNEL : nat := 256.

(** Where [main] is: it has commands left to send, waiting for the answer of the first one
    or not yet; it reads events; or it is over. *)
Inductive MainPhase : Type :=
  | Starting (todo : list Command) (asked : bool)
  | Reading
  | Over.

(** The oneshot channel of a command. *)
Definition reply_of (cmd : Command) : option Z :=
  match cmd with
  | CmdSubscribe _ reply | CmdPublish _ _ reply | CmdDial _ reply | CmdStoreQuery _ _ reply
  | CmdLightPush _ _ reply | CmdPeerExchange _ _ reply | CmdFilterSubscribe _ _ reply => Some reply
  | CmdShutdown => None
  end.

(** Whether [main] goes on after an answer: a refused subscription ends it, a failed dial
    does not. *)
Definition goes_on (cmd : Command) (a : Answer) : bool :=
  match cmd, a with
  | CmdSubscribe _ _, UnitAnswer (Err _) => false
  | _, _ => true
  end.

(** The commands of the start of [main], each with its own oneshot channel. *)
Definition startup_todo (cluster_id : Z) (shards : list Z) (addrs : list Multiaddr) : list Command :=
  imap (fun i shard => CmdSubscribe (ShardId.new cluster_id shard) (Z.of_nat i)) shards ++
  imap (fun i addr => CmdDial addr (Z.of_nat (length shards + i))) addrs.

(** The commands of the start, and those of the discovery task, are answered at once. *)
Definition startup_command (cmd : Command) : bool :=
  match cmd with CmdSubscribe _ _ | CmdDial _ _ => true | _ => false end.
Definition is_dial (cmd : Command) : bool := match cmd with CmdDial _ _ => true | _ => false end.

Lemma imap_replies {A} (f : nat -> A -> Command) (k : nat) (l : list A) :
  (forall i x, reply_of (f i x) = Some (Z.of_nat (k + i))) ->
  omap reply_of (imap f l) = Z.of_nat <$> seq k (length l).
Proof.
  revert f k. induction l as [|x l IH]; intros f k Hf; [done|].
  rewrite imap_cons. cbn. rewrite Hf, Nat.add_0_r. cbn. f_equal.
  apply (IH _ (S k)). intros i y. cbn. rewrite Hf. do 2 f_equal. lia.
Qed.

Lemma startup_todo_replies cluster_id shards addrs :
  omap reply_of (startup_todo cluster_id shards addrs) =
  Z.of_nat <$> seq 0 (length shards + length addrs).
Proof.
  unfold startup_todo. rewrite omap_app, (imap_replies _ 0), (imap_replies _ (length shards)) by done.
  by rewrite <- fmap_app, <- seq_app.
Qed.

Lemma startup_todo_commands cluster_id shards addrs :
  Forall (fun c => startup_command c = true) (startup_todo cluster_id shards addrs).
Proof.
  apply list.Forall_app. split; apply list.Forall_forall; intros c Hc;
    apply list_elem_of_lookup_1 in Hc as [i Hi]; rewrite list_lookup_imap in Hi;
    by apply fmap_Some in Hi as (x & _ & ->).
Qed.

(** ** Where a handler sends its event *)

Section Sending.
Context {SW St WakuEnr : Type} `{Swarm SW, MessageStore St, EnrOps WakuEnr}.
Context `{EnrCrypto}.
Context `{Sha256, BuildProfile, Prost WakuMessage}.
Variable params : NodeParams.

Abbreviation state := (NodeState SW St WakuEnr).
Abbreviation node := (action state ()).

(** The node without a reader of its events. *)
Definition unheard (s : state) : state := set_evt_rx_open false s.

(** The state in which the handler of an event awaits [evt_tx.send].  Up to there it does what
    it does when nobody listens, where the send fails and [?] ends the handler. *)
Definition at_send (clock : Clock) (ev : SwarmEvent) (s : state) : option state :=
  match handle_event params clock ev (unheard s) with
  | Some (Err _, s1) => Some (set_evt_rx_open true s1)
  | _ => None
  end.

(** An operation that sends no event and does not look whether anybody listens. *)
Definition silent {A} (m : node A) : Prop := forall s res s',
  evt_rx_open s = true -> m s = Some (res, s') ->
  m (unheard s) = Some (res, unheard s') /\ evt_rx_open s' = true /\ events s' = events s.

(** An operation on the swarm only. *)
Definition swarm_only {A} (m : node A) : Prop := forall s res s',
  m s = Some (res, s') -> is_ok res = true /\ exists sw, s' = set_swarm sw s.

(** What is done after the event is sent. *)
Definition sent_from (s1 s' : state) : Prop :=
  exists ev sw, s' = set_swarm sw (set_events (events s1 ++ [ev]) s1).

(** An operation that is silent, or sends one event and then only touches the swarm. *)
Definition sends_last {A} (m : node A) : Prop := forall s res s',
  evt_rx_open s = true -> m s = Some (res, s') ->
  (m (unheard s) = Some (res, unheard s') /\ evt_rx_open s' = true /\ events s' = events s) \/
  is_ok res = true /\ exists s1, m (unheard s) = Some (Err tt, unheard s1) /\
    evt_rx_open s1 = true /\ events s1 = events s /\ sent_from s1 s'.

Lemma silent_ret {A} (a : A) : silent (mret a).
Proof. by intros s res s' Ho [= <- <-]. Qed.

Lemma silent_gets {A} (g : state -> A) : (forall s, g (unheard s) = g s) -> silent (gets g).
Proof. intros Hg s res s' Ho [= <- <-]. unfold gets. by rewrite Hg. Qed.

Lemma silent_lift_panic {A} (o : option A) : silent (lift_panic o).
Proof. intros s res s' Ho. unfold lift_panic. destruct o; [by intros [= <- <-]|done]. Qed.

Lemma silent_modify g :
  (forall s, g (unheard s) = unheard (g s) /\ evt_rx_open (g s) = evt_rx_open s /\ events (g s) = events s) ->
  silent (modify g).
Proof.
  intros Hg s res s' Ho [= <- <-]. unfold modify. destruct (Hg s) as (-> & Ho' & He).
  split; [done|]. split; [congruence|done].
Qed.

Lemma silent_state_of {A} (g : state -> A * state) :
  (forall s, g (unheard s) = ((g s).1, unheard (g s).2) /\ evt_rx_open (g s).2 = evt_rx_open s /\
     events (g s).2 = events s) ->
  silent (state_of g).
Proof.
  intros Hg s res s' Ho. unfold state_of. destruct (Hg s) as (-> & Ho' & He). destruct (g s) as [a s1].
  intros [= <- <-]. cbn in *. split; [done|]. split; [congruence|done].
Qed.

Lemma silent_on_swarm {A} (f : SW -> A * SW) : silent (on_swarm f).
Proof.
  intros s res s' Ho. unfold on_swarm, unheard. cbn. destruct (f (swarm s)). by intros [= <- <-].
Qed.

Lemma silent_send_pushes peers push : silent (send_pushes peers push).
Proof. intros s res s' Ho. rewrite !send_pushes_run. by intros [= <- <-]. Qed.

Lemma silent_admit_ip remote : silent (admit_ip params remote).
Proof.
  intros s res s' Ho. unfold admit_ip, unheard. cbn.
  repeat case_match; intros [= <- <-]; simplify_eq; done.
Qed.

Lemma silent_bind {A B} (m : node A) (k : A -> node B) :
  silent m -> (forall a, silent (k a)) -> silent (m ≫= k).
Proof.
  intros Hm Hk s res s' Ho. unfold mbind, action_bind.
  destruct (m s) as [[[a|e] s1]|] eqn:E; [| |done].
  - intros E2. destruct (Hm _ _ _ Ho E) as (-> & Ho1 & He1).
    destruct (Hk a _ _ _ Ho1 E2) as (-> & Ho2 & He2). split_and!; [done..|congruence].
  - intros [= <- <-]. destruct (Hm _ _ _ Ho E) as (-> & Ho1 & He1). done.
Qed.

Lemma swarm_only_ret {A} (a : A) : swarm_only (mret a).
Proof. intros s res s' [= <- <-]. split; [done|]. exists (swarm s). by destruct s. Qed.

Lemma swarm_only_tell f : swarm_only (tell_swarm f : node ()).
Proof. intros s res s' [= <- <-]. split; [done|]. by eexists. Qed.

Lemma sends_last_silent {A} (m : node A) : silent m -> sends_last m.
Proof. intros Hm s res s' Ho E. left. by apply Hm. Qed.

Lemma sends_last_event ev : sends_last (send_event ev).
Proof.
  intros s res s' Ho. unfold send_event, unheard. cbn. rewrite Ho. intros [= <- <-]. right.
  split; [done|]. exists s. split_and!; try done. exists ev, (swarm s). by destruct s.
Qed.

Lemma sends_last_before {A B} (m : node A) (k : A -> node B) :
  silent m -> (forall a, sends_last (k a)) -> sends_last (m ≫= k).
Proof.
  intros Hm Hk s res s' Ho. unfold mbind, action_bind.
  destruct (m s) as [[[a|e] s1]|] eqn:E; [| |done]; destruct (Hm _ _ _ Ho E) as (-> & Ho1 & He1).
  - intros E2. rewrite <- He1. by apply Hk.
  - intros [= <- <-]. by left.
Qed.

Lemma sends_last_after {A B} (m : node A) (k : A -> node B) :
  sends_last m -> (forall a, silent (k a)) -> (forall a, swarm_only (k a)) -> sends_last (m ≫= k).
Proof.
  intros Hm Hs Hk s res s' Ho. unfold mbind, action_bind.
  destruct (m s) as [[[a|e] s1]|] eqn:E; [| |done].
  - intros E2. destruct (Hm _ _ _ Ho E) as [(-> & Ho1 & He1)|(_ & s2 & -> & Ho2 & He2 & ev & sw & ->)].
    + left. destruct (Hs a _ _ _ Ho1 E2) as (-> & ? & ?). split_and!; [done..|congruence].
    + right. destruct (Hk a _ _ _ E2) as (Hok & sw' & ->). split; [done|]. exists s2.
      split_and!; [done..|]. exists ev, sw'. by destruct s2.
  - intros [= <- <-]. destruct (Hm _ _ _ Ho E) as [(-> & Ho1 & He1)|[Hok _]]; [by left|done].
Qed.

Ltac solve_silent :=
  repeat first
    [ apply silent_ret | apply silent_gets; done | apply silent_lift_panic | apply silent_admit_ip
    | apply silent_bind; [|intros] | apply silent_on_swarm | apply silent_send_pushes
    | apply silent_modify; intros; unfold unheard; cbn; repeat case_match; simplify_eq; done
    | apply silent_state_of; intros; unfold unheard; cbn; repeat case_match; simplify_eq; done
    | case_match ].

Ltac solve_sends_last :=
  repeat first
    [ apply sends_last_event
    | apply sends_last_before; [solve_silent; fail|intros]
    | apply sends_last_after; [|intros; solve_silent; fail|intros; first [apply swarm_only_ret|apply swarm_only_tell]]
    | apply sends_last_silent; solve_silent; fail
    | case_match ].

Lemma event_sends_last clock ev : sends_last (handle_event params clock ev).
Proof.
  destruct ev; cbn [handle_event];
    unfold store_query_message, store_query_failure, lightpush_message, lightpush_failure,
      peer_exchange_message, peer_exchange_failure, filter_subscribe_message,
      filter_subscribe_failure, filter_push_message, release_ip,
      handle_relay, accept_relay, push_filter_matches, count_metric, handle_metadata,
      serve_store_query, answer_lightpush, serve_lightpush, serve_peer_exchange, resolve_pending,
      respond_on, send_reply; solve_sends_last.
Qed.

(** Everything a handler does that another task can see, it does before it sends its event:
    of a handler that sends one, the state at the send differs from the one it leaves in the
    event and the swarm only. *)
Lemma effects_precede_send clock ev (s s' : state) :
  evt_rx_open s = true -> handle_event params clock ev s = Some (Ok tt, s') ->
  events s' = events s /\ at_send clock ev s = None \/
  exists s1, at_send clock ev s = Some s1 /\ events s1 = events s /\ evt_rx_open s1 = true /\ sent_from s1 s'.
Proof.
  intros Ho E. unfold at_send.
  destruct (event_sends_last clock ev s _ s' Ho E) as [(-> & Ho' & He)|(Hok & s1 & -> & Ho1 & He1 & Hs)].
  - by left.
  - right. exists s1. unfold unheard. split_and!; try done. by destruct s1; cbn in *; subst.
Qed.

End Sending.

Section Channels.
Context {SW St WakuEnr : Type} `{Swarm SW, MessageStore St, EnrOps WakuEnr}.
Context `{EnrCrypto}.
Context `{Sha256, BuildProfile, Prost WakuMessage}.
Variable params : NodeParams.

Abbreviation state := (NodeState SW St WakuEnr).
Abbreviation World := (@World SW St WakuEnr).

Record System : Type := mkSystem {
  sys_world : World;               (* the driver and its state, as the others see it *)
  sys_held : option state;         (* the state it goes on in, once its event is sent *)
  sys_commands : list Command;     (* in the command channel, oldest first *)
  sys_received : nat;              (* events [main] has read *)
  sys_main : MainPhase;
}.

Definition sys_node (s : System) : state := w_node (sys_world s).

(** The world once the driver is through with what it is handling. *)
Definition sys_next (s : System) : World :=
  match sys_held s with Some s' => mkWorld s' true | None => sys_world s end.

(** The events in the channel if the driver were in a state. *)
Definition unread (s : System) (n : state) : nat := length (events n) - sys_received s.

(** One step of one of the tasks; there is none once [main] is over.  The tasks that read
    only what the driver shares (the REST server between its commands) take no step here:
    what they read is a function of [sys_node]. *)
Inductive sys_step : System -> System -> Prop :=
  (* [main] sends the next command of its start, *)
  | main_sends w held cs r cmd todo :
      w_running w = true -> (length cs < COMMAND_CHANNEL)%nat ->
      sys_step (mkSystem w held cs r (Starting (cmd :: todo) false))
        (mkSystem w held (cs ++ [cmd]) r (Starting (cmd :: todo) true))
  (* gets its answer, *)
  | main_answered w held cs r cmd todo reply a :
      reply_of cmd = Some reply -> answer_on reply (replies (w_node w)) = Some a ->
      sys_step (mkSystem w held cs r (Starting (cmd :: todo) true))
        (mkSystem w held cs r (if goes_on cmd a then Starting todo false else Over))
  (* finds the driver gone, which ends it for a subscription only, *)
  | main_unanswered w held cs r cmd todo asked :
      w_running w = false ->
      (asked = true -> forall reply, reply_of cmd = Some reply -> answer_on reply (replies (w_node w)) = None) ->
      sys_step (mkSystem w held cs r (Starting (cmd :: todo) asked))
        (mkSystem w held cs r
          match cmd with CmdSubscribe _ _ => Over | _ => Starting todo false end)
  (* enters its loop, *)
  | main_enters w held cs r :
      sys_step (mkSystem w held cs r (Starting [] false)) (mkSystem w held cs r Reading)
  (* reads an event, *)
  | main_reads w held cs r ev :
      events (w_node w) !! r = Some ev ->
      sys_step (mkSystem w held cs r Reading) (mkSystem w held cs (S r) Reading)
  (* finds the channel closed, *)
  | main_closed w held cs r :
      w_running w = false -> events (w_node w) !! r = None ->
      sys_step (mkSystem w held cs r Reading) (mkSystem w held cs r Over)
  (* or stops on a signal, telling the driver if it is there. *)
  | main_stops w held cs r :
      w_running w = true -> (length cs < COMMAND_CHANNEL)%nat ->
      sys_step (mkSystem w held cs r Reading) (mkSystem w held (cs ++ [CmdShutdown]) r Over)
  | main_stops_alone w held cs r :
      w_running w = false ->
      sys_step (mkSystem w held cs r Reading) (mkSystem w held cs r Over)
  (* Another handle (the REST server, the discovery task) sends a command. *)
  | handle_sends w held cs r m cmd :
      m <> Over -> w_running w = true -> (length cs < COMMAND_CHANNEL)%nat ->
      sys_step (mkSystem w held cs r m) (mkSystem w held (cs ++ [cmd]) r m)
  (* The driver takes a command, *)
  | driver_commands w cs r m cmd :
      m <> Over -> w_running w = true ->
      sys_step (mkSystem w None (cmd :: cs) r m)
        (mkSystem (step_world params w (InCommand (Some cmd))) None cs r m)
  (* or a swarm event, whose handler goes through, *)
  | driver_handles w cs r m clock ev :
      m <> Over -> w_running w = true ->
      let w' := step_world params w (InEvent clock ev) in
      (length (events (w_node w')) - r <= EVENT_CHANNEL)%nat ->
      sys_step (mkSystem w None cs r m) (mkSystem w' None cs r m)
  (* or comes to the send of its event, *)
  | driver_sends w cs r m clock ev s1 s' :
      m <> Over -> w_running w = true -> run params [InEvent clock ev] (w_node w) = Some (false, s') ->
      at_send params clock ev (w_node w) = Some s1 ->
      sys_step (mkSystem w None cs r m) (mkSystem (mkWorld s1 true) (Some s') cs r m)
  (* and goes on when there is a place in the event channel. *)
  | driver_resumes w s' cs r m :
      m <> Over -> (length (events s') - r <= EVENT_CHANNEL)%nat ->
      sys_step (mkSystem w (Some s') cs r m) (mkSystem (mkWorld s' true) None cs r m).

(** The system [spawn] leaves, with the commands [main] is going to send. *)
Definition sys_start (sw : SW) (st : option St) (todo : list Command) : System :=
  mkSystem (mkWorld (initial_state sw st) true) None [] 0 (Starting todo false).

(** ** The bounds, and what they do not change *)

Lemma run_event_one clock ev (s : state) stopped s' :
  run params [InEvent clock ev] s = Some (stopped, s') ->
  (length (events s) <= length (events s') <= S (length (events s)))%nat.
Proof.
  intros E. split; [by apply prefix_length, (events_grow_run params _ _ _ _ E)|].
  cbn [run] in E. destruct (handle_event params clock ev s) as [[res s1]|] eqn:Eh; [|done].
  apply event_sends_one in Eh. cbn in E. destruct res; injection E as _ <-; lia.
Qed.

Lemma step_command_events (w : World) cmd :
  events (w_node (step_world params w (InCommand (Some cmd)))) = events (w_node w).
Proof.
  unfold step_world. destruct (w_running w); [|done].
  assert (cmd = CmdShutdown \/ cmd <> CmdShutdown) as [->|Hc] by (destruct cmd; auto); [done|].
  destruct (handle_command cmd (w_node w)) as [[res s]|] eqn:E;
    [|by destruct cmd; try done; cbn [run]; rewrite E].
  pose proof (events_frame_command cmd _ _ _ E) as Hev.
  by destruct cmd; try done; cbn [run]; rewrite E.
Qed.

Lemma step_event_events (w : World) clock ev :
  let w' := step_world params w (InEvent clock ev) in
  (length (events (w_node w)) <= length (events (w_node w')))%nat.
Proof.
  unfold step_world. destruct (w_running w); [|done].
  destruct (run params _ _) as [[stopped s]|] eqn:E; [|done]. by apply run_event_one in E as [? _].
Qed.

Lemma run_ok clock ev (s s' : state) :
  run params [InEvent clock ev] s = Some (false, s') -> handle_event params clock ev s = Some (Ok tt, s').
Proof. cbn [run]. destruct (handle_event params clock ev s) as [[[[]|] s1]|]; naive_solver. Qed.

(** The commands among the inputs of the driver. *)
Definition commands_in (inputs : list Input) : list Command :=
  omap (fun i => match i with InCommand c => c | InEvent _ _ => None end) inputs.

(** The command a step puts into the channel, if it does. *)
Definition enqueued (s s' : System) : list Command := drop (length (sys_commands s)) (sys_commands s').

(** What [at_send] leaves to do. *)
Lemma at_send_sent clock ev (s s1 s' : state) :
  evt_rx_open s = true -> run params [InEvent clock ev] s = Some (false, s') ->
  at_send params clock ev s = Some s1 -> events s1 = events s /\ sent_from s1 s'.
Proof.
  intros Ho E%run_ok Ea.
  destruct (effects_precede_send params clock ev s s' Ho E) as [[_ En]|(s2 & Es & He & _ & Hs)];
    [congruence|]. rewrite Ea in Es. by injection Es as <-.
Qed.

(** A driver at the send of its event runs, and has done everything else. *)
Definition held_ok (s : System) : Prop :=
  forall h, sys_held s = Some h -> w_running (sys_world s) = true /\ sent_from (sys_node s) h.

(** The channels hold no more than they can. *)
Definition within_bounds (s : System) : Prop :=
  (length (sys_commands s) <= COMMAND_CHANNEL)%nat /\
  (sys_received s <= length (events (sys_node s)))%nat /\
  (unread s (sys_node s) <= EVENT_CHANNEL)%nat.

(** One step, in terms of the inputs the driver has handled or is handling. *)
Lemma sys_step_input s s' :
  evt_rx_open (sys_node s) = true -> held_ok s -> sys_step s s' ->
  exists inputs, sys_next s' = advance params inputs (sys_next s) /\
    commands_in inputs ++ sys_commands s' = sys_commands s ++ enqueued s s' /\ held_ok s'.
Proof.
  intros Ho Hh Hstep. unfold held_ok, enqueued, sys_next, sys_node in *.
  destruct Hstep; cbn [sys_world sys_held sys_commands w_node w_running] in *;
    rewrite ?drop_app_length, ?drop_all, ?app_nil_r;
    try (exists []; rewrite ?app_nil_r; by eauto).
  - exists [InCommand (Some cmd)]. cbn [length]. by rewrite drop_ge, app_nil_r by lia.
  - by exists [InEvent clock ev].
  - rename select (run _ _ _ = _) into E. rename select (at_send _ _ _ _ = _) into Ea.
    rename select (w_running w = _) into Hr.
    destruct (at_send_sent _ _ _ _ _ Ho E Ea) as [_ Hs].
    exists [InEvent clock ev]. split; [|split; [done|]].
    + cbn. unfold step_world. by rewrite Hr, E.
    + by intros h [= <-].
Qed.

Lemma sys_step_bounds s s' :
  evt_rx_open (sys_node s) = true -> held_ok s -> sys_step s s' -> within_bounds s -> within_bounds s'.
Proof.
  intros Ho Hh Hstep (Hc & Hr & Hu). unfold held_ok, within_bounds, unread, sys_node in *.
  destruct Hstep; cbn [sys_world sys_held sys_commands sys_received w_node w_running] in *;
    rewrite ?length_app; cbn [length] in *; try (split_and!; lia).
  - rename select (_ !! _ = Some _) into Hev. apply lookup_lt_Some in Hev. split_and!; lia.
  - rewrite step_command_events. split_and!; lia.
  - pose proof (step_event_events w clock ev) as He. cbn zeta in He. fold w' in He. split_and!; lia.
  - rename select (run _ _ _ = _) into E. rename select (at_send _ _ _ _ = _) into Ea.
    destruct (at_send_sent _ _ _ _ _ Ho E Ea) as [-> _]. split_and!; lia.
  - destruct (Hh _ eq_refl) as (_ & ev & sw & ->). cbn in *. rewrite length_app in *. split_and!; lia.
Qed.

(** An execution from [s0], with all the commands that were put into the channel on the way. *)
Inductive execution (s0 : System) : list Command -> System -> Prop :=
  | execution_start : execution s0 [] s0
  | execution_step sent s s' :
      execution s0 sent s -> sys_step s s' -> execution s0 (sent ++ enqueued s s') s'.

Lemma rtc_execution s0 s : rtc sys_step s0 s -> exists sent, execution s0 sent s.
Proof.
  revert s. apply rtc_ind_r; [exists []; constructor|].
  intros s s' _ Hs [sent IH]. eexists. by eapply execution_step.
Qed.

Lemma execution_rtc s0 sent s : execution s0 sent s -> rtc sys_step s0 s.
Proof. induction 1; [apply rtc_refl|by eapply rtc_r]. Qed.

(** The invariant: the driver is where the commands it has taken from the channel and some
    swarm events take it, or is at the send of the last event. *)
Definition sys_ok (sw : SW) (st : option St) (sent : list Command) (s : System) : Prop :=
  (exists handled, sys_next s = advance params handled (mkWorld (initial_state sw st) true) /\
     commands_in handled ++ sys_commands s = sent) /\
  held_ok s /\ within_bounds s.

Lemma sys_ok_reflects sw st sent s : sys_ok sw st sent s -> reflects (w_node (sys_next s)).
Proof.
  intros ((handled & -> & _) & _).
  eapply moves_reflect; [apply moves_advance|apply reflects_initial].
Qed.

Lemma sys_ok_open sw st sent s : sys_ok sw st sent s -> evt_rx_open (sys_node s) = true.
Proof.
  intros Hok. destruct (sys_ok_reflects _ _ _ _ Hok) as [Ho _]. destruct Hok as (_ & Hh & _).
  unfold sys_next, held_ok in *. destruct (sys_held s) as [h|]; [|done].
  destruct (Hh h eq_refl) as (_ & ev & sw' & ->). exact Ho.
Qed.

Lemma execution_ok sw st todo sent s : execution (sys_start sw st todo) sent s -> sys_ok sw st sent s.
Proof.
  induction 1 as [|sent s s' _ IH Hstep].
  { split; [by exists []|]. split; [done|].
    unfold within_bounds, unread, EVENT_CHANNEL, COMMAND_CHANNEL. cbn. split_and!; lia. }
  pose proof (sys_ok_open _ _ _ _ IH) as Ho. destruct IH as ((handled & Hw & Hc) & Hh & Hb).
  destruct (sys_step_input s s' Ho Hh Hstep) as (inputs & Hw' & Hc' & Hh').
  split; [|split; [done|by eapply sys_step_bounds]]. exists (handled ++ inputs). split.
  - rewrite Hw', Hw. unfold advance. by rewrite foldl_app.
  - unfold commands_in in *. rewrite omap_app, <- app_assoc, Hc', app_assoc. by rewrite Hc.
Qed.

Lemma reachable_ok sw st todo s :
  rtc sys_step (sys_start sw st todo) s -> exists sent, sys_ok sw st sent s.
Proof. intros [sent Hx]%rtc_execution. exists sent. by eapply execution_ok. Qed.

(** C23. Bounding the channels changes nothing but the timing: every execution of the tasks
    from the start of a node is one of the unbounded driver.  The commands that were put
    into the channel are, in the order in which they were, those the driver has handled and
    those still in the channel, at most 64; with the swarm events it took in between they
    take the unbounded driver to where this one is, or will be once it has sent the event
    it is sending, which is all that is left to do but for the swarm; and the events sent
    and not yet read are at most 256. *)
Theorem bounded_refines (sw : SW) (st : option St) (todo sent : list Command) (s : System) :
  execution (sys_start sw st todo) sent s ->
  (exists handled, commands_in handled ++ sys_commands s = sent /\
     sys_next s = advance params handled (mkWorld (initial_state sw st) true)) /\
  (sys_next s = sys_world s \/
   w_running (sys_world s) = true /\ exists ev sw',
     sys_next s = mkWorld (set_swarm sw' (set_events (events (sys_node s) ++ [ev]) (sys_node s))) true) /\
  (length (sys_commands s) <= 64)%nat /\
  (sys_received s <= length (events (sys_node s)) <= sys_received s + 256)%nat.
Proof.
  intros ((handled & Hw & Hc) & Hh & Hb1 & Hb2 & Hb3)%execution_ok.
  unfold unread, EVENT_CHANNEL, COMMAND_CHANNEL in *.
  split; [by exists handled|]. split; [|split; [done|lia]].
  unfold sys_next, held_ok in *. destruct (sys_held s) as [h|]; [|by left]. right.
  destruct (Hh h eq_refl) as (Hr & ev & sw' & ->). by eauto.
Qed.

(** ** A start that never ends *)

(** [main] waits for an answer while the driver waits for a place. *)
Definition deadlocked (s : System) : Prop :=
  (exists cmd todo reply, sys_main s = Starting (cmd :: todo) true /\
     reply_of cmd = Some reply /\ answer_on reply (replies (sys_node s)) = None) /\
  w_running (sys_world s) = true /\
  exists s', sys_held s = Some s' /\ (EVENT_CHANNEL < length (events s') - sys_received s)%nat.

Lemma deadlocked_step s s' :
  deadlocked s -> sys_step s s' -> deadlocked s' /\ sys_main s' = sys_main s.
Proof.
  intros ((cmd & todo & reply & Hm & Hreply & Hnone) & Hrun & held & Hheld & Hfull) Hstep.
  unfold deadlocked, sys_node in *. destruct Hstep; cbn in *; try congruence; simplify_eq; try lia.
  split; [|done]. split_and!; eauto 10.
Qed.

Lemma deadlocked_forever s s' :
  deadlocked s -> rtc sys_step s s' -> deadlocked s' /\ sys_main s' = sys_main s.
Proof.
  intros Hd Hr. induction Hr as [s|s1 s2 s3 Hstep _ IH]; [done|].
  destruct (deadlocked_step _ _ Hd Hstep) as [Hd2 Hm2]. destruct (IH Hd2) as [Hd3 Hm3].
  split; [done|congruence].
Qed.

(** The connections of one peer. *)
Definition of_peer (p : PeerId) (remote : Multiaddr) (i : Input) : Prop :=
  exists clock ev, i = InEvent clock ev /\
    (ev = ConnectionEstablished p remote \/ ev = ConnectionClosed p remote).

(** One event: handled, or at the send of what it reports, for which there is no place. *)
Lemma event_or_wait clock ev (s s' : state) cs r m :
  m <> Over -> evt_rx_open s = true -> (length (events s) - r <= EVENT_CHANNEL)%nat ->
  handle_event params clock ev s = Some (Ok tt, s') ->
  advance params [InEvent clock ev] (mkWorld s true) = mkWorld s' true /\
  (sys_step (mkSystem (mkWorld s true) None cs r m) (mkSystem (mkWorld s' true) None cs r m) /\
   (length (events s') - r <= EVENT_CHANNEL)%nat \/
   exists s1, replies s1 = replies s' /\
     sys_step (mkSystem (mkWorld s true) None cs r m) (mkSystem (mkWorld s1 true) (Some s') cs r m) /\
     (EVENT_CHANNEL < length (events s') - r)%nat).
Proof.
  intros Hm Ho Hroom E.
  assert (run params [InEvent clock ev] s = Some (false, s')) as Hrun by (cbn [run]; by rewrite E).
  assert (step_world params (mkWorld s true) (InEvent clock ev) = mkWorld s' true) as Hw.
  { unfold step_world. cbn [w_running w_node]. by rewrite Hrun. }
  split; [exact Hw|].
  destruct (decide (length (events s') - r <= EVENT_CHANNEL)%nat) as [Hle|Hgt].
  - left. split; [|done]. rewrite <- Hw. apply driver_handles; [done|done|]. by rewrite Hw.
  - right. destruct (effects_precede_send params clock ev s s' Ho E) as [[He _]|(s1 & Ea & _ & _ & Hs)].
    { rewrite He in Hgt. lia. }
    exists s1. split; [by destruct Hs as (e & sw & ->)|]. split; [by eapply driver_sends|lia].
Qed.

(** A peer that connects and disconnects leaves at least one event. *)
Lemma connect_and_close clock p remote (s : state) :
  evt_rx_open s = true ->
  exists s1 s2, handle_event params clock (ConnectionEstablished p remote) s = Some (Ok tt, s1) /\
    handle_event params clock (ConnectionClosed p remote) s1 = Some (Ok tt, s2) /\
    evt_rx_open s1 = true /\ evt_rx_open s2 = true /\ replies s1 = replies s /\ replies s2 = replies s /\
    (length (events s) < length (events s2))%nat.
Proof.
  intros Ho.
  assert (exists b s0, admit_ip params remote s = Some (Ok b, s0)) as (b & s0 & Ea).
  { unfold admit_ip. repeat case_match; eauto. }
  pose proof (frame_admit_ip params evt_rx_open remote ltac:(done) _ _ _ Ea) as Ho0.
  pose proof (frame_admit_ip params events remote ltac:(done) _ _ _ Ea) as He0.
  pose proof (frame_admit_ip params replies remote ltac:(done) _ _ _ Ea) as Hr0.
  cbn beta in Ho0, He0, Hr0. rewrite Ho in Ho0. eexists. rewrite (established_run params clock p remote s b s0) by done.
  set (s1 := if b then _ else _).
  assert (evt_rx_open s1 = true /\ replies s1 = replies s /\
    (length (events s) <= length (events s1))%nat) as (Ho1 & Hr1 & He1).
  { subst s1. destruct b; cbn; rewrite ?length_app, He0; split_and!; try done; lia. }
  destruct (closed_run params clock p remote s1 Ho1) as (s2 & Er & Ho2 & _ & E2).
  assert (events s2 = events s1 /\ replies s2 = replies s1) as [He2 Hr2].
  { unfold release_ip, modify in Er. injection Er as <-. by repeat case_match. }
  eexists. split; [reflexivity|]. split; [exact E2|]. cbn. rewrite length_app, He2, Hr2. cbn.
  split_and!; try done; lia.
Qed.

(** A peer that keeps doing so fills the channel. *)
Lemma flood (clock : Clock) p remote cs r m : m <> Over -> forall room (s : state),
  evt_rx_open s = true -> (length (events s) + room = r + EVENT_CHANNEL)%nat ->
  (r <= length (events s))%nat ->
  exists inputs s1 s2, Forall (of_peer p remote) inputs /\
    advance params inputs (mkWorld s true) = mkWorld s2 true /\ replies s1 = replies s /\
    rtc sys_step (mkSystem (mkWorld s true) None cs r m) (mkSystem (mkWorld s1 true) (Some s2) cs r m) /\
    (EVENT_CHANNEL < length (events s2) - r)%nat.
Proof.
  intros Hm room. induction (lt_wf room) as [room _ IH]. intros s Ho Hroom Hr.
  destruct (connect_and_close clock p remote s Ho) as (s1 & s2 & E1 & E2 & Ho1 & Ho2 & Hr1 & Hr2 & He).
  assert (of_peer p remote (InEvent clock (ConnectionEstablished p remote))) as Hp1 by (do 2 eexists; eauto).
  assert (of_peer p remote (InEvent clock (ConnectionClosed p remote))) as Hp2 by (do 2 eexists; eauto).
  destruct (event_or_wait clock _ s s1 cs r m Hm Ho ltac:(lia) E1) as [Ha1 [(Hs1 & Hle1)|(s1' & Hr' & Hs1 & Hfull)]].
  2: { exists [InEvent clock (ConnectionEstablished p remote)], s1', s1. split_and!; try done.
       - by constructor.
       - congruence.
       - by apply rtc_once. }
  destruct (event_or_wait clock _ s1 s2 cs r m Hm Ho1 Hle1 E2) as [Ha2 [(Hs2 & Hle)|(s2' & Hr' & Hs2 & Hfull)]].
  2: { exists ([InEvent clock (ConnectionEstablished p remote)] ++ [InEvent clock (ConnectionClosed p remote)]), s2', s2.
       split_and!; try done.
       - by repeat constructor.
       - unfold advance in *. by rewrite foldl_app, Ha1, Ha2.
       - congruence.
       - eapply rtc_l; [exact Hs1|by apply rtc_once]. }
  destruct (IH (r + EVENT_CHANNEL - length (events s2))%nat ltac:(lia) s2 Ho2 ltac:(lia) ltac:(lia))
    as (inputs & s3 & s4 & Hall & Hadv & Hr3 & Hrtc & Hfull).
  exists ([InEvent clock (ConnectionEstablished p remote)] ++
    [InEvent clock (ConnectionClosed p remote)] ++ inputs), s3, s4. split_and!; try done.
  - by repeat constructor.
  - unfold advance in *. by rewrite !foldl_app, Ha1, Ha2.
  - congruence.
  - eapply rtc_l; [exact Hs1|]. by eapply rtc_l.
Qed.

(** C24. A start can hang for ever: while [main] still has a command to send, one peer that
    only connects and disconnects brings the program to a point from which [main] never
    leaves that command, whatever any task does later: the driver waits for [main] to read
    an event, and [main] for the driver to answer. *)
Theorem startup_can_hang (w : World) (cs : list Command) (r : nat) (cmd : Command)
    (todo : list Command) (reply : Z) (p : PeerId) (remote : Multiaddr) (clock : Clock) :
  w_running w = true -> evt_rx_open (w_node w) = true ->
  (r <= length (events (w_node w)) <= r + EVENT_CHANNEL)%nat ->
  (length cs < COMMAND_CHANNEL)%nat ->
  reply_of cmd = Some reply -> answer_on reply (replies (w_node w)) = None ->
  exists inputs s',
    Forall (of_peer p remote) inputs /\ sys_next s' = advance params inputs w /\
    rtc sys_step (mkSystem w None cs r (Starting (cmd :: todo) false)) s' /\
    sys_main s' = Starting (cmd :: todo) true /\
    forall s'', rtc sys_step s' s'' -> sys_main s'' = Starting (cmd :: todo) true.
Proof.
  destruct w as [s running]. cbn. intros -> Ho Hr Hcs Hreply Hnone.
  destruct (flood clock p remote cs r (Starting (cmd :: todo) false) ltac:(done)
    (r + EVENT_CHANNEL - length (events s)) s Ho ltac:(lia) ltac:(lia))
    as (inputs & s1 & s2 & Hall & Hadv & Hrep & Hrtc & Hfull).
  exists inputs, (mkSystem (mkWorld s1 true) (Some s2) (cs ++ [cmd]) r (Starting (cmd :: todo) true)).
  split_and!; try done.
  - eapply rtc_r; [exact Hrtc|]. by apply main_sends.
  - intros s'' H'. refine (proj2 (deadlocked_forever _ _ _ H')). unfold deadlocked, sys_node. cbn.
    rewrite Hrep. split_and!; eauto 10.
Qed.

(** ** A start that gets on, and a loop that does *)

(** Gossipsub without a subscription filter takes every topic. *)
Definition subscriptions_succeed : Prop :=
  forall topic (sw : SW), is_ok (Node.relay_subscribe topic sw).1 = true.

Lemma command_at_once cmd (s : state) :
  startup_command cmd = true ->
  exists reply a s1, reply_of cmd = Some reply /\
    step_world params (mkWorld s true) (InCommand (Some cmd)) = mkWorld s1 true /\
    replies s1 = replies s ++ [(reply, a)] /\ events s1 = events s /\
    (subscriptions_succeed -> goes_on cmd a = true).
Proof.
  intros Hcmd.
  assert (exists reply a s1, reply_of cmd = Some reply /\ handle_command cmd s = Some (Ok tt, s1) /\
    replies s1 = replies s ++ [(reply, a)] /\ (subscriptions_succeed -> goes_on cmd a = true))
    as (reply & a & s1 & Hr & E & Hrep & Hgo).
  { destruct cmd as [shard reply| |addr reply| | | | |]; try done; cbn [handle_command];
      unfold mbind, action_bind, on_swarm, shard_topic.
    - destruct (Node.relay_subscribe _ _) as [res sw] eqn:Es. do 3 eexists. split_and!; try done.
      intros Hok. specialize (Hok (ShardId.pubsub_topic shard) (swarm s)). rewrite Es in Hok.
      by destruct res.
    - destruct (swarm_dial _ _) as [res sw]. by do 3 eexists. }
  exists reply, a, s1. split_and!; try done.
  - unfold step_world. cbn [w_running w_node]. rewrite (run_one_command params cmd s s1); [done| |done].
    by destruct cmd.
  - by rewrite (events_frame_command cmd _ _ _ E).
Qed.

(** The driver works off a queue of dials. *)
Lemma drain_dials cs r m : m <> Over -> forall s : state,
  Forall (fun c => is_dial c = true) cs ->
  exists s' rs, rtc sys_step (mkSystem (mkWorld s true) None cs r m) (mkSystem (mkWorld s' true) None [] r m) /\
    replies s' = replies s ++ rs /\ rs.*1 = omap reply_of cs /\ events s' = events s.
Proof.
  intros Hm. induction cs as [|c cs IH]; intros s Hcs.
  { exists s, []. rewrite app_nil_r. by split_and!. }
  apply list.Forall_cons in Hcs as [Hc Hcs].
  destruct (command_at_once c s) as (reply & a & s1 & Hr & Hstep & Hrep & Hev & _); [by destruct c|].
  destruct (IH s1 Hcs) as (s' & rs & Hrtc & Hrep' & Hids & Hev').
  exists s', ((reply, a) :: rs). split_and!.
  - eapply rtc_l; [|exact Hrtc]. rewrite <- Hstep. by apply driver_commands.
  - by rewrite Hrep', Hrep, <- app_assoc.
  - cbn. by rewrite Hr, Hids.
  - congruence.
Qed.

(** [main] goes through its commands. *)
Lemma main_goes_through todo r : subscriptions_succeed -> forall s : state,
  Forall (fun c => startup_command c = true) todo -> NoDup (omap reply_of todo) ->
  (forall reply, reply ∈ omap reply_of todo -> reply ∉ (replies s).*1) ->
  exists s', rtc sys_step (mkSystem (mkWorld s true) None [] r (Starting todo false))
      (mkSystem (mkWorld s' true) None [] r Reading) /\ events s' = events s.
Proof.
  intros Hok. induction todo as [|c todo IH]; intros s Hall Hnd Hfresh.
  { exists s. split; [|done]. apply rtc_once, main_enters. }
  apply list.Forall_cons in Hall as [Hc Hall].
  destruct (command_at_once c s Hc) as (reply & a & s1 & Hr & Hstep & Hrep & Hev & Hgo).
  cbn in Hnd, Hfresh. rewrite Hr in Hnd, Hfresh. apply NoDup_cons in Hnd as [Hni Hnd].
  destruct (IH s1 Hall Hnd) as (s' & Hrtc & Hev').
  { intros q Hq. rewrite Hrep, fmap_app, not_elem_of_app. split; [apply Hfresh; by right|].
    cbn. rewrite list_elem_of_singleton. congruence. }
  exists s'. split; [|congruence].
  eapply rtc_l; [apply main_sends; [done|unfold COMMAND_CHANNEL; cbn; lia]|].
  eapply rtc_l; [by apply driver_commands|]. rewrite Hstep.
  eapply rtc_l; [|exact Hrtc].
  assert (answer_on reply (replies s1) = Some a) as Hans.
  { rewrite Hrep. apply answer_on_fresh, Hfresh. left. }
  pose proof (main_answered (mkWorld s1 true) None [] r c todo reply a Hr Hans) as Hm.
  by rewrite (Hgo Hok) in Hm.
Qed.

(** As long as the driver is not waiting the start can complete: whatever events were
    sent and whatever dials of the discovery task are queued, the driver works off the
    queue, answers each subscription and each dial of [main], and [main] comes to read
    events, of which none is lost. *)
Theorem startup_completes (s : state) (cs : list Command) (r : nat) (cluster_id : Z)
    (shards : list Z) (addrs : list Multiaddr) :
  subscriptions_succeed -> Forall (fun c => is_dial c = true) cs ->
  (forall reply, 0 <= reply < Z.of_nat (length shards + length addrs) ->
     (reply ∉ (replies s).*1) /\ (reply ∉ omap reply_of cs)) ->
  exists s',
    rtc sys_step
      (mkSystem (mkWorld s true) None cs r (Starting (startup_todo cluster_id shards addrs) false))
      (mkSystem (mkWorld s' true) None [] r Reading) /\ events s' = events s.
Proof.
  intros Hok Hcs Hfresh. set (todo := startup_todo cluster_id shards addrs).
  destruct (drain_dials cs r (Starting todo false) ltac:(done) s Hcs) as (s1 & rs & Hrtc & Hrep & Hids & Hev).
  destruct (main_goes_through todo r Hok s1 (startup_todo_commands _ _ _)) as (s2 & Hrtc2 & Hev2).
  - unfold todo. rewrite startup_todo_replies. apply NoDup_fmap_2; [apply _|apply NoDup_seq].
  - intros reply. unfold todo. rewrite startup_todo_replies, list_elem_of_fmap.
    intros (i & -> & Hi%elem_of_seq). rewrite Hrep, fmap_app, Hids, not_elem_of_app.
    apply Hfresh. lia.
  - exists s2. split; [by etrans|congruence].
Qed.

(** C25. Once [main] reads events nothing is stuck: in every execution in which it does and
    the driver runs, the oldest command of the channel can be taken, after [main] has read at
    most one event, and none unless the driver waits for a place for its own. *)
Theorem reading_main_unblocks (sw : SW) (st : option St) (todo : list Command) (s : System)
    (cmd : Command) (cs : list Command) :
  rtc sys_step (sys_start sw st todo) s ->
  sys_main s = Reading -> w_running (sys_world s) = true -> sys_commands s = cmd :: cs ->
  exists s', rtc sys_step s s' /\ sys_main s' = Reading /\ sys_commands s' = cs /\
    sys_held s' = None /\ sys_world s' = step_world params (sys_next s) (InCommand (Some cmd)) /\
    (sys_received s' <= S (sys_received s))%nat /\
    ((length (events (w_node (sys_next s))) - sys_received s <= EVENT_CHANNEL)%nat ->
       sys_received s' = sys_received s).
Proof.
  intros Hrtc Hmain Hrun Hcs.
  destruct (reachable_ok _ _ _ _ Hrtc) as (sent & _ & Hh & _ & Hr & Hu).
  destruct s as [[n running] [held|] cmds r m]; unfold held_ok, unread, sys_node, sys_next in *;
    cbn in *; subst.
  - destruct (Hh held eq_refl) as (_ & ev & sw' & Eh).
    assert (length (events held) = S (length (events n))) as Hl
      by (rewrite Eh; cbn; rewrite length_app; cbn; lia).
    destruct (decide (length (events held) - r <= EVENT_CHANNEL)%nat) as [Hfits|Hfull].
    + exists (mkSystem (step_world params (mkWorld held true) (InCommand (Some cmd))) None cs r Reading).
      split; [|split_and!; try done; cbn; lia].
      eapply rtc_l; [by apply driver_resumes|]. by apply rtc_once, driver_commands.
    + destruct (lookup_lt_is_Some_2 (events n) r) as [e Hev]; [unfold EVENT_CHANNEL in *; lia|].
      exists (mkSystem (step_world params (mkWorld held true) (InCommand (Some cmd))) None cs (S r) Reading).
      split; [|split_and!; try done; cbn; lia]. eapply rtc_l; [by eapply main_reads|].
      eapply rtc_l; [apply driver_resumes; [done|lia]|]. by apply rtc_once, driver_commands.
  - exists (mkSystem (step_world params (mkWorld n true) (InCommand (Some cmd))) None cs r Reading).
    split; [|split_and!; try done; cbn; lia]. by apply rtc_once, driver_commands.
Qed.

End Channels.


(** ** Concrete executions *)

#[local] Existing Instances toy_sha256 countable_prost log_swarm demo_crypto demo_enr demo_profile.

Definition demo_todo : list Command := startup_todo 1 [0; 1] [demo_addr].

Abbreviation demo_start :=
  (sys_start (WakuEnr := DemoEnr) (mkLogSwarm 0 []) (Some (mkSqliteStore ∅ [])) demo_todo).

(** [main] has sent its first command, which the driver has handled; then a peer has connected,
    and the driver is at the send of the event. *)
Definition demo_handled : World :=
  step_world demo_params (mkWorld demo_state true) (InCommand (head demo_todo)).

Definition demo_joining : SwarmEvent := ConnectionEstablished [x02] demo_addr.

Definition demo_sending : System :=
  mkSystem (mkWorld (default demo_state (at_send demo_params demo_clock demo_joining (w_node demo_handled))) true)
    (Some (w_node (step_world demo_params demo_handled (InEvent demo_clock demo_joining)))) [] 0
    (Starting demo_todo true).

Lemma demo_execution : execution demo_params demo_start (take 1 demo_todo) demo_sending.
Proof.
  set (s1 := mkSystem (mkWorld demo_state true) None (take 1 demo_todo) 0 (Starting demo_todo true)).
  set (s2 := mkSystem demo_handled None [] 0 (Starting demo_todo true)).
  change (take 1 demo_todo) with
    ((([] ++ enqueued demo_start s1) ++ enqueued s1 s2) ++ enqueued s2 demo_sending).
  apply execution_step.
  - apply execution_step.
    + apply execution_step; [constructor|].
      apply (main_sends demo_params (mkWorld demo_state true) None [] 0 _ (tail demo_todo) eq_refl).
      unfold COMMAND_CHANNEL. cbn. lia.
    + apply (driver_commands demo_params (mkWorld demo_state true) []); done.
  - apply (driver_sends demo_params demo_handled [] 0 (Starting demo_todo true) demo_clock demo_joining);
      [done|reflexivity|vm_compute; reflexivity..].
Qed.

Lemma bounded_refines_witness :
  events (sys_node demo_sending) = [] /\ connected (sys_node demo_sending) = {[ [x02] ]} /\
  exists handled, commands_in handled = take 1 demo_todo /\
    sys_next demo_sending = advance demo_params handled (mkWorld demo_state true) /\
    events (w_node (sys_next demo_sending)) = [PeerConnected [x02]].
Proof.
  split; [vm_compute; reflexivity|]. split; [vm_compute; reflexivity|].
  destruct (bounded_refines demo_params _ _ demo_todo _ demo_sending demo_execution)
    as ((handled & Hc & Hw) & _).
  exists handled. split; [rewrite <- Hc; cbn [sys_commands demo_sending]; by rewrite app_nil_r|].
  split; [exact Hw|]. vm_compute. reflexivity.
Defined.

Lemma startup_can_hang_witness :
  exists s', rtc (sys_step demo_params) demo_start s' /\
    forall s'', rtc (sys_step demo_params) s' s'' -> sys_main s'' = Starting demo_todo true.
Proof.
  destruct (startup_can_hang demo_params (mkWorld demo_state true) [] 0
    (CmdSubscribe (ShardId.new 1 0) 0) (tail demo_todo) 0 [x02] demo_addr demo_clock)
    as (inputs & s' & _ & _ & Hrtc & _ & Hever); try reflexivity.
  - cbn. unfold EVENT_CHANNEL. lia.
  - cbn. unfold COMMAND_CHANNEL. lia.
  - exists s'. split; [exact Hrtc|exact Hever].
Defined.

Lemma startup_completes_witness :
  exists s', rtc (sys_step demo_params)
    (mkSystem (mkWorld demo_state true) None [CmdDial demo_addr 7] 0 (Starting demo_todo false))
    (mkSystem (mkWorld s' true) None [] 0 Reading).
Proof.
  destruct (startup_completes demo_params demo_state [CmdDial demo_addr 7] 0 1 [0; 1] [demo_addr])
    as (s' & Hrtc & _).
  - intros topic sw. reflexivity.
  - by constructor.
  - intros reply Hr. cbn in *. split; [apply not_elem_of_nil|]. rewrite list_elem_of_singleton. lia.
  - exists s'. exact Hrtc.
Defined.

(** [main] goes through its start at once, and a handle then sends a command. *)
Lemma demo_reads : exists n, rtc (sys_step demo_params) demo_start
  (mkSystem (mkWorld n true) None [CmdDial demo_addr 7] 0 Reading).
Proof.
  destruct (main_goes_through demo_params demo_todo 0) with (s := demo_state) as (n & Hrtc & _).
  - intros topic sw. reflexivity.
  - apply startup_todo_commands.
  - unfold demo_todo. rewrite startup_todo_replies. apply NoDup_fmap_2; [apply _|apply NoDup_seq].
  - intros reply _. apply not_elem_of_nil.
  - exists n. eapply rtc_r; [exact Hrtc|].
    apply (handle_sends demo_params (mkWorld n true) None [] 0 Reading); [done|done|].
    unfold COMMAND_CHANNEL. cbn. lia.
Defined.

Lemma reading_main_unblocks_witness :
  exists s', sys_main s' = Reading /\ sys_commands s' = [] /\ rtc (sys_step demo_params) demo_start s'.
Proof.
  destruct demo_reads as (n & Hn).
  destruct (reading_main_unblocks demo_params _ _ demo_todo _ (CmdDial demo_addr 7) [] Hn
    eq_refl eq_refl eq_refl) as (s' & Hrtc & Hm & Hc & _).
  exists s'. split; [exact Hm|]. split; [exact Hc|]. etrans; [exact Hn|exact Hrtc].
Defined.
