(* ===== verification/Network.v ===== *)
(** * Network: two nodes and the wire between them

    A method of a [NodeHandle] that asks another node goes through both drivers and, twice,
    through the codec of the protocol: the request is written by one node and read by the
    other, whose driver answers it, and the answer comes back the same way.  [answer_remote]
    is the far side of it, [settled] the event the near side gets.  libp2p, which opens the
    streams and matches responses to requests, is the glue; what it makes of a codec error
    is the function [failure_text]. *)

From Stdlib Require Import Strings.Byte.
From stdpp Require Import base gmap strings list sorting numbers.
From S2P Require Import Prelude Bytes Text Core Framing Wire Relay Store Faults StoreServe Net Discv5 Services Ratelimit Node NodeFacts Handle.

Open Scope Z_scope.

(** A message over a stream of its own: what one side writes and the other reads. *)
Definition over_wire {M} (write : bytes -> M -> option bytes) (read : reader M) (m : M)
    : option (result io_error M) :=
  frame ← write [] m;
  Some (fst <$> read frame).

Lemma over_wire_correct {M} `{Prost M} max write read (m : M) :
  codec_correct max write read -> in_u64 (encoded_size m) ->
  exists r, over_wire write read m = Some r /\
    if decide (encoded_size m <= max) then r = Ok m else exists e, r = Err e.
Proof.
  intros Hc Hs. destruct (Hc [] m [] Hs) as (frame & Hw & Hr). unfold over_wire. rewrite Hw. cbn.
  rewrite app_nil_r in Hr. eexists. split; [reflexivity|].
  case_decide; [by rewrite Hr|]. destruct Hr as (e & -> & _). by exists e.
Qed.

Section Network.
Context {SW St WakuEnr : Type} `{Swarm SW, MessageStore St, EnrOps WakuEnr}.
Context `{EnrCrypto}.
Context `{Sha256, BuildProfile, Prost WakuMessage}.
Context `{Prost Lightpush.LightpushRequest, Prost Lightpush.LightpushResponse,
  Prost PeerExchange.PeerExchangeRpc,
  Prost Filter.FilterSubscribeRequest, Prost Filter.FilterSubscribeResponse,
  Prost StoreWire.StoreQueryRequest, Prost StoreWire.StoreQueryResponse}.

Abbreviation state := (NodeState SW St WakuEnr).
Abbreviation node := (action state ()).

(** The text of an outbound failure. *)
Variable failure_text : io_error -> string.

(** ** Protocols

    The four protocols a handle can ask with: what a command asks for ([Q]), the request it
    sends, the codec, the service that answers, and the events and answers of each side. *)
Record Protocol (Q Req Res : Type) : Type := mkProtocol {
  command : PeerId -> Q -> Z -> Command;
  request : Q -> Req;
  write_request : bytes -> Req -> option bytes;
  read_request : reader Req;
  write_response : bytes -> Res -> option bytes;
  read_response : reader Res;
  service : Clock -> PeerId -> Req -> node Res;
  out_request : Req -> OutRequest;
  out_response : Res -> OutResponse;
  inbound : PeerId -> rr_message Req Res -> SwarmEvent;
  outbound_failure : Z -> string -> SwarmEvent;
  parked : Pending.t -> gmap Z Z;
  answer : result string Res -> Answer;
}.
Arguments command {_ _ _}.
Arguments request {_ _ _}.
Arguments write_request {_ _ _}.
Arguments read_request {_ _ _}.
Arguments write_response {_ _ _}.
Arguments read_response {_ _ _}.
Arguments service {_ _ _}.
Arguments out_request {_ _ _}.
Arguments out_response {_ _ _}.
Arguments inbound {_ _ _}.
Arguments outbound_failure {_ _ _}.
Arguments parked {_ _ _}.
Arguments answer {_ _ _}.

Definition store_protocol : Protocol StoreWire.StoreQueryRequest _ _ := {|
  command := CmdStoreQuery; request req := req;
  write_request := StoreWire.write_request; read_request := StoreWire.read_request;
  write_response := StoreWire.write_response; read_response := StoreWire.read_response;
  service := serve_store_query;
  out_request := StoreRequest; out_response := StoreResponse;
  inbound := StoreQueryEvent; outbound_failure := StoreQueryFailure;
  parked := Pending.store_queries; answer := StoreAnswer;
|}.

Definition lightpush_protocol : Protocol Lightpush.LightpushRequest _ _ := {|
  command := CmdLightPush; request req := req;
  write_request := Lightpush.write_request; read_request := Lightpush.read_request;
  write_response := Lightpush.write_response; read_response := Lightpush.read_response;
  service := answer_lightpush;
  out_request := LightpushRequest; out_response := LightpushResponse;
  inbound := LightpushEvent; outbound_failure := LightpushFailure;
  parked := Pending.lightpush; answer := LightpushAnswer;
|}.

Definition peer_exchange_protocol : Protocol Z _ _ := {|
  command := CmdPeerExchange; request := PeerExchange.query;
  write_request := PeerExchange.write_request; read_request := PeerExchange.read_request;
  write_response := PeerExchange.write_response; read_response := PeerExchange.read_response;
  service := fun _ _ => serve_peer_exchange;
  out_request := PeerExchangeRequest; out_response := PeerExchangeResponse;
  inbound := PeerExchangeEvent; outbound_failure := PeerExchangeFailure;
  parked := Pending.peer_exchange; answer := PeerExchangeAnswer;
|}.

(** The acknowledgement of the filter service. *)
Definition serve_filter (peer : PeerId) (req : Filter.FilterSubscribeRequest)
    : node Filter.FilterSubscribeResponse :=
  state_of (fun s =>
    let '(ack, fs) := apply_filter_request (filters s) peer req in (ack, set_filters fs s)).

Definition filter_protocol : Protocol Filter.FilterSubscribeRequest _ _ := {|
  command := CmdFilterSubscribe; request req := req;
  write_request := Filter.SubscribeCodec.write_request;
  read_request := Filter.SubscribeCodec.read_request;
  write_response := Filter.SubscribeCodec.write_response;
  read_response := Filter.SubscribeCodec.read_response;
  service := fun _ => serve_filter;
  out_request := FilterRequest; out_response := FilterResponse;
  inbound := FilterSubscribeEvent; outbound_failure := FilterSubscribeFailure;
  parked := Pending.filter; answer := FilterAnswer;
|}.

(** What the drivers do with the events of a protocol, and the contract of its codec. *)
Record protocol_ok {Q Req Res} `{Prost Req, Prost Res} (P : Protocol Q Req Res) (max : Z) : Prop := {
  p_served : forall params clock me req channel (s : state),
    handle_event params clock (inbound P me (RRequest req channel)) s =
    (res ← service P clock me req; respond_on channel (out_response P res)) s;
  p_response : forall peer q reply from res,
    exchange (command P peer q reply) peer (out_request P (request P q)) reply (parked P)
      (fun id => inbound P from (RResponse id res)) (answer P (Ok res));
  p_failure : forall peer q reply err,
    exchange (command P peer q reply) peer (out_request P (request P q)) reply (parked P)
      (fun id => outbound_failure P id err) (answer P (Err err));
  p_request_codec : codec_correct max (write_request P) (read_request P);
  p_response_codec : codec_correct max (write_response P) (read_response P);
}.

Lemma store_protocol_ok : protocol_ok store_protocol StoreWire.MAX_FRAME_LEN.
Proof. split; try done; try constructor; by apply frame_codec_correct. Qed.
Lemma lightpush_protocol_ok : protocol_ok lightpush_protocol Lightpush.MAX_FRAME_LEN.
Proof. split; try done; try constructor; by apply frame_codec_correct. Qed.
Lemma peer_exchange_protocol_ok : protocol_ok peer_exchange_protocol PeerExchange.MAX_FRAME_LEN.
Proof. split; try done; try constructor; by apply frame_codec_correct. Qed.
Lemma filter_protocol_ok : protocol_ok filter_protocol Filter.MAX_FRAME_LEN.
Proof. split; try done; try constructor; by apply frame_codec_correct. Qed.

(** ** One exchange *)

(** The far side: the request is read, answered by the driver, and the answer read back.
    [None] is a panic of the far driver. *)
Definition answer_remote {Q Req Res} (P : Protocol Q Req Res) (clock : Clock) (me : PeerId)
    (channel : Z) (req : Req) (server : state) : option (result io_error Res * state) :=
  got ← over_wire (write_request P) (read_request P) req;
  match got with
  | Err e => Some (Err e, server)
  | Ok req =>
      '(res, server) ← service P clock me req server;
      match res with
      | Err _ => None
      | Ok res =>
          back ← over_wire (write_response P) (read_response P) res;
          Some (back, set_swarm (swarm_send_response channel (out_response P res) (swarm server)) server)
      end
  end.

(** The event of the near side. *)
Definition settled {Q Req Res} (P : Protocol Q Req Res) (peer : PeerId) (r : result io_error Res)
    (id : Z) : SwarmEvent :=
  match r with
  | Ok res => inbound P peer (RResponse id res)
  | Err e => outbound_failure P id (failure_text e)
  end.

(** The decoder of the answers of a protocol. *)
Definition decodes {Q Req Res} (P : Protocol Q Req Res) (decode : Answer -> option (result string Res))
    : Prop := forall r, decode (answer P r) = Some r.

(** What the far side does is what its driver does. *)
Lemma answer_remote_driver {Q Req Res} `{Prost Req, Prost Res} (P : Protocol Q Req Res) max params
    clock me channel req (server server' : state) (res : Res) :
  protocol_ok P max -> in_u64 (encoded_size req) -> in_u64 (encoded_size res) ->
  service P clock me req server = Some (Ok res, server') ->
  let server'' := set_swarm (swarm_send_response channel (out_response P res) (swarm server')) server' in
  handle_event params clock (inbound P me (RRequest req channel)) server = Some (Ok tt, server'') /\
  exists r, answer_remote P clock me channel req server = Some r /\
    if decide (encoded_size req <= max) then
      r.2 = server'' /\
      if decide (encoded_size res <= max) then r.1 = Ok res else exists e, r.1 = Err e
    else r.2 = server /\ exists e, r.1 = Err e.
Proof.
  intros Hok Hreq Hres E server''. split.
  { rewrite (p_served P max Hok). unfold mbind, action_bind. by rewrite E. }
  destruct (over_wire_correct _ _ _ req (p_request_codec P max Hok) Hreq) as (r1 & E1 & Hr1).
  unfold answer_remote. rewrite E1. cbn. case_decide.
  - subst r1. rewrite E. cbn.
    destruct (over_wire_correct _ _ _ res (p_response_codec P max Hok) Hres) as (r2 & E2 & Hr2).
    rewrite E2. cbn. eexists. split; [reflexivity|]. by split.
  - destruct Hr1 as (e & ->). eexists. split; [reflexivity|]. split; [done|]. by exists e.
Qed.

(** The near side gets it. *)
Lemma call_settled {Q Req Res} `{Prost Req, Prost Res} (P : Protocol Q Req Res) max decode near
    clock peer q reply later (client : state) back :
  protocol_ok P max -> decodes P decode ->
  let id := (swarm_send_request peer (out_request P (request P q)) (swarm client)).1 in
  parked P (pending client) !! id = None -> (reply ∉ (replies client).*1) ->
  Handle.call near (command P peer q reply) reply decode
    (InEvent clock (settled P peer back id) :: later) (Some client) =
  Done (map_err (fun e => CommandError (failure_text e)) back).
Proof.
  intros Hok Hdec id Hid Hreply. destruct back as [res|e]; cbn [settled].
  - by rewrite (call_answered near _ _ _ _ _ _ _ decode _ clock later client
      (p_response P max Hok peer q reply peer res) (Hdec (Ok res)) Hid Hreply).
  - by rewrite (call_answered near _ _ _ _ _ _ _ decode _ clock later client
      (p_failure P max Hok peer q reply (failure_text e)) (Hdec (Err (failure_text e))) Hid Hreply).
Qed.

(** One exchange, for any protocol whose drivers and codec do as [protocol_ok] says. *)
Lemma exchange_over_wire {Q Req Res} `{Prost Req, Prost Res} (P : Protocol Q Req Res) (max : Z)
    (decode : Answer -> option (result string Res)) (near far : NodeParams) (c1 c2 : Clock)
    (peer me : PeerId) (q : Q) (reply channel : Z) (later : list Input)
    (client server server' : state) (res : Res) :
  protocol_ok P max -> decodes P decode ->
  in_u64 (encoded_size (request P q)) -> in_u64 (encoded_size res) ->
  let id := (swarm_send_request peer (out_request P (request P q)) (swarm client)).1 in
  parked P (pending client) !! id = None -> (reply ∉ (replies client).*1) ->
  service P c1 me (request P q) server = Some (Ok res, server') ->
  let server'' := set_swarm (swarm_send_response channel (out_response P res) (swarm server')) server' in
  handle_event far c1 (inbound P me (RRequest (request P q) channel)) server = Some (Ok tt, server'') /\
  exists back after, answer_remote P c1 me channel (request P q) server = Some (back, after) /\
    let returned := Handle.call near (command P peer q reply) reply decode
      (InEvent c2 (settled P peer back id) :: later) (Some client) in
    if decide (encoded_size (request P q) <= max /\ encoded_size res <= max)
    then after = server'' /\ returned = Done (Ok res)
    else (max < encoded_size (request P q) -> after = server) /\
      exists e, returned = Done (Err (CommandError e)).
Proof.
  intros Hok Hdec Hreq Hres id Hid Hreply E server''.
  destruct (answer_remote_driver P max far c1 me channel (request P q) server server' res Hok Hreq Hres E)
    as (Hdriver & [back after] & Er & Hr). split; [exact Hdriver|]. exists back, after. split; [exact Er|].
  pose proof (call_settled P max decode near c2 peer q reply later client back Hok Hdec Hid Hreply) as Hc.
  cbn zeta in Hc |- *. fold id in Hc. rewrite Hc. clear Hc. cbn [fst snd] in Hr. repeat case_decide; try tauto.
  - destruct Hr as [-> ->]. done.
  - destruct Hr as [-> [e ->]]. split; [lia|]. by eexists.
  - destruct Hr as [-> [e ->]]. split; [done|]. by eexists.
Qed.

(** [method] asks over the protocol [P]: on the arguments [x] it sends the request of
    [ask x], the driver of the node asked computes the answer [res] with the service and
    responds with it, and the method returns what it sees of [res], if both frames are
    within [max]; a request that is not never reaches the service, and if one of the two
    is not the method returns the failure. *)
Definition answered_over_wire {X Q Req Res A} `{Prost Req, Prost Res} (P : Protocol Q Req Res)
    (max : Z) (ask : X -> Q)
    (method : NodeParams -> PeerId -> X -> Z -> list Input -> driver -> outcome A)
    (view : Res -> A) : Prop :=
  forall (near far : NodeParams) (c1 c2 : Clock) (peer me : PeerId) (x : X) (reply channel : Z)
    (later : list Input) (client server server' : state) (res : Res),
  let req := request P (ask x) in
  in_u64 (encoded_size req) -> in_u64 (encoded_size res) ->
  let id := (swarm_send_request peer (out_request P req) (swarm client)).1 in
  parked P (pending client) !! id = None -> (reply ∉ (replies client).*1) ->
  service P c1 me req server = Some (Ok res, server') ->
  let server'' := set_swarm (swarm_send_response channel (out_response P res) (swarm server')) server' in
  handle_event far c1 (inbound P me (RRequest req channel)) server = Some (Ok tt, server'') /\
  exists back after, answer_remote P c1 me channel req server = Some (back, after) /\
    let returned := method near peer x reply (InEvent c2 (settled P peer back id) :: later) (Some client) in
    if decide (encoded_size req <= max /\ encoded_size res <= max)
    then after = server'' /\ returned = Done (Ok (view res))
    else (max < encoded_size req -> after = server) /\
      exists e, returned = Done (Err (CommandError e)).

Lemma answered_by {X Q Req Res A} `{Prost Req, Prost Res} (P : Protocol Q Req Res) max (ask : X -> Q)
    decode method (view : Res -> A) :
  protocol_ok P max -> decodes P decode ->
  (forall near peer x reply later (d : driver), method near peer x reply later d =
     map_outcome view (Handle.call near (command P peer (ask x) reply) reply decode later d)) ->
  answered_over_wire P max ask method view.
Proof.
  intros Hok Hdec Hm near far c1 c2 peer me x reply channel later client server server' res req
    Hreq Hres id Hid Hreply E server''.
  destruct (exchange_over_wire P max decode near far c1 c2 peer me (ask x) reply channel later client
    server server' res Hok Hdec Hreq Hres Hid Hreply E) as (Hd & back & after & Er & Hback).
  split; [exact Hd|]. exists back, after. split; [exact Er|]. cbn zeta in Hback |- *. rewrite Hm.
  fold req id in Hback. case_decide; destruct Hback as [Ha Hb].
  - split; [exact Ha|]. by rewrite Hb.
  - split; [exact Ha|]. destruct Hb as [e ->]. by exists e.
Qed.

(** C17. The four methods that ask another node are answered by its service, over the wire
    of their protocol and with its frame limit: [store_query] by [serve_store_query],
    [light_push] by [answer_lightpush], [peer_exchange] by [serve_peer_exchange], of whose
    answer it returns the records that decode, and [filter_request], which subscribes and
    unsubscribes, by [serve_filter].  In each case the driver asked computes the answer and
    responds with it, and the method returns exactly it when request and answer are within
    the limit; when the request is not the other node never sees it, and when the request or
    the answer is not the method returns the failure. *)
Theorem call_over_wire :
  answered_over_wire store_protocol StoreWire.MAX_FRAME_LEN (fun req => req) Handle.store_query
    (fun res => res) /\
  answered_over_wire lightpush_protocol Lightpush.MAX_FRAME_LEN
    (fun x => Lightpush.mkLightpushRequest "" x.1 (Some x.2))
    (fun near peer x => Handle.light_push near peer x.1 x.2) (fun res => res) /\
  answered_over_wire peer_exchange_protocol PeerExchange.MAX_FRAME_LEN (fun num_peers => num_peers)
    Handle.peer_exchange (fun rpc => omap enr_from_bytes (PeerExchange.enrs rpc)) /\
  answered_over_wire filter_protocol Filter.MAX_FRAME_LEN
    (fun x => Filter.mkFilterSubscribeRequest "" x.1.1 x.1.2 x.2)
    (fun near peer x => Handle.filter_request near peer x.1.1 x.1.2 x.2) (fun res => res).
Proof.
  split_and!.
  - apply (answered_by _ _ _ as_store); [apply store_protocol_ok|done|].
    intros. unfold store_query. by destruct (Handle.call _ _ _ _ _ _) as [[]|].
  - apply (answered_by _ _ _ as_lightpush); [apply lightpush_protocol_ok|done|].
    intros. unfold light_push. by destruct (Handle.call _ _ _ _ _ _) as [[]|].
  - apply (answered_by _ _ _ as_peer_exchange); [apply peer_exchange_protocol_ok|done..].
  - apply (answered_by _ _ _ as_filter); [apply filter_protocol_ok|done|].
    intros. unfold filter_request. by destruct (Handle.call _ _ _ _ _ _) as [[]|].
Qed.

End Network.

Arguments command {_ _ _ _ _ _}.
Arguments request {_ _ _ _ _ _}.
Arguments write_request {_ _ _ _ _ _}.
Arguments read_request {_ _ _ _ _ _}.
Arguments write_response {_ _ _ _ _ _}.
Arguments read_response {_ _ _ _ _ _}.
Arguments service {_ _ _ _ _ _}.
Arguments out_request {_ _ _ _ _ _}.
Arguments out_response {_ _ _ _ _ _}.
Arguments inbound {_ _ _ _ _ _}.
Arguments outbound_failure {_ _ _ _ _ _}.
Arguments parked {_ _ _ _ _ _}.
Arguments answer {_ _ _ _ _ _}.

(** ** Paging through the store of another node *)

Section Paging.
Context {SW WakuEnr : Type} `{Swarm SW, EnrOps WakuEnr}.
Context `{EnrCrypto}.
Context `{Sha256, BuildProfile, Prost WakuMessage}.
Context `{Prost StoreWire.StoreQueryRequest, Prost StoreWire.StoreQueryResponse}.

Abbreviation state := (NodeState SW SqliteStore WakuEnr).

(** A request, from a cursor on. *)
Definition resume (req : StoreWire.StoreQueryRequest) (c : bytes) : StoreWire.StoreQueryRequest := {|
  StoreWire.req_request_id := StoreWire.req_request_id req;
  StoreWire.include_data := StoreWire.include_data req;
  StoreWire.pubsub_topic := StoreWire.pubsub_topic req;
  StoreWire.content_topics := StoreWire.content_topics req;
  StoreWire.time_start := StoreWire.time_start req;
  StoreWire.time_end := StoreWire.time_end req;
  StoreWire.message_hashes := StoreWire.message_hashes req;
  StoreWire.req_pagination_cursor := Some c;
  StoreWire.pagination_forward := StoreWire.pagination_forward req;
  StoreWire.pagination_limit := StoreWire.pagination_limit req;
|}.

(** A client of the store protocol: it asks for one page at each of the given moments, goes
    on at the cursor it was given, and asks the same again when it was refused.  What it has
    received, and whether that was the last page. *)
Fixpoint page_remote (me : PeerId) (attempts : list (Clock * Z)) (req : StoreWire.StoreQueryRequest)
    (server : state) : option (list StoreWire.WakuMessageKeyValue * bool * state) :=
  match attempts with
  | [] => Some ([], false, server)
  | (clock, channel) :: attempts =>
      '(r, server) ← answer_remote store_protocol clock me channel req server;
      match r with
      | Ok resp =>
          if decide (StoreWire.status_code resp = Some 200) then
            match StoreWire.pagination_cursor resp with
            | None => Some (StoreWire.messages resp, true, server)
            | Some c =>
                '(more, last, server) ← page_remote me attempts (resume req c) server;
                Some (StoreWire.messages resp ++ more, last, server)
            end
          else page_remote me attempts req server
      | Err _ => page_remote me attempts req server
      end
  end.

(** How many of the attempts the limiter of the server lets through. *)
Definition admitted (me : PeerId) (attempts : list (Clock * Z)) (rl : RateLimiter.t) : nat :=
  length (filter (fun ok => ok = true)
    (RateLimiter.allow_all rl ((fun a => (me, instant_now a.1)) <$> attempts)).1).

(** The frames of such a client and of its answers are within the limit. *)
Definition frames_fit (d : SqliteStore) (req : StoreWire.StoreQueryRequest) : Prop :=
  forall req', req' = req \/ (exists c, is_Some (rows d !! c) /\ req' = resume req c) ->
  encoded_size req' <= StoreWire.MAX_FRAME_LEN /\
  forall resp, resp = respond (StoreWire.req_request_id req) 429 "rate limited" \/
      (exists e, Some e ∈ faults d /\
         resp = respond (StoreWire.req_request_id req) 500 (store_error_to_string (Db e))) \/
      serve (healed d) req' = Some (resp, healed d) ->
    encoded_size resp <= StoreWire.MAX_FRAME_LEN.

(** The service with a store: the limiter first, then the store. *)
Lemma serve_store_query_run clock me req (s : state) d resp d' :
  store s = Some d -> serve d req = Some (resp, d') ->
  let '(ok, rl) := RateLimiter.allow (store_limiter (limits s)) me (instant_now clock) in
  exists s', serve_store_query clock me req s = Some (Ok (if ok then resp
      else respond (StoreWire.req_request_id req) 429 "rate limited"), s') /\
    store s' = Some (if ok then d' else d) /\ store_limiter (limits s') = rl.
Proof.
  intros Hst Hs. destruct (RateLimiter.allow _ _ _) as [ok rl] eqn:Ea.
  unfold serve_store_query, mbind, action_bind, state_of. rewrite Ea. destruct ok; cbn -[serve].
  - rewrite Hst. unfold lift_panic. rewrite Hs. cbn. by eexists.
  - by eexists.
Qed.

(** One attempt over the wire. *)
Lemma attempt_run clock channel me req (s : state) d resp d' :
  store s = Some d -> serve d req = Some (resp, d') ->
  encoded_size req <= StoreWire.MAX_FRAME_LEN ->
  encoded_size resp <= StoreWire.MAX_FRAME_LEN ->
  encoded_size (respond (StoreWire.req_request_id req) 429 "rate limited") <= StoreWire.MAX_FRAME_LEN ->
  let '(ok, rl) := RateLimiter.allow (store_limiter (limits s)) me (instant_now clock) in
  exists s', answer_remote store_protocol clock me channel req s =
      Some (Ok (if ok then resp else respond (StoreWire.req_request_id req) 429 "rate limited"), s') /\
    store s' = Some (if ok then d' else d) /\ store_limiter (limits s') = rl.
Proof.
  intros Hst Hs Hreq Hresp Hlim.
  pose proof (serve_store_query_run clock me req s d resp d' Hst Hs) as Hrun.
  destruct (RateLimiter.allow _ _ _) as [ok rl]. destruct Hrun as (s' & E & Hst' & Hrl).
  set (res := if ok then resp else _) in *.
  assert (encoded_size res <= StoreWire.MAX_FRAME_LEN) as Hres by (subst res; by destruct ok).
  assert (forall n : nat, Z.of_nat n <= StoreWire.MAX_FRAME_LEN -> in_u64 (Z.of_nat n)) as Hu
    by (unfold in_u, StoreWire.MAX_FRAME_LEN; lia).
  destruct (answer_remote_driver store_protocol _ (mkNodeParams 0 (Metadata.mkWakuMetadata None []) 0)
    clock me channel req s s' res store_protocol_ok (Hu _ Hreq) (Hu _ Hres) E) as (_ & [r s''] & Er & Hr).
  rewrite !decide_True in Hr by done. cbn in Hr. destruct Hr as [-> ->]. rewrite Er.
  eexists. split; [reflexivity|]. by split.
Qed.

(** The answer that carries the next page, in terms of the list of what is left. *)
Definition page_answer (req : StoreWire.StoreQueryRequest) (q : StoreQuery.t) (l : list entry)
    : StoreWire.StoreQueryResponse := {|
  StoreWire.res_request_id := StoreWire.req_request_id req;
  StoreWire.status_code := Some 200;
  StoreWire.status_desc := Some "OK";
  StoreWire.messages := key_value <$> (stored q <$> take (page_len q) l);
  StoreWire.pagination_cursor := next_of q l
|}.

Lemma serve_page req q d l1 l2 :
  healthy d -> hashes_ok (rows d) -> page_size_ok q ->
  all_matches q (rows d) = l1 ++ l2 -> resumes q (request_to_query req) (rows d) l1 ->
  serve d req = Some (page_answer req q l2, d).
Proof.
  intros Hd Ht Hp E Hr. destruct (query_rest q _ d l1 l2 Hd Ht Hp E Hr) as [Hq _].
  unfold serve. cbn [ms_query sqlite_store]. by rewrite Hq.
Qed.

(** The page a request gets, or the error of the database. *)
Lemma serve_rest req q d l1 l2 :
  hashes_ok (rows d) -> page_size_ok q ->
  all_matches q (rows d) = l1 ++ l2 -> resumes q (request_to_query req) (rows d) l1 ->
  exists resp d', serve d req = Some (resp, d') /\ rows d' = rows d /\
    (exists used, faults d = used ++ faults d') /\
    (resp = page_answer req q l2 \/
     exists e, Some e ∈ faults d /\ (length (faults d') < length (faults d))%nat /\
       resp = respond (StoreWire.req_request_id req) 500 (store_error_to_string (Db e))).
Proof.
  intros Ht Hp E Hr.
  destruct (query_rest_faulty q _ d l1 l2 Ht Hp E Hr) as (res & d' & Hq & Hd & Hres & Hu).
  unfold serve. cbn [ms_query sqlite_store]. rewrite Hq. cbn. eexists _, d'.
  split; [reflexivity|]. split; [done|]. split; [done|].
  destruct Hres as [(e & -> & He & Hlt)| ->]; [right; by exists e|by left].
Qed.

Lemma resume_query req c :
  length c = 32%nat -> request_to_query (resume req c) = StoreQuery.with_cursor (request_to_query req) c.
Proof. intros Hc. unfold request_to_query, hash_of_slice. cbn. by rewrite decide_True. Qed.

Lemma admitted_cons me clock channel attempts rl :
  let '(ok, rl') := RateLimiter.allow rl me (instant_now clock) in
  admitted me ((clock, channel) :: attempts) rl =
  ((if ok then 1 else 0) + admitted me attempts rl')%nat.
Proof.
  unfold admitted. rewrite fmap_cons. cbn [RateLimiter.allow_all fst].
  destruct (RateLimiter.allow rl me (instant_now clock)) as [ok rl'].
  destruct (RateLimiter.allow_all rl' _) as [oks rl'']. by destruct ok.
Qed.

Lemma take_add {A} n k (l : list A) : take (n + k) l = take n l ++ take k (drop n l).
Proof. revert l. induction n as [|n IH]; intros [|x l]; cbn; try done; [by rewrite take_nil|]. by rewrite IH. Qed.

(** What an attempt sends fits its frame, and so does what it gets. *)
Lemma attempt_page clock channel me req req' d0 d (s : state) l1 l2 :
  hashes_ok (rows d) -> let q := request_to_query req in
  page_size_ok q -> frames_fit d0 req ->
  req' = req \/ (exists c, is_Some (rows d !! c) /\ req' = resume req c) ->
  rows d = rows d0 -> (exists used, faults d0 = used ++ faults d) -> store s = Some d ->
  all_matches q (rows d) = l1 ++ l2 -> resumes q (request_to_query req') (rows d) l1 ->
  let '(ok, rl) := RateLimiter.allow (store_limiter (limits s)) me (instant_now clock) in
  exists resp d' s', answer_remote store_protocol clock me channel req' s = Some (Ok resp, s') /\
    store s' = Some d' /\ store_limiter (limits s') = rl /\
    rows d' = rows d0 /\ (exists used, faults d0 = used ++ faults d') /\
    (length (faults d') <= length (faults d))%nat /\
    ((ok = true /\ resp = page_answer req' q l2) \/
     StoreWire.status_code resp <> Some 200 /\
     (ok = true -> (length (faults d') < length (faults d))%nat)).
Proof.
  intros Ht q Hp Hfit Hreq Hd [used Hu] Hst E Hr.
  assert (StoreWire.req_request_id req' = StoreWire.req_request_id req) as Hid
    by (destruct Hreq as [->|(c & _ & ->)]; done).
  destruct (Hfit req') as [Hf1 Hf2]; [by rewrite <- Hd|].
  assert (serve (healed d0) req' = Some (page_answer req' q l2, healed d0)) as Hs0
    by (apply (serve_page req' q _ l1 l2); cbn; by rewrite <- ?Hd).
  destruct (serve_rest req' q d l1 l2 Ht Hp E Hr) as (resp & d' & Hs & Hd' & [used' Hu'] & Hresp).
  assert (length (faults d') <= length (faults d))%nat as Hle by (rewrite Hu', length_app; lia).
  assert (encoded_size resp <= StoreWire.MAX_FRAME_LEN) as Hsize.
  { apply Hf2. right. destruct Hresp as [->|(e & He & _ & ->)]; [by right|left].
    exists e. rewrite Hid, Hu. split; [|done]. apply elem_of_app. by right. }
  pose proof (attempt_run clock channel me req' s d resp d' Hst Hs Hf1 Hsize
    ltac:(rewrite Hid; apply Hf2; by left)) as Hrun.
  destruct (RateLimiter.allow _ _ _) as [ok rl]. destruct Hrun as (s1 & -> & Hst1 & Hrl1).
  eexists _, (if ok then d' else d), s1. split; [reflexivity|]. split; [done|]. split; [done|].
  destruct ok; (split; [congruence|]); (split; [|split; [lia|]]).
  - exists (used ++ used'). by rewrite Hu, Hu', app_assoc.
  - destruct Hresp as [->|(e & _ & Hlt & ->)]; [by left|by right].
  - by exists used.
  - by right.
Qed.

Lemma page_remote_rest me attempts req d0 :
  hashes_ok (rows d0) ->
  let q := request_to_query req in
  page_size_ok q -> frames_fit d0 req -> forall req' l1 l2 d (s : state),
  req' = req \/ (exists c, is_Some (rows d !! c) /\ req' = resume req c) ->
  rows d = rows d0 -> (exists used, faults d0 = used ++ faults d) ->
  store s = Some d -> all_matches q (rows d) = l1 ++ l2 ->
  resumes q (request_to_query req') (rows d) l1 ->
  exists k last d' s', page_remote me attempts req' s =
      Some (key_value <$> (stored q <$> take k l2), last, s') /\
    store s' = Some d' /\ rows d' = rows d0 /\ (exists used, faults d0 = used ++ faults d') /\
    (last = true -> take k l2 = l2) /\
    ((length l2 + length (faults d) < admitted me attempts (store_limiter (limits s)))%nat -> last = true).
Proof.
  intros Ht q Hp Hfit. induction attempts as [|[clock channel] attempts IH];
    intros req' l1 l2 d s Hreq Hd Hu Hst E Hr.
  { exists 0%nat, false, d, s. split_and!; [done..|]. intros Ha. unfold admitted in Ha. cbn in Ha. lia. }
  assert (forall c, resume req' c = resume req c) as Hres by (destruct Hreq as [->|(c & _ & ->)]; done).
  pose proof (admitted_cons me clock channel attempts (store_limiter (limits s))) as Ha.
  pose proof (attempt_page clock channel me req req' d0 d s l1 l2 ltac:(by rewrite Hd) Hp Hfit Hreq
    Hd Hu Hst E Hr) as Hrun. fold q in Hrun. cbn [page_remote].
  destruct (RateLimiter.allow _ _ _) as [ok rl].
  destruct Hrun as (resp & d1 & s1 & -> & Hst1 & Hrl1 & Hd1 & Hu1 & Hle & Hresp). rewrite Ha.
  cbn [mbind option_bind].
  assert (rows d1 = rows d) as Hd1' by congruence.
  destruct Hresp as [[-> ->]|[Hcode Hlt]].
  2: { rewrite decide_False by done.
       destruct (IH req' l1 l2 d1 s1) as (k & last & d' & s' & Hrun); [by rewrite ?Hd1'..|].
       exists k, last, d', s'. rewrite Hrl1 in Hrun. destruct Hrun as (? & ? & ? & ? & ? & Hlast).
       split_and!; [done..|]. intros Hn. apply Hlast. destruct ok; [specialize (Hlt eq_refl)|]; lia. }
  cbn [page_answer StoreWire.status_code StoreWire.pagination_cursor StoreWire.messages].
  rewrite decide_True by done.
  destruct (page_cases q l2) as [[-> Hlast]|(c & Hc & -> & Hlt)].
  { exists (page_len q), true, d1, s1. by split_and!. }
  pose proof (resumes_next q (rows d) l1 _ c Hc) as Hnext.
  assert (rows d !! c.1 = Some c.2) as Hin.
  { apply (elem_of_all_matches q). rewrite E. apply elem_of_app. right.
    apply last_Some_elem_of in Hc. by eapply elem_of_take in Hc as (i & Hi%list_elem_of_lookup_2 & _). }
  destruct (IH (resume req c.1) (l1 ++ take (page_len q) l2) (drop (page_len q) l2) d1 s1)
    as (k & last & d' & s2 & Hp2 & Hst2 & Hd2 & Hu2 & Hall & Hlast); [| |done|done| | |].
  - right. by exists c.1; rewrite Hd1', Hin.
  - done.
  - by rewrite Hd1', <- app_assoc, take_drop.
  - rewrite Hd1', resume_query; [done|]. rewrite Hd in Hin. by eapply Ht.
  - rewrite Hres, Hp2. cbn [mbind option_bind]. rewrite <- !fmap_app, <- take_add.
    exists (page_len q + k)%nat, last, d', s2. split_and!; [done..| |].
    + intros Hl. by rewrite take_add, Hall, take_drop.
    + intros Hn. apply Hlast. rewrite Hrl1. lia.
Qed.

(** C16. A client that pages through the store of another node, over the wire, under its
    rate limiter and whatever statements of its database fail, gets what it asked for.  It
    asks with a page size the store serves ([page_size_ok]: not [u64::MAX], nor [i64::MAX] in
    a build with overflow checks), and its requests and the answers it can get, a page of that
    size included, are within the frame limit of 100 MiB ([frames_fit]).  Then at every
    moment it has received the first messages of the list of all stored messages that match
    its request, each once, in order, under their hashes; when it is told that a page is the
    last one it has all of them; and it is, as soon as the limiter has let through more
    requests than the store has messages and database errors to come.  The messages of the
    store are left as they were. *)
Theorem remote_paging_complete (me : PeerId) (attempts : list (Clock * Z))
    (req : StoreWire.StoreQueryRequest) (server : state) (d : SqliteStore) :
  store server = Some d -> hashes_ok (rows d) ->
  let q := request_to_query req in
  page_size_ok q -> StoreWire.req_pagination_cursor req = None -> frames_fit d req ->
  exists l k last server' d',
    page_remote me attempts req server =
      Some (key_value <$> (stored q <$> take k l), last, server') /\
    store server' = Some d' /\ rows d' = rows d /\ (last = true -> take k l = l) /\
    ((size (rows d) + length (faults d) <
        admitted me attempts (store_limiter (limits server)))%nat -> last = true) /\
    StronglySorted (dir_le (StoreQuery.forward q)) l /\ NoDup l.*1 /\
    forall h r, (h, r) ∈ l <-> rows d !! h = Some r /\ matches q (h, r) = true.
Proof.
  intros Hst Ht q Hp Hc Hfit. set (l := all_matches q (rows d)).
  destruct (page_remote_rest me attempts req d Ht Hp Hfit req [] l d server)
    as (k & last & d' & server' & E & Hst' & Hd' & _ & Hall & Hlast);
    [by left|done|by exists []|done..| |].
  { left. unfold cursor_key, request_to_query. cbn. by rewrite Hc. }
  pose proof (length_all_matches q (rows d)) as Hlen. destruct (all_matches_sorted q (rows d)) as [Hs Hn].
  exists l, k, last, server', d'. split_and!; try done.
  - intros Ha. apply Hlast. unfold l. lia.
  - intros h r. apply (elem_of_all_matches q _ (h, r)).
Qed.

End Paging.

(** ** Filter subscriptions and the metadata handshake *)

Section Filtering.
Context {SW St WakuEnr : Type} `{Swarm SW, MessageStore St, EnrOps WakuEnr}.
Context `{EnrCrypto}.
Context `{Sha256, BuildProfile, Prost WakuMessage}.
Context `{Prost Filter.FilterSubscribeRequest, Prost Filter.FilterSubscribeResponse,
  Prost Filter.MessagePush, Prost Metadata.WakuMetadata}.

Abbreviation state := (NodeState SW St WakuEnr).
Abbreviation filtering := (filter_protocol (SW := SW) (St := St) (WakuEnr := WakuEnr)).

(** What a push does at the node that receives it: the application sees the message, and the
    push is acknowledged. *)
Definition pushed (push_topic : string) (m : WakuMessage) (channel : Z) (s : state) : state :=
  set_swarm (swarm_send_response channel (PushResponse (Filter.mkFilterPushResponse 200)) (swarm s))
    (set_events (events s ++ [FilterMessage (Some push_topic) m]) s).

(** A list with an element, once. *)
Lemma NoDup_split_once {A} (x : A) l : NoDup l -> x ∈ l -> exists pre post, l = pre ++ x :: post /\ (x ∉ pre ++ post).
Proof.
  intros Hn (pre & post & ->)%list_elem_of_split. exists pre, post. split; [done|].
  apply list.NoDup_app in Hn as (_ & Hd & Hp). apply list.NoDup_cons in Hp as [Hp _].
  rewrite elem_of_app. intros [Hx|Hx]; [|done]. apply (Hd x Hx). by left.
Qed.

(** C22. A filter subscription from end to end: the method of the client returns the
    acknowledgement of the other node, and from then on, for as long as that node's
    entry for the client is left as it is, every relay message that node accepts on the
    topic and one of the content topics is pushed to the client exactly once, passes the
    push codec, and is reported to the client's application as it was sent. *)
Theorem filter_end_to_end (failure_text : io_error -> string) (near far : NodeParams) (c1 c2 : Clock)
    (peer me : PeerId) (topic : string) (content_topics : list string) (reply channel : Z)
    (later : list Input) (client server : state) :
  let req := Filter.mkFilterSubscribeRequest "" Filter.SUBSCRIBE (Some topic) content_topics in
  encoded_size req <= Filter.MAX_FRAME_LEN -> encoded_size (Filter.ok "") <= Filter.MAX_FRAME_LEN ->
  let id := (swarm_send_request peer (FilterRequest req) (swarm client)).1 in
  Pending.filter (pending client) !! id = None -> (reply ∉ (replies client).*1) ->
  exists back server1,
    answer_remote filtering c1 me channel req server = Some (back, server1) /\
    handle_event far c1 (FilterSubscribeEvent me (RRequest req channel)) server = Some (Ok tt, server1) /\
    filter_subscribe near peer topic content_topics reply
      (InEvent c2 (settled failure_text filtering peer back id) :: later) (Some client) =
      Done (Ok (Filter.ok "")) /\
    forall (c3 c4 : Clock) source message_id message shard m (server2 client2 : state) channel2,
      filters server2 !! me = filters server1 !! me ->
      evt_rx_open server2 = true -> evt_rx_open client2 = true ->
      Relay.topic message = topic -> ShardId.parse topic = Ok shard ->
      prost_decode (data message) = Ok m -> relay_verdict c3 m = Some Accept ->
      content_topics = [] \/ content_topic m ∈ content_topics ->
      let push := Filter.mkMessagePush (Some m) (Some topic) in
      encoded_size push <= Filter.MAX_FRAME_LEN ->
      (exists server3 pre post,
         handle_event far c3 (RelayMessage source message_id message) server2 = Some (Ok tt, server3) /\
         swarm server3 = relay_report message_id source MA_Accept
           (pushed_swarm push (pre ++ me :: post) (swarm server2)) /\ (me ∉ pre ++ post)) /\
      over_wire Filter.PushCodec.write_request Filter.PushCodec.read_request push = Some (Ok push) /\
      handle_event near c4 (FilterPushEvent peer (RRequest push channel2)) client2 =
        Some (Ok tt, pushed topic m channel2 client2).
Proof.
  intros req Hreq Hack id Hid Hreply.
  assert (forall n : nat, Z.of_nat n <= Filter.MAX_FRAME_LEN -> in_u64 (Z.of_nat n)) as Hu
    by (unfold in_u, Filter.MAX_FRAME_LEN; lia).
  set (fs := <[me := default [] (filters server !! me) ++ [sub_of req]]> (filters server)).
  assert (service filtering c1 me req server = Some (Ok (Filter.ok ""), set_filters fs server)) as Hs
    by done.
  destruct (answer_remote_driver filtering _ far c1 me channel req server _ _ filter_protocol_ok
    (Hu _ Hreq) (Hu _ Hack) Hs) as (Hd & [back server1] & Er & Hr).
  rewrite !decide_True in Hr by done. cbn [fst snd] in Hr. destruct Hr as [-> ->].
  exists (Ok (Filter.ok "")). eexists. split_and!; [exact Er|exact Hd| |].
  - unfold filter_subscribe, filter_request.
    exact (call_settled failure_text filtering _ as_filter near c2 peer req reply later client
      (Ok (Filter.ok "")) filter_protocol_ok ltac:(done) Hid Hreply).
  - intros c3 c4 source message_id message shard m server2 client2 channel2 Hf Ho Ho2 <- Hp Hdec Hv Hct
      push Hpush.
    split_and!.
    + assert (me ∈ push_targets (filters server2) (Relay.topic message) m) as Hin.
      { apply elem_of_push_targets. exists (sub_of req). rewrite Hf. subst fs. cbn.
        rewrite lookup_insert_eq. cbn. rewrite elem_of_app, list_elem_of_singleton. split; [by right|].
        split; [by intros ? [= ->]|exact Hct]. }
      destruct (NoDup_split_once me _ (NoDup_push_targets _ _ _) Hin) as (pre & post & Ht & Hn).
      rewrite relay_message_run, Hp, Hdec by done. cbn [ok]. rewrite Hv.
      do 3 eexists. split; [reflexivity|]. split; [|exact Hn]. unfold accepted. cbn. by rewrite Ht.
    + destruct (over_wire_correct Filter.MAX_FRAME_LEN Filter.PushCodec.write_request
        Filter.PushCodec.read_request push) as (r & -> & Hr); [by apply frame_codec_correct|by apply Hu|].
      rewrite decide_True in Hr by done. by subst r.
    + cbn. unfold filter_push_message, mbind, action_bind, send_event. cbn. by rewrite Ho2.
Qed.

(** C27. Two nodes that connect and exchange their metadata agree on whether to stay: if each
    announces its own cluster, then either the clusters are the same and neither node does
    anything, or they differ and each drops the other and reports the cluster it was told. *)
Theorem handshake_agrees (c : Clock) (left right : NodeParams) (l r : PeerId) (id1 id2 ch1 ch2 : Z)
    (a b : state) :
  Metadata.cluster_id (local_meta left) = Some (local_cluster left) ->
  Metadata.cluster_id (local_meta right) = Some (local_cluster right) ->
  encoded_size (local_meta left) <= Metadata.MAX_FRAME_LEN ->
  encoded_size (local_meta right) <= Metadata.MAX_FRAME_LEN ->
  evt_rx_open a = true -> evt_rx_open b = true ->
  let answered := fun (p : NodeParams) ch (s : state) =>
    set_swarm (swarm_send_response ch (MetadataResponse (local_meta p)) (swarm s)) s in
  let dropped := fun (peer : PeerId) (cluster : Z) (s : state) =>
    set_events (events s ++ [MetadataMismatch peer (Some cluster)])
      (set_swarm (swarm_disconnect peer (swarm s)) s) in
  exists ml mr,
    over_wire Metadata.write_request Metadata.read_request (local_meta left) = Some (Ok ml) /\
    over_wire Metadata.write_request Metadata.read_request (local_meta right) = Some (Ok mr) /\
    handle_event right c (MetadataEvent l (RRequest ml ch2)) b = Some (Ok tt, answered right ch2 b) /\
    handle_event left c (MetadataEvent r (RRequest mr ch1)) a = Some (Ok tt, answered left ch1 a) /\
    over_wire Metadata.write_response Metadata.read_response (local_meta right) = Some (Ok mr) /\
    over_wire Metadata.write_response Metadata.read_response (local_meta left) = Some (Ok ml) /\
    handle_event left c (MetadataEvent r (RResponse id1 mr)) a =
      Some (Ok tt, if decide (local_cluster left = local_cluster right) then a
                   else dropped r (local_cluster right) a) /\
    handle_event right c (MetadataEvent l (RResponse id2 ml)) b =
      Some (Ok tt, if decide (local_cluster left = local_cluster right) then b
                   else dropped l (local_cluster left) b).
Proof.
  intros Hl Hr Hsl Hsr Ha Hb answered dropped.
  assert (forall m : Metadata.WakuMetadata, encoded_size m <= Metadata.MAX_FRAME_LEN ->
    over_wire Metadata.write_request Metadata.read_request m = Some (Ok m)) as Hw.
  { intros m Hm. destruct (over_wire_correct Metadata.MAX_FRAME_LEN Metadata.write_request
      Metadata.read_request m) as (res & -> & Hres);
      [by apply frame_codec_correct|unfold in_u, encoded_size, Metadata.MAX_FRAME_LEN in *; lia|].
    rewrite decide_True in Hres by done. by subst res. }
  exists (local_meta left), (local_meta right).
  rewrite !(metadata_event_run _ c) by done. rewrite Hl, Hr. split_and!; try done; try by apply Hw.
  repeat case_decide; done || congruence.
Qed.

End Filtering.

(** ** Concrete nodes *)

#[local] Existing Instances toy_sha256 countable_prost log_swarm demo_crypto demo_enr demo_profile.

Abbreviation demo_node := (NodeState LogSwarm SqliteStore DemoEnr).

Abbreviation pushing := (lightpush_protocol (SW := LogSwarm) (St := SqliteStore) (WakuEnr := DemoEnr)).
Abbreviation subscribing := (filter_protocol (SW := LogSwarm) (St := SqliteStore) (WakuEnr := DemoEnr)).

Definition demo_lightpush : Lightpush.LightpushRequest :=
  Lightpush.mkLightpushRequest "" "/waku/2/rs/1/0" (Some (demo_message 4)).

Definition demo_filter : Filter.FilterSubscribeRequest :=
  Filter.mkFilterSubscribeRequest "" Filter.SUBSCRIBE (Some "/waku/2/rs/1/0") ["/a/1/b/p"].

Lemma call_over_wire_witness :
  (exists back after,
    answer_remote pushing demo_clock [x01] 3 demo_lightpush demo_state = Some (back, after) /\
    light_push demo_params [x02] "/waku/2/rs/1/0" (demo_message 4) 9
      [InEvent demo_clock (settled reason pushing [x02] back 0)] (Some demo_state) =
    Done (Ok (Lightpush.ok "" 0))) /\
  exists back after,
    answer_remote subscribing demo_clock [x01] 3 demo_filter demo_state = Some (back, after) /\
    filter_subscribe demo_params [x02] "/waku/2/rs/1/0" ["/a/1/b/p"] 9
      [InEvent demo_clock (settled reason subscribing [x02] back 0)] (Some demo_state) =
    Done (Ok (Filter.ok "")).
Proof.
  destruct (call_over_wire reason (SW := LogSwarm) (St := SqliteStore) (WakuEnr := DemoEnr))
    as (_ & Hpush & _ & Hfilter).
  split.
  - destruct (answer_lightpush demo_clock [x01] demo_lightpush demo_state) as [[res s']|] eqn:E;
      [|vm_compute in E; discriminate E].
    assert (res = Ok (Lightpush.ok "" 0)) as ->
      by (apply (f_equal (option_map fst)) in E; vm_compute in E; by injection E as <-).
    destruct (Hpush demo_params demo_params demo_clock demo_clock [x02] [x01]
      ("/waku/2/rs/1/0", demo_message 4) 9 3 [] demo_state demo_state s' (Lightpush.ok "" 0))
      as (_ & back & after & E1 & E2).
    + split; [unfold encoded_size; lia|vm_compute; done].
    + split; [unfold encoded_size; lia|vm_compute; done].
    + reflexivity.
    + apply not_elem_of_nil.
    + exact E.
    + exists back, after. split; [exact E1|]. cbn zeta in E2. rewrite decide_True in E2.
      * exact (proj2 E2).
      * split; vm_compute; discriminate.
  - destruct (serve_filter [x01] demo_filter demo_state) as [[res s']|] eqn:E;
      [|vm_compute in E; discriminate E].
    assert (res = Ok (Filter.ok "")) as ->
      by (apply (f_equal (option_map fst)) in E; vm_compute in E; by injection E as <-).
    destruct (Hfilter demo_params demo_params demo_clock demo_clock [x02] [x01]
      (Filter.SUBSCRIBE, Some "/waku/2/rs/1/0", ["/a/1/b/p"]) 9 3 [] demo_state demo_state s'
      (Filter.ok "")) as (_ & back & after & E1 & E2).
    + split; [unfold encoded_size; lia|vm_compute; done].
    + split; [unfold encoded_size; lia|vm_compute; done].
    + reflexivity.
    + apply not_elem_of_nil.
    + exact E.
    + exists back, after. split; [exact E1|]. cbn zeta in E2. rewrite decide_True in E2.
      * exact (proj2 E2).
      * split; vm_compute; discriminate.
Defined.

Definition demo_request : StoreWire.StoreQueryRequest :=
  StoreWire.mkStoreQueryRequest "q" true None ["/a/1/b/p"] None None [] None true (Some 1).

(** A store that fails once, in the second statement it is asked for. *)
Definition faulty_store : SqliteStore := mkSqliteStore (rows demo_store) [None; Some "disk I/O error"].

Definition demo_server : demo_node := set_store (Some faulty_store) demo_state.

(** Six attempts, one after the other. *)
Definition demo_attempts : list (Clock * Z) := (fun i => (demo_clock, i)) <$> [1; 2; 3; 4; 5; 6].

Definition frame_ok (d : SqliteStore) (req : StoreWire.StoreQueryRequest) : bool :=
  let small n := n <=? StoreWire.MAX_FRAME_LEN in
  let id := StoreWire.req_request_id req in
  small (encoded_size req) && small (encoded_size (respond id 429 "rate limited")) &&
  forallb (fun f => match f with
                    | Some e => small (encoded_size (respond id 500 (store_error_to_string (Db e))))
                    | None => true
                    end) (faults d) &&
  match serve (healed d) req with Some (resp, _) => small (encoded_size resp) | None => true end.

Lemma frames_fit_check d req :
  forallb (frame_ok d) (req :: (resume req <$> (map_to_list (rows d)).*1)) = true -> frames_fit d req.
Proof.
  rewrite forallb_forall. intros Hall req' Hreq.
  assert (frame_ok d req' = true) as Hok.
  { apply Hall. destruct Hreq as [->|(c & [r Hr] & ->)]; [by left|]. right.
    apply list_elem_of_In, list_elem_of_fmap_2, list_elem_of_fmap. exists (c, r).
    split; [done|]. by apply elem_of_map_to_list. }
  assert (StoreWire.req_request_id req' = StoreWire.req_request_id req) as Hid
    by (destruct Hreq as [->|(c & _ & ->)]; done).
  unfold frame_ok in Hok. rewrite !andb_true_iff, forallb_forall, !Z.leb_le, Hid in Hok.
  destruct Hok as [[[H1 H2] H3] H4].
  split; [exact H1|]. intros resp [->|[(e & He & ->)|Hs]]; [done| |].
  - apply Z.leb_le, (H3 (Some e)). by apply list_elem_of_In.
  - rewrite Hs in H4. by apply Z.leb_le.
Qed.

Lemma demo_frames_fit : frames_fit faulty_store demo_request.
Proof. apply frames_fit_check. vm_compute. reflexivity. Qed.

Lemma remote_paging_complete_witness :
  exists l server', page_remote [x01] demo_attempts demo_request demo_server =
    Some (key_value <$> (stored (request_to_query demo_request) <$> l), true, server') /\
    length l = 3%nat.
Proof.
  assert (page_size_ok (request_to_query demo_request)) as Hp by (split; cbn; lia).
  destruct (remote_paging_complete [x01] demo_attempts demo_request demo_server faulty_store eq_refl
    demo_hashes_ok Hp eq_refl demo_frames_fit)
    as (l & k & last & server' & d' & E & _ & _ & Hall & Hlast & _).
  assert (last = true) as -> by (apply Hlast; vm_compute; lia).
  rewrite Hall in E by reflexivity. exists l, server'. split; [exact E|].
  apply (f_equal (option_map (fun r => length r.1.1))) in E. cbn [option_map fst] in E.
  rewrite !length_fmap in E. vm_compute in E. by injection E.
Defined.

Lemma filter_end_to_end_witness :
  exists server1 : demo_node,
    handle_event demo_params demo_clock (FilterSubscribeEvent [x01] (RRequest
      (Filter.mkFilterSubscribeRequest "" Filter.SUBSCRIBE (Some "/waku/2/rs/1/0") ["/a/1/b/p"]) 3))
      demo_state = Some (Ok tt, server1) /\
    handle_event demo_params demo_clock (FilterPushEvent [x02] (RRequest
      (Filter.mkMessagePush (Some (demo_message 4)) (Some "/waku/2/rs/1/0")) 5)) demo_state =
      Some (Ok tt, pushed "/waku/2/rs/1/0" (demo_message 4) 5 demo_state).
Proof.
  destruct (filter_end_to_end reason demo_params demo_params demo_clock demo_clock [x02] [x01]
    "/waku/2/rs/1/0" ["/a/1/b/p"] 9 3 [] demo_state demo_state) as (back & server1 & _ & E & _ & Hpush).
  - vm_compute. discriminate.
  - vm_compute. discriminate.
  - reflexivity.
  - apply not_elem_of_nil.
  - exists server1. split; [exact E|].
    refine (proj2 (proj2 (Hpush demo_clock demo_clock [x07] [x00] demo_gossip (ShardId.new 1 0)
      (demo_message 4) server1 demo_state 5 eq_refl _ eq_refl eq_refl _ _ _ _ _))).
    + cbn in E. by injection E as <-.
    + vm_compute. reflexivity.
    + apply prost_decode_encode.
    + vm_compute. reflexivity.
    + right. by left.
    + vm_compute. discriminate.
Defined.

Lemma handshake_agrees_witness :
  handle_event demo_params demo_clock
    (MetadataEvent [x02] (RResponse 0 (Metadata.mkWakuMetadata (Some 2) []))) demo_state =
  Some (Ok tt, set_events [MetadataMismatch [x02] (Some 2)]
    (set_swarm (mkLogSwarm 1 [CallDisconnect [x02]]) demo_state)).
Proof.
  destruct (handshake_agrees demo_clock demo_params (mkNodeParams 2 (Metadata.mkWakuMetadata (Some 2) []) 1)
    [x01] [x02] 0 1 2 3 demo_state demo_state eq_refl eq_refl) as (ml & mr & _ & _ & _ & _ & Er & _ & E & _).
  - vm_compute. discriminate.
  - vm_compute. discriminate.
  - reflexivity.
  - reflexivity.
  - assert (mr = Metadata.mkWakuMetadata (Some 2) []) as ->.
    { vm_compute in Er. by injection Er as <-. }
    exact E.
Defined.
