(* ===== verification/Delivery.v ===== *)
(** * Delivery: a message from one application to another

    The longest way through the program: published with the handle of one node, relayed to a
    second that keeps it in its store, and fetched from there, over the wire, with the handle
    of a third by the hash the publisher was given.  Gossipsub, which carries the message
    from the first node to the second, is the swarm of the model; that it gives the second
    node the bytes published and the id of the configured function is what a
    [RelayMessage] of that message says. *)

From Stdlib Require Import Strings.Byte.
From stdpp Require Import base gmap strings list numbers.
From S2P Require Import Prelude Bytes Text Core Framing Wire Relay Store Faults StoreServe Net Discv5 Services Ratelimit Node NodeFacts Handle Network.

Open Scope Z_scope.

Section Delivery.
Context {SW WakuEnr : Type} `{Swarm SW, EnrOps WakuEnr}.
Context `{EnrCrypto}.
Context `{Sha256, BuildProfile, Prost WakuMessage}.
Context `{Prost StoreWire.StoreQueryRequest, Prost StoreWire.StoreQueryResponse}.

Abbreviation state := (NodeState SW SqliteStore WakuEnr).
Abbreviation querying := (store_protocol (SW := SW) (St := SqliteStore) (WakuEnr := WakuEnr)).

(** The message gossipsub delivers for a published one. *)
Definition gossiped (shard : ShardId.t) (m : WakuMessage) : gossipsub_message :=
  mk_gossipsub_message None (encode_to_vec m) None (ShardId.pubsub_topic shard).

(** The answer that carries one message. *)
Definition found (hash : bytes) (topic : string) (m : WakuMessage) : StoreWire.StoreQueryResponse := {|
  StoreWire.res_request_id := "";
  StoreWire.status_code := Some 200;
  StoreWire.status_desc := Some "OK";
  StoreWire.messages := [{| StoreWire.message_hash := Some hash; StoreWire.message := Some m;
                            StoreWire.kv_pubsub_topic := Some topic |}];
  StoreWire.pagination_cursor := None;
|}.

(** C15. Publish, relay, store, fetch: the hash [publish] returns to the application of one
    node names the message everywhere.  A second node that accepts the message from the
    mesh reports it to its application under this hash and, once its put task has run,
    answers a third node that asks for this hash within its rate; and the method of the
    third node's handle returns the message as it was published, with its topic. *)
Theorem published_message_fetched (failure_text : io_error -> string) (pa pb pc : NodeParams)
    (c1 c2 c3 : Clock) (shard : ShardId.t) (m : WakuMessage) (source me peer : PeerId)
    (reply1 reply2 channel : Z) (later1 later2 : list Input) (a b c : state) (d : SqliteStore) :
  let topic := ShardId.pubsub_topic shard in
  let hash := deterministic_hash topic m in
  let req := hash_request "" true hash in
  ShardId.wf shard -> wf_message m ->
  (* the publisher: gossipsub takes the message *)
  publish_returns_id (SW := SW) -> is_ok (relay_publish topic (encode_to_vec m) (swarm a)).1 = true ->
  (reply1 ∉ (replies a).*1) ->
  (* the full node: it accepts the message and has not stored it *)
  evt_rx_open b = true -> store b = Some d -> healthy d -> store_inv (rows d) -> rows d !! hash = None ->
  relay_verdict c1 m = Some Accept -> ephemeral m <> Some true ->
  (* the asker: it is within its rate, and the frames fit *)
  (RateLimiter.allow (store_limiter (limits b)) me (instant_now c2)).1 = true ->
  encoded_size req <= StoreWire.MAX_FRAME_LEN ->
  encoded_size (found hash topic m) <= StoreWire.MAX_FRAME_LEN ->
  encoded_size (respond "" 429 "rate limited") <= StoreWire.MAX_FRAME_LEN ->
  let id := (swarm_send_request peer (StoreRequest req) (swarm c)).1 in
  Pending.store_queries (pending c) !! id = None -> (reply2 ∉ (replies c).*1) ->
  publish pa shard m reply1 later1 (Some a) = Done (Ok hash) /\
  exists b1 b2 b3 back,
    handle_event pb c1 (RelayMessage source (waku_message_id (gossiped shard m)) (gossiped shard m)) b =
      Some (Ok tt, b1) /\
    events b1 = events b ++ [EvMessage shard m hash source] /\
    run_put_task (length (put_tasks b)) b1 = Some b2 /\
    answer_remote querying c2 me channel req b2 = Some (back, b3) /\
    store_query pc peer req reply2 (InEvent c3 (settled failure_text querying peer back id) :: later2)
      (Some c) = Done (Ok (found hash topic m)).
Proof.
  intros topic hash req Hwf Hm Hpub Htaken Hr1 Ho Hst Hd Hinv Hnew Hver Heph Hrate Hf1 Hf2 Hf3 id Hid Hr2.
  split.
  { rewrite publish_through_handle by done. fold topic.
    by destruct (relay_publish topic (encode_to_vec m) (swarm a)).1. }
  assert (waku_message_id (gossiped shard m) = hash) as Hhash.
  { unfold waku_message_id, gossiped. cbn. by rewrite prost_decode_encode. }
  destruct (put_then_served topic "" true m (rx_time_nanos c1) d Hd Hinv Hm Hnew) as (d' & Hput & Hserve).
  change (put topic m (rx_time_nanos c1) d) with (ms_put topic m (rx_time_nanos c1) d) in Hput.
  destruct (accepted_task_run pb c1 source hash (gossiped shard m) shard m d _ d' b Ho Hst
    (ShardId.parse_pubsub_topic shard Hwf) (prost_decode_encode m) Hver Heph Hput) as [E1 E2].
  set (b2 := set_put_tasks _ _) in E2.
  assert (store b2 = Some d') as Hst2 by done.
  pose proof (attempt_run c2 channel me req b2 d' (found hash topic m) d' Hst2 Hserve Hf1 Hf2 Hf3) as Hrun.
  change (limits b2) with (limits b) in Hrun.
  destruct (RateLimiter.allow _ _ _) as [allowed rl]. cbn in Hrate. subst allowed.
  destruct Hrun as (b3 & E3 & _). rewrite Hhash.
  eexists _, b2, b3, (Ok (found hash topic m)). split; [exact E1|]. split.
  { cbn. unfold hash_of_slice. rewrite decide_True by apply deterministic_hash_length. done. }
  split; [exact E2|]. split; [exact E3|].
  exact (call_settled failure_text querying _ as_store pc c3 peer req reply2 later2 c
    (Ok (found hash topic m)) store_protocol_ok ltac:(done) Hid Hr2).
Qed.

End Delivery.

(** ** Three concrete nodes *)

#[local] Existing Instances toy_sha256 countable_prost log_swarm demo_crypto demo_enr demo_profile.

Lemma published_message_fetched_witness :
  let hash := deterministic_hash "/waku/2/rs/1/0" (demo_message 4) in
  publish demo_params (ShardId.new 1 0) (demo_message 4) 5 [] (Some demo_state) = Done (Ok hash) /\
  exists back, store_query demo_params [x02] (hash_request "" true hash) 9
    [InEvent demo_clock (settled reason (store_protocol (SW := LogSwarm) (WakuEnr := DemoEnr)) [x02] back 0)]
    (Some demo_state) =
  Done (Ok (found hash "/waku/2/rs/1/0" (demo_message 4))).
Proof.
  destruct (published_message_fetched reason demo_params demo_params demo_params demo_clock demo_clock
    demo_clock (ShardId.new 1 0) (demo_message 4) [x07] [x01] [x02] 5 9 3 [] [] demo_state demo_state
    demo_state (mkSqliteStore ∅ [])) as (E & b1 & b2 & b3 & back & _ & _ & _ & _ & E').
  - split; vm_compute; split; discriminate || reflexivity.
  - by apply demo_message_wf.
  - intros topic data sw id sw' [= <- <-]. reflexivity.
  - reflexivity.
  - apply not_elem_of_nil.
  - reflexivity.
  - reflexivity.
  - reflexivity.
  - intros h r Hl. exfalso. cbn in Hl. by rewrite lookup_empty in Hl.
  - apply lookup_empty.
  - vm_compute. reflexivity.
  - discriminate.
  - vm_compute. reflexivity.
  - vm_compute. discriminate.
  - vm_compute. discriminate.
  - vm_compute. discriminate.
  - reflexivity.
  - apply not_elem_of_nil.
  - split; [exact E|]. exists back. exact E'.
Defined.
