(* ===== verification/Discovery.v ===== *)
(** * Discovery: the discovery task of [waku-node/src/runtime.rs]

    [discovery_loop] and [dial_discovered]: the task that dials bootstrap peers and then
    every peer a discv5 round finds; [NodeConfig] and the part of [spawn] that starts it.

    What [discover_dialable] returned in each round is an input.  The command channel to
    the driver is the list of the outcomes of the sends still to come, past its end they
    succeed. *)

From Stdlib Require Import Strings.Byte.
From stdpp Require Import base gmap strings list numbers.
From S2P Require Import Prelude Bytes Text Core Framing Wire Enr Net Discv5 Dns Services Node Handle.

Open Scope Z_scope.

(** ** [NodeConfig] *)

(** [DiscoverySettings]. *)
Record DiscoverySettings (WakuEnr : Type) : Type := mkDiscoverySettings {
  ds_udp_port : Z;                 (* u16 *)
  ds_advertised_ip : Z;
  ds_advertised_tcp_port : Z;      (* u16 *)
  ds_bootstrap : list WakuEnr;
  ds_dns_bootstrap : list string;
}.
Arguments mkDiscoverySettings {_}.
Arguments ds_udp_port {_}.
Arguments ds_advertised_ip {_}.
Arguments ds_advertised_tcp_port {_}.
Arguments ds_bootstrap {_}.
Arguments ds_dns_bootstrap {_}.

(** [NodeConfig], over the types of the identity, the records and the store. *)
Record NodeConfig (Keypair WakuEnr St : Type) : Type := mkNodeConfig {
  cfg_keypair : Keypair;
  cfg_listen_addrs : list Multiaddr;
  cfg_idle_timeout_secs : Z;
  cfg_cluster_id : Z;              (* u16 *)
  cfg_shards : list Z;             (* u16 *)
  cfg_discovery : option (DiscoverySettings WakuEnr);
  cfg_store : option St;
  cfg_max_connections : Z;         (* u32 *)
  cfg_ip_colocation_limit : Z;     (* usize *)
}.
Arguments mkNodeConfig {_ _ _}.
Arguments cfg_keypair {_ _ _}.
Arguments cfg_listen_addrs {_ _ _}.
Arguments cfg_idle_timeout_secs {_ _ _}.
Arguments cfg_cluster_id {_ _ _}.
Arguments cfg_shards {_ _ _}.
Arguments cfg_discovery {_ _ _}.
Arguments cfg_store {_ _ _}.
Arguments cfg_max_connections {_ _ _}.
Arguments cfg_ip_colocation_limit {_ _ _}.

Section Config.
Context {Keypair WakuEnr St : Type}.
Abbreviation NodeConfig := (NodeConfig Keypair WakuEnr St).

(** [NodeConfig::new], with the identity it generates. *)
Definition node_config_new (generated : Keypair) : NodeConfig := {|
  cfg_keypair := generated;
  cfg_listen_addrs := [];
  cfg_idle_timeout_secs := 60;
  cfg_cluster_id := NetworkPreset.cluster_id TWN;
  cfg_shards := u16_range (NetworkPreset.shard_count TWN);
  cfg_discovery := None;
  cfg_store := None;
  cfg_max_connections := 300;
  cfg_ip_colocation_limit := 20;
|}.

(** [with_listen_addr] and [with_cluster]. *)
Definition with_listen_addr (c : NodeConfig) (addr : Multiaddr) : NodeConfig :=
  mkNodeConfig (cfg_keypair c) (cfg_listen_addrs c ++ [addr]) (cfg_idle_timeout_secs c)
    (cfg_cluster_id c) (cfg_shards c) (cfg_discovery c) (cfg_store c) (cfg_max_connections c)
    (cfg_ip_colocation_limit c).
Definition with_cluster (c : NodeConfig) (cluster_id : Z) (shards : list Z) : NodeConfig :=
  mkNodeConfig (cfg_keypair c) (cfg_listen_addrs c) (cfg_idle_timeout_secs c)
    cluster_id shards (cfg_discovery c) (cfg_store c) (cfg_max_connections c)
    (cfg_ip_colocation_limit c).

(** [local_metadata]; the casts widen. *)
Definition local_metadata (c : NodeConfig) : Metadata.WakuMetadata :=
  Metadata.mkWakuMetadata (Some (as_u32 (cfg_cluster_id c))) ((fun s => as_u32 s) <$> cfg_shards c).

(** What [spawn] passes to [run]. *)
Definition node_params (c : NodeConfig) : NodeParams :=
  mkNodeParams (as_u32 (cfg_cluster_id c)) (local_metadata c) (cfg_ip_colocation_limit c).

(** ** Starting discovery *)

Context `{EnrCrypto, DnsCrypto, EnrOps WakuEnr} {CombinedKey DV : Type}.
Context `{EnrBuild WakuEnr CombinedKey, Discv5Service WakuEnr CombinedKey DV}.

(** The secret of a secp256k1 identity of libp2p, and [CombinedKey::secp256k1_from_bytes]. *)
Variable try_into_secp256k1 : Keypair -> option bytes.
Variable secp256k1_from_bytes : bytes -> result string CombinedKey.

(** [keypair_to_combined]. *)
Definition keypair_to_combined (keypair : Keypair) : result NodeError CombinedKey :=
  secret ← ok_or (BuildError "node identity must be secp256k1 for discv5")
    (try_into_secp256k1 keypair);
  map_err BuildError (secp256k1_from_bytes secret).

(** [resolve_dns_bootstrap]; [system] is the system's resolver, if it could be built. *)
Definition resolve_dns_bootstrap (system : option (string -> result DnsError (list string)))
    (urls : list string) : list WakuEnr :=
  match system with
  | None => []
  | Some txt => urls ≫= (fun url => match resolve txt url with Ok enrs => enrs | Err _ => [] end)
  end.

(** The discovery part of [spawn]: the service and the bootstrap records [discovery_loop]
    is spawned with. *)
Definition start_discovery (system : option (string -> result DnsError (list string)))
    (c : NodeConfig) : result NodeError (option (Discovery * list WakuEnr)) :=
  match cfg_discovery c with
  | None => Ok None
  | Some settings =>
      key ← keypair_to_combined (cfg_keypair c);
      let bootstrap := ds_bootstrap settings ++
        (if decide (ds_dns_bootstrap settings = []) then []
         else resolve_dns_bootstrap system (ds_dns_bootstrap settings)) in
      let d : DiscoveryConfig WakuEnr CombinedKey :=
        config_with_cluster (discovery_config_new (ds_udp_port settings))
          (cfg_cluster_id c) (cfg_shards c) in
      let dcfg := mkDiscoveryConfig (dc_listen_ip d) (dc_udp_port d)
        (Some (ds_advertised_tcp_port settings)) (Some (ds_advertised_ip settings))
        (dc_cluster_id d) (dc_shards d) bootstrap (Some key) in
      let build_error e := BuildError (discovery_error_to_string e) in
      discovery ← map_err build_error (discovery_new key dcfg);
      let '(started, discovery) := discovery_start discovery in
      _ ← map_err build_error started;
      Ok (Some (discovery, bootstrap))
  end.

(** The record and the bootstrap list discovery is started with. *)
Lemma started_record
    `{!EnrBuildLaws WakuEnr CombinedKey, !Discv5Laws WakuEnr CombinedKey DV}
    (system : option (string -> result DnsError (list string))) (c : NodeConfig)
    (settings : DiscoverySettings WakuEnr) (d : Discovery) (bootstrap : list WakuEnr)
    (key : CombinedKey) (peer : PeerId) :
  in_u16 (cfg_cluster_id c) -> Forall in_u16 (cfg_shards c) ->
  cfg_discovery c = Some settings -> keypair_to_combined (cfg_keypair c) = Ok key ->
  secp256k1_peer_id (key_public key) = Some peer ->
  start_discovery system c = Ok (Some (d, bootstrap)) ->
  let enr := local_enr d in
  in_cluster (cfg_cluster_id c) enr = true /\
  enr_to_dialable enr = Some (mkDiscoveredPeer peer
    [[Ip4 (ds_advertised_ip settings); Tcp (ds_advertised_tcp_port settings); P2p peer]]
    (RelayShards.new (cfg_cluster_id c) (cfg_shards c)) enr) /\
  bootstrap = ds_bootstrap settings ++ resolve_dns_bootstrap system (ds_dns_bootstrap settings).
Proof.
  intros Hc Hs Hset Hkey Hpeer. unfold start_discovery. rewrite Hset, Hkey. cbn [mbind result_bind].
  set (dcfg := mkDiscoveryConfig _ _ _ _ _ _ _ _).
  destruct (discovery_new key dcfg) as [d0|] eqn:En; [|done]. cbn [map_err mbind result_bind].
  unfold discovery_start. destruct (dv_start (discv5 d0)) as [[[]|] dv] eqn:Es; [|done].
  intros [= <- <-].
  destruct (proj1 (local_record_announces key dcfg peer Hc Hs Hpeer) d0 En) as (_ & Hin & Hd).
  assert (local_enr (mkDiscovery dv (disc_cluster_id d0)) = local_enr d0) as ->.
  { unfold local_enr. cbn. pose proof (local_enr_start (discv5 d0)) as E. by rewrite Es in E. }
  cbn zeta. split; [done|]. split; [by rewrite Hd|]. f_equal.
  case_decide as E; [|done]. rewrite E. by destruct system.
Qed.

(** A node with discovery enabled announces exactly how to reach it: its record names
    the advertised address and port under the peer id of its own identity, with its
    cluster and its shards in order, so every node of the cluster accepts and can dial it;
    and the task is started with the configured bootstrap records followed by those of
    each tree that resolves. *)
Theorem node_announces_itself
    `{!EnrBuildLaws WakuEnr CombinedKey, !Discv5Laws WakuEnr CombinedKey DV}
    (system : option (string -> result DnsError (list string))) (c : NodeConfig)
    (settings : DiscoverySettings WakuEnr) (d : Discovery) (bootstrap : list WakuEnr)
    (key : CombinedKey) (peer : PeerId) :
  in_u16 (cfg_cluster_id c) -> Forall in_u16 (cfg_shards c) ->
  cfg_discovery c = Some settings -> keypair_to_combined (cfg_keypair c) = Ok key ->
  secp256k1_peer_id (key_public key) = Some peer ->
  start_discovery system c = Ok (Some (d, bootstrap)) ->
  let enr := local_enr d in
  in_cluster (cfg_cluster_id c) enr = true /\
  enr_to_dialable enr = Some (mkDiscoveredPeer peer
    [[Ip4 (ds_advertised_ip settings); Tcp (ds_advertised_tcp_port settings); P2p peer]]
    (RelayShards.new (cfg_cluster_id c) (cfg_shards c)) enr) /\
  bootstrap = ds_bootstrap settings ++ resolve_dns_bootstrap system (ds_dns_bootstrap settings).
Proof. apply started_record. Qed.

End Config.

(** ** The task *)

Section Task.
Context `{EnrCrypto} {WakuEnr : Type} `{EnrOps WakuEnr}.

Abbreviation DiscoveredPeer := (DiscoveredPeer WakuEnr).

(** The state of the task: the peers dialed, the shared book, the [Dial] commands sent
    (with the peer they were sent for), and the outcomes of the sends to come. *)
Record TaskState : Type := mkTaskState {
  known : gset PeerId;
  task_book : list WakuEnr;
  dials : list (PeerId * Multiaddr);
  sends : list bool;
}.

(** The loop over the addresses of a peer, left at the first failed send. *)
Fixpoint dial_addrs (peer : PeerId) (addrs : list Multiaddr) (t : TaskState) : TaskState :=
  match addrs with
  | [] => t
  | addr :: addrs =>
      match sends t with
      | false :: rest => mkTaskState (known t) (task_book t) (dials t) rest
      | rest => dial_addrs peer addrs
          (mkTaskState (known t) (task_book t) (dials t ++ [(peer, addr)]) (tail rest))
      end
  end.

(** [dial_discovered]. *)
Definition dial_discovered (t : TaskState) (peer : DiscoveredPeer) : TaskState :=
  let book := remember_enr (task_book t) (dp_enr peer) in
  if decide (dp_peer_id peer ∈ known t) then mkTaskState (known t) book (dials t) (sends t)
  else dial_addrs (dp_peer_id peer) (dp_addrs peer)
    (mkTaskState ({[dp_peer_id peer]} ∪ known t) book (dials t) (sends t)).

(** The bootstrap phase of [discovery_loop]. *)
Definition dial_bootstrap (t : TaskState) (enr : WakuEnr) : TaskState :=
  let t := mkTaskState (known t) (remember_enr (task_book t) enr) (dials t) (sends t) in
  match enr_to_dialable enr with
  | Some peer => dial_discovered t peer
  | None => t
  end.

(** One turn of the loop: whether the driver has gone, and what the query returned. *)
Record Round : Type := mkRound {
  cmd_closed : bool;
  discovered : result DiscoveryError (list DiscoveredPeer);
}.

Fixpoint discovery_rounds (t : TaskState) (rounds : list Round) : TaskState :=
  match rounds with
  | [] => t
  | r :: rounds =>
      if cmd_closed r then t
      else match discovered r with
           | Ok peers => discovery_rounds (foldl dial_discovered t peers) rounds
           | Err _ => discovery_rounds t rounds
           end
  end.

(** [discovery_loop] on the rounds it has gone through. *)
Definition discovery_loop (bootstrap : list WakuEnr) (book : list WakuEnr) (sends : list bool)
    (rounds : list Round) : TaskState :=
  discovery_rounds (foldl dial_bootstrap (mkTaskState ∅ book [] sends) bootstrap) rounds.

(** ** No peer is dialed twice *)

(** The dials of one peer are a prefix of the addresses of one of its records, made in
    one go, and only known peers are dialed. *)
Definition dialed_once (t : TaskState) : Prop :=
  (forall p a, (p, a) ∈ dials t -> p ∈ known t) /\
  exists batches : list (PeerId * list Multiaddr),
    NoDup batches.*1 /\ dials t = batches ≫= (fun b => (fun a => (b.1, a)) <$> b.2) /\
    forall p, p ∈ batches.*1 -> p ∈ known t.

Lemma dial_addrs_spec p addrs t :
  exists pre, pre `prefix_of` addrs /\
    dials (dial_addrs p addrs t) = dials t ++ ((fun a => (p, a)) <$> pre) /\
    known (dial_addrs p addrs t) = known t /\ task_book (dial_addrs p addrs t) = task_book t /\
    (sends t = [] -> pre = addrs /\ sends (dial_addrs p addrs t) = []).
Proof.
  revert t. induction addrs as [|a addrs IH]; intros t.
  { exists []. cbn. rewrite app_nil_r. by repeat split. }
  cbn [dial_addrs]. destruct (sends t) as [|[] rest] eqn:E.
  - destruct (IH (mkTaskState (known t) (task_book t) (dials t ++ [(p, a)]) []))
      as (pre & Hp & Ed & Ek & Eb & Es). exists (a :: pre). cbn in *.
    rewrite Ed, <- app_assoc. split; [by apply prefix_cons|].
    split; [done|]. split; [done|]. split; [done|]. intros _. destruct (Es eq_refl) as [-> ?]. done.
  - destruct (IH (mkTaskState (known t) (task_book t) (dials t ++ [(p, a)]) rest))
      as (pre & Hp & Ed & Ek & Eb & Es). exists (a :: pre). cbn in *.
    rewrite Ed, <- app_assoc. split; [by apply prefix_cons|]. do 3 (split; [done|]). done.
  - exists []. cbn. rewrite app_nil_r. split; [apply prefix_nil|]. by repeat split.
Qed.

Lemma dial_discovered_once t peer : dialed_once t -> dialed_once (dial_discovered t peer).
Proof.
  intros (Hk & bs & Hn & Hd & Hb). unfold dial_discovered. case_decide as Hin.
  { split; [done|]. by exists bs. }
  destruct (dial_addrs_spec (dp_peer_id peer) (dp_addrs peer)
    (mkTaskState ({[dp_peer_id peer]} ∪ known t) (remember_enr (task_book t) (dp_enr peer))
      (dials t) (sends t))) as (pre & _ & Ed & Ek & _). cbn in *. split.
  - intros p a. rewrite Ed, Ek, elem_of_app, list_elem_of_fmap.
    intros [Hpa%Hk|(a' & [= -> ->] & _)]; set_solver.
  - exists (bs ++ [(dp_peer_id peer, pre)]). rewrite fmap_app. split; [|split].
    + apply list.NoDup_app. split; [done|]. split; [|apply NoDup_singleton].
      intros p Hp. cbn. rewrite list_elem_of_singleton. intros ->. by apply Hin, Hb.
    + rewrite Ed, Hd, bind_app. cbn. by rewrite app_nil_r.
    + intros p. rewrite Ek, elem_of_app. cbn. rewrite list_elem_of_singleton. set_solver.
Qed.

Lemma dial_bootstrap_once t enr : dialed_once t -> dialed_once (dial_bootstrap t enr).
Proof.
  intros Ht. unfold dial_bootstrap.
  assert (dialed_once (mkTaskState (known t) (remember_enr (task_book t) enr) (dials t) (sends t)))
    by exact Ht.
  case_match; [by apply dial_discovered_once|done].
Qed.

Lemma foldl_once {A} (f : TaskState -> A -> TaskState) l t :
  (forall t a, dialed_once t -> dialed_once (f t a)) -> dialed_once t -> dialed_once (foldl f t l).
Proof. intros Hf. revert t. induction l; intros t Ht; cbn; auto. Qed.

Lemma rounds_once rounds t : dialed_once t -> dialed_once (discovery_rounds t rounds).
Proof.
  revert t. induction rounds as [|r rounds IH]; intros t Ht; cbn; [done|].
  repeat case_match; try done; apply IH; [|done].
  by apply foldl_once; [apply dial_discovered_once|].
Qed.

(** The peers the task comes across, in order. *)
Fixpoint found_in (rounds : list Round) : list DiscoveredPeer :=
  match rounds with
  | [] => []
  | r :: rounds =>
      if cmd_closed r then []
      else match discovered r with Ok peers => peers | Err _ => [] end ++ found_in rounds
  end.

(** With no failed send: the known peers are the found ones, and each was dialed on all
    the addresses of a record found for it. *)
Definition all_dialed (t : TaskState) (found : list DiscoveredPeer) : Prop :=
  sends t = [] /\
  (forall peer, peer ∈ found -> dp_peer_id peer ∈ known t) /\
  (forall p, p ∈ known t -> exists peer, peer ∈ found /\ dp_peer_id peer = p /\
     forall a, a ∈ dp_addrs peer -> (p, a) ∈ dials t).

Lemma dial_discovered_all t found peer :
  all_dialed t found -> all_dialed (dial_discovered t peer) (found ++ [peer]).
Proof.
  intros (Hs & Hf & Hk). unfold dial_discovered. case_decide as Hin.
  - split; [done|]. split.
    + intros x [Hx| ->%list_elem_of_singleton]%elem_of_app; cbn; auto.
    + intros p (x & Hx & Hp)%Hk. exists x. split; [set_solver|done].
  - destruct (dial_addrs_spec (dp_peer_id peer) (dp_addrs peer)
      (mkTaskState ({[dp_peer_id peer]} ∪ known t) (remember_enr (task_book t) (dp_enr peer))
        (dials t) (sends t))) as (pre & _ & Ed & Ek & _ & Es). cbn in *.
    destruct (Es Hs) as [-> Hs']. split; [done|]. rewrite Ek, Ed. split.
    + intros x [Hx%Hf| ->%list_elem_of_singleton]%elem_of_app; set_solver.
    + intros p [->%elem_of_singleton|(x & Hx & Hid & Ha)%Hk]%elem_of_union.
      * exists peer. split; [set_solver|]. split; [done|]. intros a Hin'.
        apply elem_of_app. right. by apply list_elem_of_fmap_2.
      * exists x. split; [set_solver|]. split; [done|]. intros a Hin'.
        apply elem_of_app. left. auto.
Qed.

Lemma foldl_all found0 peers t :
  all_dialed t found0 -> all_dialed (foldl dial_discovered t peers) (found0 ++ peers).
Proof.
  revert t found0. induction peers as [|x l IH]; intros t found0 Ht; [by rewrite app_nil_r|].
  cbn. rewrite cons_middle, app_assoc. by apply IH, dial_discovered_all.
Qed.

Lemma bootstrap_all found0 enrs t :
  all_dialed t found0 ->
  all_dialed (foldl dial_bootstrap t enrs) (found0 ++ omap enr_to_dialable enrs).
Proof.
  revert t found0. induction enrs as [|e l IH]; intros t found0 Ht; [by rewrite app_nil_r|].
  cbn. unfold dial_bootstrap at 2.
  assert (all_dialed (mkTaskState (known t) (remember_enr (task_book t) e) (dials t) (sends t))
    found0) as Ht' by exact Ht.
  destruct (enr_to_dialable e) as [peer|]; [|by apply IH].
  rewrite cons_middle, app_assoc. by apply IH, dial_discovered_all.
Qed.

Lemma rounds_all found0 rounds t :
  all_dialed t found0 -> all_dialed (discovery_rounds t rounds) (found0 ++ found_in rounds).
Proof.
  revert t found0. induction rounds as [|r l IH]; intros t found0 Ht; cbn; [by rewrite app_nil_r|].
  destruct (cmd_closed r); [by rewrite app_nil_r|].
  destruct (discovered r) as [peers|e]; [|by apply IH].
  rewrite app_assoc. by apply IH, foldl_all.
Qed.

(** Each peer the discovery task comes across is dialed once: whichever bootstrap
    entries and discovery rounds find it, and whichever sends fail, the dial commands are
    batches of distinct peers; and when no send fails every found peer has been dialed on
    all the addresses of a record found for it. *)
Theorem discovery_dials_once (bootstrap book : list WakuEnr) (outcomes : list bool)
    (rounds : list Round) :
  let t := discovery_loop bootstrap book outcomes rounds in
  let found := omap enr_to_dialable bootstrap ++ found_in rounds in
  (exists batches : list (PeerId * list Multiaddr), NoDup batches.*1 /\
     dials t = batches ≫= (fun b => (fun a => (b.1, a)) <$> b.2)) /\
  (outcomes = [] -> forall peer, peer ∈ found ->
     exists record, record ∈ found /\ dp_peer_id record = dp_peer_id peer /\
       forall a, a ∈ dp_addrs record -> (dp_peer_id peer, a) ∈ dials t).
Proof.
  intros t found. split.
  - assert (dialed_once t) as (_ & bs & Hn & Hd & _); [|by exists bs].
    apply rounds_once, foldl_once; [intros; by apply dial_bootstrap_once|].
    split; [set_solver|]. exists []. split; [constructor|]. split; [done|set_solver].
  - intros -> peer Hp.
    assert (all_dialed t found) as (_ & Hf & Hk); [|by apply Hk, Hf].
    unfold t, found, discovery_loop. apply rounds_all, (bootstrap_all []).
    split; [done|]. split; set_solver.
Qed.

End Task.

(** ** A node that starts discovery *)

#[local] Existing Instances demo_crypto demo_dns demo_enr demo_build demo_service.

Definition demo_node_config : NodeConfig bytes DemoEnr () :=
  mkNodeConfig [x05] [] 60 1 [3; 1]
    (Some (mkDiscoverySettings 9000 0x0A000001 60000 []
      ["enrtree://K@n.org"; "https://n.org"])) None 300 20.

Lemma node_announces_itself_witness :
  exists d, start_discovery Some Ok (Some demo_txt) demo_node_config = Ok (Some (d, [demo_leaf])) /\
    dp_addrs <$> enr_to_dialable (local_enr d) =
      Some [[Ip4 0x0A000001; Tcp 60000; P2p [x05]]].
Proof.
  destruct (start_discovery Some Ok (Some demo_txt) demo_node_config) as [[[d b]|]|] eqn:E;
    [|vm_compute in E; discriminate E..].
  assert (Forall in_u16 (cfg_shards demo_node_config)) as Hs
    by (cbn; split_Forall; unfold in_u; lia).
  destruct (node_announces_itself Some Ok (Some demo_txt) demo_node_config _ d b [x05] [x05]
    ltac:(done) Hs eq_refl eq_refl eq_refl E) as (_ & Hd & Hb).
  exists d. rewrite Hd, Hb. split; [|reflexivity]. vm_compute. reflexivity.
Defined.
