(* ===== verification/Hickory.v ===== *)
(** * Hickory: the live DNS resolver of [waku-discv5/src/dns.rs]

    [HickoryResolver] asks a DNS library for the TXT records of a name and puts the character
    strings of each back together, as text.  The library is the function [lookup]. *)

From Stdlib Require Import Strings.Byte.
From stdpp Require Import base gmap strings list numbers.
From S2P Require Import Prelude Bytes Text Utf8 Core Framing Wire Enr Net Discv5 Dns Relay Store StoreServe Services Ratelimit Node NodeFacts Handle Discovery.

Open Scope Z_scope.

(** A record of an answer: the character strings of a TXT record, or a record of another
    type (a CNAME on the way, say). *)
Inductive DnsRecord : Type :=
  | Txt (txt_data : list bytes)
  | OtherRecord.

(** [record.try_borrow::<TXT>()], and its character strings with no separator. *)
Definition txt_bytes (r : DnsRecord) : option bytes :=
  match r with
  | Txt txt_data => Some (foldl (fun bytes chunk => bytes ++ chunk) [] txt_data)
  | OtherRecord => None
  end.

(** [String::from_utf8_lossy(&bytes).into_owned()]. *)
Definition txt_string (r : DnsRecord) : option string :=
  (fun bytes => String.string_of_list_byte (from_utf8_lossy bytes)) <$> txt_bytes r.

(** [HickoryResolver::txt]. *)
Definition hickory_txt (lookup : string -> result string (list DnsRecord)) (name : string)
    : result DnsError (list string) :=
  answers ← map_err ResolveError (lookup name);
  Ok (omap (M := list) txt_string answers).

(** [HickoryResolver::system]: the builder reads the system's configuration. *)
Definition hickory_system {B : Type} (builder_tokio : result string B)
    (build : B -> result string (string -> result string (list DnsRecord)))
    : result DnsError (string -> result DnsError (list string)) :=
  builder ← map_err ResolveError builder_tokio;
  lookup ← map_err ResolveError (build builder);
  Ok (hickory_txt lookup).

Lemma foldl_app_concat (chunks : list bytes) acc :
  foldl (fun bytes chunk => bytes ++ chunk) acc chunks = acc ++ concat chunks.
Proof.
  revert acc. induction chunks as [|c chunks IH]; intros acc; cbn; [by rewrite app_nil_r|].
  by rewrite IH, app_assoc.
Qed.

(** The text of a record: its character strings, end to end. *)
Definition text_of (r : DnsRecord) : option bytes :=
  match r with Txt txt_data => Some (concat txt_data) | OtherRecord => None end.

Lemma txt_bytes_text r : txt_bytes r = text_of r.
Proof. destruct r as [chunks|]; [|done]. cbn. by rewrite foldl_app_concat. Qed.

Lemma hickory_txt_utf8 lookup name strings :
  hickory_txt lookup name = Ok strings -> Forall (fun s => utf8 (as_bytes s)) strings.
Proof.
  unfold hickory_txt. destruct (lookup name) as [answers|]; cbn; [|done]. intros [= <-].
  apply list.Forall_forall. intros s (r & _ & Hr)%list_elem_of_omap. unfold txt_string in Hr.
  apply fmap_Some in Hr as (bytes & _ & ->). unfold as_bytes.
  rewrite String.list_byte_of_string_of_list_byte. apply from_utf8_lossy_utf8.
Qed.

(** ** Answers that carry the same text

    How the text of a record is cut into character strings, and which records of other types
    come with it, is up to the servers on the way. *)
Definition same_text (a b : result string (list DnsRecord)) : Prop :=
  match a, b with
  | Ok l, Ok l' => omap text_of l = omap text_of l'
  | Err e, Err e' => e = e'
  | _, _ => False
  end.

#[export] Instance same_text_equivalence : Equivalence same_text.
Proof.
  split.
  - by intros [].
  - by intros [] [].
  - intros [] [] [] Hab Hbc; cbn in *; congruence || done.
Qed.

Definition same_answers : relation (string -> result string (list DnsRecord)) :=
  pointwise_relation string same_text.

#[export] Instance same_answers_equivalence : Equivalence same_answers.
Proof. apply _. Qed.

Lemma omap_text (l : list DnsRecord) :
  omap txt_string l =
  (fun bytes => String.string_of_list_byte (from_utf8_lossy bytes)) <$> omap text_of l.
Proof.
  induction l as [|r l IH]; [done|]. cbn. unfold txt_string at 1. rewrite txt_bytes_text.
  destruct (text_of r); cbn; by rewrite IH.
Qed.

#[export] Instance hickory_txt_proper :
  Proper (same_answers ==> pointwise_relation string eq) hickory_txt.
Proof.
  intros f g Hfg name. unfold hickory_txt. specialize (Hfg name).
  destruct (f name), (g name); cbn in *; try done; [|congruence]. by rewrite !omap_text, Hfg.
Qed.

(** ** The enrtree resolver depends on the answers only *)

Section Resolving.
Context `{EnrCrypto, DnsCrypto} {WakuEnr : Type} `{EnrOps WakuEnr}.

Lemma visit_ext txt txt' domain hash stack (w : Walk) :
  (forall name, txt name = txt' name) ->
  visit txt domain hash stack w = visit txt' domain hash stack w.
Proof. intros Ht. unfold visit, record_at. by rewrite Ht. Qed.

Lemma walk_ext txt txt' domain budget : (forall name, txt name = txt' name) ->
  forall stack (w : Walk), walk txt domain budget stack w = walk txt' domain budget stack w.
Proof.
  intros Ht. induction budget as [|budget IH]; intros stack; induction stack as [|h stack IHs]; intros w;
    try done; cbn; case_decide; try done; try apply IHs.
  rewrite (visit_ext _ _ _ _ _ _ Ht). destruct (visit txt' _ _ _ _) as [stack' w']. apply IH.
Qed.

#[export] Instance resolve_proper :
  Proper (pointwise_relation string eq ==> eq ==> eq) (resolve (WakuEnr := WakuEnr)).
Proof.
  intros txt txt' Ht url _ <-. unfold resolve, resolve_asking.
  destruct (parse_enrtree url) as [link|]; [|done]. rewrite (Ht (domain link)).
  destruct (_ ≫= _) as [root|]; [|done]. by rewrite (walk_ext _ _ _ _ Ht).
Qed.

(** What a zone holds: the texts of the TXT records of each name. *)
Definition serves (zone : string -> result string (list bytes))
    (lookup : string -> result string (list DnsRecord)) : Prop :=
  forall name, match lookup name, zone name with
    | Ok records, Ok texts => omap text_of records = texts
    | Err e, Err e' => e = e'
    | _, _ => False
    end.

(** The zone as a resolver would have it that returned its texts as they are. *)
Definition zone_txt (zone : string -> result string (list bytes)) (name : string)
    : result DnsError (list string) :=
  texts ← map_err ResolveError (zone name);
  Ok (fmap (M := list) String.string_of_list_byte texts).

Lemma hickory_txt_zone zone lookup name :
  serves zone lookup -> (forall texts, zone name = Ok texts -> Forall utf8 texts) ->
  hickory_txt lookup name = zone_txt zone name.
Proof.
  intros Hs Hu. unfold hickory_txt, zone_txt. specialize (Hs name).
  destruct (lookup name) as [records|e], (zone name) as [texts|e'] eqn:Ez; cbn in *; try done; [|congruence].
  rewrite omap_text, Hs. f_equal. specialize (Hu texts eq_refl). clear Hs Ez.
  induction Hu as [|t texts Ht _ IH]; [done|]. cbn. by rewrite from_utf8_lossy_id, <- IH.
Qed.

(** C26. The cut of the records does not matter: whatever way a name server splits the texts
    of a zone into character strings, and whatever records of other types it sends along,
    the resolver returns every text of the zone that is UTF-8 as it is, so that the records
    found under an [enrtree] URL, and the bootstrap nodes of any list of such URLs, are
    those of the zone itself; and every string it returns is UTF-8. *)
Theorem hickory_resolves_zone (zone : string -> result string (list bytes))
    (lookup : string -> result string (list DnsRecord)) :
  serves zone lookup -> (forall name texts, zone name = Ok texts -> Forall utf8 texts) ->
  (forall name, hickory_txt lookup name = zone_txt zone name) /\
  (forall url, resolve (WakuEnr := WakuEnr) (hickory_txt lookup) url = resolve (zone_txt zone) url) /\
  (forall (B : Type) (b : B) urls,
     resolve_dns_bootstrap (WakuEnr := WakuEnr) (ok (hickory_system (Ok b) (fun _ => Ok lookup))) urls =
     resolve_dns_bootstrap (Some (zone_txt zone)) urls) /\
  (forall lookup' name strings, hickory_txt lookup' name = Ok strings ->
     Forall (fun s => utf8 (as_bytes s)) strings).
Proof.
  intros Hs Hu. assert (forall name, hickory_txt lookup name = zone_txt zone name) as Ht
    by (intros name; apply hickory_txt_zone; [done|apply Hu]).
  assert (forall url, resolve (WakuEnr := WakuEnr) (hickory_txt lookup) url = resolve (zone_txt zone) url) as Hr
    by (intros url; by apply resolve_proper).
  split_and!; [done|done| |].
  - intros B b urls. unfold resolve_dns_bootstrap. cbn [ok hickory_system]. apply list_bind_ext; [|done]. intros url. by rewrite Hr.
  - intros lookup' name strings. apply hickory_txt_utf8.
Qed.

End Resolving.

(** ** A zone whose records come in pieces *)

#[local] Existing Instances demo_crypto demo_dns demo_enr.

(** The texts of the demonstration tree, and a server that cuts each into single bytes. *)
Definition demo_zone (name : string) : result string (list bytes) :=
  match demo_txt name with Ok texts => Ok (as_bytes <$> texts) | Err _ => Err "no such name" end.

Definition demo_lookup (name : string) : result string (list DnsRecord) :=
  match demo_zone name with
  | Ok texts => Ok (OtherRecord :: ((fun text => Txt ((fun b => [b]) <$> text)) <$> texts))
  | Err e => Err e
  end.

Lemma demo_serves : serves demo_zone demo_lookup.
Proof.
  intros name. unfold demo_lookup. destruct (demo_zone name) as [texts|e]; cbn; [|done].
  induction texts as [|t texts IH]; [done|]. cbn. rewrite IH. f_equal.
  induction t as [|b t IHt]; [done|]. cbn. by f_equal.
Qed.

Lemma hickory_resolves_zone_witness :
  resolve (hickory_txt demo_lookup) "enrtree://K@n.org" = Ok [demo_leaf].
Proof.
  destruct (hickory_resolves_zone (WakuEnr := DemoEnr) demo_zone demo_lookup demo_serves) as (_ & Hr & _).
  - intros name texts. unfold demo_zone, demo_txt. repeat case_decide; intros [= <-];
      repeat constructor; apply from_utf8_lossy_check; vm_compute; reflexivity.
  - rewrite Hr. vm_compute. reflexivity.
Defined.
