(* ===== verification/Cache.v ===== *)
(** * Cache: the data of [waku-rest/src/lib.rs]

    The message cache that REST clients poll, the message as JSON carries it, and the
    parameters and answers of the endpoints.  JSON itself is read and written by [serde]
    from the derives of these types.

    Every operation on the cache holds its mutex from start to end and none of them panics
    with it, so the cache is the map, and concurrent operations happen in some order. *)

From Stdlib Require Import Strings.Byte Strings.Ascii.
From stdpp Require Import base gmap strings list numbers.
From S2P Require Import Prelude Bytes Text Core Net Store.

Open Scope Z_scope.

Definition DEFAULT_REST_PORT : Z := 8645.
Definition CACHE_PER_TOPIC : nat := 100.

(** ** [MessageCache] *)

Module MessageCache.

Abbreviation t := (gmap string (list WakuMessage)).

Definition new : t := ∅.

(** [register]: [entry(..).or_default()]. *)
Definition register (topic : string) (c : t) : t :=
  match c !! topic with Some _ => c | None => <[topic := []]> c end.

(** [record]. *)
Definition record (msg : WakuMessage) (c : t) : t :=
  match c !! content_topic msg with
  | Some queue =>
      let queue := if decide (CACHE_PER_TOPIC <= length queue)%nat then tail queue else queue in
      <[content_topic msg := queue ++ [msg]]> c
  | None => c
  end.

(** [drain]. *)
Definition drain (topic : string) (c : t) : list WakuMessage * t :=
  match c !! topic with
  | Some queue => (queue, <[topic := []]> c)
  | None => ([], c)
  end.

(** ** The cache and its reference *)

Inductive op : Type :=
  | Register (topic : string)
  | Receive (msg : WakuMessage)
  | Drain (topic : string).

Definition step (c : t) (o : op) : t :=
  match o with
  | Register topic => register topic c
  | Receive msg => record msg c
  | Drain topic => (drain topic c).2
  end.
Definition after (ops : list op) : t := foldl step new ops.

(** The reference keeps, for one topic, every message since the last poll, and nothing
    before the topic is registered. *)
Definition unread (topic : string) (ops : list op) : option (list WakuMessage) :=
  foldl (fun acc o =>
    match o, acc with
    | Register t, None => if decide (t = topic) then Some [] else None
    | Receive m, Some l => if decide (content_topic m = topic) then Some (l ++ [m]) else acc
    | Drain t, Some l => if decide (t = topic) then Some [] else acc
    | _, _ => acc
    end) None ops.

(** The newest [n] elements. *)
Definition newest {A} (n : nat) (l : list A) : list A := drop (length l - n) l.

Lemma newest_all {A} n (l : list A) : (length l <= n)%nat -> newest n l = l.
Proof. intros Hl. unfold newest. by replace (length l - n)%nat with 0%nat by lia. Qed.

Lemma length_newest {A} n (l : list A) : length (newest n l) = Nat.min n (length l).
Proof. unfold newest. rewrite length_drop. lia. Qed.

(** A full queue loses its front, exactly what the reference cuts. *)
Lemma newest_snoc {A} n (l : list A) x :
  (0 < n)%nat ->
  (if decide (n <= length (newest n l))%nat then tail (newest n l) else newest n l) ++ [x] =
  newest n (l ++ [x]).
Proof.
  intros Hn. rewrite length_newest. case_decide as Hd; unfold newest; rewrite length_app; cbn.
  - rewrite drop_app_le by lia. f_equal.
    transitivity (drop 1 (drop (length l - n) l)); [by destruct (drop _ l)|].
    rewrite drop_drop. f_equal. lia.
  - replace (length l - n)%nat with 0%nat by lia.
    by replace (length l + 1 - n)%nat with 0%nat by lia.
Qed.

Lemma lookup_register topic c ct :
  register topic c !! ct =
  match c !! ct with
  | Some l => Some l
  | None => if decide (topic = ct) then Some [] else None
  end.
Proof.
  unfold register. destruct (decide (topic = ct)) as [<-|Hn].
  - destruct (c !! topic) eqn:E; [by rewrite E|by rewrite lookup_insert_eq].
  - destruct (c !! topic); [by destruct (c !! ct)|]. rewrite lookup_insert_ne by done.
    by destruct (c !! ct).
Qed.

Lemma lookup_record msg c ct :
  record msg c !! ct =
  (fun l => if decide (content_topic msg = ct)
            then (if decide (CACHE_PER_TOPIC <= length l)%nat then tail l else l) ++ [msg]
            else l) <$> c !! ct.
Proof.
  unfold record. destruct (decide (content_topic msg = ct)) as [<-|Hn].
  - destruct (c !! content_topic msg) eqn:E; [by rewrite lookup_insert_eq|by rewrite E].
  - destruct (c !! content_topic msg); [rewrite lookup_insert_ne by done|];
      by destruct (c !! ct).
Qed.

Lemma lookup_drain topic c ct :
  (drain topic c).2 !! ct = (fun l => if decide (topic = ct) then [] else l) <$> c !! ct.
Proof.
  unfold drain. destruct (decide (topic = ct)) as [<-|Hn].
  - destruct (c !! topic) eqn:E; [by cbn; rewrite lookup_insert_eq|by cbn; rewrite E].
  - destruct (c !! topic); [cbn; rewrite lookup_insert_ne by done|cbn]; by destruct (c !! ct).
Qed.

(** The bounded queues hold the newest unread messages. *)
Lemma lookup_after ops topic : after ops !! topic = newest CACHE_PER_TOPIC <$> unread topic ops.
Proof.
  induction ops as [|[t|m|t] ops IH] using rev_ind; [done|..];
    unfold after, unread in *; rewrite !foldl_app; cbn [foldl step].
  - rewrite lookup_register, IH. destruct (foldl _ None ops); [done|]. cbn. by case_decide.
  - rewrite lookup_record, IH. destruct (foldl _ None ops) as [l|]; [cbn|done].
    case_decide; [|done]. cbn. rewrite newest_snoc; [done|unfold CACHE_PER_TOPIC; lia].
  - rewrite lookup_drain, IH. destruct (foldl _ None ops) as [l|]; [cbn|done]. by case_decide.
Qed.

(** The messages received, whatever their topic: the unread ones of a topic are the latest
    of them on it. *)
Definition received (ops : list op) : list WakuMessage :=
  omap (fun o => match o with Receive m => Some m | _ => None end) ops.

Lemma newest_suffix {A} n (l : list A) : newest n l `suffix_of` l.
Proof. apply suffix_drop. Qed.

Lemma unread_suffix topic ops l :
  unread topic ops = Some l ->
  l `suffix_of` filter (fun m => content_topic m = topic) (received ops).
Proof.
  revert l. induction ops as [|o ops IH] using rev_ind; intros l; [done|].
  unfold unread, received in *. rewrite foldl_app, omap_app, list.filter_app. cbn [foldl].
  set (acc := foldl _ None ops) in *.
  destruct o as [t|m|t], acc as [l'|]; cbn [omap list_omap]; try done;
    rewrite ?filter_nil, ?app_nil_r.
  - intros [= <-]. by apply IH.
  - case_decide; [|done]. intros [= <-]. apply suffix_nil.
  - rewrite filter_cons, filter_nil. case_decide; intros [= <-].
    + by apply suffix_app, IH.
    + rewrite app_nil_r. by apply IH.
  - case_decide; intros [= <-]; [apply suffix_nil|by apply IH].
Qed.

(** C14. The cache with its bounded queues is equivalent to one that keeps everything: after
    any interleaving of registrations, received messages and polls, a poll returns the
    newest hundred of the messages received on its topic since the previous poll, oldest
    first, nothing for a topic that was never registered, and all of them if they are at
    most a hundred; no queue is ever longer. *)
Theorem poll_returns_newest_unread (ops : list op) (topic : string) :
  let l := default [] (unread topic ops) in
  (drain topic (after ops)).1 = newest 100 l /\
  ((length l <= 100)%nat -> (drain topic (after ops)).1 = l) /\
  unread topic (ops ++ [Drain topic]) = (fun _ => []) <$> unread topic ops /\
  forall t queue, after ops !! t = Some queue -> (length queue <= 100)%nat.
Proof.
  intros l.
  assert ((drain topic (after ops)).1 = newest 100 l) as E.
  { unfold drain, l. rewrite lookup_after. by destruct (unread topic ops). }
  split; [done|]. split; [intros Hl; by rewrite E, newest_all|]. split.
  - unfold unread. rewrite foldl_app. cbn. destruct (foldl _ None ops); [by rewrite decide_True|done].
  - intros t queue. rewrite lookup_after. destruct (unread t ops); cbn; [|done].
    intros [= <-]. rewrite length_newest. unfold CACHE_PER_TOPIC. lia.
Qed.

End MessageCache.

(** ** Messages as JSON carries them *)

(** The [hex] crate and the standard alphabet of the [base64] crate. *)
Class RestEncodings := {
  HEX : TextEncoding;
  B64 : TextEncoding;
}.

Module RestWakuMessage.

Record t : Type := mk {
  payload : string;                (* base64 *)
  content_topic : string;
  version : option Z;              (* u32 *)
  timestamp : option Z;            (* i64 *)
  meta : option string;            (* base64 *)
  ephemeral : option bool;
}.

Section Conversions.
Context `{RestEncodings}.

(** [into_message]. *)
Definition into_message (m : t) (topic : string) : result string WakuMessage :=
  payload ← map_err (fun e => "bad payload base64: " +:+ e)
    (@text_decode B64 (as_bytes (payload m)));
  meta ← match meta m with
         | Some s =>
             Some <$> map_err (fun e => "bad meta base64: " +:+ e) (@text_decode B64 (as_bytes s))
         | None => Ok None
         end;
  Ok {| Core.payload := payload;
        Core.content_topic := topic;
        Core.version := version m;
        Core.timestamp := timestamp m;
        Core.meta := meta;
        Core.rate_limit_proof := None;
        Core.ephemeral := ephemeral m |}.

(** [from_message]. *)
Definition from_message (msg : WakuMessage) : t := {|
  payload := @text_encode B64 (Core.payload msg);
  content_topic := Core.content_topic msg;
  version := Core.version msg;
  timestamp := Core.timestamp msg;
  meta := @text_encode B64 <$> Core.meta msg;
  ephemeral := Core.ephemeral msg;
|}.

(** A message without its RLN proof, which JSON does not carry. *)
Definition without_proof (msg : WakuMessage) : WakuMessage := {|
  Core.payload := Core.payload msg;
  Core.content_topic := Core.content_topic msg;
  Core.version := Core.version msg;
  Core.timestamp := Core.timestamp msg;
  Core.meta := Core.meta msg;
  Core.rate_limit_proof := None;
  Core.ephemeral := Core.ephemeral msg;
|}.

Lemma hash_without_proof `{Sha256} topic msg :
  deterministic_hash topic (without_proof msg) = deterministic_hash topic msg.
Proof. done. Qed.

Lemma into_from_message msg :
  into_message (from_message msg) (Core.content_topic msg) = Ok (without_proof msg).
Proof.
  destruct msg as [p ct v ts me rl ep]. unfold into_message, from_message, without_proof. cbn.
  rewrite (@text_decode_encode B64). cbn.
  destruct me as [b|]; cbn; [by rewrite (@text_decode_encode B64)|done].
Qed.

End Conversions.
End RestWakuMessage.

(** ** The other types of the endpoints *)

Record LightpushBody : Type := mkLightpushBody {
  lb_pubsub_topic : option string;
  lb_message : RestWakuMessage.t;
}.

Record InfoResponse : Type := mkInfoResponse {
  listen_addresses : list string;
  enr_uri : option string;
  peer_id : string;
}.

Record StoreMessage : Type := mkStoreMessage {
  sm_message_hash : string;
  sm_message : option RestWakuMessage.t;
  sm_pubsub_topic : string;
}.

Record StoreResponse : Type := mkStoreResponse {
  sr_messages : list StoreMessage;
  sr_pagination_cursor : option string;
}.

Record StoreParams : Type := mkStoreParams {
  sp_pubsub_topic : option string;
  sp_content_topics : option string;     (* comma-separated *)
  sp_start_time : option Z;              (* i64 *)
  sp_end_time : option Z;                (* i64 *)
  sp_page_size : option Z;               (* u64 *)
  sp_ascending : option bool;
  sp_cursor : option string;             (* hexadecimal *)
  sp_include_data : option bool;
}.

Record AdminPeer : Type := mkAdminPeer {
  ap_peer_id : string;
  ap_connected : bool;
}.

Section Cursor.
Context `{RestEncodings}.

(** [parse_hash]. *)
Definition parse_hash (hex_str : string) : result string bytes :=
  b ← map_err (fun e => "bad hex cursor: " +:+ e) (@text_decode HEX (as_bytes hex_str));
  if decide (length b = 32%nat) then Ok b else Err "cursor must be 32 bytes".

Lemma parse_hash_encode h :
  parse_hash (@text_encode HEX h) =
  if decide (length h = 32%nat) then Ok h else Err "cursor must be 32 bytes".
Proof. unfold parse_hash. by rewrite (@text_decode_encode HEX). Qed.

(** The query of the parameters, and the JSON of a stored message. *)
Definition params_to_query (params : StoreParams) (cursor : option bytes) : StoreQuery.t := {|
  StoreQuery.pubsub_topic := sp_pubsub_topic params;
  StoreQuery.content_topics :=
    default [] ((fun c => trim <$> split_on ","%char c) <$> sp_content_topics params);
  StoreQuery.time_start_ns := sp_start_time params;
  StoreQuery.time_end_ns := sp_end_time params;
  StoreQuery.message_hashes := [];
  StoreQuery.include_data := default true (sp_include_data params);
  StoreQuery.page_size := default 20 (sp_page_size params);
  StoreQuery.forward := default true (sp_ascending params);
  StoreQuery.cursor := cursor;
|}.

Definition store_message_of (m : StoredMessage) : StoreMessage := {|
  sm_message_hash := @text_encode HEX (stored_hash m);
  sm_message := RestWakuMessage.from_message <$> stored_message m;
  sm_pubsub_topic := stored_pubsub_topic m;
|}.

End Cursor.
