(* ===== verification/Rest.v ===== *)
(** * Rest: the endpoints of [waku-rest/src/lib.rs]

    A handler is a function on the server: the constants of [AppState], the message cache,
    and the node behind the handle.  [axum] has matched the route and read the path, the
    query string and the JSON body: a request is one of [Request].  An answer is its status
    and what [serde] serialises.

    A handler that sends a command is given its reply channel and the inputs the driver
    handles meanwhile. *)

From Stdlib Require Import Strings.Byte Strings.Ascii.
From stdpp Require Import base gmap strings list numbers sorting.
From S2P Require Import Prelude Bytes Text Float64 Core Framing Wire Net Discv5 Relay Store Faults StoreServe Services Ratelimit Node NodeFacts Handle Cache.

Open Scope Z_scope.

(** ** Requests and answers *)

Inductive Request : Type :=
  | GetVersion
  | GetInfo
  | GetHealth
  | PostSubscriptions (content_topics : list string)
  | PostRelayMessage (content_topic : string) (body : RestWakuMessage.t)
  | GetRelayMessages (content_topic : string)
  | PostLightpush (body : LightpushBody)
  | GetStoreMessages (params : StoreParams)
  | GetPeers
  | GetMetrics.

(** The method and path of the route of a request. *)
Definition route (r : Request) : string * string :=
  match r with
  | GetVersion => ("GET", "/debug/v1/version")
  | GetInfo => ("GET", "/debug/v1/info")
  | GetHealth => ("GET", "/health")
  | PostSubscriptions _ => ("POST", "/relay/v1/auto/subscriptions")
  | PostRelayMessage _ _ => ("POST", "/relay/v1/auto/messages/{content_topic}")
  | GetRelayMessages _ => ("GET", "/relay/v1/auto/messages/{content_topic}")
  | PostLightpush _ => ("POST", "/lightpush/v1/message")
  | GetStoreMessages _ => ("GET", "/store/v3/messages")
  | GetPeers => ("GET", "/admin/v1/peers")
  | GetMetrics => ("GET", "/metrics")
  end.

Inductive Body : Type :=
  | EmptyBody
  | TextBody (s : string)
  | HealthBody (node_health : string) (connected_peers : Z)
  | InfoBody (info : InfoResponse)
  | MessagesBody (messages : list RestWakuMessage.t)
  | StoreBody (response : StoreResponse)
  | PeersBody (peers : list AdminPeer).

Record Response : Type := mkResponse { status : Z; body : Body }.

Definition OK : Z := 200.
Definition BAD_REQUEST : Z := 400.
Definition INTERNAL_SERVER_ERROR : Z := 500.
Definition SERVICE_UNAVAILABLE : Z := 503.

Definition text (status : Z) (s : string) : Response := mkResponse status (TextBody s).
Definition json (b : Body) : Response := mkResponse OK b.

(** What a handler has come to. *)
Inductive HandlerResult : Type :=
  | Responds (r : Response)
  | StillWaiting
  | Panics.

(** A metric handed to the [prometheus] encoder: name, help and value. *)
Record Metric : Type := mkMetric { metric_name : string; metric_help : string; metric_value : f64 }.

(** What comes from libraries as text: [Debug] of a string, a multiaddr, a peer id, and the
    exposition format of metrics. *)
Class RestText := {
  debug_str : string -> string;
  multiaddr_to_string : Multiaddr -> string;
  peer_id_to_string : PeerId -> string;
  encode_metrics : list Metric -> string;
}.

(** The store of an [AppState]: the node's own, or another one. *)
Inductive StoreRef (St : Type) : Type := NodeStore | OtherStore (st : St).
Arguments NodeStore {_}.
Arguments OtherStore {_} _.

Section Rest.
Context {SW St WakuEnr : Type} `{Swarm SW, MessageStore St, EnrOps WakuEnr}.
Context `{EnrCrypto, Sha256, BuildProfile, Prost WakuMessage, RestEncodings, RestText}.
Variable params : NodeParams.

Abbreviation state := (NodeState SW St WakuEnr).
Abbreviation World := (@World SW St WakuEnr).

(** ** The server *)

(** [AppState], with the node behind its handle. *)
Record AppState : Type := mkAppState {
  app_peer_id : PeerId;
  app_discv5_enr : option WakuEnr;
  app_node : World;
  app_store : option (StoreRef St);
  app_preset : NetworkPreset.t;
  app_version : string;
  app_cache : MessageCache.t;
}.

(** [AppState::new]; [pkg_version] is [CARGO_PKG_VERSION]. *)
Definition app_state_new (pkg_version : string) (peer_id : PeerId) (enr : option WakuEnr)
    (node : World) (store : option (StoreRef St)) : AppState :=
  mkAppState peer_id enr node store TWN pkg_version MessageCache.new.

Definition set_node (w : World) (s : AppState) : AppState :=
  mkAppState (app_peer_id s) (app_discv5_enr s) w (app_store s) (app_preset s) (app_version s)
    (app_cache s).
Definition set_cache (c : MessageCache.t) (s : AppState) : AppState :=
  mkAppState (app_peer_id s) (app_discv5_enr s) (app_node s) (app_store s) (app_preset s)
    (app_version s) c.

(** The backend behind [AppState::store], and its state after a call. *)
Definition the_store (s : AppState) : option St :=
  match app_store s with
  | None => None
  | Some NodeStore => store (w_node (app_node s))
  | Some (OtherStore st) => Some st
  end.
Definition put_back (st : St) (s : AppState) : AppState :=
  match app_store s with
  | None => s
  | Some NodeStore =>
      set_node (mkWorld (Node.set_store (Some st) (w_node (app_node s))) (w_running (app_node s))) s
  | Some (OtherStore _) =>
      mkAppState (app_peer_id s) (app_discv5_enr s) (app_node s) (Some (OtherStore st))
        (app_preset s) (app_version s) (app_cache s)
  end.

(** [s.node.connected_peers()] and [s.node.listen_addresses()]. *)
Definition node_peers (s : AppState) : list PeerId := connected_peers (w_node (app_node s)).
Definition node_addresses (s : AppState) : list Multiaddr :=
  Handle.listen_addresses (app_peer_id s) (w_node (app_node s)).

(** ** The handlers *)

Definition version (s : AppState) : Response := text OK (app_version s).

Definition health (s : AppState) : Response :=
  json (HealthBody "Ready" (Z.of_nat (length (node_peers s)))).

Definition info (s : AppState) : Response :=
  json (InfoBody (mkInfoResponse (multiaddr_to_string <$> node_addresses s)
    (to_base64 <$> app_discv5_enr s) (peer_id_to_string (app_peer_id s)))).

(** [s.node.publish(shard, message).await] and the answer made of it. *)
Definition publish_and_answer (shard : ShardId.t) (message : WakuMessage) (reply : Z)
    (later : list Input) (s : AppState) : HandlerResult * AppState :=
  let res :=
    match publish params shard message reply later (driver_of (app_node s)) with
    | Done (Ok hash) => Responds (text OK (@text_encode HEX hash))
    | Done (Err e) => Responds (text SERVICE_UNAVAILABLE (node_error_to_string e))
    | Waiting => StillWaiting
    end in
  (res, set_node (advance params (InCommand (Some (CmdPublish shard message reply)) :: later)
    (app_node s)) s).

Definition core_error_answer (e : CoreError) : HandlerResult :=
  Responds (text BAD_REQUEST (core_error_to_string debug_str e)).

Definition relay_publish (content_topic : string) (body : RestWakuMessage.t) (reply : Z)
    (later : list Input) (s : AppState) : HandlerResult * AppState :=
  match ContentTopic.parse content_topic with
  | Err e => (core_error_answer e, s)
  | Ok ct =>
      match RestWakuMessage.into_message body content_topic with
      | Err e => (Responds (text BAD_REQUEST e), s)
      | Ok message =>
          match autoshard (NetworkPreset.cluster_id (app_preset s)) ct
                  (NetworkPreset.shard_count (app_preset s)) with
          | Some shard => publish_and_answer shard message reply later s
          | None => (Panics, s)
          end
      end
  end.

(** The loop of [relay_subscribe].  The n-th turn uses the n-th reply channel from [reply]
    on; [before] lists what the driver handles before each command reaches it. *)
Fixpoint relay_subscribe (content_topics : list string) (reply : Z) (before : list (list Input))
    (s : AppState) : HandlerResult * AppState :=
  match content_topics with
  | [] => (Responds (mkResponse OK EmptyBody), s)
  | ct_str :: content_topics =>
      match ContentTopic.parse ct_str with
      | Err e => (core_error_answer e, s)
      | Ok ct =>
          match autoshard (NetworkPreset.cluster_id (app_preset s)) ct
                  (NetworkPreset.shard_count (app_preset s)) with
          | None => (Panics, s)
          | Some shard =>
              let w := advance params (default [] (head before)) (app_node s) in
              let s' := set_node (step_world params w
                (InCommand (Some (CmdSubscribe shard reply)))) s in
              match subscribe params shard reply [] (driver_of w) with
              | Done (Ok _) =>
                  relay_subscribe content_topics (reply + 1) (tail before)
                    (set_cache (MessageCache.register ct_str (app_cache s')) s')
              | Done (Err e) =>
                  (Responds (text SERVICE_UNAVAILABLE (node_error_to_string e)), s')
              | Waiting => (StillWaiting, s')
              end
          end
      end
  end.

(** A request for several topics is as many requests for one: other clients and the event
    loop may come between its turns. *)
Lemma relay_subscribe_cons ct content_topics reply before s :
  relay_subscribe (ct :: content_topics) reply before s =
  match relay_subscribe [ct] reply before s with
  | (Responds (mkResponse 200 EmptyBody), s') =>
      relay_subscribe content_topics (reply + 1) (tail before) s'
  | r => r
  end.
Proof.
  cbn [relay_subscribe]. destruct (ContentTopic.parse ct); [|done].
  destruct (autoshard _ _ _); [|done]. by destruct (subscribe _ _ _ _ _) as [[[]|]|].
Qed.

Definition relay_messages (content_topic : string) (s : AppState) : Response * AppState :=
  let '(msgs, cache) := MessageCache.drain content_topic (app_cache s) in
  (json (MessagesBody (RestWakuMessage.from_message <$> msgs)), set_cache cache s).

Definition lightpush (req : LightpushBody) (reply : Z) (later : list Input) (s : AppState)
    : HandlerResult * AppState :=
  let content_topic := RestWakuMessage.content_topic (lb_message req) in
  let shard :=
    match lb_pubsub_topic req with
    | Some topic => Some <$> ShardId.parse topic
    | None =>
        ct ← ContentTopic.parse content_topic;
        Ok (autoshard (NetworkPreset.cluster_id (app_preset s)) ct
              (NetworkPreset.shard_count (app_preset s)))
    end in
  match shard with
  | Err e => (core_error_answer e, s)
  | Ok None => (Panics, s)
  | Ok (Some shard) =>
      match RestWakuMessage.into_message (lb_message req) content_topic with
      | Err e => (Responds (text BAD_REQUEST e), s)
      | Ok message => publish_and_answer shard message reply later s
      end
  end.

Definition store_query (p : StoreParams) (s : AppState) : HandlerResult * AppState :=
  match the_store s with
  | None => (Responds (text SERVICE_UNAVAILABLE "store not enabled"), s)
  | Some st =>
      match (match sp_cursor p with Some c => Some <$> parse_hash c | None => Ok None end) with
      | Err e => (Responds (text BAD_REQUEST e), s)
      | Ok cursor =>
          match ms_query (params_to_query p cursor) st with
          | None => (Panics, s)
          | Some (Ok res, st) =>
              (Responds (json (StoreBody (mkStoreResponse (store_message_of <$> messages res)
                 (@text_encode HEX <$> next_cursor res)))), put_back st s)
          | Some (Err e, st) =>
              (Responds (text INTERNAL_SERVER_ERROR (store_error_to_string e)), put_back st s)
          end
      end
  end.

Definition admin_peers (s : AppState) : Response :=
  json (PeersBody ((fun p => mkAdminPeer (peer_id_to_string p) true) <$> node_peers s)).

(** [metrics]; the registry keeps the metrics in the order of their names, which the
    encoder is free to choose here. *)
Definition metrics (s : AppState) : HandlerResult * AppState :=
  let peers := mkMetric "rs_waku_connected_peers" "Currently connected peers"
    (f64_of_Z (Z.of_nat (length (node_peers s)))) in
  let stored : option (list Metric * AppState) :=
    match the_store s with
    | None => Some ([], s)
    | Some st =>
        '(count, st) ← ms_message_count st;
        Some ([mkMetric "rs_waku_stored_messages" "Messages in the store"
                 (f64_of_Z (default 0 (ok count)))], put_back st s)
    end in
  let snap := MetricsOps.snapshot (Node.metrics (w_node (app_node s))) in
  let counters := [
    mkMetric "rs_waku_relay_messages_total" "Relay messages accepted"
      (f64_of_Z (Services.relay_messages snap));
    mkMetric "rs_waku_store_queries_total" "Store queries served"
      (f64_of_Z (Services.store_queries snap));
    mkMetric "rs_waku_lightpush_requests_total" "Lightpush requests served"
      (f64_of_Z (Services.lightpush_requests snap));
    mkMetric "rs_waku_filter_pushes_total" "Filter pushes sent"
      (f64_of_Z (Services.filter_pushes snap));
    mkMetric "rs_waku_rate_limited_total" "Requests rejected by rate limiting"
      (f64_of_Z (Services.rate_limited snap))] in
  match stored with
  | None => (Panics, s)
  | Some (stored, s) => (Responds (text OK (encode_metrics (peers :: stored ++ counters))), s)
  end.

(** [router]: the handler of a request. *)
Definition router (r : Request) (reply : Z) (env : list (list Input)) (s : AppState)
    : HandlerResult * AppState :=
  match r with
  | GetVersion => (Responds (version s), s)
  | GetInfo => (Responds (info s), s)
  | GetHealth => (Responds (health s), s)
  | PostSubscriptions topics => relay_subscribe topics reply env s
  | PostRelayMessage topic body => relay_publish topic body reply (default [] (head env)) s
  | GetRelayMessages topic =>
      let '(r, s) := relay_messages topic s in (Responds r, s)
  | PostLightpush body => lightpush body reply (default [] (head env)) s
  | GetStoreMessages p => store_query p s
  | GetPeers => (Responds (admin_peers s), s)
  | GetMetrics => metrics s
  end.

(** ** Publishing *)

Lemma publish_and_answer_done shard m reply later s :
  publish_returns_id -> w_running (app_node s) = true ->
  (reply ∉ (replies (w_node (app_node s))).*1) ->
  (publish_and_answer shard m reply later s).1 =
  Responds match (Node.relay_publish (ShardId.pubsub_topic shard) (encode_to_vec m)
                   (swarm (w_node (app_node s)))).1 with
           | Ok _ => text 200 (@text_encode HEX (deterministic_hash (ShardId.pubsub_topic shard) m))
           | Err e => text 503 ("command failed: " +:+ e)
           end.
Proof.
  intros Hpub Hrun Hreply. unfold publish_and_answer, driver_of. rewrite Hrun. cbn [fst].
  rewrite publish_through_handle by done. by destruct (Node.relay_publish _ _ _).1.
Qed.

Lemma autoshard_some ct cluster count : count <> 0 -> is_Some (autoshard cluster ct count).
Proof. intros Hn. unfold autoshard. by rewrite decide_False by done. Qed.

(** C29. The answer to a published message on every branch: 400 with the reason when the
    topic or the base64 is malformed, otherwise 200 with the hexadecimal RFC-14 hash of
    the message on its autosharded topic once gossipsub takes it, and 503 with its error;
    and a message given in the JSON the API itself produces is published under the hash
    it had. *)
Theorem rest_publish_answers (topic : string) (b : RestWakuMessage.t) (reply : Z)
    (env : list (list Input)) (s : AppState) :
  publish_returns_id -> w_running (app_node s) = true ->
  (reply ∉ (replies (w_node (app_node s))).*1) ->
  NetworkPreset.shard_count (app_preset s) <> 0 ->
  let answer := (router (PostRelayMessage topic b) reply env s).1 in
  (forall e, ContentTopic.parse topic = Err e ->
     answer = Responds (text 400 (core_error_to_string debug_str (InvalidContentTopic topic)))) /\
  (forall ct e, ContentTopic.parse topic = Ok ct ->
     RestWakuMessage.into_message b topic = Err e -> answer = Responds (text 400 e)) /\
  (forall ct m, ContentTopic.parse topic = Ok ct -> RestWakuMessage.into_message b topic = Ok m ->
     exists shard,
       autoshard (NetworkPreset.cluster_id (app_preset s)) ct
         (NetworkPreset.shard_count (app_preset s)) = Some shard /\
       (forall m', b = RestWakuMessage.from_message m' -> topic = content_topic m' ->
          deterministic_hash (ShardId.pubsub_topic shard) m =
          deterministic_hash (ShardId.pubsub_topic shard) m') /\
       answer = Responds
         match (Node.relay_publish (ShardId.pubsub_topic shard) (encode_to_vec m)
                  (swarm (w_node (app_node s)))).1 with
         | Ok _ =>
             text 200 (@text_encode HEX (deterministic_hash (ShardId.pubsub_topic shard) m))
         | Err e => text 503 ("command failed: " +:+ e)
         end).
Proof.
  intros Hpub Hrun Hreply Hn answer. unfold answer. cbn [router]. unfold relay_publish.
  split; [|split].
  - intros e E. rewrite E. by rewrite (ContentTopic.parse_error _ _ E).
  - intros ct e -> ->. done.
  - intros ct m -> Em. rewrite Em.
    destruct (autoshard_some ct (NetworkPreset.cluster_id (app_preset s)) _ Hn) as [shard E].
    exists shard. rewrite E. split; [done|]. split; [|by apply publish_and_answer_done].
    intros m' -> ->. rewrite RestWakuMessage.into_from_message in Em. injection Em as <-.
    apply RestWakuMessage.hash_without_proof.
Qed.

(** The light-push endpoint without a topic is the publish endpoint of the content topic
    of its message, and with a shard topic it publishes on that shard, whatever the content
    topic is. *)
Theorem rest_lightpush_is_publish (b : RestWakuMessage.t) (reply : Z) (env : list (list Input))
    (s : AppState) :
  NetworkPreset.shard_count (app_preset s) <> 0 ->
  router (PostLightpush (mkLightpushBody None b)) reply env s =
    router (PostRelayMessage (RestWakuMessage.content_topic b) b) reply env s /\
  forall shard m, ShardId.wf shard ->
    RestWakuMessage.into_message b (RestWakuMessage.content_topic b) = Ok m ->
    router (PostLightpush (mkLightpushBody (Some (ShardId.pubsub_topic shard)) b)) reply env s =
    publish_and_answer shard m reply (default [] (head env)) s.
Proof.
  intros Hn. cbn [router]. unfold lightpush, relay_publish. cbn [lb_message lb_pubsub_topic]. split.
  - destruct (ContentTopic.parse _) as [ct|e]; cbn; [|done].
    destruct (autoshard_some ct (NetworkPreset.cluster_id (app_preset s)) _ Hn) as [shard ->].
    by destruct (RestWakuMessage.into_message _ _).
  - intros shard m Hwf Hm. rewrite ShardId.parse_pubsub_topic by done. cbn. by rewrite Hm.
Qed.

(** The endpoints that report on the node change neither it nor the cache. *)
Theorem reports_read_only (r : Request) (reply : Z) (env : list (list Input)) (s : AppState) :
  r ∈ [GetVersion; GetInfo; GetHealth; GetPeers] ->
  exists resp, router r reply env s = (Responds resp, s) /\ status resp = 200.
Proof.
  rewrite !elem_of_cons, elem_of_nil. intros [->|[->|[->|[->|[]]]]]; cbn [router]; eexists; by split.
Qed.

(** ** Subscribing *)

(** Whether an answer is the success of [relay_subscribe]. *)
Definition succeeded (r : HandlerResult) : bool :=
  match r with Responds r => bool_decide (status r = 200) | _ => false end.

(** A subscription request is carried out topic by topic: whatever the driver does
    meanwhile, the topics that are cached afterwards are those that were, and a prefix of
    the request, all of it exactly when the answer is 200; every topic of the prefix is a
    valid content topic, and no other part of the server but the node changes. *)
Theorem subscribe_registers_prefix (topics : list string) (reply : Z)
    (before : list (list Input)) (s : AppState) :
  let '(answer, s') := router (PostSubscriptions topics) reply before s in
  exists taken rest, topics = taken ++ rest /\
    (succeeded answer = true <-> rest = []) /\
    app_cache s' = foldl (fun c t => MessageCache.register t c) (app_cache s) taken /\
    Forall (fun t => exists ct, ContentTopic.parse t = Ok ct) taken /\
    app_store s' = app_store s /\ app_preset s' = app_preset s.
Proof.
  cbn [router]. revert reply before s. induction topics as [|t topics IH]; intros reply before s.
  { exists [], []. cbn. repeat split; constructor. }
  cbn [relay_subscribe].
  assert (forall answer s', succeeded answer = false -> app_cache s' = app_cache s ->
    app_store s' = app_store s -> app_preset s' = app_preset s ->
    exists taken rest, t :: topics = taken ++ rest /\
      (succeeded answer = true <-> rest = []) /\
      app_cache s' = foldl (fun c t => MessageCache.register t c) (app_cache s) taken /\
      Forall (fun t => exists ct, ContentTopic.parse t = Ok ct) taken /\
      app_store s' = app_store s /\ app_preset s' = app_preset s) as Hstop.
  { intros answer s' Ha Hc Hst Hp. exists [], (t :: topics). rewrite Ha. by repeat split. }
  destruct (ContentTopic.parse t) as [ct|e] eqn:Ep; [|by apply Hstop].
  destruct (autoshard _ ct _) as [shard|]; [|by apply Hstop].
  destruct (subscribe _ _ _ _ _) as [[[]|e]|]; [|by apply Hstop..].
  match goal with |- context [relay_subscribe topics ?r ?b ?s1] =>
    specialize (IH r b s1); destruct (relay_subscribe topics r b s1) as [answer s'] end.
  destruct IH as (taken & rest & -> & Hs & Hc & Hf & Hst & Hp).
  exists (t :: taken), rest. split; [done|]. split; [done|]. split; [done|].
  split; [constructor; eauto|done].
Qed.

End Rest.

(** ** Paging *)

Section Paging.
Context {SW WakuEnr : Type} `{Swarm SW, EnrOps WakuEnr}.
Context `{EnrCrypto, Sha256, BuildProfile, Prost WakuMessage, RestEncodings, RestText}.
Variable params : NodeParams.

Abbreviation AppState := (@AppState SW SqliteStore WakuEnr).

(** The same request with the cursor of an answer. *)
Definition with_cursor (p : StoreParams) (c : string) : StoreParams :=
  mkStoreParams (sp_pubsub_topic p) (sp_content_topics p) (sp_start_time p) (sp_end_time p)
    (sp_page_size p) (sp_ascending p) (Some c) (sp_include_data p).

(** A client that follows the cursors of the answers and asks again when the server had an
    error, with at most [fuel] requests. *)
Fixpoint rest_fetch (fuel : nat) (p : StoreParams) (s : AppState)
    : option (list StoreMessage * AppState) :=
  match fuel with
  | O => None
  | S fuel =>
      match router params (GetStoreMessages p) 0 [] s with
      | (Responds (mkResponse 200 (StoreBody r)), s) =>
          match sr_pagination_cursor r with
          | None => Some (sr_messages r, s)
          | Some c =>
              '(more, s) ← rest_fetch fuel (with_cursor p c) s;
              Some (sr_messages r ++ more, s)
          end
      | (Responds (mkResponse 500 _), s) => rest_fetch fuel p s
      | _ => None
      end
  end.

Lemma put_back_same (s : AppState) d : the_store s = Some d -> put_back d s = s.
Proof.
  unfold the_store, put_back. destruct s as [p e [n b] [[|st]|] pr v c]; cbn; [|by intros [= ->]|done].
  destruct n. cbn. by intros ->.
Qed.

Lemma the_store_put_back (s : AppState) d d' : the_store s = Some d -> the_store (put_back d' s) = Some d'.
Proof. unfold the_store, put_back. destruct s as [p e [n b] [[|st]|] pr v c]; done. Qed.

Lemma put_back_twice (s : AppState) d d' : put_back d' (put_back d s) = put_back d' s.
Proof. unfold put_back. destruct s as [p e [n b] [[|st]|] pr v c]; done. Qed.

(** The cursor a request carries. *)
Definition carries (p : StoreParams) (cursor : option bytes) : Prop :=
  (match sp_cursor p with Some c => Some <$> parse_hash c | None => Ok None end) = Ok cursor.

(** One request is one query. *)
Lemma store_query_run (s : AppState) d p cursor res d' :
  the_store s = Some d -> carries p cursor ->
  query (params_to_query p cursor) d = Some (res, d') ->
  router params (GetStoreMessages p) 0 [] s =
  (Responds match res with
   | Ok res => json (StoreBody (mkStoreResponse (store_message_of <$> messages res)
                 (@text_encode HEX <$> next_cursor res)))
   | Err e => text 500 (store_error_to_string e)
   end, put_back d' s).
Proof.
  unfold carries. intros Hst Hc Hq. cbn [router]. unfold store_query. rewrite Hst, Hc.
  cbn [ms_query sqlite_store]. rewrite Hq. by destruct res.
Qed.

Lemma rest_fetch_rest fuel p cursor (s : AppState) d q l1 l2 :
  the_store s = Some d -> hashes_ok (rows d) -> page_size_ok q -> carries p cursor ->
  all_matches q (rows d) = l1 ++ l2 -> resumes q (params_to_query p cursor) (rows d) l1 ->
  (length l2 + length (faults d) < fuel)%nat ->
  exists d', rest_fetch fuel p s = Some (store_message_of <$> (stored q <$> l2), put_back d' s) /\
    rows d' = rows d /\ exists used, faults d = used ++ faults d'.
Proof.
  intros Hst Hh Hp. revert p cursor s d l1 l2 Hst Hh.
  induction fuel as [|fuel IH]; intros p cursor s d l1 l2 Hst Hh Hc E Hr Hf; [lia|].
  destruct (query_rest_faulty q _ d l1 l2 Hh Hp E Hr) as (res & d1 & Hq & Hd1 & Hres & used & Hu).
  cbn [rest_fetch]. rewrite (store_query_run s d p cursor res d1 Hst Hc Hq).
  pose proof (the_store_put_back s d d1 Hst) as Hst1.
  destruct Hres as [(e & -> & _ & Hlt)| ->].
  - cbn. destruct (IH p cursor (put_back d1 s) d1 l1 l2) as (d' & -> & Hd' & used' & Hu');
      [rewrite ?Hd1; done || lia..|].
    exists d'. rewrite put_back_twice. split; [done|]. split; [congruence|].
    exists (used ++ used'). by rewrite Hu, Hu', app_assoc.
  - cbn. destruct (page_cases q l2) as [[-> ->]|(c & Hlast & -> & Hlt)]; cbn.
    { exists d1. split; [done|]. split; [done|]. by exists used. }
    pose proof (resumes_next q (rows d) l1 _ c Hlast) as Hnext.
    assert (length c.1 = 32%nat) as Hlen.
    { apply (Hh c.1 c.2), (elem_of_all_matches q). rewrite E. apply elem_of_app. right.
      apply last_Some_elem_of in Hlast. by eapply elem_of_take in Hlast as (i & Hi%list_elem_of_lookup_2 & _). }
    assert (length (faults d1) <= length (faults d))%nat as Hle by (rewrite Hu, length_app; lia).
    destruct (IH (with_cursor p (@text_encode HEX c.1)) (Some c.1) (put_back d1 s) d1
      (l1 ++ take (page_len q) l2) (drop (page_len q) l2)) as (d' & -> & Hd' & used' & Hu').
    + done.
    + by rewrite Hd1.
    + unfold carries. cbn. by rewrite parse_hash_encode, decide_True.
    + by rewrite Hd1, <- app_assoc, take_drop.
    + rewrite Hd1. destruct Hr as [(-> & <- & _)|(c0 & _ & Hq')]; [done|].
      change (params_to_query _ (Some c.1)) with
        (StoreQuery.with_cursor (params_to_query p cursor) c.1). by rewrite Hq'.
    + lia.
    + exists d'. cbn. rewrite put_back_twice, <- !fmap_app, take_drop.
      split; [done|]. split; [congruence|]. exists (used ++ used'). by rewrite Hu, Hu', app_assoc.
Qed.

Lemma rest_fetch_matches p (s : AppState) d :
  the_store s = Some d -> hashes_ok (rows d) -> sp_cursor p = None ->
  let q := params_to_query p None in page_size_ok q ->
  exists d', rest_fetch (S (size (rows d) + length (faults d))) p s =
      Some (store_message_of <$> (stored q <$> all_matches q (rows d)), put_back d' s) /\
    rows d' = rows d /\ (healthy d -> put_back d' s = s).
Proof.
  intros Hst Hh Hc q Hp. pose proof (length_all_matches q (rows d)) as Hlen.
  destruct (rest_fetch_rest (S (size (rows d) + length (faults d))) p None s d q [] (all_matches q (rows d)))
    as (d' & E & Hd' & used & Hu); [done|done|done| |done| |lia|].
  - unfold carries. by rewrite Hc.
  - by left.
  - exists d'. split; [done|]. split; [done|]. unfold healthy. intros Hn.
    rewrite Hn in Hu. symmetry in Hu. apply app_eq_nil in Hu as [_ Hu].
    apply put_back_same. rewrite Hst. destruct d, d'; cbn in *. congruence.
Qed.

(** C28. Paging over REST is complete with every [pageSize] the store serves: a client that
    passes each [paginationCursor] on, and asks again when it is answered 500, receives every
    stored message that matches its parameters, each once and in order, as JSON; it needs at
    most one request more than the store has messages and database errors to come; and asking
    writes nothing.  The two other page sizes: with 18446744073709551615 ([u64::MAX]) a store
    without faults answers 200 with no message and no cursor, whatever it holds, and with
    [i64::MAX] its handler panics in a build with overflow checks. *)
Theorem rest_paging_complete (p : StoreParams) (s : AppState) (d : SqliteStore) :
  the_store s = Some d -> hashes_ok (rows d) -> sp_cursor p = None ->
  let q := params_to_query p None in
  (page_size_ok q ->
     exists l d', rest_fetch (S (size (rows d) + length (faults d))) p s =
         Some (store_message_of <$> (stored q <$> l), put_back d' s) /\
       rows d' = rows d /\ (healthy d -> put_back d' s = s) /\
       StronglySorted (dir_le (StoreQuery.forward q)) l /\ NoDup l.*1 /\
       forall h r, (h, r) ∈ l <-> rows d !! h = Some r /\ matches q (h, r) = true) /\
  (healthy d -> StoreQuery.page_size q = 2 ^ 64 - 1 ->
     router params (GetStoreMessages p) 0 [] s = (Responds (json (StoreBody (mkStoreResponse [] None))), s)) /\
  (healthy d -> StoreQuery.page_size q = 2 ^ 63 - 1 -> overflow_checks = true ->
     router params (GetStoreMessages p) 0 [] s = (Panics, s)).
Proof.
  intros Hst Hh Hc q. assert (carries p None) as Hcar by (unfold carries; by rewrite Hc).
  split; [|split].
  - intros Hp. destruct (all_matches_sorted q (rows d)) as [Hs Hn].
    destruct (rest_fetch_matches p s d Hst Hh Hc Hp) as (d' & E & Hd' & Hsame).
    exists (all_matches q (rows d)), d'. split_and!; try done.
    intros h r. apply (elem_of_all_matches q _ (h, r)).
  - intros Hd Hm. rewrite (store_query_run s d p None _ d Hst Hcar (proj1 (query_extremes q d Hd) Hm)).
    by rewrite put_back_same.
  - intros Hd Hm Ho. cbn [router]. unfold store_query. rewrite Hst, Hc.
    change (ms_query (params_to_query p None) d) with (query q d).
    by rewrite (proj2 (query_extremes q d Hd) Hm Ho).
Qed.

End Paging.

(** ** A concrete server *)

Definition demo_encodings : RestEncodings := {| HEX := plain_text; B64 := plain_text |}.
Definition demo_rest_text : RestText := {|
  debug_str s := s;
  multiaddr_to_string _ := "";
  peer_id_to_string p := String.string_of_list_byte p;
  encode_metrics _ := "";
|}.

#[local] Existing Instances toy_sha256 countable_prost log_swarm demo_crypto demo_enr demo_profile.
#[local] Existing Instances demo_encodings demo_rest_text.

Definition demo_app : AppState :=
  app_state_new "0.1.0" [x01] None (mkWorld demo_state true) (Some (OtherStore demo_store)).

Lemma rest_publish_answers_witness :
  exists shard,
    (router demo_params (PostRelayMessage "/a/1/b/p" (RestWakuMessage.from_message (demo_message 4)))
      5 [] demo_app).1 =
    Responds (text 200 (@text_encode HEX
      (deterministic_hash (ShardId.pubsub_topic shard) (demo_message 4)))).
Proof.
  destruct (ContentTopic.parse "/a/1/b/p") as [ct|] eqn:E; [|vm_compute in E; discriminate E].
  destruct (rest_publish_answers demo_params "/a/1/b/p" (RestWakuMessage.from_message (demo_message 4))
    5 [] demo_app) as (_ & _ & Hok).
  - intros topic data sw id sw' [= <- <-]. reflexivity.
  - reflexivity.
  - apply not_elem_of_nil.
  - discriminate.
  - destruct (Hok ct _ E eq_refl) as (shard & _ & Hh & ->). exists shard. reflexivity.
Defined.

Definition demo_store_params : StoreParams :=
  mkStoreParams None (Some "/a/1/b/p , /x/1/y/z") None None (Some 2) None None None.

(** A server whose database fails in the second statement. *)
Definition faulty_app : AppState :=
  app_state_new "0.1.0" [x01] None (mkWorld demo_state true)
    (Some (OtherStore (mkSqliteStore (rows demo_store) [None; Some "disk I/O error"]))).

Definition huge_store_params : StoreParams :=
  mkStoreParams None (Some "/a/1/b/p") None None (Some (2 ^ 64 - 1)) None None None.

Lemma rest_paging_complete_witness :
  (exists l d', rest_fetch demo_params 6 demo_store_params faulty_app =
     Some (store_message_of <$> (stored (params_to_query demo_store_params None) <$> l),
           put_back d' faulty_app) /\
     length l = 3%nat) /\
  router demo_params (GetStoreMessages huge_store_params) 0 [] demo_app =
    (Responds (json (StoreBody (mkStoreResponse [] None))), demo_app).
Proof.
  split; [|exact (proj1 (proj2 (rest_paging_complete demo_params huge_store_params demo_app demo_store
    eq_refl demo_hashes_ok eq_refl)) eq_refl eq_refl)].
  destruct (proj1 (rest_paging_complete demo_params demo_store_params faulty_app _ eq_refl
    demo_hashes_ok eq_refl) ltac:(split; cbn; lia)) as (l & d' & E & _).
  exists l, d'. split; [exact E|].
  apply (f_equal (option_map (fun r => length r.1))) in E. cbn [option_map fst] in E.
  rewrite !length_fmap in E. vm_compute in E. by injection E.
Defined.
