(* ===== verification/Reports.v ===== *)
(** * Reports: what the REST server says of the node

    The endpoints [/admin/v1/peers], [/health], [/debug/v1/info] and [/metrics] read what the
    driver shares (the connected peers, the listen addresses, the counters) at any moment,
    also while the driver is at the send of an event ([Channels]).  What they say then is
    what the events of the node say, those sent and the one being sent. *)

From Stdlib Require Import Strings.Byte.
From stdpp Require Import base gmap strings list numbers.
From S2P Require Import Prelude Bytes Text Core Framing Wire Relay Store StoreServe Net Discv5 Services Ratelimit Node NodeFacts Handle Runs Channels Cache Rest.

Open Scope Z_scope.

Section Reports.
Context {SW St WakuEnr : Type} `{Swarm SW, MessageStore St, EnrOps WakuEnr}.
Context `{EnrCrypto, Sha256, BuildProfile, Prost WakuMessage, RestEncodings, RestText}.
Variable params : NodeParams.

Abbreviation AppState := (@AppState SW St WakuEnr).
Abbreviation System := (@System SW St WakuEnr).

(** What can be read of the driver, wherever it is, is what its events say. *)
Lemma node_reflects sw st todo (s : System) :
  rtc (sys_step params) (sys_start sw st todo) s ->
  exists unsent, events (w_node (sys_next s)) = events (sys_node s) ++ unsent /\
    (length unsent <= 1)%nat /\ (sys_held s = None -> unsent = []) /\
    let told := events (sys_node s) ++ unsent in
    read_part (sys_node s) = (peers_after told, addrs_after told, as_u64 (Z.of_nat (relayed_in told))).
Proof.
  intros Hrtc. destruct (reachable_ok params _ _ _ _ Hrtc) as (sent & Hok).
  destruct (sys_ok_reflects params _ _ _ _ Hok) as [_ Hr]. destruct Hok as (_ & Hh & _).
  unfold sys_next, held_ok in *. destruct (sys_held s) as [h|].
  - destruct (Hh h eq_refl) as (_ & ev & sw' & ->). exists [ev]. by split_and!.
  - exists []. rewrite app_nil_r. split_and!; [done|cbn; lia|done..].
Qed.

(** C20. What the REST server says of the node is what its events say, at every moment of
    every execution, with the channels bounded: the peers of [/admin/v1/peers] are those
    with a [PeerConnected] event and no [PeerDisconnected] after it, their number is the one
    of [/health], the addresses of [/debug/v1/info] are those of the [Listening] events, in
    order and completed with the peer id, and the relay counter is the number of message
    events, as a 64-bit number.  The events are those the driver has sent and at most one
    more, which it is sending: the report can be ahead of the channel by that event, for as
    long as the channel is full. *)
Theorem reports_follow_events (sw : SW) (st : option St) (todo : list Command) (s : System)
    (app : AppState) (reply : Z) (env : list (list Input)) :
  rtc (sys_step params) (sys_start sw st todo) s -> app_node app = sys_world s ->
  exists unsent, events (w_node (sys_next s)) = events (sys_node s) ++ unsent /\
    (length unsent <= 1)%nat /\ (sys_held s = None -> unsent = []) /\
    let told := events (sys_node s) ++ unsent in
    router params GetPeers reply env app =
      (Responds (json (PeersBody ((fun peer => mkAdminPeer (peer_id_to_string peer) true) <$>
         elements (peers_after told)))), app) /\
    router params GetHealth reply env app =
      (Responds (json (HealthBody "Ready" (Z.of_nat (size (peers_after told))))), app) /\
    router params GetInfo reply env app =
      (Responds (json (InfoBody (mkInfoResponse
         (multiaddr_to_string <$> ((fun a => a ++ [P2p (app_peer_id app)]) <$> addrs_after told))
         (to_base64 <$> app_discv5_enr app) (peer_id_to_string (app_peer_id app))))), app) /\
    Services.relay_messages (MetricsOps.snapshot (Node.metrics (sys_node s))) =
      as_u64 (Z.of_nat (relayed_in told)).
Proof.
  intros Hrtc Happ. destruct (node_reflects sw st todo s Hrtc) as (unsent & He & Hl & Hn & Hr).
  exists unsent. split_and!; try done. cbn zeta in Hr |- *. unfold read_part in Hr.
  injection Hr as Hc Ha Hm. cbn [router].
  unfold admin_peers, health, info, node_peers, connected_peers, node_addresses,
    Handle.listen_addresses. rewrite Happ. fold (sys_node s). rewrite Hc, Ha. done.
Qed.

End Reports.

(** ** A concrete server *)

#[local] Existing Instances toy_sha256 countable_prost log_swarm demo_crypto demo_enr demo_profile.
#[local] Existing Instances demo_encodings demo_rest_text.

(** A peer is reported that no event in the channel tells of. *)
Lemma reports_follow_events_witness :
  let app := app_state_new "0.1.0" [x01] None (sys_world demo_sending) None in
  events (sys_node demo_sending) = [] /\
  router demo_params GetPeers 101 [] app =
    (Responds (json (PeersBody [mkAdminPeer (peer_id_to_string [x02]) true])), app).
Proof.
  intros app. split; [vm_compute; reflexivity|].
  destruct (reports_follow_events demo_params _ _ demo_todo demo_sending app 101 []
    (execution_rtc demo_params _ _ _ demo_execution) eq_refl) as (unsent & He & _ & _ & Hp & _).
  rewrite <- He in Hp.
  assert (elements (peers_after (events (w_node (sys_next demo_sending)))) = [[x02]]) as E
    by (vm_compute; reflexivity).
  rewrite E in Hp. exact Hp.
Defined.
