(* ===== verification/Spawn.v ===== *)
(** * Spawn: building the swarm and starting a node, [waku-node/src/runtime.rs]

    [build_swarm] and [spawn], and the request/response behaviours the protocol crates
    build.  The constructors of libp2p are the class [SwarmBuild]; what they are given is
    recorded as data ([WakuBehaviour], [ConnectionLimits]). *)

From Stdlib Require Import Strings.Byte.
From stdpp Require Import base gmap strings list numbers sorting.
From S2P Require Import Prelude Bytes Text Core Framing Wire Enr Net Discv5 Dns Relay Store StoreServe Services Ratelimit Node NodeFacts Handle Discovery.

Open Scope Z_scope.

(** [now_unix_nanos] of a system time, in nanoseconds since the epoch: the cast wraps, and
    a time before the epoch is zero. *)
Definition unix_nanos (system_time : Z) : Z := if decide (0 <= system_time) then as_i64 system_time else 0.

(** ** Behaviours *)

Inductive ProtocolSupport : Type := Inbound | Outbound | Full.

(** The arguments of [request_response::Behaviour::with_codec]; the codec is named by its
    crate and the configuration is the default one. *)
Record RequestResponse : Type := mkRequestResponse {
  rr_protocols : list (string * ProtocolSupport);
}.

(** The [build] functions of the protocol crates. *)
Definition metadata_build : RequestResponse := mkRequestResponse [(METADATA_PROTOCOL_ID, Full)].
Definition store_query_build : RequestResponse := mkRequestResponse [(STORE_QUERY_PROTOCOL_ID, Full)].
Definition lightpush_build : RequestResponse := mkRequestResponse [(LIGHTPUSH_PROTOCOL_ID, Full)].
Definition peer_exchange_build : RequestResponse :=
  mkRequestResponse [(PEER_EXCHANGE_PROTOCOL_ID, Full)].
Definition filter_build_subscribe : RequestResponse :=
  mkRequestResponse [(FILTER_SUBSCRIBE_PROTOCOL_ID, Full)].
Definition filter_build_push : RequestResponse := mkRequestResponse [(FILTER_PUSH_PROTOCOL_ID, Full)].

(** [ConnectionLimits] and [identify::Config], as set. *)
Record ConnectionLimits : Type := mkConnectionLimits {
  max_established : option Z;            (* u32 *)
  max_established_per_peer : option Z;   (* u32 *)
}.

Record IdentifyConfig : Type := mkIdentifyConfig {
  protocol_version : string;
  agent_version : string;
}.

(** [WakuBehaviour], over the gossipsub behaviour. *)
Record WakuBehaviour (Gossipsub : Type) : Type := mkWakuBehaviour {
  wb_relay : Gossipsub;
  wb_identify : IdentifyConfig;
  wb_metadata : RequestResponse;
  wb_store_query : RequestResponse;
  wb_lightpush : RequestResponse;
  wb_peer_exchange : RequestResponse;
  wb_filter_subscribe : RequestResponse;
  wb_filter_push : RequestResponse;
  wb_connection_limits : ConnectionLimits;
}.
Arguments mkWakuBehaviour {_}.

(** [RelayError] as text. *)
Definition relay_error_to_string (e : RelayError) : string :=
  match e with
  | RelayConfig e => "gossipsub config invalid: " +:+ e
  | RelayBuild e => "gossipsub behaviour init failed: " +:+ e
  end.

(** The constructors of libp2p: the transport of an identity, gossipsub, the swarm with its
    behaviour and idle timeout, and what is asked of the swarm before it runs.
    [behaviour_error] is the text of an error of the behaviour's constructor. *)
Class SwarmBuild (SW Keypair : Type) := {
  GossipsubConfig : Type;
  Gossipsub : Type;
  with_tcp : Keypair -> result string ();
  gossipsub_build : ConfigBuilder -> result string GossipsubConfig;
  gossipsub_new : GossipsubConfig -> result string Gossipsub;
  behaviour_error : string -> string;
  swarm_new : Keypair -> WakuBehaviour Gossipsub -> Z -> SW;
  local_peer_id : SW -> PeerId;
  listen_on : Multiaddr -> SW -> result string () * SW;
}.

(** A swarm has the peer id of the identity it is built with. *)
Class SwarmBuildLaws (SW Keypair : Type) `{SwarmBuild SW Keypair} := {
  keypair_peer_id : Keypair -> PeerId;
  local_peer_id_new keypair behaviour idle :
    local_peer_id (swarm_new keypair behaviour idle) = keypair_peer_id keypair;
}.

Section Spawn.
Context {SW St WakuEnr Keypair CombinedKey DV : Type}.
Context `{Swarm SW, MessageStore St, EnrOps WakuEnr, SwarmBuild SW Keypair}.
Context `{EnrCrypto, DnsCrypto, Sha256, BuildProfile, Prost WakuMessage}.
Context `{EnrBuild WakuEnr CombinedKey, Discv5Service WakuEnr CombinedKey DV}.
Variable try_into_secp256k1 : Keypair -> option bytes.
Variable secp256k1_from_bytes : bytes -> result string CombinedKey.
(* [CARGO_PKG_VERSION] *)
Variable pkg_version : string.

Abbreviation NodeConfig := (NodeConfig Keypair WakuEnr St).

(** [build_swarm]. *)
Definition build_swarm (config : NodeConfig) : result NodeError SW :=
  let limits := mkConnectionLimits (Some (cfg_max_connections config)) (Some 4) in
  _ ← map_err BuildError (with_tcp (cfg_keypair config));
  relay ← map_err (fun e => BuildError (behaviour_error (relay_error_to_string e)))
    (build_relay gossipsub_build gossipsub_new);
  let behaviour := mkWakuBehaviour relay
    (mkIdentifyConfig "ipfs/id/1.0.0" ("rs-waku/" +:+ pkg_version))
    metadata_build store_query_build lightpush_build peer_exchange_build
    filter_build_subscribe filter_build_push limits in
  Ok (swarm_new (cfg_keypair config) behaviour (cfg_idle_timeout_secs config)).

(** The loop over [listen_addrs]. *)
Fixpoint listen_all (addrs : list Multiaddr) (sw : SW) : result NodeError SW :=
  match addrs with
  | [] => Ok sw
  | addr :: addrs =>
      let '(r, sw) := listen_on addr sw in
      _ ← map_err ListenError r;
      listen_all addrs sw
  end.

(** What [spawn] leaves: the handle, the state the driver task starts in, and what the
    discovery task is started with. *)
Record Spawned : Type := mkSpawned {
  sp_peer_id : PeerId;
  sp_discv5_enr : option WakuEnr;
  sp_params : NodeParams;
  sp_node : NodeState SW St WakuEnr;
  sp_discovery : option (@Discovery DV * list WakuEnr);
}.

(** [spawn]; the driver runs from the moment its task is spawned, while discovery is still
    being started. *)
Definition spawn (system : option (string -> result DnsError (list string))) (config : NodeConfig)
    : result NodeError Spawned :=
  sw ← build_swarm config;
  let peer_id := local_peer_id sw in
  sw ← listen_all (cfg_listen_addrs config) sw;
  discovery ← start_discovery try_into_secp256k1 secp256k1_from_bytes system config;
  Ok (mkSpawned peer_id ((fun d => local_enr d.1) <$> discovery) (node_params config)
        (initial_state sw (cfg_store config)) discovery).

(** ** What a started node says of itself *)

Lemma spawn_Ok system config sp :
  spawn system config = Ok sp ->
  sp_params sp = node_params config /\
  start_discovery try_into_secp256k1 secp256k1_from_bytes system config = Ok (sp_discovery sp) /\
  sp_discv5_enr sp = (fun d => local_enr d.1) <$> sp_discovery sp /\
  exists sw0 sw, build_swarm config = Ok sw0 /\ listen_all (cfg_listen_addrs config) sw0 = Ok sw /\
    sp_peer_id sp = local_peer_id sw0 /\ sp_node sp = initial_state sw (cfg_store config).
Proof.
  unfold spawn. rewrite bind_Ok. intros (sw0 & E0 & E). apply bind_Ok in E as (sw & E1 & E).
  apply bind_Ok in E as (d & Ed & [= <-]). cbn. eauto 10.
Qed.

Lemma build_swarm_peer_id `{!SwarmBuildLaws SW Keypair} config sw :
  build_swarm config = Ok sw -> local_peer_id sw = keypair_peer_id (cfg_keypair config).
Proof.
  unfold build_swarm. rewrite bind_Ok. intros ([] & _ & E).
  apply bind_Ok in E as (relay & _ & [= <-]). apply local_peer_id_new.
Qed.

(** The widening casts of [local_metadata] keep the shards. *)
Lemma widened_shards shards : Forall in_u16 shards -> (fun s => as_u32 s) <$> shards = shards.
Proof.
  induction 1 as [|x shards Hx _ IH]; [done|]. cbn. rewrite IH, wrap_unsigned_small; [done|].
  unfold in_u in *; lia.
Qed.

(** C34. A started node tells one story: the handle's peer id is the one other nodes read
    from its discovery record, and the cluster and the shards of its metadata handshake
    are those of the record, the cluster being the one it checks its own peers against.
    The key of the record is that of the node's identity. *)
Theorem node_identity_consistent
    `{!EnrBuildLaws WakuEnr CombinedKey, !Discv5Laws WakuEnr CombinedKey DV}
    `{!SwarmBuildLaws SW Keypair}
    (system : option (string -> result DnsError (list string))) (config : NodeConfig)
    (sp : Spawned) (enr : WakuEnr) (key : CombinedKey) :
  in_u16 (cfg_cluster_id config) -> Forall in_u16 (cfg_shards config) ->
  keypair_to_combined try_into_secp256k1 secp256k1_from_bytes (cfg_keypair config) = Ok key ->
  secp256k1_peer_id (key_public key) = Some (keypair_peer_id (cfg_keypair config)) ->
  spawn system config = Ok sp -> sp_discv5_enr sp = Some enr ->
  let meta := local_meta (sp_params sp) in
  enr_peer_id enr = Some (sp_peer_id sp) /\
  Metadata.cluster_id meta = Some (local_cluster (sp_params sp)) /\
  exists rs, enr_relay_shards enr = Some rs /\
    local_cluster (sp_params sp) = RelayShards.cluster_id rs /\
    forall s, s ∈ Metadata.shards meta <-> s ∈ RelayShards.shards rs.
Proof.
  intros Hc Hs Hkey Hpeer Hsp Henr. apply spawn_Ok in Hsp as (Hp & Hd & He & sw0 & sw & Hb & _ & Hid & _).
  rewrite He in Henr. destruct (sp_discovery sp) as [[d bootstrap]|] eqn:Esd; [|done].
  injection Henr as <-. rewrite Hp, Hid, (build_swarm_peer_id _ _ Hb).
  destruct (cfg_discovery config) as [settings|] eqn:Ecfg;
    [|unfold start_discovery in Hd; by rewrite Ecfg in Hd].
  destruct (started_record try_into_secp256k1 secp256k1_from_bytes system config settings d
    bootstrap key _ Hc Hs Ecfg Hkey Hpeer Hd) as (_ & Hdial & _).
  destruct (enr_to_dialable_inv _ _ Hdial) as (Hpid & Hrs & _). cbn in Hpid, Hrs.
  split; [done|]. split; [done|]. eexists. split; [exact Hrs|].
  cbn [local_cluster node_params RelayShards.cluster_id RelayShards.new]. split.
  - rewrite wrap_unsigned_small; [done|]. unfold in_u in *; lia.
  - intros s. cbn [local_meta node_params local_metadata Metadata.shards].
    by rewrite RelayShards.elem_of_new, widened_shards.
Qed.

End Spawn.

(** ** A node that starts *)

#[local] Existing Instances toy_sha256 countable_prost log_swarm demo_crypto demo_dns demo_enr.
#[local] Existing Instances demo_build demo_service demo_profile.

(** An identity is its secret and its peer id. *)
Definition demo_swarm_build : SwarmBuild LogSwarm bytes := {|
  GossipsubConfig := ConfigBuilder;
  Gossipsub := ConfigBuilder;
  with_tcp _ := Ok tt;
  gossipsub_build := Ok;
  gossipsub_new := Ok;
  behaviour_error e := e;
  swarm_new keypair _ _ := mkLogSwarm 0 [CallBuild keypair];
  local_peer_id sw := match calls sw with CallBuild id :: _ => id | _ => [] end;
  listen_on _ sw := (Ok tt, sw);
|}.

#[local] Existing Instance demo_swarm_build.

#[export] Instance demo_swarm_build_laws : SwarmBuildLaws LogSwarm bytes :=
  {| keypair_peer_id keypair := keypair; local_peer_id_new _ _ _ := eq_refl |}.

Definition demo_spawn_config : NodeConfig bytes DemoEnr SqliteStore :=
  mkNodeConfig [x05] [[Ip4 0; Tcp 60000]] 60 1 [3; 1]
    (Some (mkDiscoverySettings 9000 0x0A000001 60000 [demo_leaf] [])) None 300 20.

Lemma node_identity_consistent_witness :
  exists sp enr, spawn Some Ok "0.1.0" None demo_spawn_config = Ok sp /\
    sp_discv5_enr sp = Some enr /\ enr_peer_id enr = Some (sp_peer_id sp) /\ sp_peer_id sp = [x05].
Proof.
  destruct (spawn Some Ok "0.1.0" None demo_spawn_config) as [sp|] eqn:E;
    [|vm_compute in E; discriminate E].
  destruct (sp_discv5_enr sp) as [enr|] eqn:Ee;
    [|vm_compute in E; injection E as <-; vm_compute in Ee; discriminate Ee].
  assert (Forall in_u16 (cfg_shards demo_spawn_config)) as Hs
    by (cbn; split_Forall; unfold in_u; lia).
  destruct (node_identity_consistent Some Ok "0.1.0" None demo_spawn_config sp enr [x05]
    ltac:(done) Hs eq_refl eq_refl E Ee) as (Hid & _).
  exists sp, enr. split; [reflexivity|]. split; [exact Ee|]. split; [exact Hid|].
  vm_compute in E. injection E as <-. reflexivity.
Defined.
