(* ===== verification/Settings.v ===== *)
(** * Settings: [wakunode/src/config.rs] and the settings of [wakunode/src/main.rs]

    The configuration file, the command line, the settings they resolve to, and the
    identity that persists in a file.

    [clap] has read the command line into a [Cli]; the TOML parser, the text of addresses
    and the key types of libp2p are parameters; the file system is a map of texts whose
    calls may fail. *)

From Stdlib Require Import Strings.Byte Strings.Ascii.
From stdpp Require Import base gmap strings list numbers.
From S2P Require Import Prelude Bytes Text Core Framing Wire Net Discv5 Cache Rest.

Open Scope Z_scope.

(** ** [config.rs] *)

(** [FileConfig]; [None] and [[]] are absent keys. *)
Module FileConfig.

Record t : Type := mk {
  cluster_id : option Z;              (* u16 *)
  shard : list Z;                     (* u16 *)
  tcp_port : option Z;                (* u16 *)
  staticnode : list string;
  discv5_discovery : option bool;
  discv5_udp_port : option Z;         (* u16 *)
  ext_ip : option string;
  discv5_bootstrap_node : list string;
  dns_discovery : option bool;
  dns_discovery_url : list string;
  store : option bool;
  store_path : option string;
  node_key_file : option string;
  rest_port : option Z;               (* u16 *)
  max_connections : option Z;         (* u32 *)
  ip_colocation_limit : option Z;     (* usize *)
}.

Definition default : t := {|
  cluster_id := None; shard := []; tcp_port := None; staticnode := [];
  discv5_discovery := None; discv5_udp_port := None; ext_ip := None;
  discv5_bootstrap_node := []; dns_discovery := None; dns_discovery_url := [];
  store := None; store_path := None; node_key_file := None; rest_port := None;
  max_connections := None; ip_colocation_limit := None;
|}.

End FileConfig.

(** ** The file system *)

(** A call that fails: its error, and what a failed write leaves in the file, if it changes
    it. *)
Record io_fault : Type := mk_io_fault { fault_error : io_error; fault_leaves : option string }.

(** The files, as texts (reading one that is not UTF-8 is a fault), and the faults of the
    calls still to come. *)
Record Fs : Type := mkFs {
  files : gmap string string;
  io_faults : list (option io_fault);
}.

(** One call: what it does, unless it fails. *)
Definition io_call {A} (on_fault : io_fault -> gmap string string -> gmap string string)
    (f : gmap string string -> result io_error A * gmap string string)
    : action Fs io_error A := fun fs =>
  match io_faults fs with
  | Some e :: faults => Some (Err (fault_error e), mkFs (on_fault e (files fs)) faults)
  | faults => let '(r, m) := f (files fs) in Some (r, mkFs m (tail faults))
  end.
Definition unchanged (e : io_fault) (m : gmap string string) : gmap string string := m.

Definition not_found : io_error := mk_io_error OtherKind "No such file or directory (os error 2)".

(** [std::fs::read_to_string] and [std::fs::write]. *)
Definition read_to_string (path : string) : action Fs io_error string :=
  io_call unchanged (fun m => (ok_or not_found (m !! path), m)).
Definition write (path contents : string) : action Fs io_error () :=
  io_call (fun e m => match fault_leaves e with Some s => <[path := s]> m | None => m end)
    (fun m => (Ok tt, <[path := contents]> m)).

(** [Path::exists]: an error counts as absent. *)
Definition exists_path (path : string) : action Fs io_error bool := fun fs =>
  '(r, fs) ← io_call unchanged (fun m => (Ok (bool_decide (is_Some (m !! path))), m)) fs;
  Some (Ok (default false (ok r)), fs).

(** [std::fs::set_permissions], whose result is dropped; permissions are not modelled. *)
Definition set_permissions (path : string) : action Fs io_error () := fun fs =>
  '(_, fs) ← io_call unchanged (fun m => (Ok tt, m)) fs;
  Some (Ok tt, fs).

(** An operation whose error is converted. *)
Definition map_action {St E F A} (f : E -> F) (m : action St E A) : action St F A := fun s =>
  '(r, s) ← m s; Some (map_err f r, s).

(** [FileConfig::load]. *)
Definition load (toml_from_str : string -> result string FileConfig.t) (path : option string)
    : action Fs string FileConfig.t :=
  match path with
  | None => mret FileConfig.default
  | Some path =>
      text ← map_action (fun e => "reading " +:+ path +:+ ": " +:+ reason e) (read_to_string path);
      lift_result (map_err (fun e => "parsing " +:+ path +:+ ": " +:+ e) (toml_from_str text))
  end.

(** ** [Ipv4Addr] of the Rust library *)

(** An octet: one to three digits, no leading zero, at most 255. *)
Definition parse_octet (s : string) : option Z :=
  match s with
  | EmptyString => None
  | String "0" (String _ _) => None
  | _ => if decide (String.length s <= 3)%nat then parse_digits 255 0 s else None
  end.

Definition ipv4 (a b c d : Z) : Z := a * 2 ^ 24 + b * 2 ^ 16 + c * 2 ^ 8 + d.
Definition LOCALHOST : Z := ipv4 127 0 0 1.

(** [Ipv4Addr::from_str]. *)
Definition ipv4_from_str (s : string) : option Z :=
  match split_on "."%char s with
  | [a; b; c; d] =>
      a ← parse_octet a; b ← parse_octet b; c ← parse_octet c; d ← parse_octet d;
      Some (ipv4 a b c d)
  | _ => None
  end.

(** [Display for Ipv4Addr]. *)
Definition octet (i ip : Z) : Z := Z.land (Z.shiftr ip (8 * i)) 255.
Definition ipv4_to_string (ip : Z) : string :=
  join_with "."%char (show_uint <$> [octet 3 ip; octet 2 ip; octet 1 ip; octet 0 ip]).

(** ** [Cli] *)

Module Cli.

Record t : Type := mk {
  config : option string;
  cluster_id : option Z;              (* u16 *)
  shards : list Z;                    (* u16 *)
  tcp_port : option Z;                (* u16 *)
  staticnodes : list Multiaddr;
  rln_relay : bool;
  discv5 : bool;
  discv5_udp_port : option Z;         (* u16 *)
  ext_ip : option Z;                  (* Ipv4Addr *)
  bootstrap_enrs : list string;
  dns_discovery : bool;
  dns_discovery_urls : list string;
  store : bool;
  rest_port : option Z;               (* u16 *)
  max_connections : option Z;         (* u32 *)
  ip_colocation_limit : option Z;     (* usize *)
  store_path : option string;
  node_key_file : option string;
}.

(** No flag but [--config]. *)
Definition only_config (path : option string) : t :=
  mk path None [] None [] false false None None [] false [] false None None None None None.

End Cli.

(** ** The settings of [main] *)

(** The text of a multiaddr as libp2p reads it, and what it documents of it. *)
Class MultiaddrText := { multiaddr_from_str : string -> result string Multiaddr }.
Class MultiaddrTextLaws `{MultiaddrText, RestText} :=
  multiaddr_from_to_string a : multiaddr_from_str (multiaddr_to_string a) = Ok a.

(** The variables of [main] that hold settings. *)
Record Settings : Type := mkSettings {
  cluster_id : Z;
  tcp_port : Z;
  discv5_udp_port : Z;
  ext_ip : Z;
  max_connections : Z;
  ip_colocation_limit : Z;
  discv5 : bool;
  dns_discovery : bool;
  store_enabled : bool;
  store_path : option string;
  node_key_file : option string;
  rest_port : option Z;
  shards : list Z;
  staticnodes : list Multiaddr;
  bootstrap_enrs : list string;
  dns_discovery_urls : list string;
}.

(** [Option::or], and a list flag that falls back to the file when it is not given. *)
Definition or {A} (x y : option A) : option A := match x with Some _ => x | None => y end.
Definition or_list {A} (x y : list A) : list A := match x with [] => y | _ => x end.

Definition resolve_settings `{MultiaddrText} (cli : Cli.t) (file : FileConfig.t) : Settings :=
  let shard_src := or_list (Cli.shards cli) (FileConfig.shard file) in
  {|
    cluster_id := default (NetworkPreset.cluster_id TWN)
      (or (Cli.cluster_id cli) (FileConfig.cluster_id file));
    tcp_port := default 60000 (or (Cli.tcp_port cli) (FileConfig.tcp_port file));
    discv5_udp_port :=
      default 9000 (or (Cli.discv5_udp_port cli) (FileConfig.discv5_udp_port file));
    ext_ip := default LOCALHOST (or (Cli.ext_ip cli) (FileConfig.ext_ip file ≫= ipv4_from_str));
    max_connections := default 300 (or (Cli.max_connections cli) (FileConfig.max_connections file));
    ip_colocation_limit :=
      default 20 (or (Cli.ip_colocation_limit cli) (FileConfig.ip_colocation_limit file));
    discv5 := Cli.discv5 cli || default false (FileConfig.discv5_discovery file);
    dns_discovery := Cli.dns_discovery cli || default false (FileConfig.dns_discovery file);
    store_enabled := Cli.store cli || default false (FileConfig.store file);
    store_path := or (Cli.store_path cli) (FileConfig.store_path file);
    node_key_file := or (Cli.node_key_file cli) (FileConfig.node_key_file file);
    rest_port := or (Cli.rest_port cli) (FileConfig.rest_port file);
    shards := match shard_src with [] => u16_range (NetworkPreset.shard_count TWN) | l => l end;
    staticnodes :=
      match Cli.staticnodes cli with
      | [] => omap (fun s => ok (multiaddr_from_str s)) (FileConfig.staticnode file)
      | l => l
      end;
    bootstrap_enrs := or_list (Cli.bootstrap_enrs cli) (FileConfig.discv5_bootstrap_node file);
    dns_discovery_urls :=
      or_list (Cli.dns_discovery_urls cli) (FileConfig.dns_discovery_url file);
  |}.

(** ** Flags and file say the same things *)

#[local] Arguments ipv4_from_str : simpl never.
#[local] Arguments ipv4_to_string : simpl never.

Lemma parse_octet_show n : 0 <= n < 256 -> parse_octet (show_uint n) = Some n.
Proof.
  assert (Forall (fun k => parse_octet (show_uint (Z.of_nat k)) = Some (Z.of_nat k)) (seq 0 256))
    as Hall by (apply (bool_decide_unpack _); vm_compute; exact I).
  intros Hn. replace n with (Z.of_nat (Z.to_nat n)) by lia.
  apply (proj1 (list.Forall_forall _ _) Hall). apply elem_of_seq. lia.
Qed.

Lemma octet_range i ip : 0 <= octet i ip < 256.
Proof. unfold octet. rewrite (Z.land_ones _ 8) by lia. by apply Z.mod_pos_bound. Qed.

Lemma ipv4_octets ip : in_u32 ip -> ipv4 (octet 3 ip) (octet 2 ip) (octet 1 ip) (octet 0 ip) = ip.
Proof.
  unfold in_u, ipv4, octet. intros Hip. rewrite !(Z.land_ones _ 8), !Z.shiftr_div_pow2 by lia.
  change (2 ^ (8 * 3)) with 16777216. change (2 ^ (8 * 2)) with 65536.
  change (2 ^ (8 * 1)) with 256. change (2 ^ (8 * 0)) with 1. change (2 ^ 8) with 256.
  change (2 ^ 24) with 16777216. change (2 ^ 16) with 65536. change (2 ^ 32) with 4294967296 in Hip.
  Z.to_euclidean_division_equations; lia.
Qed.

Lemma ipv4_from_to_string ip : in_u32 ip -> ipv4_from_str (ipv4_to_string ip) = Some ip.
Proof.
  intros Hip. unfold ipv4_from_str, ipv4_to_string. rewrite split_join_with; [|done|].
  - cbn [fmap list_fmap]. rewrite !parse_octet_show by apply octet_range. cbn.
    by rewrite ipv4_octets.
  - cbn. split_Forall. split_and!; try done; apply show_uint_no_char; try done; apply octet_range.
Qed.

(** The file that says what the flags and another file say together. *)
Definition overlay `{RestText} (cli : Cli.t) (file : FileConfig.t) : FileConfig.t :=
  let flag (b : bool) (o : option bool) := if b then Some true else o in
  {|
    FileConfig.cluster_id := or (Cli.cluster_id cli) (FileConfig.cluster_id file);
    FileConfig.shard := or_list (Cli.shards cli) (FileConfig.shard file);
    FileConfig.tcp_port := or (Cli.tcp_port cli) (FileConfig.tcp_port file);
    FileConfig.staticnode :=
      or_list (multiaddr_to_string <$> Cli.staticnodes cli) (FileConfig.staticnode file);
    FileConfig.discv5_discovery := flag (Cli.discv5 cli) (FileConfig.discv5_discovery file);
    FileConfig.discv5_udp_port :=
      or (Cli.discv5_udp_port cli) (FileConfig.discv5_udp_port file);
    FileConfig.ext_ip := or (ipv4_to_string <$> Cli.ext_ip cli) (FileConfig.ext_ip file);
    FileConfig.discv5_bootstrap_node :=
      or_list (Cli.bootstrap_enrs cli) (FileConfig.discv5_bootstrap_node file);
    FileConfig.dns_discovery := flag (Cli.dns_discovery cli) (FileConfig.dns_discovery file);
    FileConfig.dns_discovery_url :=
      or_list (Cli.dns_discovery_urls cli) (FileConfig.dns_discovery_url file);
    FileConfig.store := flag (Cli.store cli) (FileConfig.store file);
    FileConfig.store_path := or (Cli.store_path cli) (FileConfig.store_path file);
    FileConfig.node_key_file := or (Cli.node_key_file cli) (FileConfig.node_key_file file);
    FileConfig.rest_port := or (Cli.rest_port cli) (FileConfig.rest_port file);
    FileConfig.max_connections := or (Cli.max_connections cli) (FileConfig.max_connections file);
    FileConfig.ip_colocation_limit :=
      or (Cli.ip_colocation_limit cli) (FileConfig.ip_colocation_limit file);
  |}.

Lemma omap_from_to_string `{MultiaddrTextLaws} (l : list Multiaddr) :
  omap (fun s => ok (multiaddr_from_str s)) (multiaddr_to_string <$> l) = l.
Proof.
  induction l as [|a l IH]; [done|]. cbn. rewrite multiaddr_from_to_string. cbn. by rewrite IH.
Qed.

(** C32. A configuration file can say everything the flags can, and flags win: for all flags
    and every file, the settings are those of one file alone, which has the flags where
    they are given and the other file's keys elsewhere; addresses survive the detour
    through text. *)
Theorem flags_overlay_file `{MultiaddrTextLaws} (cli : Cli.t) (file : FileConfig.t)
    (path : option string) :
  (forall ip, Cli.ext_ip cli = Some ip -> in_u32 ip) ->
  resolve_settings cli file = resolve_settings (Cli.only_config path) (overlay cli file).
Proof.
  intros Hip. unfold resolve_settings. cbn. f_equal.
  - destruct (Cli.ext_ip cli) as [ip|]; cbn; [|done]. by rewrite ipv4_from_to_string by auto.
  - by destruct (Cli.discv5 cli).
  - by destruct (Cli.dns_discovery cli).
  - by destruct (Cli.store cli).
  - destruct (Cli.staticnodes cli) as [|a l]; [done|]. by rewrite <- (omap_from_to_string (a :: l)) at 1.
Qed.

(** ** Widths *)

(** An optional integer in its type. *)
Definition opt_in (P : Z -> Prop) (o : option Z) : Prop := forall x, o = Some x -> P x.

(** What the types of [Cli] and [FileConfig] guarantee, [usize] being 64 bits. *)
Definition cli_typed (cli : Cli.t) : Prop :=
  opt_in in_u16 (Cli.cluster_id cli) /\ Forall in_u16 (Cli.shards cli) /\
  opt_in in_u16 (Cli.tcp_port cli) /\ opt_in in_u16 (Cli.discv5_udp_port cli) /\
  opt_in in_u32 (Cli.ext_ip cli) /\ opt_in in_u16 (Cli.rest_port cli) /\
  opt_in in_u32 (Cli.max_connections cli) /\ opt_in in_u64 (Cli.ip_colocation_limit cli).
Definition file_typed (file : FileConfig.t) : Prop :=
  opt_in in_u16 (FileConfig.cluster_id file) /\ Forall in_u16 (FileConfig.shard file) /\
  opt_in in_u16 (FileConfig.tcp_port file) /\ opt_in in_u16 (FileConfig.discv5_udp_port file) /\
  opt_in in_u16 (FileConfig.rest_port file) /\ opt_in in_u32 (FileConfig.max_connections file) /\
  opt_in in_u64 (FileConfig.ip_colocation_limit file).

Definition settings_typed (s : Settings) : Prop :=
  in_u16 (cluster_id s) /\ in_u16 (tcp_port s) /\ in_u16 (discv5_udp_port s) /\
  in_u32 (ext_ip s) /\ in_u32 (max_connections s) /\ in_u64 (ip_colocation_limit s) /\
  opt_in in_u16 (rest_port s) /\ Forall in_u16 (shards s) /\ shards s <> [].

Lemma parse_octet_range s n : parse_octet s = Some n -> 0 <= n <= 255.
Proof.
  assert (forall t, parse_digits 255 0 t = Some n -> 0 <= n <= 255) as Hd
    by (intros t; apply parse_digits_range; lia).
  unfold parse_octet. repeat case_match; try done; apply Hd.
Qed.

Lemma ipv4_from_str_range s ip : ipv4_from_str s = Some ip -> in_u32 ip.
Proof.
  unfold ipv4_from_str. destruct (split_on _ s) as [|a [|b [|c [|d []]]]]; try done.
  destruct (parse_octet a) as [x|] eqn:Ea; [cbn|done].
  destruct (parse_octet b) as [y|] eqn:Eb; [cbn|done].
  destruct (parse_octet c) as [z|] eqn:Ec; [cbn|done].
  destruct (parse_octet d) as [w|] eqn:Ed; [cbn|done]. intros [= <-].
  apply parse_octet_range in Ea, Eb, Ec, Ed. unfold in_u, ipv4. lia.
Qed.

Lemma default_or_in (P : Z -> Prop) d x y :
  opt_in P x -> opt_in P y -> P d -> P (default d (or x y)).
Proof. intros Hx Hy Hd. destruct x; cbn; [by apply Hx|]. destruct y; cbn; [by apply Hy|done]. Qed.

Lemma u16_range_typed n : in_u16 n -> Forall in_u16 (u16_range n).
Proof.
  intros Hn. apply list.Forall_forall. intros x (k & -> & Hk%elem_of_seq)%list_elem_of_fmap.
  unfold in_u in *. lia.
Qed.

Lemma resolve_settings_typed `{MultiaddrText} cli file :
  cli_typed cli -> file_typed file -> settings_typed (resolve_settings cli file).
Proof.
  intros (Hc & Hs & Ht & Hu & Hi & Hr & Hm & Hl) (Hc' & Hs' & Ht' & Hu' & Hr' & Hm' & Hl').
  unfold settings_typed. cbn [resolve_settings cluster_id tcp_port discv5_udp_port ext_ip
    max_connections ip_colocation_limit rest_port shards].
  split_and!; try (apply default_or_in; [done|done|]; unfold in_u; cbn; lia).
  - apply default_or_in; [done| |unfold in_u, LOCALHOST, ipv4; lia].
    intros ip. destruct (FileConfig.ext_ip file); cbn; [apply ipv4_from_str_range|done].
  - intros x. unfold or. destruct (Cli.rest_port cli); [apply Hr|apply Hr'].
  - destruct (Cli.shards cli) as [|a l]; cbn [or_list]; [|done].
    destruct (FileConfig.shard file); [|done]. by apply u16_range_typed.
  - by destruct (or_list _ _).
Qed.

(** ** The identity of the node *)

(** [hex::encode] writes lower-case hexadecimal digits. *)
Class HexLaws `{RestEncodings} := hex_encode_text b : hex_text (@text_encode HEX b) = true.

Section Keys.
Context {Keypair : Type} `{RestEncodings}.
(* The secret of a secp256k1 identity; [SecretKey::try_from_bytes] and the identity of a
   secret. *)
Variable try_into_secp256k1 : Keypair -> option bytes.
Variable keypair_of_secret : bytes -> result string Keypair.

(** [load_or_create_key]; [generated] is what [Keypair::generate_secp256k1] returns. *)
Definition load_or_create_key (generated : Keypair) (path : string) : action Fs io_error Keypair :=
  present ← exists_path path;
  if (present : bool) then
    hex_str ← read_to_string path;
    secret ← lift_result (map_err (mk_io_error InvalidData)
      (@text_decode HEX (as_bytes (trim hex_str))));
    lift_result (map_err (mk_io_error InvalidData) (keypair_of_secret secret))
  else
    secret ← lift_panic (try_into_secp256k1 generated);
    _ ← write path (@text_encode HEX secret);
    _ ← set_permissions path;
    mret generated.

(** What a file says the identity is. *)
Definition key_in (contents : string) : result io_error Keypair :=
  secret ← map_err (mk_io_error InvalidData) (@text_decode HEX (as_bytes (trim contents)));
  map_err (mk_io_error InvalidData) (keypair_of_secret secret).

Lemma load_present generated path m contents :
  m !! path = Some contents ->
  load_or_create_key generated path (mkFs m []) = Some (key_in contents, mkFs m []).
Proof.
  intros Hm. unfold load_or_create_key, mbind, action_bind, exists_path, read_to_string, io_call.
  cbn. rewrite bool_decide_true by eauto. cbn. rewrite Hm. cbn. unfold key_in, lift_result.
  by destruct (@text_decode HEX _).
Qed.

Lemma io_call_Ok {A} on_fault (f : gmap string string -> result io_error A * gmap string string)
    fs a fs' :
  io_call on_fault f fs = Some (Ok a, fs') -> f (files fs) = (Ok a, files fs').
Proof.
  unfold io_call. destruct (io_faults fs) as [|[e|] faults]; [| done |];
    destruct (f (files fs)); by intros [= -> <-].
Qed.

(** A successful load or creation leaves the key in the file. *)
Lemma load_leaves_key `{!HexLaws} generated path fs k fs' :
  (forall k secret, try_into_secp256k1 k = Some secret -> keypair_of_secret secret = Ok k) ->
  load_or_create_key generated path fs = Some (Ok k, fs') ->
  exists contents, files fs' !! path = Some contents /\ key_in contents = Ok k.
Proof.
  intros Hround. unfold load_or_create_key, mbind, action_bind.
  destruct (exists_path path fs) as [[[[]|] fs1]|]; [| |done..].
  - destruct (read_to_string path fs1) as [[[contents|e] fs2]|] eqn:E2; [|done..]. intros E.
    apply io_call_Ok in E2. injection E2 as E2 Hf. apply ok_or_Ok in E2. exists contents.
    unfold key_in. destruct (map_err _ (text_decode _)) as [secret|]; [|done].
    injection E as E <-. cbn. by rewrite <- Hf.
  - unfold lift_panic. destruct (try_into_secp256k1 generated) as [secret|] eqn:Es; [cbn|done].
    destruct (write _ _ fs1) as [[[[]|] fs2]|] eqn:E2; [|done..].
    apply io_call_Ok in E2. injection E2 as Hf. unfold set_permissions.
    destruct (io_call _ _ fs2) as [[r fs3]|] eqn:E3; [cbn|done]. intros [= -> <-].
    exists (@text_encode HEX secret). split.
    + assert (files fs3 = files fs2) as ->; [|by rewrite <- Hf, lookup_insert_eq].
      unfold io_call in E3. by destruct (io_faults fs2) as [|[f|] faults]; injection E3 as _ <-.
    + unfold key_in. rewrite trim_hex, text_decode_encode by apply hex_encode_text.
      cbn. by rewrite (Hround k secret).
Qed.

(** C33. The identity persists: whatever failed or succeeded on the way, an identity that
    was returned is returned by every later start that finds the file as it was left,
    even by one that would have generated another, and the file is only read then.  A
    file that holds no key makes the program fail with [InvalidData] and is left alone. *)
Theorem identity_persists `{!HexLaws} (generated : Keypair) (path : string) (fs : Fs)
    (k : Keypair) (fs' : Fs) :
  (forall k secret, try_into_secp256k1 k = Some secret -> keypair_of_secret secret = Ok k) ->
  load_or_create_key generated path fs = Some (Ok k, fs') ->
  (forall other m, m !! path = files fs' !! path ->
     load_or_create_key other path (mkFs m []) = Some (Ok k, mkFs m [])) /\
  forall other m contents, m !! path = Some contents -> is_ok (key_in contents) = false ->
    exists why, load_or_create_key other path (mkFs m []) =
      Some (Err (mk_io_error InvalidData why), mkFs m []).
Proof.
  intros Hround (contents & Hf & Hk)%load_leaves_key; [|done]. split.
  - intros other m Hm. rewrite Hf in Hm. by rewrite (load_present _ _ _ _ Hm), Hk.
  - intros other m c Hm Hbad. rewrite (load_present _ _ _ _ Hm). unfold key_in in *.
    destruct (@text_decode HEX (as_bytes (trim c))) as [secret|e]; cbn in *; [|eauto].
    destruct (keypair_of_secret secret); cbn in *; [done|eauto].
Qed.

End Keys.

(** ** A concrete command line *)

(** Hexadecimal text, and addresses as the text of their [Countable] encoding. *)
Fixpoint hex_pairs (l : bytes) : result string bytes :=
  match l with
  | [] => Ok []
  | [_] => Err "Odd number of digits"
  | x :: y :: l =>
      cons (byte_of (hex_value (ascii_of_byte x) * 16 + hex_value (ascii_of_byte y))) <$> hex_pairs l
  end.

Program Definition hex_encoding : TextEncoding :=
  {| text_encode := hex_of_bytes; text_decode := hex_pairs |}.
Next Obligation.
  induction b as [|b l IH]; [done|]. cbn [hex_of_bytes]. destruct (hex_byte_value b) as [-> E].
  rewrite as_bytes_app, !as_bytes_cons. change (as_bytes "") with (@nil byte). cbn [app hex_pairs].
  rewrite !ascii_of_byte_of_ascii, IH. cbn. by rewrite E.
Qed.

Definition hex_encodings : RestEncodings := {| HEX := hex_encoding; B64 := plain_text |}.

#[export] Instance hex_encodings_laws : @HexLaws hex_encodings.
Proof.
  intros l. induction l as [|b l IH]; [done|]. change (text_encode (b :: l)) with (hex_byte b +:+ hex_of_bytes l).
  change (hex_text (hex_of_bytes l) = true) in IH. by destruct b.
Qed.

#[export] Instance Protocol_countable : Countable Protocol.
Proof.
  refine (inj_countable'
    (fun p => match p with
      | Ip4 ip => inl (inl ip) | Ip6 ip => inl (inr ip) | Tcp n => inr (inl n)
      | P2p id => inr (inr (inl id)) | OtherProtocol s => inr (inr (inr s)) end)
    (fun p => match p with
      | inl (inl ip) => Ip4 ip | inl (inr ip) => Ip6 ip | inr (inl n) => Tcp n
      | inr (inr (inl id)) => P2p id | inr (inr (inr s)) => OtherProtocol s end) _).
  by intros [].
Defined.

Definition coded_rest_text : RestText := {|
  debug_str s := s;
  multiaddr_to_string a := String.string_of_list_byte (pos_bits (encode a));
  peer_id_to_string p := String.string_of_list_byte p;
  encode_metrics _ := "";
|}.

Definition coded_multiaddr_text : MultiaddrText := {|
  multiaddr_from_str s :=
    if decide (s = "/ip4/0.0.0.0/tcp/60000") then Ok [Ip4 0; Tcp 60000]
    else countable_decode (as_bytes s) |}.

#[local] Existing Instances hex_encodings coded_rest_text coded_multiaddr_text.

Lemma pos_bits_bits p : Forall (fun b => b = x00 \/ b = x01) (pos_bits p).
Proof. induction p; cbn; constructor; auto. Qed.

#[export] Instance coded_text_laws : MultiaddrTextLaws.
Proof.
  intros a. cbn. rewrite decide_False.
  - unfold countable_decode, as_bytes.
    by rewrite String.list_byte_of_string_of_list_byte, bits_pos_bits, decode_encode.
  - intros E. apply (f_equal as_bytes) in E. unfold as_bytes in E.
    rewrite String.list_byte_of_string_of_list_byte in E.
    pose proof (pos_bits_bits (encode a)) as Hb. rewrite E in Hb.
    by inversion Hb as [|? ? [] ?].
Qed.

(** Flags, with a static node, and a file. *)
Definition demo_cli : Cli.t :=
  Cli.mk (Some "waku.toml") None [] None [[Ip4 0x0A000002; Tcp 1]] false false None
    (Some 0x0A000001) [] false [] false (Some 8645) None None None (Some "key").
Definition demo_file : FileConfig.t :=
  FileConfig.mk None [3; 5] None ["ignored"] None None (Some "10.0.0.9") [] None [] None None None
    None (Some 50) None.
Definition demo_fs : Fs := mkFs {[ "waku.toml" := "toml" ]} [].

Lemma flags_overlay_file_witness :
  ext_ip (resolve_settings (Cli.only_config None) (overlay demo_cli demo_file)) = 0x0A000001.
Proof.
  rewrite <- (flags_overlay_file demo_cli demo_file None); [reflexivity|].
  intros ip [= <-]. unfold in_u. lia.
Defined.

Lemma identity_persists_witness :
  exists fs', load_or_create_key Some Ok [x05] "key" demo_fs = Some (Ok [x05], fs') /\
    load_or_create_key Some Ok [x09] "key" fs' = Some (Ok [x05], fs').
Proof.
  eexists. split; [vm_compute; reflexivity|].
  match goal with |- _ "key" ?fs = _ =>
    refine (proj1 (identity_persists Some Ok [x05] "key" demo_fs [x05] fs _ _) [x09] (files fs) eq_refl)
  end.
  - intros k secret [= ->]. reflexivity.
  - vm_compute. reflexivity.
Defined.
