(* ===== verification/Wakunode.v ===== *)
(** * Wakunode: [main] of [wakunode/src/main.rs]

    [main] up to the point where the node is started, subscribed and dialing; its event
    loop; and the program as a whole, in which the driver, the spawned puts, the discovery
    task, the event loop and the REST server take their turns in any order. *)

From Stdlib Require Import Strings.Byte Strings.Ascii.
From stdpp Require Import base gmap strings list numbers.
From S2P Require Import Prelude Bytes Text Float64 Core Framing Wire Enr Net Discv5 Dns Relay Store StoreServe Services Ratelimit Node NodeFacts Handle Runs Discovery Cache Rest Spawn Settings.

Open Scope Z_scope.

(** ** [main] *)

(** What [main] returns as [Box<dyn Error>]. *)
Inductive MainError : Type :=
  | ConfigFailed (e : string)
  | BadListenAddr (e : string)
  | KeyFailed (e : io_error)
  | StoreFailed (e : StoreError)
  | NodeFailed (e : NodeError).

(** What the environment of a start supplies: the identities that would be generated, the
    databases by url with the faults of their statements, and the system's DNS resolver. *)
Record Launch (Keypair : Type) : Type := mkLaunch {
  default_key : Keypair;
  fresh_key : Keypair;
  databases : string -> table;
  db_faults : list (option string);
  dns_system : option (string -> result DnsError (list string));
}.
Arguments mkLaunch {_}.
Arguments default_key {_}.
Arguments fresh_key {_}.
Arguments databases {_}.
Arguments db_faults {_}.
Arguments dns_system {_}.

(** The store of the settings. *)
Definition open_store (s : Settings) (databases : string -> table) (faults : list (option string))
    : option (result StoreError (option SqliteStore)) :=
  let opened (r : option (result StoreError () * SqliteStore)) :=
    match r with
    | Some (Ok _, st) => Some (Ok (Some st))
    | Some (Err e, _) => Some (Err e)
    | None => None
    end in
  match store_path s with
  | Some path => opened (connect (databases ("sqlite:" +:+ path)) faults)
  | None =>
      if store_enabled s || bool_decide (is_Some (rest_port s)) then opened (in_memory faults)
      else Some (Ok None)
  end.

(** The discovery settings, if a mechanism is wanted; records that do not parse are left
    out. *)
Definition discovery_settings `{EnrOps WakuEnr} (s : Settings) : option (DiscoverySettings WakuEnr) :=
  if discv5 s || dns_discovery s || negb (bool_decide (bootstrap_enrs s = [])) then
    Some {|
      ds_udp_port := discv5_udp_port s;
      ds_advertised_ip := ext_ip s;
      ds_advertised_tcp_port := tcp_port s;
      ds_bootstrap := omap (fun r => ok (from_str r)) (bootstrap_enrs s);
      ds_dns_bootstrap :=
        if dns_discovery s && bool_decide (dns_discovery_urls s = [])
        then [NetworkPreset.dns_discovery_enrtree TWN] else dns_discovery_urls s;
    |}
  else None.

(** What [select!] finds ready: a signal, or the event channel. *)
Inductive Turn : Type := TakeSignal | TakeEvent.

(** What the tasks of the program do: the driver handles an input (the dials of the
    discovery task among them), a spawned put runs, the discovery task adds a record to the
    shared book, [main] takes a turn, and the REST server handles a request with its reply
    channel and what the driver does meanwhile.

    An input is handled as a whole, at the moment its handler comes to the send of its event:
    by [effects_precede_send] of [Channels] nothing another task sees is done after it, and
    [main] may receive the event from then on.  What a reader sees while the driver still
    waits for a place in the channel is the subject of [Channels] and [Reports].  A
    subscription for several topics is handled topic by topic, and other activities may come
    in between: it is as many [Serve] activities ([subscription_by_topic]). *)
Inductive Activity (WakuEnr : Type) : Type :=
  | Drive (i : Input)
  | PutTask (i : nat)
  | Remember (enr : WakuEnr)
  | MainTurn (t : Turn)
  | Serve (r : Request) (reply : Z) (env : list (list Input)).
Arguments Drive {_} _.
Arguments PutTask {_} _.
Arguments Remember {_} _.
Arguments MainTurn {_} _.
Arguments Serve {_} _ _ _.

Section Main.
Context {SW WakuEnr Keypair CombinedKey DV : Type}.
Context `{Swarm SW, EnrOps WakuEnr, SwarmBuild SW Keypair}.
Context `{EnrCrypto, DnsCrypto, Sha256, BuildProfile, Prost WakuMessage}.
Context `{EnrBuild WakuEnr CombinedKey, Discv5Service WakuEnr CombinedKey DV}.
Context `{RestEncodings, RestText, MultiaddrText}.
Variable try_into_secp256k1 : Keypair -> option bytes.
Variable keypair_of_secret : bytes -> result string Keypair.
Variable secp256k1_from_bytes : bytes -> result string CombinedKey.
Variable toml_from_str : string -> result string FileConfig.t.
(* [CARGO_PKG_VERSION], which the crates share. *)
Variable pkg_version : string.

Abbreviation NodeConfig := (NodeConfig Keypair WakuEnr SqliteStore).
Abbreviation World := (@World SW SqliteStore WakuEnr).
Abbreviation AppState := (@AppState SW SqliteStore WakuEnr).
Abbreviation Spawned := (@Spawned SW SqliteStore WakuEnr DV).
Abbreviation Activity := (Activity WakuEnr).

(** The part of [main] that ends with [config.store = store.clone()]. *)
Definition configure (cli : Cli.t) (l : Launch Keypair)
    : action Fs MainError (Settings * NodeConfig) :=
  file ← map_action ConfigFailed (load toml_from_str (Cli.config cli));
  let s := resolve_settings cli file in
  listen ← lift_result (map_err BadListenAddr
    (multiaddr_from_str ("/ip4/0.0.0.0/tcp/" +:+ show_uint (tcp_port s))));
  let config : NodeConfig :=
    with_cluster (with_listen_addr (node_config_new (default_key l)) listen)
      (cluster_id s) (shards s) in
  keypair ← match node_key_file s with
            | Some path =>
                map_action KeyFailed
                  (load_or_create_key try_into_secp256k1 keypair_of_secret (fresh_key l) path)
            | None => mret (cfg_keypair config)
            end;
  store ← lift_panic (open_store s (databases l) (db_faults l));
  store ← lift_result (map_err StoreFailed store);
  mret (s, mkNodeConfig keypair (cfg_listen_addrs config) (cfg_idle_timeout_secs config)
    (cfg_cluster_id config) (cfg_shards config) (discovery_settings s) store
    (max_connections s) (ip_colocation_limit s)).

(** The loop over the shards: the first error ends [main].  The n-th turn uses the n-th
    reply channel from [reply] on, and the driver handles [before] first; [None] if the
    command is never answered. *)
Fixpoint subscribe_all (params : NodeParams) (cluster_id : Z) (shards : list Z) (reply : Z)
    (before : list (list Input)) (w : World) : option (result NodeError World) :=
  match shards with
  | [] => Some (Ok w)
  | shard :: shards =>
      let s := ShardId.new cluster_id shard in
      let w := advance params (default [] (head before)) w in
      match subscribe params s reply [] (driver_of w) with
      | Done (Ok _) =>
          subscribe_all params cluster_id shards (reply + 1) (tail before)
            (step_world params w (InCommand (Some (CmdSubscribe s reply))))
      | Done (Err e) => Some (Err e)
      | Waiting => None
      end
  end.

(** The loop over the static nodes: errors are logged. *)
Fixpoint dial_all (params : NodeParams) (addrs : list Multiaddr) (reply : Z)
    (before : list (list Input)) (w : World) : option World :=
  match addrs with
  | [] => Some w
  | addr :: addrs =>
      let w := advance params (default [] (head before)) w in
      match dial params addr reply [] (driver_of w) with
      | Done _ =>
          dial_all params addrs (reply + 1) (tail before)
            (step_world params w (InCommand (Some (CmdDial addr reply))))
      | Waiting => None
      end
  end.

(** The running program: the node and what the REST server has of it (without [--rest-port]
    there is no server and the rest of [AppState] is not used), how many events [main] has
    received, and whether it has returned. *)
Record Program : Type := mkProgram {
  pg_params : NodeParams;
  pg_app : AppState;
  pg_rest : bool;
  pg_received : nat;
  pg_ended : bool;
}.

(** The program once [spawn] has returned. *)
Definition program_of (s : Settings) (sp : Spawned) : Program := {|
  pg_params := sp_params sp;
  pg_app := app_state_new pkg_version (sp_peer_id sp) (sp_discv5_enr sp)
    (mkWorld (sp_node sp) true) ((fun _ => NodeStore) <$> store (sp_node sp));
  pg_rest := bool_decide (is_Some (rest_port s));
  pg_received := 0;
  pg_ended := false;
|}.

Definition with_world (w : World) (p : Program) : Program :=
  mkProgram (pg_params p) (set_node w (pg_app p)) (pg_rest p) (pg_received p) (pg_ended p).

(** [main] up to its event loop. *)
Definition main (cli : Cli.t) (l : Launch Keypair) (before_subscribes before_dials : list (list Input))
    : action Fs MainError Program :=
  '(s, config) ← configure cli l;
  sp ← lift_result (map_err NodeFailed
    (spawn try_into_secp256k1 secp256k1_from_bytes pkg_version (dns_system l) config));
  let p := program_of s sp in
  w ← lift_panic (subscribe_all (pg_params p) (cluster_id s) (shards s) 0 before_subscribes
    (app_node (pg_app p)));
  w ← lift_result (map_err NodeFailed w);
  w ← lift_panic (dial_all (pg_params p) (staticnodes s) (Z.of_nat (length (shards s)))
    before_dials w);
  mret (with_world w p).

(** ** The event loop *)

(** The message of an event, for the cache. *)
Definition event_message (ev : Event) : option WakuMessage :=
  match ev with EvMessage _ m _ _ => Some m | _ => None end.

Definition end_main (p : Program) : Program :=
  mkProgram (pg_params p) (pg_app p) (pg_rest p) (pg_received p) true.

(** One turn of the loop.  Receiving waits while the channel is empty and the driver runs;
    the channel is closed when the driver is gone and the events are read. *)
Definition main_turn (t : Turn) (p : Program) : Program :=
  match t with
  | TakeSignal =>
      end_main (with_world (step_world (pg_params p) (app_node (pg_app p))
        (InCommand (Some CmdShutdown))) p)
  | TakeEvent =>
      match events (w_node (app_node (pg_app p))) !! pg_received p with
      | Some ev =>
          let app :=
            match event_message ev with
            | Some m =>
                if pg_rest p then set_cache (MessageCache.record m (app_cache (pg_app p))) (pg_app p)
                else pg_app p
            | None => pg_app p
            end in
          mkProgram (pg_params p) app (pg_rest p) (S (pg_received p)) (pg_ended p)
      | None => if w_running (app_node (pg_app p)) then p else end_main p
      end
  end.

(** ** The program as a whole *)

(** One activity, until [main] returns. *)
Definition activity (p : Program) (a : Activity) : Program :=
  if pg_ended p then p
  else match a with
  | Drive i => with_world (step_world (pg_params p) (app_node (pg_app p)) i) p
  | PutTask i =>
      let w := app_node (pg_app p) in
      match run_put_task i (w_node w) with
      | Some s => with_world (mkWorld s (w_running w)) p
      | None => p
      end
  | Remember enr =>
      let w := app_node (pg_app p) in
      with_world (mkWorld (set_peer_book (remember_enr (peer_book (w_node w)) enr) (w_node w))
        (w_running w)) p
  | MainTurn t => main_turn t p
  | Serve r reply env =>
      if pg_rest p then
        mkProgram (pg_params p) (router (pg_params p) r reply env (pg_app p)).2 (pg_rest p)
          (pg_received p) (pg_ended p)
      else p
  end.

Definition execute (activities : list Activity) (p : Program) : Program :=
  foldl activity p activities.

(** A subscription for several topics is one for the first and then one for the others. *)
Lemma subscription_by_topic (p : Program) topic topics reply env :
  pg_ended p = false -> pg_rest p = true ->
  (router (pg_params p) (PostSubscriptions [topic]) reply env (pg_app p)).1 =
    Responds (mkResponse 200 EmptyBody) ->
  activity p (Serve (PostSubscriptions (topic :: topics)) reply env) =
  execute [Serve (PostSubscriptions [topic]) reply env;
           Serve (PostSubscriptions topics) (reply + 1) (tail env)] p.
Proof.
  intros Hend Hrest Hok. unfold execute. cbn [foldl]. unfold activity at 1. rewrite Hend, Hrest.
  cbn [router] in *. rewrite relay_subscribe_cons. unfold activity. rewrite Hend, Hrest. cbn [router].
  destruct (Rest.relay_subscribe _ [topic] _ _ _) as [res s']. cbn [fst snd] in *. by subst res.
Qed.

(** ** Configuring *)

Lemma map_action_Ok {St E F A} (f : E -> F) (m : action St E A) s a s' :
  map_action f m s = Some (Ok a, s') -> m s = Some (Ok a, s').
Proof. unfold map_action. destruct (m s) as [[[x|e] s1]|]; cbn; [|done..]. by intros [= -> ->]. Qed.

(** The file the settings come from: none, or one the parser returned. *)
Lemma load_Ok path fs file fs' :
  load toml_from_str path fs = Some (Ok file, fs') ->
  file = FileConfig.default \/ exists text, toml_from_str text = Ok file.
Proof.
  unfold load. destruct path as [path|]; [|intros [= <- _]; by left].
  unfold mbind, action_bind. destruct (map_action _ _ fs) as [[[text|e] fs1]|]; [|done..].
  unfold lift_result. destruct (toml_from_str text) as [x|e] eqn:E; [|done].
  intros [= -> _]. right. by exists text.
Qed.

Lemma configure_Ok cli l fs s config fs' :
  configure cli l fs = Some (Ok (s, config), fs') ->
  exists file listen keypair st,
    (file = FileConfig.default \/ exists text, toml_from_str text = Ok file) /\
    s = resolve_settings cli file /\
    open_store s (databases l) (db_faults l) = Some (Ok st) /\
    config = mkNodeConfig keypair [listen] 60 (cluster_id s) (shards s) (discovery_settings s) st
      (max_connections s) (ip_colocation_limit s).
Proof.
  unfold configure, mbind, action_bind.
  destruct (map_action ConfigFailed _ fs) as [[[file|e] fs1]|] eqn:Ef; [|done..].
  apply map_action_Ok, load_Ok in Ef. unfold lift_result, lift_panic.
  destruct (multiaddr_from_str _) as [listen|e]; [cbn [map_err]|done].
  match goal with |- match ?key with _ => _ end = _ -> _ =>
    destruct key as [[[k|e] fs2]|]; [|done..] end.
  destruct (open_store _ _ _) as [[st|e]|] eqn:Est; [cbn|done..]. intros [= <- <- <-].
  by exists file, listen, k, st.
Qed.

(** C31. A configuration is well typed: for flags of their types and a TOML parser that
    respects the types of the file's keys, whatever else is in the file, every number the
    node is configured with fits its type (so no cast of it loses anything), it has a
    shard, listens on one address, and with [--rest-port] it has a store. *)
Theorem configuration_typed (cli : Cli.t) (l : Launch Keypair) (fs fs' : Fs) (s : Settings)
    (config : NodeConfig) :
  cli_typed cli -> (forall text file, toml_from_str text = Ok file -> file_typed file) ->
  configure cli l fs = Some (Ok (s, config), fs') ->
  in_u16 (cfg_cluster_id config) /\ Forall in_u16 (cfg_shards config) /\ cfg_shards config <> [] /\
  in_u32 (cfg_max_connections config) /\ in_u64 (cfg_ip_colocation_limit config) /\
  (exists addr, cfg_listen_addrs config = [addr]) /\
  (forall d, cfg_discovery config = Some d ->
     in_u16 (ds_udp_port d) /\ in_u32 (ds_advertised_ip d) /\ in_u16 (ds_advertised_tcp_port d)) /\
  (is_Some (rest_port s) -> is_Some (cfg_store config)).
Proof.
  intros Hcli Htoml Hconf.
  destruct (configure_Ok _ _ _ _ _ _ Hconf) as (file & listen & keypair & st & Hfile & -> & Hst & ->).
  assert (settings_typed (resolve_settings cli file)) as (Hc & Ht & Hu & Hi & Hm & Hl & _ & Hs & Hne).
  { apply resolve_settings_typed; [done|]. destruct Hfile as [->|(text & E)]; [|by eapply Htoml].
    repeat split; try constructor; done. }
  cbn. split_and!; try done; [by eexists| |].
  - intros d. unfold discovery_settings. case_match; [|done]. by intros [= <-].
  - intros Hrest. unfold open_store in Hst. rewrite (bool_decide_true _ Hrest), orb_true_r in Hst.
    repeat case_match; simplify_eq; eauto.
Qed.

(** ** Starting *)

(** The reference: subscribe to the topics until one is refused, then dial. *)
Fixpoint subscribe_swarm (topics : list string) (sw : SW) : result string SW :=
  match topics with
  | [] => Ok sw
  | topic :: topics =>
      match Node.relay_subscribe topic sw with
      | (Ok _, sw) => subscribe_swarm topics sw
      | (Err e, _) => Err e
      end
  end.
Definition dial_swarm (addrs : list Multiaddr) (sw : SW) : SW :=
  foldl (fun sw a => (swarm_dial a sw).2) sw addrs.

(** The reply channels used so far are below [reply]. *)
Definition replies_below (reply : Z) (s : NodeState SW SqliteStore WakuEnr) : Prop :=
  Forall (fun r => r.1 < reply) (replies s).

Lemma replies_below_fresh reply s : replies_below reply s -> reply ∉ (replies s).*1.
Proof.
  intros Hr (r & -> & Hin)%list_elem_of_fmap. apply (proj1 (list.Forall_forall _ _) Hr) in Hin. lia.
Qed.

(** A command that is answered at once. *)
Definition answered (sw : SW) (reply : Z) (a : Answer) (s : NodeState SW SqliteStore WakuEnr)
    : NodeState SW SqliteStore WakuEnr :=
  set_replies (replies s ++ [(reply, a)]) (set_swarm sw s).

Lemma replies_below_answered sw reply a s :
  replies_below reply s -> replies_below (reply + 1) (answered sw reply a s).
Proof.
  intros Hr. apply list.Forall_app. split; [|apply Forall_singleton; cbn; lia].
  eapply list.Forall_impl; [exact Hr|cbn; lia].
Qed.

Lemma call_at_once {A} params cmd sw reply a (decode : Answer -> option (result string A)) r s :
  cmd <> CmdShutdown -> handle_command cmd s = Some (Ok tt, answered sw reply a s) ->
  decode a = Some r -> replies_below reply s ->
  Handle.call params cmd reply decode [] (Some s) = Done (map_err CommandError r) /\
  step_world params (mkWorld s true) (InCommand (Some cmd)) = mkWorld (answered sw reply a s) true.
Proof.
  intros Hc E Hd Hr. pose proof (run_one_command params _ _ _ Hc E) as Hrun. split.
  - unfold Handle.call. rewrite Hrun. cbn [wait]. unfold answered.
    cbn [replies set_replies]. rewrite answer_on_fresh by (by apply replies_below_fresh).
    cbn. by rewrite Hd.
  - unfold step_world. cbn [w_running w_node]. by rewrite Hrun.
Qed.

Lemma subscribe_all_run params cluster_id shards reply s :
  replies_below reply s ->
  match subscribe_swarm ((fun i => ShardId.pubsub_topic (ShardId.new cluster_id i)) <$> shards) (swarm s) with
  | Ok sw => exists rs,
      subscribe_all params cluster_id shards reply [] (mkWorld s true) =
        Some (Ok (mkWorld (set_replies rs (set_swarm sw s)) true)) /\
      replies_below (reply + Z.of_nat (length shards)) (set_replies rs (set_swarm sw s))
  | Err e =>
      subscribe_all params cluster_id shards reply [] (mkWorld s true) = Some (Err (CommandError e))
  end.
Proof.
  revert reply s. induction shards as [|i shards IH]; intros reply s Hr.
  { cbn. exists (replies s). rewrite Z.add_0_r. by destruct s. }
  cbn [fmap list_fmap subscribe_swarm subscribe_all head advance foldl].
  set (shard := ShardId.new cluster_id i).
  destruct (Node.relay_subscribe (ShardId.pubsub_topic shard) (swarm s)) as [res sw] eqn:E.
  assert (handle_command (CmdSubscribe shard reply) s =
    Some (Ok tt, answered sw reply (UnitAnswer ((fun _ => tt) <$> res)) s)) as Hcmd.
  { cbn [handle_command]. unfold mbind, action_bind, on_swarm, shard_topic. by rewrite E. }
  destruct (call_at_once params (CmdSubscribe shard reply) _ _ _ as_unit _ _ ltac:(done) Hcmd
    eq_refl Hr) as [Hcall Hstep].
  unfold subscribe. change (advance params (default [] None) ?w) with w.
  cbn [driver_of w_running w_node].
  rewrite Hcall, Hstep. destruct res as [b|e]; cbn [fmap result_fmap map_err]; [|done].
  specialize (IH (reply + 1) _ (replies_below_answered sw reply (UnitAnswer (Ok tt)) s Hr)).
  cbn [answered swarm set_replies set_swarm tail] in *.
  destruct (subscribe_swarm _ sw) as [sw'|e]; [|exact IH].
  destruct IH as (rs & -> & Hb). exists rs. split; [by destruct s|].
  replace (reply + Z.of_nat (length (i :: shards))) with (reply + 1 + Z.of_nat (length shards))
    by (cbn [length]; lia). exact Hb.
Qed.

Lemma dial_all_run params addrs reply s :
  replies_below reply s ->
  exists rs, dial_all params addrs reply [] (mkWorld s true) =
    Some (mkWorld (set_replies rs (set_swarm (dial_swarm addrs (swarm s)) s)) true).
Proof.
  revert reply s. induction addrs as [|a addrs IH]; intros reply s Hr.
  { exists (replies s). by destruct s. }
  cbn [dial_all head dial_swarm foldl].
  destruct (swarm_dial a (swarm s)) as [res sw] eqn:E.
  assert (handle_command (CmdDial a reply) s = Some (Ok tt, answered sw reply (UnitAnswer res) s))
    as Hcmd.
  { cbn [handle_command]. unfold mbind, action_bind, on_swarm. by rewrite E. }
  destruct (call_at_once params (CmdDial a reply) _ _ _ as_unit _ _ ltac:(done) Hcmd
    eq_refl Hr) as [Hcall Hstep].
  unfold dial. change (advance params (default [] None) ?w) with w.
  cbn [driver_of w_running w_node].
  rewrite Hcall, Hstep.
  destruct (IH (reply + 1) _ (replies_below_answered sw reply (UnitAnswer res) s Hr)) as (rs & E').
  exists rs. cbn [tail]. rewrite E'. by destruct s.
Qed.

(** C30. A program that is configured and spawned comes up on a quiet network, that is, when
    no swarm event and no other command reaches the driver before [main] is in its event loop
    (with events it may hang, see [startup_can_hang]): it
    subscribes to the topic of every configured shard of its cluster, in order, then dials
    every static node whatever comes of it, and enters the event loop with the driver
    running and an empty cache; a refused subscription, the only thing left that can fail,
    ends it with that error. *)
Theorem program_comes_up (cli : Cli.t) (l : Launch Keypair) (fs fs' : Fs) (s : Settings)
    (config : NodeConfig) (sp : Spawned) :
  configure cli l fs = Some (Ok (s, config), fs') ->
  spawn try_into_secp256k1 secp256k1_from_bytes pkg_version (dns_system l) config = Ok sp ->
  let topics := (fun i => ShardId.pubsub_topic (ShardId.new (cluster_id s) i)) <$> shards s in
  match subscribe_swarm topics (swarm (sp_node sp)) with
  | Ok sw => exists p, main cli l [] [] fs = Some (Ok p, fs') /\
      swarm (w_node (app_node (pg_app p))) = dial_swarm (staticnodes s) sw /\
      w_running (app_node (pg_app p)) = true /\ pg_ended p = false /\
      app_cache (pg_app p) = MessageCache.new /\
      pg_rest p = bool_decide (is_Some (rest_port s))
  | Err e => main cli l [] [] fs = Some (Err (NodeFailed (CommandError e)), fs')
  end.
Proof.
  intros Hconf Hsp topics. pose proof (spawn_Ok _ _ _ _ _ _ Hsp) as (_ & _ & _ & sw0 & sw1 & _ & _ & _ & Hn).
  assert (replies_below 0 (sp_node sp)) as Hr by (rewrite Hn; constructor).
  pose proof (subscribe_all_run (sp_params sp) (cluster_id s) (shards s) 0 _ Hr) as Hsub.
  unfold main, mbind, action_bind. rewrite Hconf, Hsp. cbn [map_err lift_result].
  unfold lift_panic, lift_result. cbn [program_of pg_params pg_app app_state_new app_node].
  fold topics in Hsub. destruct (subscribe_swarm topics _) as [sw|e]; [|by rewrite Hsub].
  destruct Hsub as (rs & -> & Hb). cbn [mbind option_bind map_err]. rewrite Z.add_0_l in Hb.
  destruct (dial_all_run (sp_params sp) (staticnodes s) _ _ Hb) as (rs' & ->).
  eexists. split; [reflexivity|]. done.
Qed.

(** ** What REST clients are served *)

(** The events sent so far. *)
Definition sent (p : Program) : list Event := events (w_node (app_node (pg_app p))).

(** The driver's state. *)
Definition node_of (s : AppState) : NodeState SW SqliteStore WakuEnr := w_node (app_node s).

(** A request moves the node and registers or polls topics; it delivers no message. *)
Definition serves (params : NodeParams) (s s' : AppState) : Prop :=
  moves params (node_of s) (node_of s') /\
  exists ops, app_cache s' = foldl MessageCache.step (app_cache s) ops /\
    MessageCache.received ops = [].

Lemma serves_refl params s : serves params s s.
Proof. split; [apply rtc_refl|]. by exists []. Qed.

Lemma serves_same params s s' :
  moves params (node_of s) (node_of s') -> app_cache s' = app_cache s -> serves params s s'.
Proof. intros He Hc. split; [done|]. by exists []. Qed.

Lemma serves_put_back params st s : serves params s (put_back st s).
Proof.
  apply serves_same; unfold put_back; destruct (app_store s) as [[|st']|]; try done;
    [by apply rtc_once, move_store|apply rtc_refl..].
Qed.

Lemma serves_trans params s1 s2 s3 :
  serves params s1 s2 -> serves params s2 s3 -> serves params s1 s3.
Proof.
  intros (He1 & o1 & Hc1 & Hr1) (He2 & o2 & Hc2 & Hr2). split; [unfold moves in *; by etrans|].
  exists (o1 ++ o2). rewrite foldl_app, <- Hc1. split; [done|].
  unfold MessageCache.received in *. by rewrite omap_app, Hr1, Hr2.
Qed.

Lemma serves_publish params shard m reply later s :
  serves params s (publish_and_answer params shard m reply later s).2.
Proof. apply serves_same; [apply moves_advance|done]. Qed.

Lemma serves_subscribe params topics reply before s :
  serves params s (Rest.relay_subscribe params topics reply before s).2.
Proof.
  revert reply before s. induction topics as [|t topics IH]; intros reply before s;
    [apply serves_refl|]. cbn [Rest.relay_subscribe].
  destruct (ContentTopic.parse t); [|apply serves_refl].
  destruct (autoshard _ _ _) as [shard|]; [|apply serves_refl].
  set (w := advance _ _ _). set (s' := set_node _ s).
  assert (serves params s s') as Hs'.
  { apply serves_same; [|done]. unfold moves. etrans; [apply moves_advance|apply moves_step_world]. }
  destruct (subscribe _ _ _ _ _) as [[[]|]|]; [|done..].
  eapply serves_trans; [exact Hs'|]. eapply serves_trans; [|apply IH].
  split; [apply rtc_refl|]. by exists [MessageCache.Register t].
Qed.

Lemma router_serves params r reply env s : serves params s (router params r reply env s).2.
Proof.
  destruct r as [| | |topics|topic b|topic|b|q| |]; cbn [router]; try apply serves_refl.
  - apply serves_subscribe.
  - unfold Rest.relay_publish. repeat case_match; try apply serves_refl. apply serves_publish.
  - unfold relay_messages. destruct (MessageCache.drain topic _) as [l c] eqn:E. cbn.
    split; [apply rtc_refl|]. exists [MessageCache.Drain topic]. cbn. by rewrite E.
  - unfold lightpush. repeat case_match; try apply serves_refl; apply serves_publish.
  - unfold Rest.store_query. repeat case_match; first [apply serves_refl|apply serves_put_back].
  - unfold Rest.metrics. destruct (the_store s) as [st|]; [|apply serves_refl].
    destruct (ms_message_count st) as [[c st']|]; [|apply serves_refl]. cbn.
    apply serves_put_back.
Qed.

(** The cache has been fed exactly the messages of the events [main] has received. *)
Definition history (p : Program) : Prop :=
  (pg_received p <= length (sent p))%nat /\
  exists ops, app_cache (pg_app p) = MessageCache.after ops /\
    (pg_rest p = true ->
     MessageCache.received ops = omap event_message (take (pg_received p) (sent p))).

Lemma history_serves p app ended :
  history p -> serves (pg_params p) (pg_app p) app ->
  history (mkProgram (pg_params p) app (pg_rest p) (pg_received p) ended).
Proof.
  intros (Hle & ops & Hc & Hr) ([l He]%moves_events & ops' & Hc' & Hr').
  unfold history, sent, node_of in *. cbn.
  rewrite He, length_app. split; [lia|]. exists (ops ++ ops'). split.
  - unfold MessageCache.after in *. by rewrite foldl_app, <- Hc.
  - intros Hrest. rewrite take_app_le, <- (Hr Hrest) by done.
    unfold MessageCache.received in *. by rewrite omap_app, Hr', app_nil_r.
Qed.

Lemma history_take_event p : history p -> history (main_turn TakeEvent p).
Proof.
  intros Hh. cbn [main_turn]. fold (sent p).
  destruct (sent p !! pg_received p) as [ev|] eqn:Eev.
  2: { case_match; [done|]. apply history_serves; [done|apply serves_refl]. }
  destruct Hh as (Hle & ops & Hc & Hr). pose proof (lookup_lt_Some _ _ _ Eev) as Hlt.
  unfold history, sent in *.
  assert (omap event_message (take (S (pg_received p)) (events (w_node (app_node (pg_app p))))) =
    omap event_message (take (pg_received p) (events (w_node (app_node (pg_app p))))) ++
    option_list (event_message ev)) as Htake.
  { rewrite (take_S_r _ _ ev) by done. rewrite omap_app. cbn. by destruct (event_message ev). }
  destruct (event_message ev) as [m|] eqn:Em; cbn in Htake;
    [destruct (pg_rest p) eqn:Hrest|]; cbn; (split; [lia|]).
  - exists (ops ++ [MessageCache.Receive m]). unfold MessageCache.after, MessageCache.received in *.
    rewrite foldl_app, <- Hc, omap_app, (Hr eq_refl), Htake. done.
  - by exists ops.
  - exists ops. split; [done|]. intros Hrest. by rewrite (Hr Hrest), Htake, app_nil_r.
Qed.

Lemma history_activity p a : history p -> history (activity p a).
Proof.
  intros Hh. unfold activity. destruct (pg_ended p); [done|].
  destruct a as [i|i|enr|[]|r reply env].
  - apply history_serves; [done|]. apply serves_same; [apply moves_step_world|done].
  - destruct (run_put_task i _) as [s'|] eqn:E; [|done].
    apply history_serves; [done|]. apply serves_same; [|done]. by eapply rtc_once, move_put.
  - apply history_serves; [done|]. apply serves_same; [|done]. apply rtc_once, move_book.
  - apply (history_serves p); [done|]. apply serves_same; [apply moves_step_world|done].
  - by apply history_take_event.
  - destruct (pg_rest p) eqn:Hrest; [|done]. rewrite <- Hrest.
    apply history_serves; [done|apply router_serves].
Qed.

Lemma history_execute activities p : history p -> history (execute activities p).
Proof.
  revert p. induction activities as [|a activities IH]; intros p Hp; [done|].
  by apply IH, history_activity.
Qed.

Lemma history_main cli l b1 b2 fs p fs' : main cli l b1 b2 fs = Some (Ok p, fs') -> history p.
Proof.
  unfold main, mbind, action_bind, lift_panic, lift_result.
  destruct (configure cli l fs) as [[[[s config]|e] fs1]|]; [|done..].
  destruct (map_err NodeFailed (spawn _ _ _ _ _)) as [sp|]; [|done].
  destruct (subscribe_all _ _ _ _ _ _) as [[w|]|]; [cbn|done..].
  destruct (dial_all _ _ _ _ _) as [w'|]; [cbn|done]. intros [= <- <-].
  split; [cbn; lia|]. by exists [].
Qed.

(** C12. What a REST client is served is what was relayed: in every execution of the program
    from its start, whatever the driver, the spawned tasks, the event loop and other
    clients do in between, a poll of a topic answers with the latest of the relayed
    messages on that topic that [main] has received, in order, each once, at most a
    hundred. *)
Theorem polled_were_relayed (cli : Cli.t) (l : Launch Keypair) (b1 b2 : list (list Input))
    (fs fs' : Fs) (p : Program) (activities : list Activity) (topic : string) (reply : Z)
    (env : list (list Input)) :
  main cli l b1 b2 fs = Some (Ok p, fs') -> pg_rest (execute activities p) = true ->
  let p' := execute activities p in
  exists polled,
    (router (pg_params p') (GetRelayMessages topic) reply env (pg_app p')).1 =
      Responds (json (MessagesBody (RestWakuMessage.from_message <$> polled))) /\
    polled `suffix_of` filter (fun m => content_topic m = topic)
      (omap event_message (take (pg_received p') (sent p'))) /\
    (length polled <= 100)%nat.
Proof.
  intros Hmain Hrest p'. apply history_main in Hmain.
  apply (history_execute activities) in Hmain as (_ & ops & Hc & Hr). specialize (Hr Hrest).
  fold p' in Hc, Hr. cbn [router]. unfold relay_messages, MessageCache.drain. rewrite Hc.
  rewrite MessageCache.lookup_after. destruct (MessageCache.unread topic ops) as [q|] eqn:Eu; cbn.
  - exists (MessageCache.newest CACHE_PER_TOPIC q). split; [done|]. split.
    + etrans; [apply MessageCache.newest_suffix|]. rewrite <- Hr. by apply MessageCache.unread_suffix.
    + rewrite MessageCache.length_newest. unfold CACHE_PER_TOPIC. lia.
  - exists []. split; [done|]. split; [apply suffix_nil|cbn; lia].
Qed.

(** The event loop catches up. *)
Lemma take_events n p :
  pg_ended p = false -> pg_rest p = true -> (pg_received p + n <= length (sent p))%nat ->
  let p' := execute (replicate n (MainTurn TakeEvent)) p in
  pg_params p' = pg_params p /\
  app_cache (pg_app p') = foldl (fun c m => MessageCache.record m c) (app_cache (pg_app p))
    (omap event_message (take n (drop (pg_received p) (sent p)))).
Proof.
  revert p. induction n as [|n IH]; intros p He Hr Hn; [done|].
  destruct (lookup_lt_is_Some_2 (sent p) (pg_received p) ltac:(lia)) as [ev Hev].
  assert (activity p (MainTurn TakeEvent) = main_turn TakeEvent p) as Ea
    by (unfold activity; by rewrite He).
  unfold execute in *. cbn [replicate foldl]. rewrite Ea. set (p1 := main_turn TakeEvent p).
  assert (p1 = mkProgram (pg_params p)
    (match event_message ev with
     | Some m => set_cache (MessageCache.record m (app_cache (pg_app p))) (pg_app p)
     | None => pg_app p end) true (S (pg_received p)) false) as Ep1.
  { unfold p1. cbn [main_turn]. fold (sent p). by rewrite Hev, Hr, He. }
  assert (sent p1 = sent p) as Es by (rewrite Ep1; unfold sent; by destruct (event_message ev)).
  destruct (IH p1) as [E1 E2]; [by rewrite Ep1..|rewrite Es, Ep1; cbn; lia|].
  split; [by rewrite E1, Ep1|]. rewrite E2, Es, (drop_S _ _ _ Hev). rewrite Ep1. cbn.
  by destruct (event_message ev).
Qed.

Lemma registered_record m topic (c : MessageCache.t) :
  is_Some (c !! topic) -> is_Some (MessageCache.record m c !! topic).
Proof. rewrite MessageCache.lookup_record. by intros [l ->]. Qed.

Lemma registered_records ms topic (c : MessageCache.t) :
  is_Some (c !! topic) -> is_Some (foldl (fun c m => MessageCache.record m c) c ms !! topic).
Proof.
  revert c. induction ms as [|m ms IH]; intros c Hc; [done|]. by apply IH, registered_record.
Qed.

(** C11. A relayed message reaches the REST client: from any point of any execution, when the
    driver accepts a message on a content topic a client has registered and [main] then
    receives the events up to it, the next poll of the topic ends with that message. *)
Theorem relayed_message_polled (cli : Cli.t) (l : Launch Keypair) (b1 b2 : list (list Input))
    (fs fs' : Fs) (p0 : Program) (activities : list Activity) (clock : Clock) (source : PeerId)
    (id : bytes) (message : gossipsub_message) (shard : ShardId.t) (m : WakuMessage) (reply : Z)
    (env : list (list Input)) :
  main cli l b1 b2 fs = Some (Ok p0, fs') ->
  let p := execute activities p0 in
  pg_rest p = true -> pg_ended p = false -> w_running (app_node (pg_app p)) = true ->
  evt_rx_open (w_node (app_node (pg_app p))) = true ->
  is_Some (app_cache (pg_app p) !! content_topic m) ->
  ShardId.parse (Relay.topic message) = Ok shard -> prost_decode (data message) = Ok m ->
  relay_verdict clock m = Some Accept ->
  let pending := S (length (sent p) - pg_received p) in
  let p' := execute (Drive (InEvent clock (RelayMessage source id message)) ::
    replicate pending (MainTurn TakeEvent)) p in
  exists older,
    (router (pg_params p') (GetRelayMessages (content_topic m)) reply env (pg_app p')).1 =
    Responds (json (MessagesBody (older ++ [RestWakuMessage.from_message m]))).
Proof.
  intros Hmain p Hrest Hend Hrun Hopen Hreg Hshard Hdec Hver pending p'.
  destruct (history_execute activities p0 (history_main _ _ _ _ _ _ _ Hmain)) as [Hle _]. fold p in Hle.
  set (w' := mkWorld (accepted clock source id (Relay.topic message) shard m
    (w_node (app_node (pg_app p)))) true).
  assert (p' = execute (replicate pending (MainTurn TakeEvent)) (with_world w' p)) as Ep'.
  { unfold p', execute. cbn [foldl]. f_equal. unfold activity. rewrite Hend. f_equal.
    unfold step_world. rewrite Hrun. cbn [run]. rewrite relay_message_run by done. rewrite Hshard, Hdec. cbn [ok]. by rewrite Hver. }
  assert (sent (with_world w' p) = sent p ++ [EvMessage shard m
    (default (deterministic_hash (Relay.topic message) m) (hash_of_slice id)) source]) as Es by done.
  destruct (take_events pending (with_world w' p)) as [_ Hc]; [done..| |].
  { rewrite Es, length_app. cbn. unfold pending. lia. }
  rewrite <- Ep', Es in Hc. clearbody p'. cbn [with_world pg_received pg_app] in Hc.
  rewrite take_ge, drop_app_le, omap_app, foldl_app in Hc; [cbn in Hc|done|].
  2: { rewrite length_drop, length_app. cbn. unfold pending. lia. }
  set (c := foldl (fun c m => MessageCache.record m c) _ _) in Hc.
  assert (is_Some (c !! content_topic m)) as [q Hq] by by apply registered_records.
  cbn [router]. unfold relay_messages, MessageCache.drain.
  rewrite Hc, MessageCache.lookup_record, Hq. cbn. rewrite decide_True by done. cbn.
  eexists. by rewrite fmap_app.
Qed.

(** ** What REST clients find in the store *)

(** The state once the driver has accepted a message and the put it spawned has run. *)
Lemma accepted_then_put (clock : Clock) (source : PeerId) (id : bytes) (message : gossipsub_message)
    (shard : ShardId.t) (m : WakuMessage) (d : SqliteStore) (p : Program) :
  let s := w_node (app_node (pg_app p)) in
  let topic := Relay.topic message in
  pg_ended p = false -> w_running (app_node (pg_app p)) = true -> evt_rx_open s = true ->
  store s = Some d -> healthy d ->
  ShardId.parse topic = Ok shard -> prost_decode (data message) = Ok m ->
  relay_verdict clock m = Some Accept -> ephemeral m <> Some true ->
  let p' := execute [Drive (InEvent clock (RelayMessage source id message));
    PutTask (length (put_tasks s))] p in
  exists s', pg_app p' = set_node (mkWorld s' true) (pg_app p) /\
    store s' = Some (mkSqliteStore (insert_or_ignore (deterministic_hash topic m)
      (row_of topic m (rx_time_nanos clock)) (rows d)) []).
Proof.
  intros s topic Hend Hrun Hopen Hst Hd Hshard Hdec Hver Heph p'.
  set (d' := mkSqliteStore (insert_or_ignore (deterministic_hash topic m)
    (row_of topic m (rx_time_nanos clock)) (rows d)) []).
  assert (ms_put topic m (rx_time_nanos clock) d = Some (Ok tt, d')) as Hput
    by (cbn [ms_put sqlite_store]; unfold put; by rewrite statement_healthy).
  destruct (accepted_task_run (pg_params p) clock source id message shard m d _ d' s Hopen Hst Hshard
    Hdec Hver Heph Hput) as [E1 E2].
  unfold p', execute. cbn [foldl].
  assert (activity p (Drive (InEvent clock (RelayMessage source id message))) =
    with_world (mkWorld (accepted clock source id topic shard m s) true) p) as ->.
  { unfold activity. rewrite Hend. f_equal. unfold step_world. rewrite Hrun. cbn [run].
    fold s. by rewrite E1. }
  unfold activity. cbn [pg_ended with_world pg_app app_node set_node w_node].
  rewrite Hend. unfold s, topic in *. rewrite E2. eexists. by split.
Qed.

(** C13. A relayed message is found over REST: once the driver has accepted a message that is
    not ephemeral and whose hash is not in the store yet, and its put has run on a database
    without faults, a client that asks the store with parameters the message matches and a
    page size the store serves ([page_size_ok]: not [u64::MAX], nor [i64::MAX] in a build with
    overflow checks), and follows the cursors, finds it under the hexadecimal of its RFC-14
    hash with its topic, and with its content unless [includeData] is false. *)
Theorem relayed_message_queried (clock : Clock) (source : PeerId) (id : bytes)
    (message : gossipsub_message) (shard : ShardId.t) (m : WakuMessage) (d : SqliteStore)
    (p : Program) (prm : StoreParams) :
  let s := w_node (app_node (pg_app p)) in
  let topic := Relay.topic message in
  let hash := deterministic_hash topic m in
  pg_ended p = false -> w_running (app_node (pg_app p)) = true -> evt_rx_open s = true ->
  app_store (pg_app p) = Some NodeStore ->
  store s = Some d -> healthy d -> hashes_ok (rows d) -> rows d !! hash = None ->
  ShardId.parse topic = Ok shard -> prost_decode (data message) = Ok m -> wf_message m ->
  relay_verdict clock m = Some Accept -> ephemeral m <> Some true ->
  sp_cursor prm = None -> page_size_ok (params_to_query prm None) ->
  matches (params_to_query prm None) (hash, row_of topic m (rx_time_nanos clock)) = true ->
  let p' := execute [Drive (InEvent clock (RelayMessage source id message));
    PutTask (length (put_tasks s))] p in
  exists found, rest_fetch (pg_params p) (S (S (size (rows d)))) prm (pg_app p') =
      Some (found, pg_app p') /\
    mkStoreMessage (@text_encode HEX hash)
      (if default true (sp_include_data prm) then Some (RestWakuMessage.from_message m) else None)
      topic ∈ found.
Proof.
  intros s topic hash Hend Hrun Hopen Happ Hst Hd Hh Hnew Hshard Hdec Hwf Hver Heph Hcur Hpage
    Hmatch p'.
  destruct (accepted_then_put clock source id message shard m d p Hend Hrun Hopen Hst Hd Hshard Hdec
    Hver Heph) as (s' & Hp' & Hs'). fold s topic hash in Hs'.
  change (pg_app p' = set_node (mkWorld s' true) (pg_app p)) in Hp'. clearbody p'.
  rewrite insert_or_ignore_new in Hs' by done.
  set (d' := mkSqliteStore _ _) in Hs'. set (q := params_to_query prm None) in *.
  assert (hashes_ok (rows d')) as Hh'.
  { intros h r. cbn. rewrite lookup_insert_Some. intros [[<- _]|[_ Hl]]; [|by eapply Hh].
    apply deterministic_hash_length. }
  assert (size (rows d') = S (size (rows d))) as Hsize by (cbn; by rewrite map_size_insert_None).
  exists (store_message_of <$> (stored q <$> all_matches q (rows d'))). split.
  - destruct (rest_fetch_matches (pg_params p) prm (pg_app p') d') as (d2 & E & _ & Hsame); [|done..|].
    + unfold the_store. rewrite Hp'. cbn. by rewrite Happ.
    + rewrite Hsame, Hsize, Nat.add_0_r in E by done. exact E.
  - apply list_elem_of_fmap. exists (stored q (hash, row_of topic m (rx_time_nanos clock))). split.
    + unfold store_message_of, stored, q. cbn. rewrite row_to_message_of by done.
      by destruct (default true (sp_include_data prm)).
    + apply list_elem_of_fmap. eexists. split; [reflexivity|]. apply elem_of_all_matches. cbn.
      by rewrite lookup_insert_eq.
Qed.

End Main.

(** ** A concrete program *)

#[local] Existing Instances toy_sha256 countable_prost log_swarm demo_crypto demo_dns demo_enr.
#[local] Existing Instances demo_build demo_service demo_profile demo_swarm_build.
#[local] Existing Instances hex_encodings coded_rest_text coded_multiaddr_text.

Definition demo_launch : Launch bytes := mkLaunch [x07] [x05] (fun _ => ∅) [] None.

Abbreviation demo_main := (main Some Ok Ok (fun _ => Ok demo_file) "0.1.0" demo_cli demo_launch [] []).

Lemma configuration_typed_witness :
  exists s config fs', configure Some Ok (fun _ => Ok demo_file) demo_cli demo_launch demo_fs =
    Some (Ok (s, config), fs') /\ is_Some (cfg_store config).
Proof.
  destruct (configure Some Ok (fun _ => Ok demo_file) demo_cli demo_launch demo_fs)
    as [[[[s config]|e] fs']|] eqn:Ec; [|vm_compute in Ec; discriminate Ec..].
  exists s, config, fs'. split; [reflexivity|].
  eapply (configuration_typed Some Ok (fun _ => Ok demo_file) demo_cli demo_launch demo_fs fs' s config);
    [| |exact Ec|].
  - unfold cli_typed, opt_in. cbn. split_and!; try done;
      try (intros x [= <-]; unfold in_u; lia).
  - intros text file [= <-]. unfold file_typed, opt_in. cbn. split_Forall.
    split_and!; try done; try (intros x [= <-]); unfold in_u; lia.
  - vm_compute in Ec. injection Ec as <- _ _. eexists. reflexivity.
Defined.

Lemma program_comes_up_witness :
  exists p fs', demo_main demo_fs = Some (Ok p, fs') /\
    calls (swarm (w_node (app_node (pg_app p)))) =
      [CallBuild [x05]; CallSubscribe "/waku/2/rs/1/3"; CallSubscribe "/waku/2/rs/1/5";
       CallDial [Ip4 0x0A000002; Tcp 1]].
Proof.
  destruct (configure Some Ok (fun _ => Ok demo_file) demo_cli demo_launch demo_fs)
    as [[[[s config]|e] fs']|] eqn:Ec; [|vm_compute in Ec; discriminate Ec..].
  destruct (spawn Some Ok "0.1.0" (dns_system demo_launch) config) as [sp|] eqn:Es;
    [|vm_compute in Ec; injection Ec as <- <- <-; vm_compute in Es; discriminate Es].
  pose proof (program_comes_up Some Ok Ok (fun _ => Ok demo_file) "0.1.0" demo_cli demo_launch demo_fs
    fs' s config sp Ec Es) as Hup. cbn zeta in Hup.
  vm_compute in Ec. injection Ec as <- <- <-. vm_compute in Es. injection Es as <-.
  cbv [subscribe_swarm] in Hup. cbn in Hup.
  destruct Hup as (p & E & Hsw & _). exists p. eexists. split; [exact E|]. rewrite Hsw. reflexivity.
Defined.

Definition demo_activities : list (Activity DemoEnr) :=
  [Serve (PostSubscriptions ["/a/1/b/p"]) 100 [];
   Drive (InEvent demo_clock (RelayMessage [x07] [x00] demo_gossip)); MainTurn TakeEvent].

Lemma polled_were_relayed_witness :
  exists p fs' polled, demo_main demo_fs = Some (Ok p, fs') /\
    (router (pg_params p) (GetRelayMessages "/a/1/b/p") 101 [] (pg_app (execute demo_activities p))).1 =
      Responds (json (MessagesBody (RestWakuMessage.from_message <$> polled))) /\
    polled `suffix_of` [demo_message 4].
Proof.
  destruct (demo_main demo_fs) as [[[p|e] fs']|] eqn:Em; [|vm_compute in Em; discriminate Em..].
  assert (pg_rest (execute demo_activities p) = true) as Hr
    by (vm_compute in Em; injection Em as <- <-; vm_compute; reflexivity).
  destruct (polled_were_relayed Some Ok Ok (fun _ => Ok demo_file) "0.1.0" demo_cli demo_launch [] []
    demo_fs fs' p demo_activities "/a/1/b/p" 101 [] Em Hr) as (polled & E & Hs & _).
  exists p, fs', polled. split; [reflexivity|].
  assert (pg_params (execute demo_activities p) = pg_params p) as Ep
    by (vm_compute in Em; injection Em as <- <-; vm_compute; reflexivity).
  rewrite Ep in E. split; [exact E|].
  assert (filter (fun m => content_topic m = "/a/1/b/p") (omap event_message
    (take (pg_received (execute demo_activities p)) (sent (execute demo_activities p)))) =
    [demo_message 4]) as El by (vm_compute in Em; injection Em as <- <-; vm_compute; reflexivity).
  rewrite El in Hs. exact Hs.
Defined.

Lemma relayed_message_polled_witness :
  exists p fs' older, demo_main demo_fs = Some (Ok p, fs') /\
    let p' := execute demo_activities p in
    (router (pg_params p') (GetRelayMessages "/a/1/b/p") 101 [] (pg_app p')).1 =
    Responds (json (MessagesBody (older ++ [RestWakuMessage.from_message (demo_message 4)]))).
Proof.
  destruct (demo_main demo_fs) as [[[p|e] fs']|] eqn:Em; [|vm_compute in Em; discriminate Em..].
  pose proof (relayed_message_polled Some Ok Ok (fun _ => Ok demo_file) "0.1.0" demo_cli demo_launch
    [] [] demo_fs fs' p (take 1 demo_activities) demo_clock [x07] [x00] demo_gossip (ShardId.new 1 0)
    (demo_message 4) 101 [] Em) as H.
  exists p, fs'. vm_compute in Em. injection Em as <- <-.
  destruct H as (older & E); [first [vm_compute; reflexivity|eexists; vm_compute; reflexivity]..|].
  exists older. split; [reflexivity|exact E].
Defined.

Definition demo_prm : StoreParams :=
  mkStoreParams (Some "/waku/2/rs/1/0") (Some "/a/1/b/p") None None None None None None.

Lemma relayed_message_queried_witness :
  exists p fs' found, demo_main demo_fs = Some (Ok p, fs') /\
    rest_fetch (pg_params p) 2 demo_prm (pg_app (execute
      [Drive (InEvent demo_clock (RelayMessage [x07] [x00] demo_gossip)); PutTask 0] p)) =
    Some (found, pg_app (execute
      [Drive (InEvent demo_clock (RelayMessage [x07] [x00] demo_gossip)); PutTask 0] p)) /\
    mkStoreMessage (hex_of_bytes (deterministic_hash "/waku/2/rs/1/0" (demo_message 4)))
      (Some (RestWakuMessage.from_message (demo_message 4))) "/waku/2/rs/1/0" ∈ found.
Proof.
  destruct (demo_main demo_fs) as [[[p|e] fs']|] eqn:Em; [|vm_compute in Em; discriminate Em..].
  pose proof (relayed_message_queried demo_clock [x07] [x00] demo_gossip (ShardId.new 1 0)
    (demo_message 4) (mkSqliteStore ∅ []) p demo_prm) as H.
  assert (wf_message (demo_message 4)) as Hwf by by apply demo_message_wf.
  assert (hashes_ok ∅) as Hh by (intros h r Hl; by rewrite lookup_empty in Hl).
  exists p, fs'. vm_compute in Em. injection Em as <- <-.
  destruct H as (found & E & Hin);
    [vm_compute; reflexivity|vm_compute; reflexivity|vm_compute; reflexivity|vm_compute; reflexivity|
     vm_compute; reflexivity|reflexivity|exact Hh|apply lookup_empty|vm_compute; reflexivity|
     vm_compute; reflexivity|exact Hwf|vm_compute; reflexivity|discriminate|reflexivity|
     split; cbn; lia|vm_compute; reflexivity|].
  exists found. split; [reflexivity|]. split; [exact E|exact Hin].
Defined.
