(* ===== verification/Tests.v ===== *)
(** * Tests: the repository's unit tests, on the model

    The unit tests of the crates, translated statement by statement and run on the
    definitions that model the code they test: a module per test module, a definition per
    test, true when every assertion holds and no [unwrap] fails.  [unit_tests_pass] runs
    them.  SHA-256 is the real one ([Sha2]); the other libraries are the instances of the
    witnesses.  Left out are the tests that are ignored, that exercise a library only (the
    TOML parser), or that need a network. *)

From Stdlib Require Import Strings.Byte Strings.Ascii.
From stdpp Require Import base gmap strings list numbers.
From S2P Require Import Prelude Bytes Text Float64 Core Sha2 Framing Wire Rln Enr Net Discv5 Dns Relay Store StoreServe Services Ratelimit Node NodeFacts Handle Discovery Cache Rest Spawn Settings.

Open Scope Z_scope.

#[local] Existing Instances sha2 countable_prost.
#[local] Instance debug_build : BuildProfile := true.

(** [assert_eq!], [assert_ne!] and [unwrap]. *)
Definition assert_eq {A} `{EqDecision A} (a b : A) : bool := bool_decide (a = b).
Definition assert_ne {A} `{EqDecision A} (a b : A) : bool := negb (assert_eq a b).
Definition unwrap {E A} (r : result E A) (test : A -> bool) : bool :=
  match r with Ok a => test a | Err _ => false end.
Definition is_err {E A} (r : result E A) : bool := negb (is_ok r).

(** ** [waku-core] *)

Module HashTests.

Definition topic := "/waku/2/rs/1/0".

Definition hash_is_deterministic_and_field_sensitive : bool :=
  let a := message_new "/toychat/2/huilong/proto" (as_bytes "hello") in
  let b := message_new "/toychat/2/huilong/proto" (as_bytes "hello") in
  let c := mkWakuMessage (as_bytes "world") (content_topic a) (Core.version a) (timestamp a) (meta a)
    (rate_limit_proof a) (ephemeral a) in
  assert_eq (deterministic_hash topic a) (deterministic_hash topic b) &&
  assert_ne (deterministic_hash topic a) (deterministic_hash topic c) &&
  assert_ne (deterministic_hash topic a) (deterministic_hash "/waku/2/rs/1/1" a).

Definition optional_fields_change_the_hash_when_present : bool :=
  let bare := message_new "/a/1/b/proto" (as_bytes "x") in
  let with_meta := mkWakuMessage (payload bare) (content_topic bare) (Core.version bare) (timestamp bare)
    (Some (as_bytes "m")) (rate_limit_proof bare) (ephemeral bare) in
  let with_ts := mkWakuMessage (payload bare) (content_topic bare) (Core.version bare)
    (Some 1700000000000000000) (meta bare) (rate_limit_proof bare) (ephemeral bare) in
  assert_ne (deterministic_hash topic bare) (deterministic_hash topic with_meta) &&
  assert_ne (deterministic_hash topic bare) (deterministic_hash topic with_ts).

End HashTests.

Module ShardTests.

Definition pubsub_topic_roundtrip : bool :=
  let s := ShardId.new 1 3 in
  assert_eq (ShardId.pubsub_topic s) "/waku/2/rs/1/3" &&
  unwrap (ShardId.parse "/waku/2/rs/1/3") (fun parsed => assert_eq parsed s) &&
  is_err (ShardId.parse "/waku/2/1/3").

Definition autoshard_is_stable_and_in_range : bool :=
  unwrap (ContentTopic.parse "/toychat/2/huilong/proto") (fun ct =>
    match autoshard 1 ct 8, autoshard 1 ct 8 with
    | Some a, Some b =>
        assert_eq a b && bool_decide (ShardId.shard a < 8) && assert_eq (ShardId.cluster_id a) 1
    | _, _ => false
    end).

End ShardTests.

Module ContentTopicTests.

Definition roundtrip : bool :=
  unwrap (ContentTopic.parse "/toychat/2/huilong/proto") (fun ct =>
    assert_eq (ContentTopic.application ct) "toychat" &&
    assert_eq (ContentTopic.version ct) "2" &&
    assert_eq (ContentTopic.name ct) "huilong" &&
    assert_eq (ContentTopic.encoding ct) "proto" &&
    assert_eq (ContentTopic.to_string ct) "/toychat/2/huilong/proto").

Definition rejects_malformed : bool :=
  forallb (fun bad => is_err (ContentTopic.parse bad))
    ["toychat/2/huilong/proto"; "/a/b/c"; "/a/b/c/d/e"; "/a//c/d"].

End ContentTopicTests.

Module PresetTests.

Definition twn_shards_render : bool :=
  let topics := (fun s => ShardId.pubsub_topic (ShardId.new (NetworkPreset.cluster_id TWN) s)) <$>
    u16_range (NetworkPreset.shard_count TWN) in
  assert_eq (NetworkPreset.cluster_id TWN) 1 &&
  assert_eq (topics !! 0%nat) (Some "/waku/2/rs/1/0") &&
  assert_eq (topics !! 7%nat) (Some "/waku/2/rs/1/7") &&
  assert_eq (length topics) 8%nat.

End PresetTests.

(** ** [waku-enr] *)

Module EnrTests.

Definition indices_list_roundtrip : bool :=
  let rs := RelayShards.new 1 [0; 1; 2; 7] in
  unwrap (RelayShards.to_indices_list rs) (fun bytes =>
    assert_eq (length bytes) (3 + 8)%nat &&
    assert_eq (take 2 bytes) (to_be_bytes 2 1) &&
    assert_eq (bytes !! 2%nat) (Some x04) &&
    unwrap (RelayShards.from_indices_list bytes) (fun got => assert_eq got rs)).

Definition bit_vector_roundtrip_test : bool :=
  let rs := RelayShards.new 1 [0; 7; 8; 1023] in
  unwrap (RelayShards.to_bit_vector rs) (fun bytes =>
    assert_eq (length bytes) 130%nat &&
    unwrap (RelayShards.from_bit_vector bytes) (fun got => assert_eq got rs)).

Definition both_forms_describe_the_same_set : bool :=
  let rs := RelayShards.new 1 [0; 1; 2; 3; 4; 5; 6; 7] in
  unwrap (RelayShards.to_indices_list rs) (fun l =>
  unwrap (RelayShards.from_indices_list l) (fun a =>
  unwrap (RelayShards.to_bit_vector rs) (fun v =>
  unwrap (RelayShards.from_bit_vector v) (fun b => assert_eq a b)))).

Definition new_sorts_and_dedups : bool :=
  assert_eq (RelayShards.shards (RelayShards.new 1 [7; 1; 7; 0; 1])) [0; 1; 7].

Definition shard_ids_carry_cluster : bool :=
  let rs := RelayShards.new 1 [0; 3] in
  let ids := RelayShards.shard_ids rs in
  assert_eq (ids !! 0%nat) (Some (ShardId.new 1 0)) &&
  assert_eq (ids !! 1%nat) (Some (ShardId.new 1 3)) &&
  RelayShards.contains rs 1 3 && negb (RelayShards.contains rs 2 3).

Definition rejects_malformed : bool :=
  assert_eq (RelayShards.from_indices_list [x00; x01]) (Err (TooShort 2)) &&
  match RelayShards.from_indices_list [x00; x01; x04; x00; x00] with
  | Err (IndicesLengthMismatch _ _) => true
  | _ => false
  end &&
  match RelayShards.from_bit_vector [x00; x01; x02; x03] with
  | Err (BitVectorLength _ _) => true
  | _ => false
  end.

End EnrTests.

(** ** The codecs *)

(** What the round-trip tests of the codecs do: [write_lp] into an empty sink, then
    [read_lp] from it. *)
Definition through (write_lp : bytes -> bytes -> option bytes) (read_lp : reader bytes) (frame : bytes)
    (test : bytes -> bool) : bool :=
  match write_lp [] frame with
  | Some sink => unwrap (read_lp sink) (fun got => test got.1)
  | None => false
  end.

Module MetadataTests.

Definition varint_roundtrip : bool :=
  forallb (fun v =>
    match Metadata.write_uvarint (replicate 10 x00) v with
    | Some (buf, n) => unwrap (Metadata.read_uvarint (take n buf)) (fun got => assert_eq got.1 v)
    | None => false
    end) [0; 1; 127; 128; 300; 16384; 2 ^ 32 - 1].

Definition metadata_lp_roundtrip : bool :=
  let msg := Metadata.mkWakuMetadata (Some 1) [0; 1; 2; 7] in
  match Metadata.write_lp [] msg with
  | Some sink => unwrap (Metadata.read_lp sink) (fun got => assert_eq got.1 msg)
  | None => false
  end.

End MetadataTests.

Module LightpushTests.

Definition request_lp_roundtrip : bool :=
  let req := Lightpush.mkLightpushRequest "lp1" "/waku/2/rs/1/0"
    (Some (message_new "/app/1/x/proto" (as_bytes "hi"))) in
  through Lightpush.write_lp Lightpush.read_lp (encode_to_vec req) (fun bytes =>
    unwrap (prost_decode bytes) (fun got => assert_eq got req)).

Definition response_helpers : bool :=
  assert_eq (Lightpush.status_code (Lightpush.ok "a" 3)) 200 &&
  assert_eq (Lightpush.relay_peer_count (Lightpush.ok "a" 3)) 3 &&
  assert_eq (Lightpush.status_code (Lightpush.error "a" 503 "no peers")) 503.

End LightpushTests.

Module PeerExchangeTests.

Definition query_and_response_helpers : bool :=
  let q := PeerExchange.query 5 in
  let r := PeerExchange.response [[x01; x02; x03]; [x04; x05]] in
  assert_eq (PeerExchange.requested q) (Some 5) &&
  assert_eq (PeerExchange.enrs q) [] &&
  assert_eq (PeerExchange.requested r) None &&
  assert_eq (PeerExchange.enrs r) [[x01; x02; x03]; [x04; x05]].

Definition rpc_lp_roundtrip : bool :=
  let rpc := PeerExchange.response [replicate 32 x09] in
  through PeerExchange.write_lp PeerExchange.read_lp (encode_to_vec rpc) (fun bytes =>
    unwrap (prost_decode bytes) (fun got => assert_eq got rpc)).

End PeerExchangeTests.

Module FilterTests.

Definition subscribe_request_roundtrip : bool :=
  let req := Filter.mkFilterSubscribeRequest "f1" Filter.SUBSCRIBE (Some "/waku/2/rs/1/0")
    ["/app/1/x/proto"] in
  through Filter.write_lp Filter.read_lp (encode_to_vec req) (fun b =>
    unwrap (prost_decode b) (fun got => assert_eq got req)).

Definition message_push_roundtrip : bool :=
  let push := Filter.mkMessagePush (Some (message_new "/app/1/x/proto" (as_bytes "hi")))
    (Some "/waku/2/rs/1/0") in
  through Filter.write_lp Filter.read_lp (encode_to_vec push) (fun b =>
    unwrap (prost_decode b) (fun got => assert_eq got push)).

End FilterTests.

(** ** [waku-node]: counters and limiter *)

Module MetricsTests.

Definition counters_increment : bool :=
  let s := MetricsOps.snapshot (MetricsOps.rate_limited (MetricsOps.filter_pushes_add 3
    (MetricsOps.store_query (MetricsOps.relay_message (MetricsOps.relay_message MetricsOps.new))))) in
  assert_eq (Services.relay_messages s) 2 && assert_eq (Services.store_queries s) 1 &&
  assert_eq (Services.filter_pushes s) 3 && assert_eq (Services.rate_limited s) 1 &&
  assert_eq (Services.lightpush_requests s) 0.

End MetricsTests.

Module RatelimitTests.

(** One call of [allow], and what it should answer. *)
Fixpoint allows (rl : RateLimiter.t) (calls : list (PeerId * Z * bool)) : bool :=
  match calls with
  | [] => true
  | (peer, now, expected) :: calls =>
      let '(ok, rl) := RateLimiter.allow rl peer now in assert_eq ok expected && allows rl calls
  end.

Definition token_bucket_limits_and_refills : bool :=
  let peer := [x01] in
  let t0 := 5 in
  allows (RateLimiter.new 2 (f64_of_Z 1))
    [(peer, t0, true); (peer, t0, true); (peer, t0, false); (peer, t0 + 1000000000, true)].

Definition buckets_are_per_peer : bool :=
  let a := [x01] in
  let b := [x02] in
  let t0 := 5 in
  allows (RateLimiter.new 1 (f64_of_Z 1)) [(a, t0, true); (a, t0, false); (b, t0, true)].

End RatelimitTests.

(** ** [waku-relay] *)

Module RelayTests.

Definition message_id_matches_rfc14_hash : bool :=
  let shard := ShardId.new 1 0 in
  let msg := message_new "/toychat/2/huilong/proto" (as_bytes "hello") in
  let gmsg := mk_gossipsub_message None (encode_to_vec msg) None (ShardId.pubsub_topic shard) in
  let expected := deterministic_hash (ShardId.pubsub_topic shard) msg in
  assert_eq (waku_message_id gmsg) expected.

End RelayTests.

Module ValidationTests.

Definition facts (rln : RlnStatus) : MessageFacts := mkMessageFacts None rln false.

Definition acceptance_mapping : bool :=
  match acceptance_from Accept with MA_Accept => true | _ => false end &&
  match acceptance_from Reject with MA_Reject => true | _ => false end &&
  match acceptance_from Ignore with MA_Ignore => true | _ => false end.

Definition timestamp_outside_window_is_rejected : bool :=
  let at_gap gap := mkMessageFacts (Some gap) Absent false in
  assert_eq (validate (at_gap 25) policy_default) (Some Reject) &&
  assert_eq (validate (at_gap (-25)) policy_default) (Some Reject) &&
  assert_eq (validate (at_gap 5) policy_default) (Some Accept).

Definition without_enforcement_everything_in_time_is_accepted : bool :=
  assert_eq (validate (facts Relay.Invalid) policy_default) (Some Accept).

Definition rln_enforced_rules : bool :=
  let policy := mkValidationPolicy true (timestamp_tolerance_secs policy_default)
    (max_epoch_gap_secs policy_default) in
  let saturated := mkMessageFacts None Absent true in
  assert_eq (validate (facts Absent) policy) (Some Accept) &&
  assert_eq (validate saturated policy) (Some Ignore) &&
  assert_eq (validate (facts Relay.Invalid) policy) (Some Reject) &&
  assert_eq (validate (facts (Relay.Valid 3 false)) policy) (Some Accept) &&
  assert_eq (validate (facts (Relay.Valid 25 false)) policy) (Some Reject) &&
  assert_eq (validate (facts (Relay.Valid 0 true)) policy) (Some Reject).

End ValidationTests.

(** ** [waku-store] *)

Module SqliteTests.

Definition topic := "/waku/2/rs/1/0".

Definition msg (content_topic : string) (payload : bytes) (ts : Z) : WakuMessage :=
  mkWakuMessage payload content_topic None (Some ts) None None None.

(** A test on a store, opened by the first action. *)
Definition on_store (open : option (result StoreError () * SqliteStore)) (test : db bool) : bool :=
  match open with
  | Some (Ok _, d) => match test d with Some (Ok b, _) => b | _ => false end
  | _ => false
  end.

(** The payload of the [i]-th message of a page. *)
Definition payload_at (i : nat) (page : QueryResult) : option bytes :=
  payload <$> (messages page !! i ≫= stored_message).

Definition put_get_roundtrip_and_dedup : bool :=
  let m := mkWakuMessage (as_bytes "hello") "/app/1/x/proto" (Some 1) (Some 1000) (Some (as_bytes "m"))
    None None in
  on_store (in_memory []) (
    _ ← put topic m 1234;
    _ ← put topic m 1234;
    n ← count;
    got ← get (deterministic_hash topic m);
    none ← get (replicate 32 x00);
    mret (assert_eq n 1 &&
      match got with
      | Some got =>
          assert_eq (payload got) (payload m) && assert_eq (content_topic got) (content_topic m) &&
          assert_eq (meta got) (meta m) && assert_eq (Core.version got) (Core.version m) &&
          assert_eq (timestamp got) (timestamp m)
      | None => false
      end && assert_eq none None)).

Definition query_filters_orders_and_paginates : bool :=
  let put_chat i := put topic (msg "/app/1/chat/proto" [byte_of i] (100 + i)) 0 in
  let q := StoreQuery.with_page_size
    (StoreQuery.with_content_topic StoreQuery.new "/app/1/chat/proto") 3 in
  on_store (in_memory []) (
    _ ← put_chat 0; _ ← put_chat 1; _ ← put_chat 2; _ ← put_chat 3; _ ← put_chat 4;
    _ ← put topic (msg "/app/1/other/proto" (as_bytes "x") 102) 0;
    page1 ← query q;
    page2 ← match next_cursor page1 with
            | Some cursor => Store.query (StoreQuery.with_cursor q cursor)
            | None => mret (mkQueryResult [] None)
            end;
    ranged ← query (StoreQuery.with_time_range
      (StoreQuery.with_content_topic StoreQuery.new "/app/1/chat/proto") 101 103);
    mret (assert_eq (length (messages page1)) 3%nat &&
      assert_eq (payload_at 0 page1) (Some [x00]) && assert_eq (payload_at 2 page1) (Some [x02]) &&
      assert_ne (next_cursor page1) None &&
      assert_eq (length (messages page2)) 2%nat && assert_eq (payload_at 0 page2) (Some [x03]) &&
      assert_eq (next_cursor page2) None &&
      assert_eq (omap (fun m => stored_message m ≫= (fun w => head (payload w))) (messages ranged))
        [x01; x02])).

Definition include_data_false_returns_hashes_only : bool :=
  let m := msg "/app/1/x/proto" (as_bytes "hi") 5 in
  let q := StoreQuery.mk None [] None None [] false 20 true None in
  on_store (in_memory []) (
    _ ← put topic m 0;
    res ← query q;
    mret match messages res with
      | [one] => assert_eq (stored_message one) None &&
                 assert_eq (stored_hash one) (deterministic_hash topic m)
      | _ => false
      end).

Definition messages_persist_across_reopen : bool :=
  let m := msg "/app/1/x/proto" (as_bytes "durable") 42 in
  match connect ∅ [] with
  | Some (Ok _, first) =>
      match put topic m 0 first with
      | Some (Ok _, closed) =>
          on_store (connect (rows closed) []) (
            got ← get (deterministic_hash topic m);
            n ← count;
            mret (assert_eq (payload <$> got) (Some (payload m)) && assert_eq n 1))
      | _ => false
      end
  | _ => false
  end.

Definition exists_and_retention : bool :=
  let m i := msg "/app/1/x/proto" [byte_of i] (10 + i) in
  let hashes := (fun i => deterministic_hash topic (m i)) <$> [0; 1; 2; 3] in
  on_store (in_memory []) (
    _ ← put topic (m 0) 0; _ ← put topic (m 1) 0; _ ← put topic (m 2) 0; _ ← put topic (m 3) 0;
    found ← exists_ (hashes ++ [replicate 32 x09]);
    dropped ← delete_older_than 12;
    n ← count;
    trimmed ← enforce_capacity 1;
    n' ← count;
    mret (assert_eq (length found) 4%nat && assert_eq dropped 2 && assert_eq n 2 &&
      assert_eq trimmed 1 && assert_eq n' 1)).

End SqliteTests.

Module StoreQueryTests.

Definition request_lp_roundtrip : bool :=
  let req := StoreWire.mkStoreQueryRequest "abc" true None ["/app/1/x/proto"] None None [] None true
    (Some 10) in
  through StoreWire.write_lp StoreWire.read_lp (encode_to_vec req) (fun bytes =>
    unwrap (prost_decode bytes) (fun got => assert_eq got req)).

(** [serve(&store, &req).await]. *)
Definition serving (req : StoreWire.StoreQueryRequest) : db StoreWire.StoreQueryResponse := fun d =>
  match serve d req with Some (resp, d) => Some (Ok resp, d) | None => None end.

Definition serve_answers_from_the_store : bool :=
  let m i := mkWakuMessage [byte_of i] "/app/1/chat/proto" None (Some (100 + i)) None None None in
  let req := StoreWire.mkStoreQueryRequest "q1" true None ["/app/1/chat/proto"] None None [] None true
    (Some 2) in
  SqliteTests.on_store (in_memory []) (
    _ ← put "/waku/2/rs/1/0" (m 0) 0; _ ← put "/waku/2/rs/1/0" (m 1) 0; _ ← put "/waku/2/rs/1/0" (m 2) 0;
    resp ← serving req;
    mret (assert_eq (StoreWire.res_request_id resp) "q1" &&
      assert_eq (StoreWire.status_code resp) (Some 200) &&
      assert_eq (length (StoreWire.messages resp)) 2%nat &&
      assert_eq (payload <$> (head (StoreWire.messages resp) ≫= StoreWire.message)) (Some [x00]) &&
      assert_ne (StoreWire.pagination_cursor resp) None)).

End StoreQueryTests.

(** ** [waku-rln] *)

Module RlnTests.

#[local] Existing Instance toy_zerokit.

(** The pairs [keygen] returned. *)
Definition alice : RlnIdentity := generate (42, 7) 100.
Definition bob : RlnIdentity := generate (43, 8) 100.

(** [RlnRelay::new().expect(..)] and [relay.register(&identity).expect(..)]. *)
Definition registered (identity : RlnIdentity) (test : RlnRelay -> Z -> bool) : bool :=
  unwrap relay_new (fun relay =>
    let '(index, relay) := register identity relay in unwrap index (test relay)).

(** [log.observe(&proof).unwrap()]. *)
Definition observed (proof : RlnProof) (log : NullifierLog)
    (test : NullifierOutcome -> NullifierLog -> bool) : bool :=
  let '(outcome, log) := observe proof log in unwrap outcome (fun o => test o log).

Definition is_original (o : NullifierOutcome) : bool := match o with Original => true | _ => false end.
Definition is_duplicate (o : NullifierOutcome) : bool := match o with Duplicate => true | _ => false end.

(** [assert_eq!(validator.verify_inbound(..), expected)]. *)
Fixpoint verdicts (v : RlnValidator) (calls : list (RlnProof * bytes * Z * option bool)) : bool :=
  match calls with
  | [] => true
  | (proof, signal, now, expected) :: calls =>
      let '(verdict, v) := verify_inbound proof signal now v in
      match verdict, expected with
      | Rln.Valid d, Some d' => assert_eq d d'
      | Rln.Invalid, None => true
      | _, _ => false
      end && verdicts v calls
  end.

Definition valid_proof_verifies : bool :=
  registered alice (fun relay index =>
    unwrap (prove relay alice index (as_bytes "hello rln") 42 1) (fun proof =>
    unwrap (verify relay proof) id)).

Definition proof_survives_serialization_roundtrip : bool :=
  registered alice (fun relay index =>
    unwrap (prove relay alice index (as_bytes "hello") 1 0) (fun proof =>
    unwrap (to_bytes proof) (fun bytes =>
    unwrap (from_bytes bytes) (fun restored =>
      unwrap (verify relay restored) id &&
      assert_eq (nullifier restored) (nullifier proof) &&
      assert_eq (proof_root restored) (proof_root proof))))).

Definition proof_verifies_on_a_second_node_with_the_same_membership : bool :=
  registered alice (fun node_a idx =>
    unwrap (prove node_a alice idx (as_bytes "cross-node") 11 0) (fun proof =>
    unwrap (to_bytes proof) (fun wire =>
    registered alice (fun node_b _ =>
      unwrap (from_bytes wire) (fun received =>
      unwrap (verify node_b received) id))))).

Definition proof_against_stale_root_fails : bool :=
  registered alice (fun relay idx =>
    unwrap (prove relay alice idx (as_bytes "msg") 7 0) (fun proof =>
      unwrap (verify relay proof) id &&
      let '(index, relay) := register bob relay in
      unwrap index (fun _ => unwrap (verify relay proof) negb))).

Definition double_signaling_recovers_the_identity_secret : bool :=
  registered alice (fun relay index =>
    unwrap (prove relay alice index (as_bytes "message one") 5 0) (fun p1 =>
    unwrap (prove relay alice index (as_bytes "message two") 5 0) (fun p2 =>
    observed p1 log_new (fun o log => is_original o &&
      observed p2 log (fun o _ =>
        match o with
        | DoubleSignaling recovered_secret => assert_eq recovered_secret (fr_of_secret (secret alice))
        | _ => false
        end))))).

Definition distinct_message_ids_within_limit_are_ok : bool :=
  registered alice (fun relay index =>
    unwrap (prove relay alice index (as_bytes "a") 9 0) (fun p0 =>
    unwrap (prove relay alice index (as_bytes "b") 9 1) (fun p1 =>
    observed p0 log_new (fun o log => is_original o &&
      observed p1 log (fun o log => is_original o && assert_eq (tracked_epochs log) 1%nat))))).

Definition EPOCH_SIZE : Z := 600.

Definition inbound_verifier_accepts_a_well_formed_proof : bool :=
  registered alice (fun relay idx =>
    let now := 600 * 100 in
    let epoch := now / EPOCH_SIZE in
    unwrap (prove relay alice idx (as_bytes "hi") epoch 0) (fun proof =>
      verdicts (validator_new relay EPOCH_SIZE) [(proof, as_bytes "hi", now, Some false)])).

Definition inbound_verifier_rejects_wrong_signal_stale_epoch_and_double_signal : bool :=
  registered alice (fun relay idx =>
    let now := 600 * 100 in
    let epoch := now / EPOCH_SIZE in
    unwrap (prove relay alice idx (as_bytes "real") epoch 0) (fun proof =>
    unwrap (prove relay alice idx (as_bytes "old") (epoch - 50) 1) (fun stale =>
    unwrap (prove relay alice idx (as_bytes "spam one") epoch 0) (fun dup_a =>
    unwrap (prove relay alice idx (as_bytes "spam two") epoch 0) (fun dup_b =>
      verdicts (validator_new relay EPOCH_SIZE)
        [(proof, as_bytes "forged", now, None); (stale, as_bytes "old", now, None);
         (dup_a, as_bytes "spam one", now, Some false); (dup_b, as_bytes "spam two", now, Some true)]))))).

Definition replaying_the_same_message_is_a_duplicate : bool :=
  registered alice (fun relay index =>
    unwrap (prove relay alice index (as_bytes "dup") 3 0) (fun proof =>
    observed proof log_new (fun o log => is_original o &&
      observed proof log (fun o _ => is_duplicate o)))).

End RlnTests.

(** ** [waku-discv5] *)

Module DiscoveryTests.

#[local] Existing Instances demo_crypto demo_enr demo_build demo_service.

Abbreviation Config := (DiscoveryConfig DemoEnr bytes).

(** [Discovery::new(cfg)]; [fresh] is the key it generates when the configuration has none. *)
Definition fresh : bytes := [x07].
Definition with_key (c : Config) (key : bytes) (tcp_port : Z) : Config :=
  mkDiscoveryConfig (dc_listen_ip c) (dc_udp_port c) (Some tcp_port) (dc_external_ip c) (dc_cluster_id c)
    (dc_shards c) (dc_bootstrap c) (Some key).

Definition local_enr_carries_relay_shards : bool :=
  let cfg : Config := config_with_cluster (discovery_config_new 0) 1 [0; 1; 2; 7] in
  unwrap (discovery_new fresh cfg) (fun disco =>
    match enr_relay_shards (local_enr disco) with
    | Some shards => assert_eq (RelayShards.cluster_id shards) 1 &&
                     assert_eq (RelayShards.shards shards) [0; 1; 2; 7]
    | None => false
    end).

Definition enr_peer_id_matches_the_libp2p_identity : bool :=
  (* an identity of the witnesses is its own peer id and secret *)
  let expected := [x05] in
  let cfg := with_key (config_with_cluster (discovery_config_new 0) 1 [0]) [x05] 40404 in
  unwrap (discovery_new fresh cfg) (fun disco =>
    let enr := local_enr disco in
    assert_eq (enr_peer_id enr) (Some expected) &&
    match enr_to_dialable enr with
    | Some dialable =>
        assert_eq (dp_peer_id dialable) expected &&
        match head (dp_addrs dialable) with
        | Some addr => bool_decide (Tcp 40404 ∈ addr)
        | None => false
        end
    | None => false
    end).

End DiscoveryTests.

Module DnsTests.

#[local] Existing Instances demo_crypto demo_dns demo_enr demo_build demo_service.

(** [MapResolver]. *)
Definition map_txt (m : gmap string (list string)) (name : string) : result DnsError (list string) :=
  Ok (default [] (m !! name)).

Definition parses_enrtree_url : bool :=
  let key32 := @text_encode BASE32_NOPAD (replicate 33 x00) in
  let url := "enrtree://" +:+ key32 +:+ "@nodes.example.org" in
  unwrap (parse_enrtree url) (fun link =>
    assert_eq (domain link) "nodes.example.org" && assert_eq (length (pubkey link)) 33%nat) &&
  is_err (parse_enrtree "https://nope").

Definition resolves_a_signed_tree : bool :=
  let domain := "nodes.test" in
  let cfg : DiscoveryConfig DemoEnr bytes := config_with_cluster (discovery_config_new 0) 1 [0; 1] in
  unwrap (discovery_new [x07] cfg) (fun disco =>
    let enr_text := to_base64 (local_enr disco) in
    let enr_hash := subdomain_hash enr_text in
    let branch := "enrtree-branch:" +:+ enr_hash in
    let branch_hash := subdomain_hash branch in
    let pubkey := [x4b] in
    let url := "enrtree://" +:+ @text_encode BASE32_NOPAD pubkey +:+ "@" +:+ domain in
    let signed := "enrtree-root:v1 e=" +:+ branch_hash +:+ " l=" +:+ branch_hash +:+ " seq=1" in
    let sig_bytes := replicate 64 x4b ++ [x00] in
    let root := signed +:+ " sig=" +:+ @text_encode BASE64URL_NOPAD sig_bytes in
    let map : gmap string (list string) :=
      <[domain := [root]]> (<[node_name domain branch_hash := [branch]]>
        (<[node_name domain enr_hash := [enr_text]]> ∅)) in
    unwrap (resolve (WakuEnr := DemoEnr) (map_txt map) url) (fun enrs =>
      match enrs with
      | [enr] => bool_decide (tcp4 enr = None) || bool_decide (is_Some (ip4 enr))
      | _ => false
      end)).

Definition rejects_a_bad_signature : bool :=
  let domain := "nodes.test" in
  let url := "enrtree://" +:+ @text_encode BASE32_NOPAD (replicate 33 x02) +:+ "@" +:+ domain in
  let root := "enrtree-root:v1 e=AAAA l=AAAA seq=1 sig=AAAA" in
  is_err (resolve (WakuEnr := DemoEnr) (map_txt {[domain := [root]]}) url).

End DnsTests.

(** ** [wakunode] *)

Module ConfigTests.

#[local] Instance FileConfig_eq_dec : EqDecision FileConfig.t.
Proof. solve_decision. Defined.

Definition missing_path_is_default (toml_from_str : string -> result string FileConfig.t) (fs : Fs) : bool :=
  match load toml_from_str None fs with
  | Some (Ok cfg, _) => assert_eq cfg FileConfig.default
  | _ => false
  end.

End ConfigTests.

Module KeyTests.

#[local] Existing Instance hex_encodings.

Definition node_identity_persists_across_loads : bool :=
  let path := "nodekey" in
  (* what the two loads would generate *)
  match load_or_create_key Some Ok [x05] path (mkFs ∅ []) with
  | Some (Ok k1, fs) =>
      match exists_path path fs with
      | Some (Ok present, fs) =>
          match load_or_create_key Some Ok [x06] path fs with
          | Some (Ok k2, _) => present && assert_eq k1 k2
          | _ => false
          end
      | _ => false
      end
  | _ => false
  end.

End KeyTests.

(** ** [waku-rest] *)

(** Numbers, addresses and metrics as text. *)
Definition show_f64 (x : f64) : string :=
  match x with
  | SpecFloat.S754_finite false m e => show_uint (Z.shiftl (Zpos m) e)
  | _ => "0"
  end.

Definition show_protocol (p : Protocol) : string :=
  match p with
  | Ip4 ip => "/ip4/" +:+ ipv4_to_string ip
  | Tcp port => "/tcp/" +:+ show_uint port
  | P2p id => "/p2p/" +:+ hex_of_bytes id
  | Ip6 _ | OtherProtocol _ => "/?"
  end.

Definition test_text : RestText := {|
  debug_str s := s;
  multiaddr_to_string a := foldr (fun p s => show_protocol p +:+ s) "" a;
  peer_id_to_string := hex_of_bytes;
  encode_metrics ms :=
    foldr (fun m s => metric_name m +:+ " " +:+ show_f64 (metric_value m) +:+ " " +:+ s) "" ms;
|}.

(** A node with no peers: gossipsub refuses to publish. *)
Definition isolated_swarm : Swarm LogSwarm := {|
  Node.relay_subscribe t sw := (Ok true, NodeFacts.call (CallSubscribe t) sw);
  Node.relay_publish t d sw := (Err "InsufficientPeers", NodeFacts.call (CallPublish t d) sw);
  relay_mesh_peers _ _ := [];
  relay_report id src a sw := NodeFacts.call (CallReport id src a) sw;
  swarm_dial addr sw := (Ok tt, NodeFacts.call (CallDial addr) sw);
  swarm_disconnect p sw := NodeFacts.call (CallDisconnect p) sw;
  swarm_send_request p r sw := (next_id sw, NodeFacts.call (CallRequest p r) sw);
  swarm_send_response ch r sw := NodeFacts.call (CallResponse ch r) sw;
|}.

Module RestTests.

#[local] Existing Instances isolated_swarm demo_swarm_build demo_crypto demo_dns demo_enr demo_build demo_service.
#[local] Existing Instances hex_encodings test_text.

Abbreviation App := (@AppState LogSwarm SqliteStore DemoEnr).
Abbreviation node_config := (node_config_new (WakuEnr := DemoEnr) (St := SqliteStore) [x05]).

Definition VERSION := "0.1.0".
Definition content_topic := "/app/1/x/proto".

(** [spawn(config)] and [AppState::new(node, store)]; [inputs] is what happens to the driver
    before the requests. *)
Definition test_state_of (config : NodeConfig bytes DemoEnr SqliteStore) (inputs : list Input)
    (store : option SqliteStore) (test : NodeParams -> App -> bool) : bool :=
  unwrap (spawn Some Ok VERSION None config) (fun sp =>
    let params := sp_params sp in
    let world := advance params inputs (mkWorld (sp_node sp) true) in
    test params (app_state_new VERSION (sp_peer_id sp) (sp_discv5_enr sp) world (OtherStore <$> store))).

(** [test_state(store)]. *)
Definition test_state : option SqliteStore -> (NodeParams -> App -> bool) -> bool :=
  test_state_of node_config [].

(** [app.oneshot(request)]: the status and body of the answer, and the server after it. *)
Definition oneshot (params : NodeParams) (app : App) (r : Request) (test : Z -> Body -> App -> bool) : bool :=
  match router params r 1 [] app with
  | (Responds resp, app) => test (status resp) (body resp) app
  | _ => false
  end.

Definition contains (s part : string) : bool := bool_decide (is_Some (find_str part s)).

Definition version_and_health : bool :=
  test_state None (fun params app =>
    oneshot params app GetVersion (fun st b app =>
      assert_eq st OK && match b with TextBody v => assert_eq v VERSION | _ => false end &&
    oneshot params app GetHealth (fun st b _ =>
      assert_eq st OK && match b with HealthBody h _ => contains h "Ready" | _ => false end))).

Definition in_memory_with (m : WakuMessage) (test : SqliteStore -> bool) : bool :=
  match in_memory [] with
  | Some (Ok _, d) => match put "/waku/2/rs/1/0" m 0 d with Some (Ok _, d) => test d | _ => false end
  | _ => false
  end.

Definition store_query_returns_stored_messages : bool :=
  let m := mkWakuMessage (as_bytes "hello") content_topic None (Some 1000) None None None in
  in_memory_with m (fun d =>
  test_state (Some d) (fun params app =>
    oneshot params app (GetStoreMessages
      (mkStoreParams None (Some content_topic) None None None None None None)) (fun st b _ =>
      assert_eq st OK &&
      match b with
      | StoreBody (mkStoreResponse [mkStoreMessage _ (Some got) _] _) =>
          assert_eq (RestWakuMessage.payload got) (@text_encode B64 (as_bytes "hello")) &&
          assert_eq (RestWakuMessage.content_topic got) content_topic
      | _ => false
      end))).

Definition relay_cache_polls_received_messages : bool :=
  test_state None (fun params app =>
    let cache := MessageCache.register content_topic (app_cache app) in
    let cache := MessageCache.record (message_new content_topic (as_bytes "cached")) cache in
    oneshot params (set_cache cache app) (GetRelayMessages content_topic) (fun st b _ =>
      assert_eq st OK &&
      match b with
      | MessagesBody [got] => assert_eq (RestWakuMessage.payload got) (@text_encode B64 (as_bytes "cached"))
      | _ => false
      end)).

Definition info_reports_listen_addresses : bool :=
  let any := [Ip4 LOCALHOST; Tcp 0] in
  let bound := [Ip4 LOCALHOST; Tcp 40123] in
  test_state_of (with_listen_addr node_config any) [InEvent (mkClock 0 0 0) (NewListenAddr bound)] None
    (fun params app =>
      match events (w_node (app_node app)) with [Listening _] => true | _ => false end &&
      oneshot params app GetInfo (fun _ b _ =>
        match b with
        | InfoBody (mkInfoResponse (addr :: _) _ _) => contains addr "/p2p/"
        | _ => false
        end)).

Definition metrics_and_admin_peers : bool :=
  in_memory_with (message_new "/a/1/b/proto" (as_bytes "x")) (fun d =>
  test_state (Some d) (fun params app =>
    oneshot params app GetMetrics (fun st b app =>
      assert_eq st OK &&
      match b with
      | TextBody body =>
          contains body "rs_waku_connected_peers" && contains body "rs_waku_stored_messages 1" &&
          contains body "rs_waku_relay_messages_total" && contains body "rs_waku_rate_limited_total"
      | _ => false
      end &&
    oneshot params app GetPeers (fun st b _ =>
      assert_eq st OK && match b with PeersBody [] => true | _ => false end)))).

Definition publish_with_no_peers_is_service_unavailable : bool :=
  let msg := RestWakuMessage.mk (@text_encode B64 (as_bytes "hi")) content_topic None None None None in
  test_state None (fun params app =>
    oneshot params app (PostRelayMessage content_topic msg) (fun st _ _ => assert_eq st SERVICE_UNAVAILABLE)).

End RestTests.

(** ** The run *)

Definition unit_tests : list bool := [
  HashTests.hash_is_deterministic_and_field_sensitive;
  HashTests.optional_fields_change_the_hash_when_present;
  ShardTests.pubsub_topic_roundtrip; ShardTests.autoshard_is_stable_and_in_range;
  ContentTopicTests.roundtrip; ContentTopicTests.rejects_malformed;
  PresetTests.twn_shards_render;
  EnrTests.indices_list_roundtrip; EnrTests.bit_vector_roundtrip_test;
  EnrTests.both_forms_describe_the_same_set; EnrTests.new_sorts_and_dedups;
  EnrTests.shard_ids_carry_cluster; EnrTests.rejects_malformed;
  MetadataTests.varint_roundtrip; MetadataTests.metadata_lp_roundtrip;
  LightpushTests.request_lp_roundtrip; LightpushTests.response_helpers;
  PeerExchangeTests.query_and_response_helpers; PeerExchangeTests.rpc_lp_roundtrip;
  FilterTests.subscribe_request_roundtrip; FilterTests.message_push_roundtrip;
  MetricsTests.counters_increment;
  RatelimitTests.token_bucket_limits_and_refills; RatelimitTests.buckets_are_per_peer;
  RelayTests.message_id_matches_rfc14_hash;
  ValidationTests.acceptance_mapping; ValidationTests.timestamp_outside_window_is_rejected;
  ValidationTests.without_enforcement_everything_in_time_is_accepted;
  ValidationTests.rln_enforced_rules;
  SqliteTests.put_get_roundtrip_and_dedup; SqliteTests.query_filters_orders_and_paginates;
  SqliteTests.include_data_false_returns_hashes_only; SqliteTests.messages_persist_across_reopen;
  SqliteTests.exists_and_retention;
  StoreQueryTests.request_lp_roundtrip; StoreQueryTests.serve_answers_from_the_store;
  RlnTests.valid_proof_verifies; RlnTests.proof_survives_serialization_roundtrip;
  RlnTests.proof_verifies_on_a_second_node_with_the_same_membership;
  RlnTests.proof_against_stale_root_fails; RlnTests.double_signaling_recovers_the_identity_secret;
  RlnTests.distinct_message_ids_within_limit_are_ok;
  RlnTests.inbound_verifier_accepts_a_well_formed_proof;
  RlnTests.inbound_verifier_rejects_wrong_signal_stale_epoch_and_double_signal;
  RlnTests.replaying_the_same_message_is_a_duplicate;
  DiscoveryTests.local_enr_carries_relay_shards;
  DiscoveryTests.enr_peer_id_matches_the_libp2p_identity;
  DnsTests.parses_enrtree_url; DnsTests.resolves_a_signed_tree; DnsTests.rejects_a_bad_signature;
  KeyTests.node_identity_persists_across_loads;
  RestTests.version_and_health; RestTests.store_query_returns_stored_messages;
  RestTests.relay_cache_polls_received_messages; RestTests.info_reports_listen_addresses;
  RestTests.metrics_and_admin_peers; RestTests.publish_with_no_peers_is_service_unavailable].

(** The model passes the unit tests of the crates. *)
Theorem unit_tests_pass :
  forallb id unit_tests = true /\
  forall toml_from_str fs, ConfigTests.missing_path_is_default toml_from_str fs = true.
Proof. split; [vm_compute; reflexivity|done]. Qed.
